(* ===== verification/_CoqProject ===== *)
-Q . S2P
Prelude.v
Common.v
BitOps.v
Bitmap.v
BitmapScan.v
BitmapSpec.v
Atomic.v
RingCore.v
RingCopy.v
RingElem.v
RingSpec.v
RingPeek.v
RingPeekSpec.v
RingConc.v
RingModes.v
RingModesSpec.v
Jhash.v
Locks.v
LockIface.v
LockConc.v
SpinConc.v
Nic.v
NicSpec.v
NicDevice.v
Bytes.v
Trace.v
TraceSpec.v
Cbuf.v
CbufSpec.v
Rpc.v
RpcSpec.v
Stats.v
Cuckoo.v
CuckooSpec.v
CuckooExt.v
CuckooTable.v
HashCreate.v
CuckooMap.v
CuckooProps.v
CuckooConc.v
CuckooConcSpec.v
CuckooLin.v
CStrings.v
L3fwd.v
Worker.v
Forwarder.v
Notify.v
Store.v
SysQueue.v
SysQueueSpec.v
SysQueueHist.v
RingReg.v
HashSetup.v
Tailqs.v
Helpers.v
