(* ===== verification/Prelude.v ===== *)
(** * Verification of the [my_l3fwd] data plane: overview and prelude

    The program is a layer-3 forwarder over a simulated network interface, built on
    a subset of DPDK that the repository carries in source form. Its parts:
    [src/rte_lib/ring] (lock-free rings), [src/rte_lib/rte_cuckoo_hash.c] (a cuckoo
    hash table of keys whose free indices live in such rings, protected by a
    read-write lock), [src/rte_lib/rte_jhash.h] (the hash function), the locks,
    atomics, lists, bitmaps and integer helpers under [src/rte_lib/include],
    [src/libzsim] (work and completion queues of the simulated interface),
    [src/rpc_shm] (messages, circular receive buffers and the calls of a worker), and
    [src/l3fwd] (options, worker threads, routes). The table calls the rings and the
    lock; the rings call the atomics and the wait loops, and their creation the lists;
    [main] starts workers that call the RPC library, which calls the queues.

    ** Files, and the code they model

    - [Prelude]: machine integers, the outcome monad (undefined behaviour and
      exhausted fuel as values), arrays, loops and their rules, step relations, bits.
    - [Common]: the integer helpers of [rte_common.h] (alignment, powers of two, bit
      scans), each with its wrap-around.
    - [Atomic]: [generic/rte_atomic.h] (counters and compare-and-set of 16, 32 and 64
      bits as functions of the cell) and the wait loops of [rte_pause.h].
    - [RingCore]: [rte_ring_core.h], [rte_ring.c], [rte_ring.h]: the ring structure
      ([rte_ring]), its flags, [rte_ring_init], the memory size, the observers.
    - [RingCopy]: the copy loops of [rte_ring_elem_pvt.h], unrolled as in the source,
      and the proof that each is one copy of a circular buffer.
    - [RingElem]: the head moves, tail updates and enqueue/dequeue operations of the
      default (MT/ST), HTS and RTS modes and the element API of [rte_ring_elem.h];
      well-formed rings ([ring_wf]), their contents, the abstract bounded FIFO queue
      ([fifo]) and the refinement [ring_refines_fifo].
    - [RingSpec]: initialisation, the pointer API of [rte_ring.h], the C11 variants,
      sizes, and the concrete rings on which the theorems are run.
    - [RingPeek], [RingPeekSpec]: [rte_ring_peek.h], [rte_ring_peek_elem_pvt.h] and
      [rte_ring_peek_zc.h]: operations in two halves, by copies or by addresses.
    - [RingConc]: MP/MC rings under any number of threads: every atomic access is a
      step; FIFO, quiescence and progress; and the race of the compare-and-set that
      [rte_atomic.h] implements without a lock prefix.
    - [RingModes], [RingModesSpec]: the same for rings with each side in the head-tail-sync
      or the relaxed-tail-sync mode ([rte_ring_hts_elem_pvt.h], [rte_ring_rts_elem_pvt.h]).
    - [Jhash]: [rte_jhash.h], aligned and unaligned readers, tails, word variants.
    - [Locks]: [rte_rwlock.h], [rte_spinlock.h], [rte_ticketlock.h] for one thread;
      [LockIface]: what a lock promises (classes, with the locks as instances) and the
      nesting of the recursive locks from it; [LockConc]: the read-write and ticket locks under any
      interleaving, [SpinConc] the recursive spinlock.
    - [Cuckoo]: [rte_cuckoo_hash.c] from the key comparison to [rte_hash_add_key]:
      the table is the record [rte_hash], a bucket pointer a reference [bref], the
      queue of the breadth-first search a list.
    - [CuckooSpec]: the placement invariant of the main buckets (every index in them once, in
      one of the two buckets of its hash, under its signature), its preservation along a
      cuckoo path; [CuckooExt]: the chains of extendable buckets, what they hold, the buckets
      still spare; [CuckooTable]: the invariant of the whole table ([hash_ok]) and the outcome
      of inserting a new key; [CuckooMap]: stored keys, and the table as a finite map
      ([represents], [add_step]); [CuckooProps]: the theorems for the caller, a concrete
      table and one that overflows into its extendable bucket; [CuckooConc]: the insertion in the
      pieces between which other threads run; [CuckooConcSpec]: what a piece does to a table
      that is shared; [CuckooLin]: any number of threads inserting; [HashCreate]: [rte_hash_create] as it runs, [HashSetup]:
      what the code after its null dereference sets up.
    - [BitOps]: [rte_bitops.h]. [Bitmap], [BitmapScan], [BitmapSpec]: [rte_bitmap.h], the two
      arrays of words, the scan with its saved position, and the abstract set.
    - [Nic]: the queues of [zsim_nic_defines.cpp] (entries, posting, polling, sense bits);
      [NicSpec] the completion queue, [NicDevice] the work queue with the device that consumes it.
    - [Trace], [TraceSpec]: [rte_trace_point.h], [rte_trace_point_register.h], [rte_eal_trace.h]:
      the trace buffer of a thread, the function and the payload of every trace point.
    - [Bytes]: bytes of values in both orders; [Cbuf], [CbufSpec]: the class of [cbuf.cpp];
      [Rpc], [RpcSpec]: [rpc.cpp], messages on the wire, the context, registration and the calls
      of a worker; [Stats]: the container of service times and its files ([statContainer.tpp]).
    - [CStrings]: numerals and strings of the C library, [rte_str_to_size], [rte_strlcat].
    - [L3fwd]: [main.c] (options, launch), [worker.c] (the worker over the list of its
      requests, MAC table), [em_l3f.c] (routes). [Worker]: the loop of [worker.c] on the calls
      of [Rpc] and the queues of [Nic], and its refinement of the worker of [L3fwd].
      [Forwarder]: the workers that [main] launches, sharing the context, the memory and the
      barrier, in any interleaving of their calls to the RPC library.
    - [Notify]: [register_buffer] and the functions that notify the simulator through it.
    - [Store]: the memory of linked structures, one word per cell, and ownership of cells;
      [SysQueue]: the macros of [queue.h]; [SysQueueSpec]: what each does to the cells of a
      list; [SysQueueHist]: histories of operations, loops, removal while looping.
    - [RingReg]: creation, lookup and release of rings in [rte_ring.c], on those lists;
      [Tailqs]: [eal_common_tailqs.c], the named lists.
    - [Helpers]: [rte_byteorder.h], [rte_reciprocal.h], [rte_time.h], [rte_uuid.h], version numbers.

    A definition bears the name of the C function; the comment line before it gives
    the file and the lines under [src/]. Structures are records, enumerations
    inductive types; a function that writes through a pointer returns the new value.

    ** Theorems

    - Rings, one thread: every history of bulk and burst operations, in any
      synchronisation mode and from any counter values, is a history of a bounded FIFO
      queue and never leaves its memory ([ring_refines_fifo], [enqueue_bulk_burst_spec],
      [dequeue_bulk_burst_spec], [copy_roundtrip], [pointer_roundtrip]); so is
      every history with the peek and zero-copy API ([peek_refines_fifo]); the C11 head
      moves equal the generic ones; initialisation establishes the invariant or reports
      the code the source documents, with the cases where it should not.
    - Rings, many threads: [mt_ring_fifo], [mt_ring_quiescent], [mt_ring_progress],
      [unlocked_cmpset_loses_element]; [mode_fifo], [mode_quiescent], [mode_progress].
    - Hash table: insertion terminates and either stores the key without losing,
      duplicating or misplacing another, or refuses and leaves the stored set as it was - in a
      table with extendable buckets at the cost of a free index ([add_new_key]); a stored key is found ([add_stored_key]); the table is a finite
      map and positions identify keys ([hash_refines_map], [positions_identify_keys]);
      insertions by several threads linearize and end as long as no two of them use the ring
      of free indices at once ([concurrent_adds_linearize], [concurrent_adds_end]), which
      the code does not ensure ([writers_race_for_index]), and as there are free indices: without
      one the code goes on with index 0 ([add_without_free_slot]);
      creation ([create_sets_up], [created_table_is_map], [created_table_overruns]), sizes,
      and the defects the model exposes.
    - Locks: mutual exclusion, first come first served, progress, nesting
      ([rwlock_mutual_exclusion], [ticketlock_exclusion_fifo], [recursive_spinlock_excludes]).
    - Trace points: the buffer of a thread holds the events since it last started again, each
      readable where the specification says ([trace_refines_laps]), given six bytes more than the
      code allows for ([trace_overruns]).
    - Hash function: alignment independence, equality of the word variants.
    - Bitmap: a bitmap is a finite set under every history of its operations
      ([bitmap_refines_set]); the scan meets every slab once in cyclic order ([scan_enumerates]).
    - Lists: every history of list operations is a history of a sequence, touching no other
      cell ([sys_queue_refines_list]); loops visit in order and end ([loops_visit_in_order],
      [removal_loop_filters]); the registry of rings is a list of named rings
      ([ring_registry_refines], [create_unchecked]), the named lists get heads of their own
      ([tailqs_init_assigns], [tailq_create_limits]).
    - Queues of the interface: [completion_queue_fifo], [work_queue_refines_log].
    - Messages and buffers: [pack_unpack_roundtrip], [sender_accounting], [write_read_roundtrip], and the places where
      indices and releases go wrong.
    - Strings: a size is its number times its unit ([str_to_size_decimal]); bounded
      concatenation ([strlcat_spec]).
    - Helpers: byte swaps ([bswap_reverses_bytes]), the high product ([mullhi_versions_agree]),
      division by a reciprocal ([reciprocal_divides]), time ([timecounter_accounts]).
    - Application: the worker answers each request once and in order
      ([worker_serves_in_order]), also over the queues and the shared memory
      ([worker_refines], for an interface that completes requests in bounded time; releases that
      find the queue full are lost, as in the code), and so does every worker of a process, whatever the others do, in
      every interleaving, all of which end ([forwarder_refines]); options; MAC addresses;
      routes; what the simulator is told ([notifications_readable], [served_notifications]).

    ** Conventions, bounds and fuel

    A C unsigned integer is a [Z] in its range and each operator that can wrap is
    written with its wrap-around. Accesses outside an array are [Undef]. A loop that
    waits for another thread, or that the source does not bound, takes fuel and
    yields [Spin] when it is used up: for a thread alone one pass is enough for every
    lock, compare-and-set and wait loop, as the theorems state for any fuel (rings) or
    any fuel greater than the number of extendable buckets (table: a chain has each of them once
    at most); the breadth-first search has the fuel 1000 of its queue, and its proof shows
    that it ends within it; the copy and hash loops get fuel computed from their length; walks of
    linked lists end within as many passes as there are elements, which the theorems take as
    the least fuel; a poll passes over at most one lap of a queue, and the worker's loop takes
    the 128 passes of a lap and those within which the interface completes a request and ends
    the run; the workers of a process make at most [3 * fuel + 4] calls each, with that fuel.
    Concurrent theorems are about step relations and need no fuel; they assume
    sequentially consistent memory and, for the ring, that the compare-and-set is atomic
    and that no thread sleeps through 2^32 reservations between its load and its
    compare-and-set ([timely]). Several threads insert into a table at the grain of its lock:
    a section under the lock is one step, and the loads of a search, which take no lock, read
    any value at all; the theorems are for tables without extendable buckets, since with them
    the second search does not look into the chain in which another thread may have put the key.

    ** Not modelled, and plan

    The declarations of the environment layer have no code here; memory zones, the
    simulator behind the queues and [rte_reciprocal_value] are code outside the repository
    and are arguments or hypotheses of the theorems. Left out: printing, the creation of
    threads as such and their affinity, allocation, the release of a context (it only frees
    memory), prefetches and memory barriers, code the preprocessor removes (the vector
    comparison of keys, the platforms other than the simulator's), compiler attributes. These
    are all the functions with a body that have no definition here. The workers of a process
    interleave at the grain of their calls to the RPC library, which touch disjoint parts of
    what they share; rings, locks and tables at the grain of their atomic accesses and locked
    sections, in sequentially consistent memory. A memory in which
    stores become visible later than they are made is not modelled: what orders them is the
    barriers, whose effect depends on the processor and, but for the compiler barrier, is
    declared without a body. *)

From Stdlib Require Export ZArith Lia.
From stdpp Require Export base tactics list numbers relations.

#[export] Set Default Goal Selector "!".
Open Scope Z_scope.

(** ** Machine integers

    A C unsigned integer of width [w] is a [Z] in [[0, 2^w)]; the wrap-around of
    the C operators is written where the source computes. *)

Definition u8 (x : Z) : Z := x mod 256.
Definition u16 (x : Z) : Z := x mod 65536.
Definition u32 (x : Z) : Z := x mod 4294967296.
Definition u64 (x : Z) : Z := x mod 18446744073709551616.

(** Conversion of a 32-bit pattern to the signed C type ([int], [int32_t]). *)
Definition i32 (x : Z) : Z :=
  let y := u32 x in if y <? 2147483648 then y else y - 4294967296.

(** The same for the other signed widths. *)
Definition i16 (x : Z) : Z :=
  let y := u16 x in if y <? 32768 then y else y - 65536.
Definition i64 (x : Z) : Z :=
  let y := u64 x in if y <? 9223372036854775808 then y else y - 18446744073709551616.

Declare Scope u32_scope.
Delimit Scope u32_scope with u32.
Notation "x + y" := (u32 (Z.add x y)) : u32_scope.
Notation "x - y" := (u32 (Z.sub x y)) : u32_scope.
Notation "x * y" := (u32 (Z.mul x y)) : u32_scope.

Abbreviation is_u16 x := (0 <= x < 65536) (only parsing).
Abbreviation is_u32 x := (0 <= x < 4294967296) (only parsing).
Abbreviation is_u64 x := (0 <= x < 18446744073709551616) (only parsing).

(** A goal about wrapped sums: unfold the widths and let [lia] see the
    quotients and remainders. *)
Ltac wrap_lia :=
  unfold i16, i32, i64, u8, u16, u32, u64 in *; Z.div_mod_to_equations; lia.

Lemma u32_range x : is_u32 (u32 x).
Proof. wrap_lia. Qed.
Lemma u64_range x : is_u64 (u64 x).
Proof. wrap_lia. Qed.
Lemma u16_range x : is_u16 (u16 x).
Proof. wrap_lia. Qed.
Lemma u32_small x : is_u32 x -> u32 x = x.
Proof. intros; apply Z.mod_small; lia. Qed.
Lemma u64_small x : is_u64 x -> u64 x = x.
Proof. intros; apply Z.mod_small; lia. Qed.
Lemma u16_small x : is_u16 x -> u16 x = x.
Proof. intros; apply Z.mod_small; lia. Qed.
Lemma u32_idemp x : u32 (u32 x) = u32 x.
Proof. apply u32_small, u32_range. Qed.
Lemma u32_add_l x y : u32 (u32 x + y) = u32 (x + y).
Proof. apply Zplus_mod_idemp_l. Qed.
Lemma u32_add_r x y : u32 (x + u32 y) = u32 (x + y).
Proof. apply Zplus_mod_idemp_r. Qed.
Lemma u32_sub_l x y : u32 (u32 x - y) = u32 (x - y).
Proof. apply Zminus_mod_idemp_l. Qed.
Lemma u32_sub_r x y : u32 (x - u32 y) = u32 (x - y).
Proof. apply Zminus_mod_idemp_r. Qed.
Lemma u32_mul_l x y : u32 (u32 x * y) = u32 (x * y).
Proof. apply Zmult_mod_idemp_l. Qed.
Lemma u32_mul_r x y : u32 (x * u32 y) = u32 (x * y).
Proof. apply Zmult_mod_idemp_r. Qed.

Create HintDb wrap.
Create Rewrite HintDb wrap.
#[export] Hint Rewrite u32_idemp u32_add_l u32_add_r u32_sub_l u32_sub_r
  u32_mul_l u32_mul_r : wrap.
#[export] Hint Resolve u32_range u64_range u16_range : wrap.

(** ** Outcomes of a C computation

    [Undef] is undefined behaviour of the abstract machine (an access outside
    its object, a null dereference); [Spin] is a loop that used up its fuel.
    A theorem that a run equals [Ret _] excludes both. *)

Inductive outcome (A : Type) : Type :=
  | Ret (a : A)
  | Undef
  | Spin.
Arguments Ret {A} a.
Arguments Undef {A}.
Arguments Spin {A}.

#[export] Instance outcome_ret : MRet outcome := fun A a => Ret a.
#[export] Instance outcome_bind : MBind outcome := fun A B f m =>
  match m with
  | Ret a => f a
  | Undef => Undef
  | Spin => Spin
  end.

Lemma bind_Ret_inv {A B} (f : A -> outcome B) (m : outcome A) (b : B) :
  m ≫= f = Ret b -> exists a, m = Ret a /\ f a = Ret b.
Proof. destruct m; naive_solver. Qed.

Lemma bind_Ret {A B} (f : A -> outcome B) (m : outcome A) (a : A) :
  m = Ret a -> m ≫= f = f a.
Proof. intros ->; reflexivity. Qed.

Lemma bind_assoc {A B C} (f : A -> outcome B) (g : B -> outcome C) (m : outcome A) :
  (m ≫= f) ≫= g = m ≫= (fun a => f a ≫= g).
Proof. by destruct m. Qed.

Lemma bind_ext {A B} (f g : A -> outcome B) (m n : outcome A) :
  m = n -> (forall a, f a = g a) -> m ≫= f = n ≫= g.
Proof. intros -> Hfg. destruct n; [apply Hfg|done|done]. Qed.

Lemma bind_ret_r {A} (m : outcome A) : m ≫= Ret = m.
Proof. by destruct m. Qed.

(** Break a hypothesis [x ← m; k = Ret b] into its steps. *)
Ltac inv_ret :=
  repeat match goal with
  | H : Ret _ = Ret _ |- _ => injection H as H; subst
  | H : Undef = Ret _ |- _ => discriminate H
  | H : Spin = Ret _ |- _ => discriminate H
  | H : _ ≫= _ = Ret _ |- _ =>
      let x := fresh "x" in let E := fresh "E" in
      apply bind_Ret_inv in H as [x [E H]]
  end.

(** ** Arrays

    An array object is the list of its cells; reads and writes outside it are
    undefined. *)
Definition rd {A} (m : list A) (i : Z) : outcome A :=
  if (0 <=? i)
  then match m !! Z.to_nat i with Some v => Ret v | None => Undef end
  else Undef.

Definition wr {A} (m : list A) (i : Z) (v : A) : outcome (list A) :=
  if (0 <=? i) && (i <? Z.of_nat (length m))
  then Ret (<[Z.to_nat i := v]> m)
  else Undef.

Lemma rd_Ret {A} (m : list A) i v :
  0 <= i -> m !! Z.to_nat i = Some v -> rd m i = Ret v.
Proof. intros Hi Hm. unfold rd. rewrite (proj2 (Z.leb_le 0 i) Hi), Hm. done. Qed.

Lemma rd_inv {A} (m : list A) i v :
  rd m i = Ret v -> 0 <= i /\ m !! Z.to_nat i = Some v.
Proof.
  unfold rd. destruct (Z.leb_spec 0 i); [|done].
  destruct (m !! Z.to_nat i) eqn:E; [|done]. intros [= ->]. done.
Qed.

Lemma rd_ex {A} (m : list A) i :
  0 <= i < Z.of_nat (length m) -> exists v, rd m i = Ret v.
Proof.
  intros Hi. destruct (lookup_lt_is_Some_2 m (Z.to_nat i)) as [v Hv]; [lia|].
  exists v. by apply rd_Ret; [lia|].
Qed.

Lemma wr_Ret {A} (m : list A) i v :
  0 <= i < Z.of_nat (length m) -> wr m i v = Ret (<[Z.to_nat i := v]> m).
Proof.
  intros Hi. unfold wr.
  rewrite (proj2 (Z.leb_le 0 i)), (proj2 (Z.ltb_lt _ _)) by lia. done.
Qed.

Lemma wr_inv {A} (m m' : list A) i v :
  wr m i v = Ret m' ->
  0 <= i < Z.of_nat (length m) /\ m' = <[Z.to_nat i := v]> m.
Proof.
  unfold wr. destruct (Z.leb_spec 0 i), (Z.ltb_spec i (Z.of_nat (length m)));
    simpl; intros [=]; subst; split; [lia|done].
Qed.

(** ** Loops

    [while fuel cond body s]: the C loop with an explicit bound on its
    iterations; a loop that is still running when the bound is used up is
    [Spin]. *)
Fixpoint while {S : Type} (fuel : nat) (cond : S -> bool)
    (body : S -> outcome S) (s : S) : outcome S :=
  if cond s then
    match fuel with
    | O => Spin
    | Datatypes.S fuel' => s' ← body s; while fuel' cond body s'
    end
  else Ret s.

(** [do { body } while (again)]: the body says whether to go round again. *)
Fixpoint do_while {S : Type} (fuel : nat) (body : S -> outcome (bool * S)) (s : S)
    : outcome S :=
  '(again, s) ← body s;
  if (again : bool) then
    match fuel with
    | O => Spin
    | Datatypes.S fuel' => do_while fuel' body s
    end
  else Ret s.

(** A body that asks for no further pass. *)
Lemma do_while_once {S : Type} (fuel : nat) (body : S -> outcome (bool * S)) (s s' : S) :
  body s = Ret (false, s') -> do_while fuel body s = Ret s'.
Proof. intros E. destruct fuel; simpl; by rewrite E. Qed.

(** More fuel does not change a result. *)
Lemma do_while_fuel {S : Type} (fuel fuel' : nat) (body : S -> outcome (bool * S)) (s s' : S) :
  (fuel <= fuel')%nat -> do_while fuel body s = Ret s' -> do_while fuel' body s = Ret s'.
Proof.
  revert fuel' s. induction fuel as [|fuel IH]; intros fuel' s Hle; destruct fuel' as [|fuel']; try lia; simpl.
  - done.
  - by destruct (body s) as [[[] ?]| |].
  - destruct (body s) as [[[] ?]| |]; simpl; try done. apply IH. lia.
Qed.

(** The counted-loop rule: [k] passes of a loop whose [j]-th state is [st j]. *)
Lemma while_count {S : Type} (cond : S -> bool) (body : S -> outcome S)
    (st : nat -> S) (k fuel : nat) :
  (k <= fuel)%nat ->
  (forall j, (j < k)%nat -> cond (st j) = true) ->
  (forall j, (j < k)%nat -> body (st j) = Ret (st (Datatypes.S j))) ->
  cond (st k) = false ->
  while fuel cond body (st O) = Ret (st k).
Proof.
  revert st fuel. induction k as [|k IH]; intros st fuel Hf Hc Hb Hend.
  - destruct fuel; simpl; by rewrite Hend.
  - destruct fuel as [|fuel]; [lia|]. simpl.
    rewrite Hc by lia. rewrite Hb by lia. simpl.
    apply (IH (fun j => st (Datatypes.S j))); auto with lia.
Qed.

(** The invariant rule for a loop with a measure that decreases. *)
Lemma while_inv {S : Type} (cond : S -> bool) (body : S -> outcome S)
    (I : S -> Prop) (mu : S -> nat) (s : S) (fuel : nat) :
  I s -> (mu s <= fuel)%nat ->
  (forall s, I s -> cond s = true ->
     exists s', body s = Ret s' /\ I s' /\ (mu s' < mu s)%nat) ->
  exists s', while fuel cond body s = Ret s' /\ I s' /\ cond s' = false.
Proof.
  revert s. induction fuel as [|fuel IH]; intros s HI Hf Hstep; simpl.
  - destruct (cond s) eqn:Ec; [|eauto].
    destruct (Hstep s HI Ec) as (s' & _ & _ & Hlt). lia.
  - destruct (cond s) eqn:Ec; [|eauto].
    destruct (Hstep s HI Ec) as (s' & -> & HI' & Hlt). simpl.
    apply IH; auto with lia.
Qed.

(** ** Step relations *)

(** An invariant of every step is an invariant of every run. *)
Lemma rtc_invariant {S : Type} (R : S -> S -> Prop) (I : S -> Prop) (s s' : S) :
  (forall s s', R s s' -> I s -> I s') -> rtc R s s' -> I s -> I s'.
Proof. intros HR Hs. induction Hs; eauto. Qed.

(** ** Threads

    What the threads hold between them, [f] being the share of one; and facts about every
    thread when one of them moves. *)

Definition all_owned {P X : Type} (f : P -> list X) (pcs : list P) : list X := concat (map f pcs).
Arguments all_owned {_ _} _ _ : simpl never.

(** One thread's share can be taken out, and replaced. *)
Lemma owned_split {P X : Type} (f : P -> list X) pcs i p :
  pcs !! i = Some p ->
  exists rest, all_owned f pcs ≡ₚ f p ++ rest /\
    (forall p', all_owned f (<[i := p']> pcs) ≡ₚ f p' ++ rest) /\
    forall j q x, j <> i -> pcs !! j = Some q -> x ∈ f q -> x ∈ rest.
Proof.
  intros Hi. exists (all_owned f (take i pcs) ++ all_owned f (drop (S i) pcs)). unfold all_owned.
  assert (Hsp : forall p' pcs', pcs' !! i = Some p' -> take i pcs' = take i pcs ->
    drop (S i) pcs' = drop (S i) pcs ->
    concat (map f pcs') ≡ₚ f p' ++ concat (map f (take i pcs)) ++ concat (map f (drop (S i) pcs))).
  { intros p' pcs' Hi' <- <-. rewrite <- (take_drop_middle pcs' i p' Hi') at 1.
    rewrite map_app, concat_app. cbn. apply Permutation_app_swap_app. }
  split; [by apply Hsp|]. split.
  - intros p'. apply Hsp.
    + apply list_lookup_insert_eq. by eapply lookup_lt_Some.
    + apply take_insert_ge. lia.
    + apply drop_insert_lt. lia.
  - intros j q x Hne Hj Hx. apply elem_of_app.
    assert (Hin : forall l, q ∈ l -> x ∈ concat (map f l)).
    { intros l Hl. apply list_elem_of_In, in_concat. exists (f q). split; [|by apply list_elem_of_In].
      by apply in_map, list_elem_of_In. }
    destruct (decide (j < i)%nat); [left|right]; apply Hin.
    + apply (list_elem_of_lookup_2 _ j). by rewrite lookup_take_lt.
    + apply (list_elem_of_lookup_2 _ (j - S i)). rewrite lookup_drop.
      by replace (S i + (j - S i))%nat with j by lia.
Qed.

Lemma owned_same {P X : Type} (f : P -> list X) (pcs : list P) i p p' :
  pcs !! i = Some p -> f p' = f p -> all_owned f (<[i := p']> pcs) ≡ₚ all_owned f pcs.
Proof.
  intros Hi E. destruct (owned_split f pcs i p Hi) as (rest & -> & Hins & _). by rewrite Hins, E.
Qed.

Lemma pcs_insert {A : Type} (P P' : A -> Prop) (pcs : list A) i p' :
  P' p' -> (forall j q, j <> i -> pcs !! j = Some q -> P q -> P' q) ->
  (forall j q, pcs !! j = Some q -> P q) ->
  forall j q, <[i := p']> pcs !! j = Some q -> P' q.
Proof.
  intros Hp' Hmono Hall j q Hj.
  apply list_lookup_insert_Some in Hj as [(_ & <- & _)|[Hne Hj]]; [done|]. eauto.
Qed.

(** ** Bits *)

Lemma land_ones_mod x k : 0 <= k -> Z.land x (2 ^ k - 1) = x mod 2 ^ k.
Proof.
  intros. replace (2 ^ k - 1) with (Z.ones k) by (rewrite Z.ones_equiv; lia).
  by apply Z.land_ones.
Qed.

(** Clearing the low [k] bits rounds down to a multiple of [2^k]. *)
Lemma land_lnot_ones x k :
  0 <= k -> Z.land x (Z.lnot (2 ^ k - 1)) = x - x mod 2 ^ k.
Proof.
  intros. rewrite <- Z.ldiff_land, <- land_ones_mod by done.
  assert (Z.ldiff x (2 ^ k - 1) + Z.land x (2 ^ k - 1) = x); [|lia].
  rewrite Z.add_nocarry_lxor.
  - apply Z.bits_inj'; intros i Hi.
    rewrite Z.lxor_spec, Z.ldiff_spec, Z.land_spec.
    by destruct (Z.testbit x i), (Z.testbit (2 ^ k - 1) i).
  - apply Z.bits_inj'; intros i Hi.
    rewrite Z.land_spec, Z.ldiff_spec, Z.land_spec, Z.bits_0.
    by destruct (Z.testbit x i), (Z.testbit (2 ^ k - 1) i).
Qed.

(** A 32-bit position masked by [2^k - 1] is the position modulo [2^k], even
    after the wrap-around of the counter. *)
Lemma u32_mod_pow2 x k : 0 <= k <= 32 -> u32 x mod 2 ^ k = x mod 2 ^ k.
Proof.
  intros. unfold u32. change 4294967296 with (2 ^ 32).
  replace (2 ^ 32) with (2 ^ k * 2 ^ (32 - k)).
  - rewrite Z.rem_mul_r by lia.
    rewrite (Z.mul_comm (2 ^ k)), Z_mod_plus_full. apply Zmod_mod.
  - rewrite <- Z.pow_add_r by lia. f_equal; lia.
Qed.
