(* ===== verification/Common.v ===== *)
(** * [rte_lib/include/rte_common.h]: alignment, powers of two and bit search

    The inline arithmetic helpers every other component calls. A macro that is
    generic in the type of its argument is modelled at the width the callers
    use it. The GCC built-ins that count zeros are the language's; they are
    written from GCC's documentation, undefined at zero. *)

From S2P Require Import Prelude.

Open Scope Z_scope.

(** ** Definitions *)

(* rte_lib/include/rte_common.h:450-460 rte_combine32ms1b *)
Definition rte_combine32ms1b (x : Z) : Z :=
  let x := Z.lor x (Z.shiftr x 1) in
  let x := Z.lor x (Z.shiftr x 2) in
  let x := Z.lor x (Z.shiftr x 4) in
  let x := Z.lor x (Z.shiftr x 8) in
  let x := Z.lor x (Z.shiftr x 16) in
  x.

(* rte_lib/include/rte_common.h:472-483 rte_combine64ms1b *)
Definition rte_combine64ms1b (v : Z) : Z :=
  let v := Z.lor v (Z.shiftr v 1) in
  let v := Z.lor v (Z.shiftr v 2) in
  let v := Z.lor v (Z.shiftr v 4) in
  let v := Z.lor v (Z.shiftr v 8) in
  let v := Z.lor v (Z.shiftr v 16) in
  let v := Z.lor v (Z.shiftr v 32) in
  v.

(* rte_lib/include/rte_common.h:498-502 rte_is_power_of_2 *)
Definition rte_is_power_of_2 (n : Z) : bool :=
  negb (n =? 0) && (Z.land n (n - 1)%u32 =? 0).

(* rte_lib/include/rte_common.h:513-520 rte_align32pow2 *)
Definition rte_align32pow2 (x : Z) : Z :=
  let x := (x - 1)%u32 in
  let x := rte_combine32ms1b x in
  (x + 1)%u32.

(* rte_lib/include/rte_common.h:531-537 rte_align32prevpow2 *)
Definition rte_align32prevpow2 (x : Z) : Z :=
  let x := rte_combine32ms1b x in
  (x - Z.shiftr x 1)%u32.

(* rte_lib/include/rte_common.h:548-555 rte_align64pow2 *)
Definition rte_align64pow2 (v : Z) : Z :=
  let v := u64 (v - 1) in
  let v := rte_combine64ms1b v in
  u64 (v + 1).

(* rte_lib/include/rte_common.h:566-572 rte_align64prevpow2 *)
Definition rte_align64prevpow2 (v : Z) : Z :=
  let v := rte_combine64ms1b v in
  u64 (v - Z.shiftr v 1).

(** [__builtin_ctz] and [__builtin_ctzll]: trailing zeros, undefined at 0. *)
Fixpoint pos_ctz (p : positive) : Z :=
  match p with
  | xO q => 1 + pos_ctz q
  | _ => 0
  end.

Definition builtin_ctz (v : Z) : outcome Z :=
  match v with
  | Zpos p => Ret (pos_ctz p)
  | _ => Undef
  end.

(** [__builtin_clz] at width [w]: leading zeros, undefined at 0. *)
Definition builtin_clz (w v : Z) : outcome Z :=
  if 0 <? v then Ret (w - 1 - Z.log2 v) else Undef.

(* rte_lib/include/rte_common.h:609-613 rte_bsf32 *)
Definition rte_bsf32 (v : Z) : outcome Z :=
  c ← builtin_ctz v; Ret (u32 c).

(** The pair is the return value and the cell [*pos] afterwards. *)
(* rte_lib/include/rte_common.h:629-637 rte_bsf32_safe *)
Definition rte_bsf32_safe (v pos : Z) : outcome (Z * Z) :=
  if v =? 0 then Ret (0, pos)
  else pos ← rte_bsf32 v; Ret (1, pos).

(* rte_lib/include/rte_common.h:650-657 rte_log2_u32 *)
Definition rte_log2_u32 (v : Z) : outcome Z :=
  if v =? 0 then Ret 0
  else let v := rte_align32pow2 v in rte_bsf32 v.

(* rte_lib/include/rte_common.h:671-675 rte_fls_u32 *)
Definition rte_fls_u32 (x : Z) : outcome Z :=
  if x =? 0 then Ret 0 else c ← builtin_clz 32 x; Ret (32 - c).

(* rte_lib/include/rte_common.h:688-692 rte_bsf64 *)
Definition rte_bsf64 (v : Z) : outcome Z :=
  c ← builtin_ctz v; Ret (u32 c).

(* rte_lib/include/rte_common.h:708-716 rte_bsf64_safe *)
Definition rte_bsf64_safe (v pos : Z) : outcome (Z * Z) :=
  if v =? 0 then Ret (0, pos)
  else pos ← rte_bsf64 v; Ret (1, pos).

(* rte_lib/include/rte_common.h:730-734 rte_fls_u64 *)
Definition rte_fls_u64 (x : Z) : outcome Z :=
  if x =? 0 then Ret 0 else c ← builtin_clz 64 x; Ret (64 - c).

(* rte_lib/include/rte_common.h:747-755 rte_log2_u64 *)
Definition rte_log2_u64 (v : Z) : outcome Z :=
  if v =? 0 then Ret 0
  else let v := rte_align64pow2 v in rte_bsf64 v.

(** The alignment macros, on a 64-bit [size_t]/[uintptr_t] operand. *)
(* rte_lib/include/rte_common.h:289-290 RTE_ALIGN_FLOOR *)
Definition RTE_ALIGN_FLOOR (val align : Z) : Z :=
  Z.land val (u64 (Z.lnot (u64 (align - 1)))).

(* rte_lib/include/rte_common.h:307-308 RTE_ALIGN_CEIL *)
Definition RTE_ALIGN_CEIL (val align : Z) : Z :=
  RTE_ALIGN_FLOOR (u64 (val + u64 (align - 1))) align.

(* rte_lib/include/rte_common.h:326-326 RTE_ALIGN *)
Definition RTE_ALIGN (val align : Z) : Z := RTE_ALIGN_CEIL val align.

(* rte_lib/include/rte_common.h:333-334 RTE_ALIGN_MUL_CEIL *)
Definition RTE_ALIGN_MUL_CEIL (v mul : Z) : Z :=
  u64 (u64 (u64 (v + mul) - 1) / mul * mul).

(* rte_lib/include/rte_common.h:341-342 RTE_ALIGN_MUL_FLOOR *)
Definition RTE_ALIGN_MUL_FLOOR (v mul : Z) : Z := u64 (v / mul * mul).

(* rte_lib/include/rte_common.h:349-354 RTE_ALIGN_MUL_NEAR *)
Definition RTE_ALIGN_MUL_NEAR (v mul : Z) : Z :=
  let ceil := RTE_ALIGN_MUL_CEIL v mul in
  let floor := RTE_ALIGN_MUL_FLOOR v mul in
  if u64 (ceil - v) >? u64 (v - floor) then floor else ceil.

(* rte_lib/include/rte_common.h:367-371 rte_is_aligned *)
Definition rte_is_aligned (ptr align : Z) : bool := RTE_ALIGN ptr align =? ptr.

(* rte_lib/include/rte_common.h:391-391 RTE_CACHE_LINE_SIZE *)
Definition RTE_CACHE_LINE_SIZE : Z := 64.

(* rte_lib/include/rte_common.h:386-388 RTE_CACHE_LINE_ROUNDUP *)
Definition RTE_CACHE_LINE_ROUNDUP (size : Z) : Z :=
  u64 (RTE_CACHE_LINE_SIZE * (u64 (u64 (size + RTE_CACHE_LINE_SIZE) - 1) / RTE_CACHE_LINE_SIZE)).

(** Pointers, as 64-bit integers. *)
(* rte_lib/include/rte_common.h:251-251 RTE_PTR_ADD *)
Definition RTE_PTR_ADD (ptr x : Z) : Z := u64 (ptr + x).
(* rte_lib/include/rte_common.h:256-256 RTE_PTR_SUB *)
Definition RTE_PTR_SUB (ptr x : Z) : Z := u64 (ptr - x).
(* rte_lib/include/rte_common.h:263-263 RTE_PTR_DIFF *)
Definition RTE_PTR_DIFF (ptr1 ptr2 : Z) : Z := u64 (ptr1 - ptr2).
(* rte_lib/include/rte_common.h:280-281 RTE_PTR_ALIGN_FLOOR *)
Definition RTE_PTR_ALIGN_FLOOR (ptr align : Z) : Z := RTE_ALIGN_FLOOR ptr align.
(* rte_lib/include/rte_common.h:298-299 RTE_PTR_ALIGN_CEIL *)
Definition RTE_PTR_ALIGN_CEIL (ptr align : Z) : Z := RTE_PTR_ALIGN_FLOOR (RTE_PTR_ADD ptr (align - 1)) align.
(* rte_lib/include/rte_common.h:317-317 RTE_PTR_ALIGN *)
Definition RTE_PTR_ALIGN (ptr align : Z) : Z := RTE_PTR_ALIGN_CEIL ptr align.

(** On 32-bit operands. *)
(* rte_lib/include/rte_common.h:490-490 RTE_IS_POWER_OF_2 *)
Definition RTE_IS_POWER_OF_2 (n : Z) : bool := negb (n =? 0) && (Z.land (n - 1)%u32 n =? 0).
(* rte_lib/include/rte_common.h:579-584 RTE_MIN *)
Definition RTE_MIN (a b : Z) : Z := if a <? b then a else b.
(* rte_lib/include/rte_common.h:589-594 RTE_MAX *)
Definition RTE_MAX (a b : Z) : Z := if a >? b then a else b.

(** At [uint64_t]; a shift by the width or more is undefined. *)
(* rte_lib/include/rte_common.h:819-820 RTE_LEN2MASK *)
Definition RTE_LEN2MASK (ln : Z) : outcome Z :=
  let n := 8 * 8 - ln in
  if (0 <=? n) && (n <? 64) then Ret (Z.shiftr (u64 (-1)) n) else Undef.

(** ** Lemmas *)

(** [y] is [x] with each set bit spread over the [k] positions below it. *)
Definition smeared (x k y : Z) : Prop :=
  forall i, 0 <= i ->
    Z.testbit y i = true <-> exists j, i <= j < i + k /\ Z.testbit x j = true.

Lemma smeared_self x : smeared x 1 x.
Proof.
  intros i Hi; split.
  - intros H; exists i; split; [lia|done].
  - intros (j & Hj & H). by replace i with j by lia.
Qed.

Lemma smeared_step x k y :
  0 < k -> smeared x k y -> smeared x (2 * k) (Z.lor y (Z.shiftr y k)).
Proof.
  intros Hk Hs i Hi. rewrite Z.lor_spec, Z.shiftr_spec, orb_true_iff by done.
  rewrite (Hs i), (Hs (i + k)) by lia. split.
  - intros [(j & Hj & H)|(j & Hj & H)]; exists j; (split; [lia|done]).
  - intros (j & Hj & H). destruct (Z.lt_ge_cases j (i + k)).
    + left; exists j; split; [lia|done].
    + right; exists j; split; [lia|done].
Qed.

Lemma smeared_log2 x w y :
  0 < x < 2 ^ w -> 0 <= w -> smeared x w y -> y = 2 ^ (Z.log2 x + 1) - 1.
Proof.
  intros Hx Hw Hs. assert (Hl : Z.log2 x < w) by (apply Z.log2_lt_pow2; lia).
  pose proof (Z.log2_nonneg x).
  replace (2 ^ (Z.log2 x + 1) - 1) with (Z.ones (Z.log2 x + 1))
    by (rewrite Z.ones_equiv; lia).
  apply Z.bits_inj'; intros i Hi. apply eq_true_iff_eq.
  rewrite (Hs i Hi), Z.ones_spec_iff by lia. split.
  - intros (j & Hj & Ht). destruct (Z.le_gt_cases j (Z.log2 x)); [lia|].
    by rewrite Z.bits_above_log2 in Ht by lia.
  - intros Hi'. exists (Z.log2 x). split; [lia|]. apply Z.bit_log2; lia.
Qed.

Lemma rte_combine32ms1b_smeared x : smeared x 32 (rte_combine32ms1b x).
Proof.
  unfold rte_combine32ms1b.
  repeat (match goal with
  | |- smeared _ ?k (Z.lor _ _) =>
      let h := eval vm_compute in (k / 2) in
      change k with (2 * h); apply smeared_step; [lia|]
  end). apply smeared_self.
Qed.

Lemma rte_combine64ms1b_smeared x : smeared x 64 (rte_combine64ms1b x).
Proof.
  unfold rte_combine64ms1b.
  repeat (match goal with
  | |- smeared _ ?k (Z.lor _ _) =>
      let h := eval vm_compute in (k / 2) in
      change k with (2 * h); apply smeared_step; [lia|]
  end). apply smeared_self.
Qed.

Lemma rte_combine32ms1b_spec x :
  0 < x < 2 ^ 32 -> rte_combine32ms1b x = 2 ^ (Z.log2 x + 1) - 1.
Proof. intros. eapply smeared_log2; [..|apply rte_combine32ms1b_smeared]; lia. Qed.

Lemma rte_combine64ms1b_spec x :
  0 < x < 2 ^ 64 -> rte_combine64ms1b x = 2 ^ (Z.log2 x + 1) - 1.
Proof. intros. eapply smeared_log2; [..|apply rte_combine64ms1b_smeared]; lia. Qed.

Lemma log2_pow_bounds x w : 0 < x < 2 ^ w -> 0 < w ->
  0 <= Z.log2 x < w /\ 2 ^ (Z.log2 x) <= x < 2 * 2 ^ (Z.log2 x).
Proof.
  intros Hx Hw. pose proof (Z.log2_spec x) as Hs. pose proof (Z.log2_nonneg x).
  rewrite <- Z.pow_succ_r by lia. split; [|lia].
  split; [lia|]. apply Z.log2_lt_pow2; lia.
Qed.

(** The next power of two, for every argument that has one in 32 bits. *)
Lemma rte_align32pow2_log2_up x :
  0 < x <= 2 ^ 31 -> rte_align32pow2 x = 2 ^ Z.log2_up x.
Proof.
  intros Hx. unfold rte_align32pow2. rewrite (u32_small (x - 1)) by lia.
  destruct (Z.eq_dec x 1) as [->|Hx1]; [reflexivity|].
  rewrite rte_combine32ms1b_spec by lia.
  rewrite Z.log2_up_eqn by lia. rewrite <- Z.sub_1_r, <- Z.add_1_r.
  replace (2 ^ (Z.log2 (x - 1) + 1) - 1 + 1) with (2 ^ (Z.log2 (x - 1) + 1)) by lia.
  apply u32_small. split; [apply Z.pow_nonneg; lia|].
  assert (Z.log2 (x - 1) < 31) by (apply Z.log2_lt_pow2; lia).
  change 4294967296 with (2 ^ 32). apply Z.pow_lt_mono_r; lia.
Qed.

(** Past [2^31] the next power of two does not fit, and the result wraps to 0. *)
Lemma rte_align32pow2_wraps x :
  x = 0 \/ 2 ^ 31 < x < 2 ^ 32 -> rte_align32pow2 x = 0.
Proof.
  intros Hx. unfold rte_align32pow2.
  assert (Hy : 2 ^ 31 <= (x - 1)%u32 < 2 ^ 32) by wrap_lia.
  rewrite rte_combine32ms1b_spec by lia.
  assert (Z.log2 (x - 1)%u32 = 31) as ->; [|reflexivity].
  apply Z.log2_unique; lia.
Qed.

Lemma pow2_log2_up_bounds x : 0 < x ->
  0 <= Z.log2_up x /\ x <= 2 ^ Z.log2_up x /\ (1 < x -> 2 ^ Z.log2_up x < 2 * x).
Proof.
  intros Hx. pose proof (Z.log2_up_nonneg x). split; [done|].
  destruct (Z.eq_dec x 1) as [->|Hx1]; [split; [reflexivity|lia]|].
  pose proof (Z.log2_up_spec x) as Hs. split; [lia|]. intros _.
  replace (Z.log2_up x) with (Z.succ (Z.pred (Z.log2_up x))) by lia.
  assert (0 < Z.log2_up x) by (apply Z.log2_up_pos; lia).
  rewrite Z.pow_succ_r by lia. lia.
Qed.

Lemma rte_align32pow2_bounds x :
  0 < x <= 2 ^ 31 ->
  exists k, 0 <= k <= 31 /\ rte_align32pow2 x = 2 ^ k /\ x <= 2 ^ k.
Proof.
  intros Hx. exists (Z.log2_up x). rewrite rte_align32pow2_log2_up by done.
  destruct (pow2_log2_up_bounds x) as (? & ? & ?); [lia|].
  split; [split; [done|]|split; [done|done]].
  change 31 with (Z.log2_up (2 ^ 31)). apply Z.log2_up_le_mono; lia.
Qed.

(** [n & (n - 1)] is zero exactly at the powers of two. *)
Lemma land_pred_zero_pow2 n :
  0 < n -> Z.land n (n - 1) = 0 -> n = 2 ^ Z.log2 n.
Proof.
  intros Hn H0. pose proof (Z.log2_spec n Hn) as [Hlo Hhi].
  pose proof (Z.log2_nonneg n).
  destruct (Z.eq_dec n (2 ^ Z.log2 n)) as [|Hne]; [done|exfalso].
  assert (Z.log2 (n - 1) = Z.log2 n) as Hl by (apply Z.log2_unique; lia).
  assert (Z.testbit (Z.land n (n - 1)) (Z.log2 n) = true) as Ht.
  { rewrite Z.land_spec, Z.bit_log2 by lia.
    rewrite <- Hl, Z.bit_log2 by lia. done. }
  by rewrite H0, Z.bits_0 in Ht.
Qed.

Lemma land_pred_pow2 k : 0 <= k -> Z.land (2 ^ k) (2 ^ k - 1) = 0.
Proof.
  intros. rewrite land_ones_mod by done. apply Z.mod_same. lia.
Qed.

Lemma pos_ctz_nonneg p : 0 <= pos_ctz p.
Proof. induction p; simpl pos_ctz; lia. Qed.

Lemma pos_ctz_bit p : Z.testbit (Zpos p) (pos_ctz p) = true.
Proof.
  induction p as [p IH|p IH|]; [done| |done].
  simpl pos_ctz. rewrite Pos2Z.inj_xO. pose proof (pos_ctz_nonneg p).
  replace (1 + pos_ctz p) with (Z.succ (pos_ctz p)) by lia.
  by rewrite Z.double_bits_succ.
Qed.

Lemma pos_ctz_low p i : i < pos_ctz p -> Z.testbit (Zpos p) i = false.
Proof.
  revert i; induction p as [p IH|p IH|]; simpl pos_ctz; intros i Hi.
  - by apply Z.testbit_neg_r.
  - rewrite Pos2Z.inj_xO, Z.double_bits. apply IH. lia.
  - by apply Z.testbit_neg_r.
Qed.

Lemma pos_ctz_lt p w : Zpos p < 2 ^ w -> pos_ctz p < w.
Proof.
  intros Hp. destruct (Z.lt_ge_cases (pos_ctz p) w) as [|Hge]; [done|].
  pose proof (pos_ctz_bit p) as Hb. pose proof (pos_ctz_nonneg p).
  rewrite Z.bits_above_log2 in Hb; [done|lia|].
  destruct (Z.le_gt_cases 0 w); [|rewrite Z.pow_neg_r in Hp by lia; lia].
  apply Z.log2_lt_pow2; [lia|]. eapply Z.lt_le_trans; [exact Hp|].
  apply Z.pow_le_mono_r; lia.
Qed.

Lemma pos_ctz_pow2 k p : 0 <= k -> Zpos p = 2 ^ k -> pos_ctz p = k.
Proof.
  intros Hk Hp. pose proof (pos_ctz_bit p) as Hb.
  rewrite Hp, Z.pow2_bits_eqb in Hb by done. lia.
Qed.

(** [RTE_ALIGN] rounds up to a multiple of a power of two, where that fits. *)
Lemma RTE_ALIGN_pow2 x k :
  0 <= k -> 0 <= x -> x + 2 ^ k <= 2 ^ 64 ->
  RTE_ALIGN x (2 ^ k) = (x + (2 ^ k - 1)) / 2 ^ k * 2 ^ k.
Proof.
  intros Hk Hx Hs. assert (0 < 2 ^ k) by lia.
  unfold RTE_ALIGN, RTE_ALIGN_CEIL, RTE_ALIGN_FLOOR.
  rewrite (u64_small (2 ^ k - 1)), (u64_small (x + _)) by lia.
  set (y := x + (2 ^ k - 1)).
  assert (E : Z.land y (u64 (Z.lnot (2 ^ k - 1))) = Z.land y (Z.lnot (2 ^ k - 1))).
  { assert (Hy : y = Z.land y (Z.ones 64)).
    { rewrite Z.land_ones by lia. symmetry. apply Z.mod_small. unfold y. lia. }
    unfold u64. change 18446744073709551616 with (2 ^ 64).
    rewrite <- (Z.land_ones _ 64) by lia. rewrite Hy at 2.
    rewrite <- Z.land_assoc. f_equal. apply Z.land_comm. }
  rewrite E, land_lnot_ones by done.
  pose proof (Z.div_mod y (2 ^ k)). lia.
Qed.

(** The other macros agree with the functions, and mean what their comments say. *)
Lemma RTE_PTR_ALIGN_is_ALIGN ptr align : RTE_PTR_ALIGN ptr align = RTE_ALIGN ptr align.
Proof.
  unfold RTE_PTR_ALIGN, RTE_PTR_ALIGN_CEIL, RTE_PTR_ALIGN_FLOOR, RTE_PTR_ADD, RTE_ALIGN, RTE_ALIGN_CEIL.
  f_equal. wrap_lia.
Qed.

Lemma RTE_IS_POWER_OF_2_is_function n : RTE_IS_POWER_OF_2 n = rte_is_power_of_2 n.
Proof. unfold RTE_IS_POWER_OF_2, rte_is_power_of_2. by rewrite Z.land_comm. Qed.

Lemma RTE_PTR_DIFF_ADD ptr x : is_u64 x -> RTE_PTR_DIFF (RTE_PTR_ADD ptr x) ptr = x.
Proof. unfold RTE_PTR_DIFF, RTE_PTR_ADD. intros. wrap_lia. Qed.

Lemma RTE_PTR_SUB_ADD ptr x : is_u64 ptr -> RTE_PTR_SUB (RTE_PTR_ADD ptr x) x = ptr.
Proof. unfold RTE_PTR_SUB, RTE_PTR_ADD. intros. wrap_lia. Qed.

Lemma RTE_CACHE_LINE_ROUNDUP_spec size : 0 <= size -> size + 64 < 2 ^ 64 ->
  RTE_CACHE_LINE_ROUNDUP size mod 64 = 0 /\ size <= RTE_CACHE_LINE_ROUNDUP size < size + 64.
Proof.
  intros Hs Hm. unfold RTE_CACHE_LINE_ROUNDUP, RTE_CACHE_LINE_SIZE.
  rewrite (u64_small (size + 64)), (u64_small (size + 64 - 1)), u64_small by (Z.div_mod_to_equations; lia).
  split; Z.div_mod_to_equations; lia.
Qed.

(** The mask of [ln] ones, for every length but 0, at which the shift is undefined. *)
Lemma RTE_LEN2MASK_ones ln :
  (0 < ln <= 64 -> RTE_LEN2MASK ln = Ret (Z.ones ln)) /\ RTE_LEN2MASK 0 = Undef.
Proof.
  split; [|done]. intros Hln. unfold RTE_LEN2MASK.
  rewrite (proj2 (Z.leb_le _ _)), (proj2 (Z.ltb_lt _ _)) by lia. cbn [andb]. f_equal.
  change (u64 (-1)) with (Z.ones 64). apply Z.bits_inj'. intros i Hi.
  rewrite Z.shiftr_spec, !Z.testbit_ones by lia.
  destruct (Z.ltb_spec i ln), (Z.ltb_spec (i + (8 * 8 - ln)) 64); try lia;
    by rewrite !(proj2 (Z.leb_le 0 _)) by lia.
Qed.
