(* ===== verification/BitOps.v ===== *)
(** * [rte_lib/include/rte_bitops.h]: bits of a 32- or 64-bit cell

    Each operation as a function of the bit number and the value of the cell; one that
    writes through the pointer returns the new value. The range assertions are compiled
    out, so a shift by the width or more is undefined. The lemmas describe every
    operation by the set of the bits of the cell. *)

From S2P Require Import Prelude.

Open Scope Z_scope.

(** ** Definitions *)

(* rte_lib/include/rte_bitops.h:26-26 RTE_BIT64 *)
Definition RTE_BIT64 (nr : Z) : outcome Z :=
  if (0 <=? nr) && (nr <? 64) then Ret (u64 (Z.shiftl 1 nr)) else Undef.

(* rte_lib/include/rte_bitops.h:34-34 RTE_BIT32 *)
Definition RTE_BIT32 (nr : Z) : outcome Z :=
  if (0 <=? nr) && (nr <? 32) then Ret (u32 (Z.shiftl 1 nr)) else Undef.

(* rte_lib/include/rte_bitops.h:51-59 rte_bit_relaxed_get32 *)
Definition rte_bit_relaxed_get32 (nr addr : Z) : outcome Z :=
  mask ← RTE_BIT32 nr; Ret (Z.land addr mask).

(* rte_lib/include/rte_bitops.h:72-80 rte_bit_relaxed_set32 *)
Definition rte_bit_relaxed_set32 (nr addr : Z) : outcome Z :=
  mask ← RTE_BIT32 nr; Ret (Z.lor addr mask).

(* rte_lib/include/rte_bitops.h:93-101 rte_bit_relaxed_clear32 *)
Definition rte_bit_relaxed_clear32 (nr addr : Z) : outcome Z :=
  mask ← RTE_BIT32 nr; Ret (Z.land addr (u32 (Z.lnot mask))).

(** The pair is the returned value and the cell afterwards. *)
(* rte_lib/include/rte_bitops.h:117-127 rte_bit_relaxed_test_and_set32 *)
Definition rte_bit_relaxed_test_and_set32 (nr addr : Z) : outcome (Z * Z) :=
  mask ← RTE_BIT32 nr;
  let val := addr in
  Ret (Z.land val mask, Z.lor val mask).

(* rte_lib/include/rte_bitops.h:143-153 rte_bit_relaxed_test_and_clear32 *)
Definition rte_bit_relaxed_test_and_clear32 (nr addr : Z) : outcome (Z * Z) :=
  mask ← RTE_BIT32 nr;
  let val := addr in
  Ret (Z.land val mask, Z.land val (u32 (Z.lnot mask))).

(* rte_lib/include/rte_bitops.h:170-178 rte_bit_relaxed_get64 *)
Definition rte_bit_relaxed_get64 (nr addr : Z) : outcome Z :=
  mask ← RTE_BIT64 nr; Ret (Z.land addr mask).

(* rte_lib/include/rte_bitops.h:191-199 rte_bit_relaxed_set64 *)
Definition rte_bit_relaxed_set64 (nr addr : Z) : outcome Z :=
  mask ← RTE_BIT64 nr; Ret (Z.lor addr mask).

(* rte_lib/include/rte_bitops.h:212-220 rte_bit_relaxed_clear64 *)
Definition rte_bit_relaxed_clear64 (nr addr : Z) : outcome Z :=
  mask ← RTE_BIT64 nr; Ret (Z.land addr (u64 (Z.lnot mask))).

(** The old value is returned whole, not masked as in the other functions. *)
(* rte_lib/include/rte_bitops.h:236-246 rte_bit_relaxed_test_and_set64 *)
Definition rte_bit_relaxed_test_and_set64 (nr addr : Z) : outcome (Z * Z) :=
  mask ← RTE_BIT64 nr;
  let val := addr in
  Ret (val, Z.lor val mask).

(* rte_lib/include/rte_bitops.h:262-272 rte_bit_relaxed_test_and_clear64 *)
Definition rte_bit_relaxed_test_and_clear64 (nr addr : Z) : outcome (Z * Z) :=
  mask ← RTE_BIT64 nr;
  let val := addr in
  Ret (Z.land val mask, Z.land val (u64 (Z.lnot mask))).

(** ** A cell as the set of its bits *)

Lemma shiftl1_small w i : 0 <= i < w -> 0 <= Z.shiftl 1 i < 2 ^ w.
Proof. intros. rewrite Z.shiftl_1_l. split; [lia|]. apply Z.pow_lt_mono_r; lia. Qed.

Lemma testbit_shiftl1 i j : 0 <= i -> Z.testbit (Z.shiftl 1 i) j = (i =? j).
Proof.
  intros. rewrite Z.shiftl_1_l. destruct (Z.eqb_spec i j) as [->|Hn].
  - by apply Z.pow2_bits_true.
  - by apply Z.pow2_bits_false.
Qed.

(** Bits of a cell of width [w], and of the complement taken at that width. *)
Lemma testbit_out w x i : 0 <= w -> 0 <= x < 2 ^ w -> w <= i -> Z.testbit x i = false.
Proof.
  intros Hw Hx Hi. rewrite <- (Z.mod_small x (2 ^ w)) by lia.
  apply Z.mod_pow2_bits_high. lia.
Qed.

Lemma testbit_lnot_mod w x i :
  0 <= i < w -> Z.testbit (Z.lnot x mod 2 ^ w) i = negb (Z.testbit x i).
Proof.
  intros Hi. rewrite Z.mod_pow2_bits_low by lia. apply Z.lnot_spec. lia.
Qed.

Lemma bits_bound w x :
  0 <= w -> 0 <= x -> (forall i, w <= i -> Z.testbit x i = false) -> x < 2 ^ w.
Proof.
  intros Hw Hx Hb. destruct (Z.lt_ge_cases x (2 ^ w)) as [|Hge]; [done|].
  assert (0 < 2 ^ w) by (apply Z.pow_pos_nonneg; lia).
  assert (w <= Z.log2 x) by (apply Z.log2_le_pow2; lia).
  pose proof (Z.bit_log2 x ltac:(lia)) as Ht. rewrite Hb in Ht; done.
Qed.

Lemma nonzero_bit x : x <> 0 <-> exists i, 0 <= i /\ Z.testbit x i = true.
Proof.
  split.
  - intros Hx. destruct (decide (0 < x)).
    + exists (Z.log2 x). split; [apply Z.log2_nonneg|by apply Z.bit_log2].
    + exists (Z.log2 (Z.pred (- x)) + 1). pose proof (Z.log2_nonneg (Z.pred (- x))).
      split; [lia|]. apply Z.bits_above_log2_neg; lia.
  - intros (i & _ & Hi) ->. by rewrite Z.bits_0 in Hi.
Qed.

Lemma zero_bits x : x = 0 <-> forall i, 0 <= i -> Z.testbit x i = false.
Proof.
  split; [intros -> i _; apply Z.bits_0|].
  intros H. apply Z.bits_inj'. intros i Hi. by rewrite Z.bits_0, H.
Qed.

(** Masking by one bit tests it; the set and clear operations change one bit. *)
Lemma land_shiftl1 x i : 0 <= i ->
  Z.land x (Z.shiftl 1 i) = if Z.testbit x i then 2 ^ i else 0.
Proof.
  intros Hi. apply Z.bits_inj'. intros j Hj.
  rewrite Z.land_spec, testbit_shiftl1 by done.
  destruct (Z.eqb_spec i j) as [<-|Hn].
  - rewrite andb_true_r. destruct (Z.testbit x i); [by rewrite Z.pow2_bits_true|by rewrite Z.bits_0].
  - rewrite andb_false_r. destruct (Z.testbit x i); [by rewrite Z.pow2_bits_false|by rewrite Z.bits_0].
Qed.

Lemma lor_shiftl1_bit x i j : 0 <= i ->
  Z.testbit (Z.lor x (Z.shiftl 1 i)) j = (i =? j) || Z.testbit x j.
Proof. intros. rewrite Z.lor_spec, testbit_shiftl1 by done. apply orb_comm. Qed.

Lemma clear_bit w x i j : 0 <= i < w -> 0 <= x < 2 ^ w ->
  Z.testbit (Z.land x (Z.lnot (Z.shiftl 1 i) mod 2 ^ w)) j = negb (i =? j) && Z.testbit x j.
Proof.
  intros Hi Hx. destruct (decide (0 <= j)); [|rewrite !Z.testbit_neg_r by lia; by rewrite andb_false_r].
  rewrite Z.land_spec. destruct (decide (j < w)).
  - rewrite testbit_lnot_mod, testbit_shiftl1 by lia. apply andb_comm.
  - rewrite (testbit_out w x) by lia. by rewrite andb_false_r.
Qed.

Lemma lor_bound w x y : 0 <= w -> 0 <= x < 2 ^ w -> 0 <= y < 2 ^ w -> 0 <= Z.lor x y < 2 ^ w.
Proof.
  intros Hw Hx Hy. assert (0 <= Z.lor x y) by (apply Z.lor_nonneg; lia). split; [done|].
  apply bits_bound; [done..|]. intros i Hi.
  by rewrite Z.lor_spec, !(testbit_out w) by lia.
Qed.

Lemma land_bound w x y : 0 <= w -> 0 <= x < 2 ^ w -> 0 <= Z.land x y < 2 ^ w.
Proof.
  intros Hw Hx. assert (0 <= Z.land x y) by (apply Z.land_nonneg; lia). split; [done|].
  apply bits_bound; [done..|]. intros i Hi.
  by rewrite Z.land_spec, (testbit_out w x) by lia.
Qed.

(** ** The operations *)

(** What the operations of a width promise: [get], [test_and_clear] report the bit by a
    value that is non-zero exactly when it is set, and the writers change that bit only. *)
Class BitCellOk (w : Z) (get set clear : Z -> Z -> outcome Z)
    (test_and_clear : Z -> Z -> outcome (Z * Z)) : Prop := {
  bc_get nr x : 0 <= nr < w -> exists v, get nr x = Ret v /\ v = (if Z.testbit x nr then 2 ^ nr else 0);
  bc_set nr x : 0 <= nr < w -> 0 <= x < 2 ^ w -> exists x', set nr x = Ret x' /\ 0 <= x' < 2 ^ w /\
    forall j, Z.testbit x' j = (nr =? j) || Z.testbit x j;
  bc_clear nr x : 0 <= nr < w -> 0 <= x < 2 ^ w -> exists x', clear nr x = Ret x' /\ 0 <= x' < 2 ^ w /\
    forall j, Z.testbit x' j = negb (nr =? j) && Z.testbit x j;
  bc_test_and_clear nr x : 0 <= nr < w -> test_and_clear nr x =
    (v ← get nr x; x' ← clear nr x; Ret (v, x'));
  bc_range nr x : ~ 0 <= nr < w -> get nr x = Undef /\ set nr x = Undef /\ clear nr x = Undef;
}.

Lemma RTE_BIT32_in nr : 0 <= nr < 32 -> RTE_BIT32 nr = Ret (Z.shiftl 1 nr).
Proof.
  intros H. unfold RTE_BIT32. rewrite (proj2 (Z.leb_le _ _)), (proj2 (Z.ltb_lt _ _)) by lia.
  cbn. rewrite u32_small; [done|]. by apply (shiftl1_small 32).
Qed.
Lemma RTE_BIT64_in nr : 0 <= nr < 64 -> RTE_BIT64 nr = Ret (Z.shiftl 1 nr).
Proof.
  intros H. unfold RTE_BIT64. rewrite (proj2 (Z.leb_le _ _)), (proj2 (Z.ltb_lt _ _)) by lia.
  cbn. rewrite u64_small; [done|]. by apply (shiftl1_small 64).
Qed.
Lemma RTE_BIT32_out nr : ~ 0 <= nr < 32 -> RTE_BIT32 nr = Undef.
Proof. intros H. unfold RTE_BIT32. by destruct (Z.leb_spec 0 nr), (Z.ltb_spec nr 32); try lia. Qed.
Lemma RTE_BIT64_out nr : ~ 0 <= nr < 64 -> RTE_BIT64 nr = Undef.
Proof. intros H. unfold RTE_BIT64. by destruct (Z.leb_spec 0 nr), (Z.ltb_spec nr 64); try lia. Qed.

#[export] Instance bits32_ok : BitCellOk 32 rte_bit_relaxed_get32 rte_bit_relaxed_set32
  rte_bit_relaxed_clear32 rte_bit_relaxed_test_and_clear32.
Proof.
  split.
  - intros nr x H. eexists. unfold rte_bit_relaxed_get32. rewrite RTE_BIT32_in by done. cbn.
    split; [done|]. apply land_shiftl1. lia.
  - intros nr x H Hx. eexists. unfold rte_bit_relaxed_set32. rewrite RTE_BIT32_in by done. cbn.
    split; [done|]. split; [by apply (lor_bound 32), (shiftl1_small 32)|].
    intros j. apply lor_shiftl1_bit. lia.
  - intros nr x H Hx. eexists. unfold rte_bit_relaxed_clear32. rewrite RTE_BIT32_in by done. cbn.
    split; [done|]. split; [by apply (land_bound 32)|]. intros j. by apply (clear_bit 32).
  - intros nr x H. unfold rte_bit_relaxed_test_and_clear32, rte_bit_relaxed_get32, rte_bit_relaxed_clear32.
    by rewrite RTE_BIT32_in.
  - intros nr x H. unfold rte_bit_relaxed_get32, rte_bit_relaxed_set32, rte_bit_relaxed_clear32.
    by rewrite RTE_BIT32_out.
Qed.

#[export] Instance bits64_ok : BitCellOk 64 rte_bit_relaxed_get64 rte_bit_relaxed_set64
  rte_bit_relaxed_clear64 rte_bit_relaxed_test_and_clear64.
Proof.
  split.
  - intros nr x H. eexists. unfold rte_bit_relaxed_get64. rewrite RTE_BIT64_in by done. cbn.
    split; [done|]. apply land_shiftl1. lia.
  - intros nr x H Hx. eexists. unfold rte_bit_relaxed_set64. rewrite RTE_BIT64_in by done. cbn.
    split; [done|]. split; [by apply (lor_bound 64), (shiftl1_small 64)|].
    intros j. apply lor_shiftl1_bit. lia.
  - intros nr x H Hx. eexists. unfold rte_bit_relaxed_clear64. rewrite RTE_BIT64_in by done. cbn.
    split; [done|]. split; [by apply (land_bound 64)|]. intros j. by apply (clear_bit 64).
  - intros nr x H. unfold rte_bit_relaxed_test_and_clear64, rte_bit_relaxed_get64, rte_bit_relaxed_clear64.
    by rewrite RTE_BIT64_in.
  - intros nr x H. unfold rte_bit_relaxed_get64, rte_bit_relaxed_set64, rte_bit_relaxed_clear64.
    by rewrite RTE_BIT64_out.
Qed.

(** The two test-and-set operations set one bit and keep the others; the 32-bit one
    returns what the get operation returns. The 64-bit one returns the whole old cell: as
    a truth value this is the old bit only when that bit was set or the cell was 0; for
    every other cell it reports a clear bit as set. *)
Theorem relaxed_test_and_set nr x :
  (0 <= nr < 32 -> is_u32 x -> exists v x',
    rte_bit_relaxed_test_and_set32 nr x = Ret (v, x') /\ rte_bit_relaxed_get32 nr x = Ret v /\
    is_u32 x' /\ forall j, Z.testbit x' j = (nr =? j) || Z.testbit x j) /\
  (0 <= nr < 64 -> is_u64 x -> exists v x' old,
    rte_bit_relaxed_test_and_set64 nr x = Ret (v, x') /\ rte_bit_relaxed_get64 nr x = Ret old /\
    is_u64 x' /\ (forall j, Z.testbit x' j = (nr =? j) || Z.testbit x j) /\
    ((v <> 0 <-> old <> 0) <-> x = 0 \/ Z.testbit x nr = true)).
Proof.
  split; intros Hnr Hx.
  - destruct (bc_get nr x Hnr) as (v & Hg & _), (bc_set nr x Hnr Hx) as (x' & Hs & Hb).
    exists v, x'. split; [|by split].
    unfold rte_bit_relaxed_test_and_set32, rte_bit_relaxed_get32, rte_bit_relaxed_set32 in *.
    rewrite RTE_BIT32_in in * by done. cbn in *. congruence.
  - destruct (bc_get nr x Hnr) as (v & Hg & Hv), (bc_set nr x Hnr Hx) as (x' & Hs & Hr & Hb).
    exists x, x', v. split; [|split; [done|split; [done|split; [done|]]]].
    + unfold rte_bit_relaxed_test_and_set64, rte_bit_relaxed_set64 in *.
      rewrite RTE_BIT64_in in * by done. cbn in *. congruence.
    + rewrite Hv. pose proof (Z.pow_pos_nonneg 2 nr ltac:(lia) ltac:(lia)) as Hp.
      destruct (Z.testbit x nr) eqn:Et.
      * assert (x <> 0) by (intros ->; by rewrite Z.bits_0 in Et). split; [by right|lia].
      * split; [intros H; left; lia|intros [-> | [=]]; lia].
Qed.

Lemma relaxed_test_and_set_witness :
  exists v x', rte_bit_relaxed_test_and_set64 3 16 = Ret (v, x') /\ v <> 0 /\
    rte_bit_relaxed_get64 3 16 = Ret 0.
Proof.
  destruct (relaxed_test_and_set 3 16) as [_ H].
  destruct H as (v & x' & old & H1 & H2 & _ & _ & H3); [lia|lia|].
  exists v, x'. split; [exact H1|].
  assert (old = 0) as -> by (vm_compute in H2; congruence).
  split; [|exact H2]. vm_compute in H1. injection H1 as <- <-. lia.
Defined.
