(* ===== verification/Bitmap.v ===== *)
(** * [rte_lib/include/rte_bitmap.h]: the two-level bitmap

    The bits live in 64-bit slabs ([array2]); each bit of [array1] says whether a cache
    line of eight slabs has a bit set. The two arrays, which the source carves out of one
    buffer, are two lists: an index outside one is [Undef]. A scan keeps its place in
    [index1], [offset1], [index2] and [go2].

    The invariant [bitmap_wf] relates the two levels; set, clear, get, initialisation and
    reset are run under it here, the scan in [BitmapScan], and [BitmapSpec] has the
    refinement to finite sets. *)

From stdpp Require Import gmap.
From S2P Require Import Prelude Common BitOps.

Open Scope Z_scope.

(** ** Constants and data *)

(* rte_lib/include/rte_bitmap.h:47-47 RTE_BITMAP_SLAB_BIT_SIZE *)
Definition RTE_BITMAP_SLAB_BIT_SIZE : Z := 64.
(* rte_lib/include/rte_bitmap.h:48-48 RTE_BITMAP_SLAB_BIT_SIZE_LOG2 *)
Definition RTE_BITMAP_SLAB_BIT_SIZE_LOG2 : Z := 6.
(* rte_lib/include/rte_bitmap.h:49-49 RTE_BITMAP_SLAB_BIT_MASK *)
Definition RTE_BITMAP_SLAB_BIT_MASK : Z := RTE_BITMAP_SLAB_BIT_SIZE - 1.
(* rte_lib/include/rte_bitmap.h:52-52 RTE_BITMAP_CL_BIT_SIZE *)
Definition RTE_BITMAP_CL_BIT_SIZE : Z := RTE_CACHE_LINE_SIZE * 8.
(* rte_lib/include/rte_bitmap.h:53-53 RTE_BITMAP_CL_BIT_SIZE_LOG2 *)
Definition RTE_BITMAP_CL_BIT_SIZE_LOG2 : Z := 6 + 3.
(* rte_lib/include/rte_bitmap.h:56-56 RTE_BITMAP_CL_SLAB_SIZE *)
Definition RTE_BITMAP_CL_SLAB_SIZE : Z := RTE_BITMAP_CL_BIT_SIZE / RTE_BITMAP_SLAB_BIT_SIZE.
(* rte_lib/include/rte_bitmap.h:57-57 RTE_BITMAP_CL_SLAB_SIZE_LOG2 *)
Definition RTE_BITMAP_CL_SLAB_SIZE_LOG2 : Z :=
  RTE_BITMAP_CL_BIT_SIZE_LOG2 - RTE_BITMAP_SLAB_BIT_SIZE_LOG2.
(* rte_lib/include/rte_bitmap.h:58-58 RTE_BITMAP_CL_SLAB_MASK *)
Definition RTE_BITMAP_CL_SLAB_MASK : Z := RTE_BITMAP_CL_SLAB_SIZE - 1.

(* rte_lib/include/rte_bitmap.h:61-76 rte_bitmap *)
Record rte_bitmap := Bitmap {
  array1 : list Z;
  array2 : list Z;
  array1_size : Z;
  array2_size : Z;
  index1 : Z;
  offset1 : Z;
  index2 : Z;
  go2 : Z;
}.

Definition set_arrays (a1 a2 : list Z) (b : rte_bitmap) : rte_bitmap :=
  Bitmap a1 a2 (array1_size b) (array2_size b) (index1 b) (offset1 b) (index2 b) (go2 b).
Definition set_pos1 (i o : Z) (b : rte_bitmap) : rte_bitmap :=
  Bitmap (array1 b) (array2 b) (array1_size b) (array2_size b) i o (index2 b) (go2 b).
Definition set_pos2 (i g : Z) (b : rte_bitmap) : rte_bitmap :=
  Bitmap (array1 b) (array2 b) (array1_size b) (array2_size b) (index1 b) (offset1 b) i g.

(** ** Memory footprint and initialisation *)

(* rte_lib/include/rte_bitmap.h:78-82 __rte_bitmap_index1_inc *)
Definition __rte_bitmap_index1_inc (bmp : rte_bitmap) : rte_bitmap :=
  set_pos1 (Z.land (index1 bmp + 1)%u32 (array1_size bmp - 1)%u32) (offset1 bmp) bmp.

(* rte_lib/include/rte_bitmap.h:84-88 __rte_bitmap_mask1_get *)
Definition __rte_bitmap_mask1_get (bmp : rte_bitmap) : Z :=
  u64 (Z.shiftl (u64 (Z.lnot 1)) (offset1 bmp)).

(* rte_lib/include/rte_bitmap.h:90-94 __rte_bitmap_index2_set *)
Definition __rte_bitmap_index2_set (bmp : rte_bitmap) : rte_bitmap :=
  set_pos2 (u32 (Z.shiftl (u32 (Z.shiftl (index1 bmp) RTE_BITMAP_SLAB_BIT_SIZE_LOG2) + offset1 bmp)%u32
                   RTE_BITMAP_CL_SLAB_SIZE_LOG2)) (go2 bmp) bmp.

(** The structure before its flexible array: two pointers and six 32-bit words. *)
Definition SIZEOF_RTE_BITMAP : Z := 40.

(** The total, then the four values written through the pointers. *)
(* rte_lib/include/rte_bitmap.h:96-126 __rte_bitmap_get_memory_footprint *)
Definition __rte_bitmap_get_memory_footprint (n_bits : Z) : Z * (Z * Z * Z * Z) :=
  let n_cache_lines_array2 :=
    (n_bits + RTE_BITMAP_CL_BIT_SIZE - 1)%u32 / RTE_BITMAP_CL_BIT_SIZE in
  let n_slabs_array1 :=
    (n_cache_lines_array2 + RTE_BITMAP_SLAB_BIT_SIZE - 1)%u32 / RTE_BITMAP_SLAB_BIT_SIZE in
  let n_slabs_array1 := rte_align32pow2 n_slabs_array1 in
  let n_slabs_context := u32 ((SIZEOF_RTE_BITMAP + RTE_BITMAP_SLAB_BIT_SIZE / 8 - 1)
                              / (RTE_BITMAP_SLAB_BIT_SIZE / 8)) in
  let n_cache_lines_context_and_array1 :=
    (n_slabs_context + n_slabs_array1 + RTE_BITMAP_CL_SLAB_SIZE - 1)%u32 / RTE_BITMAP_CL_SLAB_SIZE in
  let n_bytes_total :=
    ((n_cache_lines_context_and_array1 + n_cache_lines_array2) * RTE_CACHE_LINE_SIZE)%u32 in
  let array1_byte_offset := (n_slabs_context * (RTE_BITMAP_SLAB_BIT_SIZE / 8))%u32 in
  let array1_slabs := n_slabs_array1 in
  let array2_byte_offset := (n_cache_lines_context_and_array1 * RTE_CACHE_LINE_SIZE)%u32 in
  let array2_slabs := (n_cache_lines_array2 * RTE_BITMAP_CL_SLAB_SIZE)%u32 in
  (n_bytes_total, (array1_byte_offset, array1_slabs, array2_byte_offset, array2_slabs)).

(* rte_lib/include/rte_bitmap.h:128-137 __rte_bitmap_scan_init *)
Definition __rte_bitmap_scan_init (bmp : rte_bitmap) : rte_bitmap :=
  let bmp := set_pos1 (array1_size bmp - 1)%u32 (RTE_BITMAP_SLAB_BIT_SIZE - 1) bmp in
  let bmp := __rte_bitmap_index2_set bmp in
  set_pos2 (index2 bmp + RTE_BITMAP_CL_SLAB_SIZE)%u32 0 bmp.

(* rte_lib/include/rte_bitmap.h:147-155 rte_bitmap_get_memory_footprint *)
Definition rte_bitmap_get_memory_footprint (n_bits : Z) : Z :=
  if n_bits =? 0 then 0 else fst (__rte_bitmap_get_memory_footprint n_bits).

(** [memset] of [len] bytes at [off] in a buffer that has [extent] bytes. *)
Definition memset_ok (extent off len : Z) : outcome unit :=
  if off + len <=? extent then Ret tt else Undef.

(** [mem] is the address of the buffer (0 is [NULL]), [mem_size] the size the caller
    gives, which is taken to be the buffer's extent; [None] is the null handle. *)
(* rte_lib/include/rte_bitmap.h:169-203 rte_bitmap_init *)
Definition rte_bitmap_init (n_bits mem mem_size : Z) : outcome (option rte_bitmap) :=
  if n_bits =? 0 then Ret None
  else if (mem =? 0) || negb (Z.land mem (RTE_CACHE_LINE_SIZE - 1) =? 0) then Ret None
  else
    let '(size, (array1_byte_offset, array1_slabs, array2_byte_offset, array2_slabs)) :=
      __rte_bitmap_get_memory_footprint n_bits in
    if size >? mem_size then Ret None
    else
      _ ← memset_ok mem_size 0 size;
      let bmp := Bitmap (replicate (Z.to_nat array1_slabs) 0) (replicate (Z.to_nat array2_slabs) 0)
                   array1_slabs array2_slabs 0 0 0 0 in
      Ret (Some (__rte_bitmap_scan_init bmp)).

(** [for (i = offset; i < 64; i++) slabs[index] &= ~(1llu << i)], [n] passes. *)
(* rte_lib/include/rte_bitmap.h:231-232 __rte_bitmap_clear_slab_overhead_bits *)
Fixpoint clear_from (n : nat) (i v : Z) : Z :=
  match n with
  | O => v
  | S n => clear_from n (i + 1) (Z.land v (u64 (Z.lnot (Z.shiftl 1 i))))
  end.

(* rte_lib/include/rte_bitmap.h:218-235 __rte_bitmap_clear_slab_overhead_bits *)
Definition __rte_bitmap_clear_slab_overhead_bits (slabs : list Z) (slab_size pos : Z)
    : outcome (list Z) :=
  let index := pos / RTE_BITMAP_SLAB_BIT_SIZE in
  let offset := Z.land pos RTE_BITMAP_SLAB_BIT_MASK in
  '(slabs, index) ←
    if negb (offset =? 0) then
      v ← rd slabs index;
      slabs ← wr slabs index (clear_from (Z.to_nat (RTE_BITMAP_SLAB_BIT_SIZE - offset)) offset v);
      Ret (slabs, (index + 1)%u32)
    else Ret (slabs, index);
  if index <? slab_size then
    if slab_size <=? Z.of_nat (length slabs)
    then Ret (take (Z.to_nat index) slabs ++ replicate (Z.to_nat (slab_size - index)) 0
              ++ drop (Z.to_nat slab_size) slabs)
    else Undef
  else Ret slabs.

(* rte_lib/include/rte_bitmap.h:252-288 rte_bitmap_init_with_all_set *)
Definition rte_bitmap_init_with_all_set (n_bits mem mem_size : Z) : outcome (option rte_bitmap) :=
  if (n_bits =? 0) || (mem =? 0) || negb (Z.land mem (RTE_CACHE_LINE_SIZE - 1) =? 0) then Ret None
  else
    let '(size, (array1_byte_offset, array1_slabs, array2_byte_offset, array2_slabs)) :=
      __rte_bitmap_get_memory_footprint n_bits in
    if size <? mem_size then Ret None
    else
      _ ← memset_ok mem_size 0 SIZEOF_RTE_BITMAP;
      let ones := 18446744073709551615 in
      _ ← memset_ok mem_size array1_byte_offset (array1_slabs * 8);
      _ ← memset_ok mem_size array2_byte_offset (array2_slabs * 8);
      let bmp := __rte_bitmap_scan_init
        (Bitmap (replicate (Z.to_nat array1_slabs) ones) (replicate (Z.to_nat array2_slabs) ones)
           array1_slabs array2_slabs 0 0 0 0) in
      a1 ← __rte_bitmap_clear_slab_overhead_bits (array1 bmp) (array1_size bmp)
             (Z.shiftr (array2_size bmp) RTE_BITMAP_CL_SLAB_SIZE_LOG2);
      a2 ← __rte_bitmap_clear_slab_overhead_bits (array2 bmp) (array2_size bmp) n_bits;
      Ret (Some (set_arrays a1 a2 bmp)).

(* rte_lib/include/rte_bitmap.h:298-307 rte_bitmap_free *)
Definition rte_bitmap_free (bmp : option rte_bitmap) : Z :=
  match bmp with None => -1 | Some _ => 0 end.

(** [memset] over the used part of both arrays. *)
(* rte_lib/include/rte_bitmap.h:315-321 rte_bitmap_reset *)
Definition rte_bitmap_reset (bmp : rte_bitmap) : outcome rte_bitmap :=
  if (array1_size bmp <=? Z.of_nat (length (array1 bmp)))
     && (array2_size bmp <=? Z.of_nat (length (array2 bmp)))
  then Ret (__rte_bitmap_scan_init (set_arrays
         (replicate (Z.to_nat (array1_size bmp)) 0 ++ drop (Z.to_nat (array1_size bmp)) (array1 bmp))
         (replicate (Z.to_nat (array2_size bmp)) 0 ++ drop (Z.to_nat (array2_size bmp)) (array2 bmp)) bmp))
  else Undef.

(** ** Bit operations *)

(* rte_lib/include/rte_bitmap.h:354-364 rte_bitmap_get *)
Definition rte_bitmap_get (bmp : rte_bitmap) (pos : Z) : outcome Z :=
  let index2 := Z.shiftr pos RTE_BITMAP_SLAB_BIT_SIZE_LOG2 in
  let offset2 := Z.land pos RTE_BITMAP_SLAB_BIT_MASK in
  slab2 ← rd (array2 bmp) index2;
  Ret (Z.land slab2 (Z.shiftl 1 offset2)).

(* rte_lib/include/rte_bitmap.h:374-390 rte_bitmap_set *)
Definition rte_bitmap_set (bmp : rte_bitmap) (pos : Z) : outcome rte_bitmap :=
  let index2 := Z.shiftr pos RTE_BITMAP_SLAB_BIT_SIZE_LOG2 in
  let offset2 := Z.land pos RTE_BITMAP_SLAB_BIT_MASK in
  let index1 := Z.shiftr pos (RTE_BITMAP_SLAB_BIT_SIZE_LOG2 + RTE_BITMAP_CL_BIT_SIZE_LOG2) in
  let offset1 := Z.land (Z.shiftr pos RTE_BITMAP_CL_BIT_SIZE_LOG2) RTE_BITMAP_SLAB_BIT_MASK in
  slab2 ← rd (array2 bmp) index2;
  a2 ← wr (array2 bmp) index2 (Z.lor slab2 (Z.shiftl 1 offset2));
  slab1 ← rd (array1 bmp) index1;
  a1 ← wr (array1 bmp) index1 (Z.lor slab1 (Z.shiftl 1 offset1));
  Ret (set_arrays a1 a2 bmp).

(* rte_lib/include/rte_bitmap.h:402-417 rte_bitmap_set_slab *)
Definition rte_bitmap_set_slab (bmp : rte_bitmap) (pos slab : Z) : outcome rte_bitmap :=
  let index2 := Z.shiftr pos RTE_BITMAP_SLAB_BIT_SIZE_LOG2 in
  let index1 := Z.shiftr pos (RTE_BITMAP_SLAB_BIT_SIZE_LOG2 + RTE_BITMAP_CL_BIT_SIZE_LOG2) in
  let offset1 := Z.land (Z.shiftr pos RTE_BITMAP_CL_BIT_SIZE_LOG2) RTE_BITMAP_SLAB_BIT_MASK in
  slab2 ← rd (array2 bmp) index2;
  a2 ← wr (array2 bmp) index2 (Z.lor slab2 slab);
  slab1 ← rd (array1 bmp) index1;
  a1 ← wr (array1 bmp) index1 (Z.lor slab1 (Z.shiftl 1 offset1));
  Ret (set_arrays a1 a2 bmp).

(** The line of eight slabs that starts at [i]. *)
(* rte_lib/include/rte_bitmap.h:420-433 __rte_bitmap_line_not_empty *)
Definition __rte_bitmap_line_not_empty (slabs : list Z) (i : Z) : outcome Z :=
  s0 ← rd slabs i; s1 ← rd slabs (i + 1); s2 ← rd slabs (i + 2); s3 ← rd slabs (i + 3);
  s4 ← rd slabs (i + 4); s5 ← rd slabs (i + 5); s6 ← rd slabs (i + 6); s7 ← rd slabs (i + 7);
  let v1 := Z.lor s0 s1 in
  let v2 := Z.lor s2 s3 in
  let v3 := Z.lor s4 s5 in
  let v4 := Z.lor s6 s7 in
  let v1 := Z.lor v1 v2 in
  let v3 := Z.lor v3 v4 in
  Ret (Z.lor v1 v3).

(* rte_lib/include/rte_bitmap.h:467-498 rte_bitmap_clear *)
Definition rte_bitmap_clear (bmp : rte_bitmap) (pos : Z) : outcome rte_bitmap :=
  let index2 := Z.shiftr pos RTE_BITMAP_SLAB_BIT_SIZE_LOG2 in
  let offset2 := Z.land pos RTE_BITMAP_SLAB_BIT_MASK in
  slab2 ← rd (array2 bmp) index2;
  let slab2 := Z.land slab2 (u64 (Z.lnot (Z.shiftl 1 offset2))) in
  a2 ← wr (array2 bmp) index2 slab2;
  if negb (slab2 =? 0) then Ret (set_arrays (array1 bmp) a2 bmp)
  else
    let index2 := Z.land index2 (u32 (Z.lnot RTE_BITMAP_CL_SLAB_MASK)) in
    line ← __rte_bitmap_line_not_empty a2 index2;
    if negb (line =? 0) then Ret (set_arrays (array1 bmp) a2 bmp)
    else
      let index1 := Z.shiftr pos (RTE_BITMAP_SLAB_BIT_SIZE_LOG2 + RTE_BITMAP_CL_BIT_SIZE_LOG2) in
      let offset1 := Z.land (Z.shiftr pos RTE_BITMAP_CL_BIT_SIZE_LOG2) RTE_BITMAP_SLAB_BIT_MASK in
      slab1 ← rd (array1 bmp) index1;
      a1 ← wr (array1 bmp) index1 (Z.land slab1 (u64 (Z.lnot (Z.shiftl 1 offset1))));
      Ret (set_arrays a1 a2 bmp).

(** ** Scan *)

(** [rte_bsf64_safe(value1, &bmp->offset1)]. *)
Definition bsf_offset1 (value1 : Z) (bmp : rte_bitmap) : outcome (Z * rte_bitmap) :=
  '(found, o) ← rte_bsf64_safe value1 (offset1 bmp);
  Ret (found, set_pos1 (index1 bmp) o bmp).

(** [for (i = 0; i < bmp->array1_size; i++, __rte_bitmap_index1_inc(bmp))], [n] passes. *)
(* rte_lib/include/rte_bitmap.h:520-525 __rte_bitmap_scan_search *)
Fixpoint search_array1 (n : nat) (bmp : rte_bitmap) : outcome (rte_bitmap * Z) :=
  match n with
  | O => Ret (bmp, 0)
  | S n =>
      value1 ← rd (array1 bmp) (index1 bmp);
      '(found, bmp) ← bsf_offset1 value1 bmp;
      if negb (found =? 0) then Ret (bmp, 1)
      else search_array1 n (__rte_bitmap_index1_inc bmp)
  end.

(* rte_lib/include/rte_bitmap.h:500-525 __rte_bitmap_scan_search *)
Definition __rte_bitmap_scan_search (bmp : rte_bitmap) : outcome (rte_bitmap * Z) :=
  value1 ← rd (array1 bmp) (index1 bmp);
  let value1 := Z.land value1 (__rte_bitmap_mask1_get bmp) in
  '(found, bmp) ← bsf_offset1 value1 bmp;
  if negb (found =? 0) then Ret (bmp, 1)
  else
    let bmp := __rte_bitmap_index1_inc bmp in
    let bmp := set_pos1 (index1 bmp) 0 bmp in
    search_array1 (Z.to_nat (array1_size bmp)) bmp.

(* rte_lib/include/rte_bitmap.h:527-533 __rte_bitmap_scan_read_init *)
Definition __rte_bitmap_scan_read_init (bmp : rte_bitmap) : rte_bitmap :=
  let bmp := __rte_bitmap_index2_set bmp in
  set_pos2 (index2 bmp) 1 bmp.

(** The loop ends at the end of the cache line, so eight passes are enough. [Some]: the
    position and the slab that are written. *)
(* rte_lib/include/rte_bitmap.h:541-551 __rte_bitmap_scan_read *)
Fixpoint scan_line (n : nat) (bmp : rte_bitmap) : outcome (rte_bitmap * option (Z * Z)) :=
  if go2 bmp =? 0 then Ret (bmp, None)
  else
    match n with
    | O => Spin
    | S n =>
        let i := index2 bmp in
        v ← rd (array2 bmp) i;
        let bmp := set_pos2 (i + 1)%u32 (Z.land (i + 1)%u32 RTE_BITMAP_CL_SLAB_MASK) bmp in
        if negb (v =? 0)
        then Ret (bmp, Some (u32 (Z.shiftl i RTE_BITMAP_SLAB_BIT_SIZE_LOG2), v))
        else scan_line n bmp
    end.

(* rte_lib/include/rte_bitmap.h:535-554 __rte_bitmap_scan_read *)
Definition __rte_bitmap_scan_read (bmp : rte_bitmap) (pos slab : Z)
    : outcome (rte_bitmap * Z * (Z * Z)) :=
  '(bmp, r) ← scan_line (Z.to_nat RTE_BITMAP_CL_SLAB_SIZE) bmp;
  match r with
  | Some out => Ret (bmp, 1, out)
  | None => Ret (bmp, 0, (pos, slab))
  end.

(** The result, and the cells [*pos] and [*slab] afterwards. *)
(* rte_lib/include/rte_bitmap.h:576-593 rte_bitmap_scan *)
Definition rte_bitmap_scan (bmp : rte_bitmap) (pos slab : Z) : outcome (rte_bitmap * Z * (Z * Z)) :=
  '(bmp, r, out) ← __rte_bitmap_scan_read bmp pos slab;
  if negb (r =? 0) then Ret (bmp, 1, out)
  else
    '(bmp, r) ← __rte_bitmap_scan_search bmp;
    if negb (r =? 0) then
      let bmp := __rte_bitmap_scan_read_init bmp in
      '(bmp, _, out) ← __rte_bitmap_scan_read bmp pos slab;
      Ret (bmp, 1, out)
    else Ret (bmp, 0, (pos, slab)).

(** ** Well-formed bitmaps *)

Definition slab_of (a : list Z) (j : Z) : Z := default 0 (a !! Z.to_nat j).
(** Bit [p] of an array of slabs. *)
Definition bit_of (a : list Z) (p : Z) : bool := Z.testbit (slab_of a (p / 64)) (p mod 64).
Definition line_used (a : list Z) (l : Z) : Prop := exists j, 8 * l <= j < 8 * l + 8 /\ slab_of a j <> 0.
Definition slabs_ok (a : list Z) : Prop := Forall (fun v => 0 <= v < 2 ^ 64) a.

(** [L] cache lines, [2 ^ k] summary slabs; a summary bit is set exactly when its line has
    a bit set; while a line is being read, the place in it belongs to the summary bit at
    which the search stopped. *)
Record bitmap_wf (L k : Z) (b : rte_bitmap) : Prop := {
  wf_k : 0 <= k <= 17;
  wf_L : 0 < L <= 64 * 2 ^ k;
  wf_L23 : L <= 2 ^ 23;
  wf_size1 : array1_size b = 2 ^ k;
  wf_size2 : array2_size b = 8 * L;
  wf_len1 : Z.of_nat (length (array1 b)) = 2 ^ k;
  wf_len2 : Z.of_nat (length (array2 b)) = 8 * L;
  wf_slabs1 : slabs_ok (array1 b);
  wf_slabs2 : slabs_ok (array2 b);
  wf_sum l : 0 <= l -> bit_of (array1 b) l = true <-> line_used (array2 b) l;
  wf_index1 : 0 <= index1 b < 2 ^ k;
  wf_offset1 : 0 <= offset1 b < 64;
  wf_index2 : go2 b <> 0 -> 0 <= index2 b < 8 * L /\ index2 b / 8 = index1 b * 64 + offset1 b;
}.

(** *** Arrays of slabs *)

Lemma slab_bounds a j : slabs_ok a -> 0 <= slab_of a j < 2 ^ 64.
Proof.
  intros Ha. unfold slab_of. destruct (a !! Z.to_nat j) as [v|] eqn:E; [|cbn; lia].
  cbn. by eapply Forall_lookup_1 in Ha.
Qed.

Lemma slab_out a j : Z.of_nat (length a) <= j -> slab_of a j = 0.
Proof. intros H. unfold slab_of. by rewrite lookup_ge_None_2 by lia. Qed.

Lemma rd_slab a j : 0 <= j < Z.of_nat (length a) -> rd a j = Ret (slab_of a j).
Proof.
  intros Hj. destruct (rd_ex a j Hj) as [v Hv]. rewrite Hv. apply rd_inv in Hv as [_ Hv].
  unfold slab_of. by rewrite Hv.
Qed.

Lemma slab_insert a j v j' : 0 <= j < Z.of_nat (length a) -> 0 <= j' ->
  slab_of (<[Z.to_nat j := v]> a) j' = if j =? j' then v else slab_of a j'.
Proof.
  intros Hj Hj'. unfold slab_of. destruct (Z.eqb_spec j j') as [<-|Hn].
  - by rewrite list_lookup_insert_eq by lia.
  - by rewrite list_lookup_insert_ne by lia.
Qed.

Lemma slabs_insert a j v : slabs_ok a -> 0 <= v < 2 ^ 64 -> slabs_ok (<[Z.to_nat j := v]> a).
Proof. intros Ha Hv. by apply Forall_insert. Qed.

Lemma slabs_replicate v n : 0 <= v < 2 ^ 64 -> slabs_ok (replicate n v).
Proof. intros H. by apply Forall_replicate. Qed.

(** Writing slab [j] changes the bits that it holds. *)
Lemma bit_insert a j v p : 0 <= j < Z.of_nat (length a) -> 0 <= p ->
  bit_of (<[Z.to_nat j := v]> a) p = if j =? p / 64 then Z.testbit v (p mod 64) else bit_of a p.
Proof.
  intros Hj Hp. unfold bit_of. rewrite slab_insert by (try apply Z.div_pos; lia).
  by destruct (j =? p / 64).
Qed.

Lemma bit_set a p q : 0 <= p -> p / 64 < Z.of_nat (length a) -> 0 <= q ->
  bit_of (<[Z.to_nat (p / 64) := Z.lor (slab_of a (p / 64)) (Z.shiftl 1 (p mod 64))]> a) q =
  (p =? q) || bit_of a q.
Proof.
  intros Hp Hl Hq. assert (0 <= p / 64) by (apply Z.div_pos; lia).
  rewrite bit_insert by lia. pose proof (Z.mod_pos_bound p 64 ltac:(lia)).
  destruct (Z.eqb_spec (p / 64) (q / 64)) as [E|E].
  - rewrite lor_shiftl1_bit by lia. unfold bit_of. rewrite E. f_equal.
    apply eq_true_iff_eq. rewrite !Z.eqb_eq. Z.div_mod_to_equations; lia.
  - rewrite (proj2 (Z.eqb_neq p q)); [done|]. by intros ->.
Qed.

Lemma bit_clear a p q : slabs_ok a -> 0 <= p -> p / 64 < Z.of_nat (length a) -> 0 <= q ->
  bit_of (<[Z.to_nat (p / 64) :=
     Z.land (slab_of a (p / 64)) (u64 (Z.lnot (Z.shiftl 1 (p mod 64))))]> a) q =
  negb (p =? q) && bit_of a q.
Proof.
  intros Ha Hp Hl Hq. assert (0 <= p / 64) by (apply Z.div_pos; lia).
  rewrite bit_insert by lia. pose proof (Z.mod_pos_bound p 64 ltac:(lia)).
  destruct (Z.eqb_spec (p / 64) (q / 64)) as [E|E].
  - unfold u64. change 18446744073709551616 with (2 ^ 64).
    rewrite (clear_bit 64) by (try lia; by apply slab_bounds). unfold bit_of. rewrite E. f_equal.
    f_equal. apply eq_true_iff_eq. rewrite !Z.eqb_eq. Z.div_mod_to_equations; lia.
  - rewrite (proj2 (Z.eqb_neq p q)); [done|]. by intros ->.
Qed.

(** A slab is non-zero when it holds a set bit, and then its line is used. *)
Lemma slab_nonzero a j : 0 <= j -> slabs_ok a ->
  slab_of a j <> 0 <-> exists p, 0 <= p /\ p / 64 = j /\ bit_of a p = true.
Proof.
  intros Hj Ha. rewrite nonzero_bit. split.
  - intros (i & Hi & Ht). assert (i < 64).
    { destruct (Z.lt_ge_cases i 64); [done|]. rewrite (testbit_out 64) in Ht; try lia.
      by apply slab_bounds. }
    exists (64 * j + i). unfold bit_of.
    replace ((64 * j + i) / 64) with j by (Z.div_mod_to_equations; lia).
    replace ((64 * j + i) mod 64) with i by (Z.div_mod_to_equations; lia). split; [lia|done].
  - intros (p & Hp & <- & Ht). exists (p mod 64). pose proof (Z.mod_pos_bound p 64). split; [lia|done].
Qed.

Lemma line_used_bits a l : 0 <= l -> slabs_ok a ->
  line_used a l <-> exists p, 0 <= p /\ p / 512 = l /\ bit_of a p = true.
Proof.
  intros Hl Ha. split.
  - intros (j & Hj & Hn). apply slab_nonzero in Hn as (p & Hp & <- & Ht); [|lia|done].
    exists p. split; [done|]. split; [|done]. Z.div_mod_to_equations; lia.
  - intros (p & Hp & <- & Ht). exists (p / 64). split; [Z.div_mod_to_equations; lia|].
    apply slab_nonzero; [apply Z.div_pos; lia|done|]. by exists p.
Qed.

(** *** Positions *)

Lemma pos_slab p : Z.shiftr p RTE_BITMAP_SLAB_BIT_SIZE_LOG2 = p / 64.
Proof. by rewrite Z.shiftr_div_pow2. Qed.
Lemma pos_offset p : Z.land p RTE_BITMAP_SLAB_BIT_MASK = p mod 64.
Proof. by apply (land_ones_mod p 6). Qed.
Lemma pos_index1 p :
  Z.shiftr p (RTE_BITMAP_SLAB_BIT_SIZE_LOG2 + RTE_BITMAP_CL_BIT_SIZE_LOG2) = p / 512 / 64.
Proof. rewrite Z.shiftr_div_pow2 by done. by rewrite Z.div_div. Qed.
Lemma pos_offset1 p :
  Z.land (Z.shiftr p RTE_BITMAP_CL_BIT_SIZE_LOG2) RTE_BITMAP_SLAB_BIT_MASK = p / 512 mod 64.
Proof. by rewrite Z.shiftr_div_pow2, pos_offset. Qed.
Create Rewrite HintDb bitmap.
#[local] Hint Rewrite pos_slab pos_offset pos_index1 pos_offset1 : bitmap.

Lemma wf_pos L k b p : bitmap_wf L k b -> 0 <= p < 512 * L ->
  0 <= p / 64 < Z.of_nat (length (array2 b)) /\ 0 <= p / 512 / 64 < Z.of_nat (length (array1 b)) /\
  0 <= p mod 64 < 64 /\ 0 <= p / 512.
Proof.
  intros Hw Hp. rewrite (wf_len1 _ _ _ Hw), (wf_len2 _ _ _ Hw).
  pose proof (wf_L _ _ _ Hw). split; [|split]; Z.div_mod_to_equations; lia.
Qed.

(** The arrays of a well-formed bitmap may be replaced by others that agree. *)
Lemma wf_arrays L k b a1 a2 : bitmap_wf L k b ->
  length a1 = length (array1 b) -> length a2 = length (array2 b) -> slabs_ok a1 -> slabs_ok a2 ->
  (forall l, 0 <= l -> bit_of a1 l = true <-> exists p, 0 <= p /\ p / 512 = l /\ bit_of a2 p = true) ->
  bitmap_wf L k (set_arrays a1 a2 b).
Proof.
  intros [] H1 H2 S1 S2 Hs. split; cbn; try assumption; try congruence.
  intros l Hl. by rewrite line_used_bits, Hs.
Qed.

Lemma wf_sum_bits L k b l : bitmap_wf L k b -> 0 <= l ->
  bit_of (array1 b) l = true <-> exists p, 0 <= p /\ p / 512 = l /\ bit_of (array2 b) p = true.
Proof. intros Hw Hl. rewrite <- line_used_bits by (done || apply Hw). by apply Hw. Qed.

(** ** Set, clear, get *)

Lemma shiftl1_64 i : 0 <= i < 64 -> 0 <= Z.shiftl 1 i < 2 ^ 64.
Proof. apply shiftl1_small. Qed.
Lemma slab_lor a j x : slabs_ok a -> 0 <= x < 2 ^ 64 -> 0 <= Z.lor (slab_of a j) x < 2 ^ 64.
Proof. intros Ha Hx. apply lor_bound; [lia|by apply slab_bounds|done]. Qed.
Lemma slab_land a j x : slabs_ok a -> 0 <= Z.land (slab_of a j) x < 2 ^ 64.
Proof. intros Ha. apply land_bound; [lia|by apply slab_bounds]. Qed.

Lemma bitmap_get_run L k b p : bitmap_wf L k b -> 0 <= p < 512 * L ->
  exists v, rte_bitmap_get b p = Ret v /\ (v <> 0 <-> bit_of (array2 b) p = true).
Proof.
  intros Hw Hp. destruct (wf_pos _ _ _ _ Hw Hp) as (H2 & H1 & Hm & Hl).
  unfold rte_bitmap_get. autorewrite with bitmap. rewrite rd_slab by lia. cbn.
  eexists. split; [done|]. rewrite land_shiftl1 by lia. fold (bit_of (array2 b) p).
  destruct (bit_of (array2 b) p); [|by split].
  pose proof (Z.pow_pos_nonneg 2 (p mod 64)). split; [done|lia].
Qed.

(** The bits that [set_slab p s] adds. *)
Definition slab_bits (p s q : Z) : bool := (p / 64 =? q / 64) && Z.testbit s (q mod 64).

Lemma bitmap_set_slab_run L k b p s :
  bitmap_wf L k b -> 0 <= p < 512 * L -> 0 <= s < 2 ^ 64 -> s <> 0 ->
  exists b', rte_bitmap_set_slab b p s = Ret b' /\ bitmap_wf L k b' /\
    forall q, 0 <= q -> bit_of (array2 b') q = slab_bits p s q || bit_of (array2 b) q.
Proof.
  intros Hw Hp Hs Hs0. destruct (wf_pos _ _ _ _ Hw Hp) as (H2 & H1 & Hm & Hl).
  pose proof (Z.mod_pos_bound (p / 512) 64 ltac:(lia)).
  unfold rte_bitmap_set_slab. autorewrite with bitmap.
  rewrite (rd_slab (array2 b)) by lia. cbn [mbind outcome_bind]. rewrite wr_Ret by lia. cbn [mbind outcome_bind].
  rewrite (rd_slab (array1 b)) by lia. cbn [mbind outcome_bind]. rewrite wr_Ret by lia. cbn [mbind outcome_bind].
  eexists. split; [done|].
  assert (Hb : forall q, 0 <= q ->
    bit_of (<[Z.to_nat (p / 64) := Z.lor (slab_of (array2 b) (p / 64)) s]> (array2 b)) q =
    slab_bits p s q || bit_of (array2 b) q).
  { intros q Hq. rewrite bit_insert by lia. unfold slab_bits.
    destruct (Z.eqb_spec (p / 64) (q / 64)) as [E|E]; [|done].
    rewrite Z.lor_spec, E. apply orb_comm. }
  split; [|exact Hb].
  apply wf_arrays; [done|by rewrite length_insert..| | |].
  - apply slabs_insert; [apply Hw|]. apply slab_lor; [apply Hw|by apply shiftl1_64].
  - apply slabs_insert; [apply Hw|]. apply slab_lor; [apply Hw|done].
  - intros l Hl'. rewrite bit_set by lia. rewrite orb_true_iff, Z.eqb_eq, (wf_sum_bits _ _ _ _ Hw) by done.
    split.
    + intros [<- | (q & Hq & E & Ht)].
      * apply nonzero_bit in Hs0 as (i & Hi & Ht). assert (i < 64).
        { destruct (Z.lt_ge_cases i 64); [done|]. by rewrite (testbit_out 64) in Ht by lia. }
        exists (64 * (p / 64) + i). rewrite Hb by lia. unfold slab_bits.
        replace ((64 * (p / 64) + i) / 64) with (p / 64) by (Z.div_mod_to_equations; lia).
        replace ((64 * (p / 64) + i) mod 64) with i by (Z.div_mod_to_equations; lia).
        rewrite Z.eqb_refl, Ht. split; [lia|]. split; [|done]. Z.div_mod_to_equations; lia.
      * exists q. split; [done|]. split; [done|]. rewrite Hb by lia. rewrite Ht. apply orb_true_r.
    + intros (q & Hq & E & Ht). rewrite Hb in Ht by lia. apply orb_true_iff in Ht as [Ht|Ht].
      * left. apply andb_true_iff in Ht as [Ht _]. apply Z.eqb_eq in Ht. Z.div_mod_to_equations; lia.
      * right. by exists q.
Qed.

(** [set] is [set_slab] with a slab of one bit. *)
Lemma bitmap_set_as_slab b p : 0 <= p -> rte_bitmap_set b p = rte_bitmap_set_slab b p (Z.shiftl 1 (p mod 64)).
Proof. intros Hp. unfold rte_bitmap_set, rte_bitmap_set_slab. autorewrite with bitmap. reflexivity. Qed.

Lemma slab_bits_one p q : slab_bits p (Z.shiftl 1 (p mod 64)) q = (p =? q).
Proof.
  unfold slab_bits. pose proof (Z.mod_pos_bound p 64 ltac:(lia)). rewrite testbit_shiftl1 by lia.
  apply eq_true_iff_eq. rewrite andb_true_iff, !Z.eqb_eq. Z.div_mod_to_equations; lia.
Qed.

Lemma bitmap_set_run L k b p : bitmap_wf L k b -> 0 <= p < 512 * L ->
  exists b', rte_bitmap_set b p = Ret b' /\ bitmap_wf L k b' /\
    forall q, 0 <= q -> bit_of (array2 b') q = (p =? q) || bit_of (array2 b) q.
Proof.
  intros Hw Hp. rewrite bitmap_set_as_slab by lia. pose proof (Z.mod_pos_bound p 64 ltac:(lia)).
  destruct (bitmap_set_slab_run L k b p (Z.shiftl 1 (p mod 64))) as (b' & E & Hw' & Hb); [done..|by apply shiftl1_64| |].
  - rewrite Z.shiftl_1_l. pose proof (Z.pow_pos_nonneg 2 (p mod 64)). lia.
  - exists b'. split; [done|]. split; [done|]. intros q Hq. by rewrite Hb, slab_bits_one.
Qed.

Lemma line_start x : 0 <= x < 2 ^ 32 -> Z.land x (u32 (Z.lnot RTE_BITMAP_CL_SLAB_MASK)) = 8 * (x / 8).
Proof.
  intros Hx. transitivity (Z.land x (Z.lnot (2 ^ 3 - 1))).
  - apply Z.bits_inj'. intros i Hi. rewrite !Z.land_spec.
    destruct (decide (i < 32)).
    + unfold u32. change 4294967296 with (2 ^ 32). rewrite testbit_lnot_mod by lia.
      by rewrite Z.lnot_spec by lia.
    + by rewrite (testbit_out 32 x) by lia.
  - rewrite land_lnot_ones by lia. change (2 ^ 3) with 8. Z.div_mod_to_equations; lia.
Qed.

Lemma line_not_empty_run a l : 0 <= l -> 8 * l + 8 <= Z.of_nat (length a) ->
  exists v, __rte_bitmap_line_not_empty a (8 * l) = Ret v /\ (v <> 0 <-> line_used a l).
Proof.
  intros Hl Ha. unfold __rte_bitmap_line_not_empty. rewrite !rd_slab by lia. cbn [mbind outcome_bind].
  eexists. split; [done|]. rewrite !Z.lor_eq_0_iff. split.
  - intros H. assert (Hj : exists j, 8 * l <= j < 8 * l + 8 /\ slab_of a j <> 0); [|exact Hj].
    destruct (decide (Exists (fun i => slab_of a (8 * l + i) <> 0) [0;1;2;3;4;5;6;7])) as [He|He].
    + apply Exists_exists in He as (i & Hi & Hn). exists (8 * l + i). split; [|done].
      apply list_elem_of_In in Hi. cbn in Hi. lia.
    + exfalso. apply H. rewrite <- Forall_Exists_neg in He.
      repeat match goal with H : Forall _ (_ :: _) |- _ => apply Forall_cons in H as [? H] end.
      repeat match goal with H : ~ (_ <> 0) |- _ => apply dec_stable in H end.
      rewrite Z.add_0_r in *. tauto.
  - intros (j & Hj & Hn) H. apply Hn.
    assert (j = 8 * l \/ j = 8 * l + 1 \/ j = 8 * l + 2 \/ j = 8 * l + 3 \/ j = 8 * l + 4 \/
      j = 8 * l + 5 \/ j = 8 * l + 6 \/ j = 8 * l + 7) as Hc by lia.
    repeat destruct Hc as [->|Hc]; try subst; tauto.
Qed.

Section Clear.
Context (L k : Z) (b : rte_bitmap) (p : Z) (a2 : list Z).
Hypothesis Hw : bitmap_wf L k b.
Hypothesis Hp : 0 <= p < 512 * L.
(** [a2] is the array of slabs with bit [p] cleared. *)
Hypothesis Hlen : length a2 = length (array2 b).
Hypothesis Hok : slabs_ok a2.
Hypothesis Hbits : forall q, 0 <= q -> bit_of a2 q = negb (p =? q) && bit_of (array2 b) q.

Lemma kept_bit q : 0 <= q -> p / 512 <> q / 512 -> bit_of a2 q = bit_of (array2 b) q.
Proof. intros Hq Hn. rewrite Hbits by done. rewrite (proj2 (Z.eqb_neq p q)); [done|]. by intros ->. Qed.

Lemma bit_was q : 0 <= q -> bit_of a2 q = true -> bit_of (array2 b) q = true.
Proof. intros Hq. rewrite Hbits by done. by intros [_ ?]%andb_true_iff. Qed.

(** The summary bit stays right as long as its line is still used... *)
Lemma clear_keeps : line_used a2 (p / 512) -> bitmap_wf L k (set_arrays (array1 b) a2 b).
Proof.
  intros Hu. apply wf_arrays; [done..|apply Hw|done|].
  intros l Hl'. rewrite (wf_sum_bits _ _ _ _ Hw) by done. split; intros (q & Hq & E & Ht).
  - destruct (Z.eq_dec (p / 512) l) as [<-|Hn].
    { apply line_used_bits in Hu; [done| |done]. Z.div_mod_to_equations; lia. }
    exists q. rewrite kept_bit by (done || congruence). done.
  - exists q. by auto using bit_was.
Qed.

(** ...and is cleared with the last bit of the line. *)
Lemma clear_drops : ~ line_used a2 (p / 512) -> bitmap_wf L k (set_arrays
  (<[Z.to_nat (p / 512 / 64) := Z.land (slab_of (array1 b) (p / 512 / 64))
      (u64 (Z.lnot (Z.shiftl 1 (p / 512 mod 64))))]> (array1 b)) a2 b).
Proof.
  intros Hu. destruct (wf_pos _ _ _ _ Hw Hp) as (H2 & H1 & Hm & Hl).
  pose proof (wf_slabs1 _ _ _ Hw) as S1.
  apply wf_arrays; [done|by rewrite length_insert|done| |done|].
  - apply slabs_insert; [done|by apply slab_land].
  - intros l Hl'. rewrite bit_clear by (done || lia).
    rewrite andb_true_iff, (wf_sum_bits _ _ _ _ Hw) by done. split.
    + intros (Hn & q & Hq & E & Ht). apply negb_true_iff, Z.eqb_neq in Hn.
      exists q. rewrite kept_bit by (done || congruence). done.
    + intros (q & Hq & E & Ht). split; [|exists q; by auto using bit_was].
      apply negb_true_iff, Z.eqb_neq. intros <-. apply Hu, line_used_bits; [done..|]. by exists q.
Qed.
End Clear.

Lemma bitmap_clear_run L k b p : bitmap_wf L k b -> 0 <= p < 512 * L ->
  exists b', rte_bitmap_clear b p = Ret b' /\ bitmap_wf L k b' /\
    forall q, 0 <= q -> bit_of (array2 b') q = negb (p =? q) && bit_of (array2 b) q.
Proof.
  intros Hw Hp. destruct (wf_pos _ _ _ _ Hw Hp) as (H2 & H1 & Hm & Hl).
  pose proof (wf_slabs2 _ _ _ Hw) as S2.
  unfold rte_bitmap_clear. autorewrite with bitmap.
  rewrite (rd_slab (array2 b)) by lia. cbn [mbind outcome_bind]. rewrite wr_Ret by lia. cbn [mbind outcome_bind].
  set (v := Z.land (slab_of (array2 b) (p / 64)) (u64 (Z.lnot (Z.shiftl 1 (p mod 64))))).
  set (a2 := <[Z.to_nat (p / 64):=v]> (array2 b)).
  assert (Hb : forall q, 0 <= q -> bit_of a2 q = negb (p =? q) && bit_of (array2 b) q)
    by (intros q Hq; apply bit_clear; (done || lia)).
  assert (S2' : slabs_ok a2) by (apply slabs_insert; [done|by apply slab_land]).
  assert (L2 : length a2 = length (array2 b)) by apply length_insert.
  pose proof (clear_keeps L k b p a2 Hw Hp L2 S2' Hb) as Hkeep.
  pose proof (clear_drops L k b p a2 Hw Hp L2 S2' Hb) as Hdrop.
  assert (Hv : v = slab_of a2 (p / 64)) by (unfold a2; by rewrite slab_insert, Z.eqb_refl by lia).
  destruct (Z.eqb_spec v 0) as [Hv0|Hv0]; cbn [negb].
  2: { eexists. split; [done|]. split; [|exact Hb]. apply Hkeep. exists (p / 64). rewrite <- Hv.
       split; [Z.div_mod_to_equations; lia|done]. }
  pose proof (wf_len2 _ _ _ Hw). pose proof (wf_L23 _ _ _ Hw).
  rewrite line_start by lia. rewrite (Z.div_div p 64 8) by lia. change (64 * 8) with 512.
  destruct (line_not_empty_run a2 (p / 512)) as (w & -> & Hu); [done|Z.div_mod_to_equations; lia|].
  cbn [mbind outcome_bind]. destruct (Z.eqb_spec w 0) as [->|Hw0]; cbn [negb].
  - rewrite (rd_slab (array1 b)) by lia. cbn [mbind outcome_bind]. rewrite wr_Ret by lia.
    eexists. split; [done|]. split; [|exact Hb]. apply Hdrop. tauto.
  - eexists. split; [done|]. split; [|exact Hb]. tauto.
Qed.

(** ** Initialisation *)

Lemma footprint_eq n : 0 < n <= 2 ^ 32 - 512 ->
  let L := (n + 511) / 512 in
  exists k C, 0 <= k <= 17 /\ 0 < L <= 64 * 2 ^ k /\ L <= 2 ^ 23 /\ 5 + 2 ^ k <= 8 * C /\
    __rte_bitmap_get_memory_footprint n = (64 * (C + L), (40, 2 ^ k, 64 * C, 8 * L)).
Proof.
  intros Hn L. assert (HL : 0 < L <= 2 ^ 23) by (unfold L; Z.div_mod_to_equations; lia).
  set (m := (L + 63) / 64). assert (Hm : 0 < m <= 2 ^ 17) by (unfold m; Z.div_mod_to_equations; lia).
  set (k := Z.log2_up m). destruct (pow2_log2_up_bounds m) as (Hk0 & Hk1 & _); [lia|].
  assert (Hk : k <= 17) by (change 17 with (Z.log2_up (2 ^ 17)); apply Z.log2_up_le_mono; lia).
  assert (H2k : 0 < 2 ^ k <= 2 ^ 17) by (split; [lia|apply Z.pow_le_mono_r; lia]).
  exists k, ((2 ^ k + 12) / 8). split; [lia|]. split; [split; [lia|]|split; [lia|]].
  { fold k in Hk1. unfold m in Hk1. Z.div_mod_to_equations; lia. }
  split; [Z.div_mod_to_equations; lia|].
  unfold __rte_bitmap_get_memory_footprint.
  change RTE_BITMAP_CL_BIT_SIZE with 512. change RTE_BITMAP_SLAB_BIT_SIZE with 64.
  change RTE_BITMAP_CL_SLAB_SIZE with 8. change RTE_CACHE_LINE_SIZE with 64.
  change (u32 ((SIZEOF_RTE_BITMAP + 64 / 8 - 1) / (64 / 8))) with 5. change (64 / 8) with 8.
  rewrite (u32_small (n + 512 - 1)) by lia.
  replace (n + 512 - 1) with (n + 511) by lia. fold L.
  rewrite (u32_small (L + 64 - 1)) by lia.
  replace (L + 64 - 1) with (L + 63) by lia. fold m.
  rewrite rte_align32pow2_log2_up by lia. fold k.
  change ((5 * 8)%u32) with 40. cbv zeta.
  assert (Hc : (5 + 2 ^ k + 8 - 1)%u32 / 8 = (2 ^ k + 12) / 8).
  { rewrite u32_small by lia. f_equal. lia. }
  rewrite Hc. set (C := (2 ^ k + 12) / 8).
  assert (0 <= C <= 2 ^ 15) by (unfold C; Z.div_mod_to_equations; lia).
  rewrite !u32_small by lia.
  by rewrite (Z.mul_comm (C + L)), (Z.mul_comm C), (Z.mul_comm L).
Qed.

Lemma slab_replicate v n j : 0 <= j < Z.of_nat n -> slab_of (replicate n v) j = v.
Proof.
  intros Hj. unfold slab_of. rewrite <- (Z2Nat.id j) in Hj by lia.
  rewrite lookup_replicate_2; [done|lia].
Qed.

Lemma bit_zeros n p : bit_of (replicate n 0) p = false.
Proof.
  unfold bit_of, slab_of. destruct (replicate n 0 !! _) as [v|] eqn:E; [|apply Z.bits_0].
  apply lookup_replicate_1 in E as [-> _]. apply Z.bits_0.
Qed.

(** The place of a scan that has not begun. *)
Definition scan_fresh (b : rte_bitmap) : Prop :=
  index1 b = array1_size b - 1 /\ offset1 b = 63 /\ go2 b = 0.

Lemma scan_init_wf L k b :
  0 <= k <= 17 -> 0 < L <= 64 * 2 ^ k -> L <= 2 ^ 23 ->
  array1_size b = 2 ^ k -> array2_size b = 8 * L ->
  Z.of_nat (length (array1 b)) = 2 ^ k -> Z.of_nat (length (array2 b)) = 8 * L ->
  slabs_ok (array1 b) -> slabs_ok (array2 b) ->
  (forall l, 0 <= l -> bit_of (array1 b) l = true <-> line_used (array2 b) l) ->
  bitmap_wf L k (__rte_bitmap_scan_init b) /\ scan_fresh (__rte_bitmap_scan_init b).
Proof.
  intros Hk HL HL2 H1 H2 H3 H4 H5 H6 H7.
  assert (2 ^ k <= 2 ^ 17) by (apply Z.pow_le_mono_r; lia).
  assert (Hu : (2 ^ k - 1)%u32 = 2 ^ k - 1) by (apply u32_small; lia).
  split; [split; cbn; try done|split; [|done]; cbn]; rewrite ?H1, ?Hu; try lia.
Qed.

Lemma zeros_sum n1 n2 l : bit_of (replicate n1 0) l = true <-> line_used (replicate n2 0) l.
Proof.
  rewrite bit_zeros. split; [done|]. intros (j & _ & Hj). exfalso. apply Hj.
  unfold slab_of. destruct (replicate n2 0 !! _) eqn:E; [|done].
  by apply lookup_replicate_1 in E as [-> _].
Qed.

Lemma zeros_wf L k b :
  0 <= k <= 17 -> 0 < L <= 64 * 2 ^ k -> L <= 2 ^ 23 -> array1_size b = 2 ^ k -> array2_size b = 8 * L ->
  array1 b = replicate (Z.to_nat (2 ^ k)) 0 -> array2 b = replicate (Z.to_nat (8 * L)) 0 ->
  bitmap_wf L k (__rte_bitmap_scan_init b) /\ scan_fresh (__rte_bitmap_scan_init b) /\
  forall q, bit_of (array2 (__rte_bitmap_scan_init b)) q = false.
Proof.
  intros Hk HL HL2 H1 H2 H3 H4. 
  destruct (scan_init_wf L k b) as [Hw Hf]; rewrite ?H3, ?H4, ?length_replicate; try done; try lia;
    try (apply slabs_replicate; lia).
  - intros l _. apply zeros_sum.
  - split; [done|]. split; [done|]. intros q. cbn. rewrite H4. apply bit_zeros.
Qed.

Lemma bitmap_init_run n mem mem_size :
  0 < n <= 2 ^ 32 - 512 -> mem <> 0 -> mem mod 64 = 0 ->
  rte_bitmap_get_memory_footprint n <= mem_size ->
  exists k b, rte_bitmap_init n mem mem_size = Ret (Some b) /\
    bitmap_wf ((n + 511) / 512) k b /\ scan_fresh b /\ forall q, bit_of (array2 b) q = false.
Proof.
  intros Hn Hm Ha Hs. unfold rte_bitmap_get_memory_footprint in Hs.
  rewrite (proj2 (Z.eqb_neq n 0)) in Hs by lia.
  destruct (footprint_eq n Hn) as (k & C & Hk & HL & HL2 & HC & E). rewrite E in Hs. cbn [fst] in Hs.
  unfold rte_bitmap_init. rewrite (proj2 (Z.eqb_neq n 0)), (proj2 (Z.eqb_neq mem 0)) by lia.
  change (RTE_CACHE_LINE_SIZE - 1) with (2 ^ 6 - 1).
  rewrite land_ones_mod, (Ha : mem mod 2 ^ 6 = 0), E by lia. cbn [orb negb Z.eqb].
  rewrite Z.gtb_ltb, (proj2 (Z.ltb_ge _ _)) by lia. unfold memset_ok.
  rewrite (proj2 (Z.leb_le _ _)) by lia. cbn [mbind outcome_bind].
  exists k. eexists. split; [done|].
  by apply zeros_wf.
Qed.

Lemma bitmap_reset_run L k b : bitmap_wf L k b ->
  exists b', rte_bitmap_reset b = Ret b' /\ bitmap_wf L k b' /\ scan_fresh b' /\
    forall q, bit_of (array2 b') q = false.
Proof.
  intros [Hk HL HL2 H1 H2 H3 H4 _ _ _ _ _ _]. unfold rte_bitmap_reset. rewrite H1, H2.
  rewrite !(proj2 (Z.leb_le _ _)) by lia. cbn [andb].
  rewrite !drop_ge by lia. rewrite !app_nil_r. eexists. split; [done|].
  by apply zeros_wf.
Qed.
