(* ===== verification/BitmapScan.v ===== *)
(** * The scan of the bitmap

    From a cursor in the slabs, a scan finds the first non-empty slab, going round
    ([bitmap_scan_run]); repeated scans enumerate the non-empty slabs
    ([scan_enumerates]). *)

From stdpp Require Import gmap.
From S2P Require Import Prelude Common BitOps Bitmap.

Open Scope Z_scope.

(** ** Scan *)

(** [d] is the distance from [c], going round [M], to the first element that [P] holds of. *)
Definition first_from (P : Z -> Prop) (M c d : Z) : Prop :=
  0 <= d /\ P ((c + d) mod M) /\ forall e, 0 <= e < d -> ~ P ((c + e) mod M).

(** The next slab that a scan looks at. *)
Definition cursor (b : rte_bitmap) : Z :=
  if go2 b =? 0 then 8 * (64 * index1 b + offset1 b + 1) else index2 b.

Lemma land7 x : Z.land x RTE_BITMAP_CL_SLAB_MASK = x mod 8.
Proof. by apply (land_ones_mod x 3). Qed.

(** *** Within a line *)

Lemma scan_line_stop n b : go2 b = 0 -> scan_line n b = Ret (b, None).
Proof. intros Hg. destruct n; cbn [scan_line]; by rewrite Hg. Qed.

Lemma scan_line_run n b l :
  go2 b <> 0 -> 8 * l <= index2 b < 8 * l + 8 -> 0 <= l ->
  8 * l + 8 <= Z.of_nat (length (array2 b)) -> 8 * l + 8 <= 2 ^ 26 ->
  8 * l + 8 - index2 b <= Z.of_nat n ->
  (exists j, index2 b <= j < 8 * l + 8 /\ slab_of (array2 b) j <> 0 /\
     (forall i, index2 b <= i < j -> slab_of (array2 b) i = 0) /\
     scan_line n b = Ret (set_pos2 (j + 1) ((j + 1) mod 8) b, Some (64 * j, slab_of (array2 b) j))) \/
  ((forall i, index2 b <= i < 8 * l + 8 -> slab_of (array2 b) i = 0) /\
   scan_line n b = Ret (set_pos2 (8 * l + 8) 0 b, None)).
Proof.
  revert b. induction n as [|n IH]; intros b Hg Hi Hl Hlen H26 Hn; [lia|].
  cbn [scan_line]. rewrite (proj2 (Z.eqb_neq _ _) Hg).
  rewrite rd_slab by lia. cbn [mbind outcome_bind]. rewrite (u32_small (index2 b + 1)) by lia.
  rewrite land7. set (v := slab_of (array2 b) (index2 b)).
  destruct (Z.eqb_spec v 0) as [Hv|Hv]; cbn [negb].
  2: { left. exists (index2 b). split; [lia|]. split; [done|]. split; [lia|].
       do 4 f_equal. rewrite Z.shiftl_mul_pow2 by done.
       change (2 ^ RTE_BITMAP_SLAB_BIT_SIZE_LOG2) with 64. rewrite u32_small by lia. lia. }
  destruct (Z.eq_dec (index2 b + 1) (8 * l + 8)) as [E|E].
  - right. split; [intros i Hi'; replace i with (index2 b) by lia; done|].
    rewrite E. replace ((8 * l + 8) mod 8) with 0 by (Z.div_mod_to_equations; lia).
    by destruct n.
  - specialize (IH (set_pos2 (index2 b + 1) ((index2 b + 1) mod 8) b)). cbn in IH.
    destruct IH as [(j & Hj & Hv' & Hz & ->)|(Hz & ->)]; try (Z.div_mod_to_equations; lia); try done.
    + left. exists j. split; [lia|]. split; [done|]. split; [|done].
      intros i Hi'. destruct (Z.eq_dec i (index2 b)) as [->|]; [done|]. apply Hz; lia.
    + right. split; [|done].
      intros i Hi'. destruct (Z.eq_dec i (index2 b)) as [->|]; [done|]. apply Hz; lia.
Qed.

(** *** The search for a line *)

Lemma bsf_offset1_run v b : 0 <= v < 2 ^ 64 ->
  (v = 0 /\ bsf_offset1 v b = Ret (0, b)) \/
  exists o, 0 <= o < 64 /\ Z.testbit v o = true /\ (forall i, i < o -> Z.testbit v i = false) /\
    bsf_offset1 v b = Ret (1, set_pos1 (index1 b) o b).
Proof.
  intros Hv. unfold bsf_offset1, rte_bsf64_safe. destruct (Z.eqb_spec v 0) as [->|Hn].
  - left. split; [done|]. by destruct b.
  - right. destruct v as [|q|q]; [lia| |lia]. exists (pos_ctz q).
    pose proof (pos_ctz_nonneg q). pose proof (pos_ctz_lt q 64). split; [lia|].
    split; [apply pos_ctz_bit|]. split; [apply pos_ctz_low|].
    cbn. rewrite u32_small by lia. done.
Qed.

Lemma mask1_bit b i : 0 <= offset1 b < 64 -> 0 <= i < 64 ->
  Z.testbit (__rte_bitmap_mask1_get b) i = (offset1 b <? i).
Proof.
  intros Ho Hi. unfold __rte_bitmap_mask1_get, u64. change 18446744073709551616 with (2 ^ 64).
  rewrite Z.mod_pow2_bits_low, Z.shiftl_spec by lia.
  destruct (Z.ltb_spec (offset1 b) i) as [Hlt|Hge].
  - rewrite testbit_lnot_mod by lia. destruct (Z.eq_dec (i - offset1 b) 1) as [->|]; [done|].
    by rewrite (testbit_out 1) by lia.
  - destruct (Z.eq_dec (i - offset1 b) 0) as [->|]; [done|]. by rewrite Z.testbit_neg_r by lia.
Qed.

Lemma index1_inc_run k b : 0 <= k <= 17 -> array1_size b = 2 ^ k -> 0 <= index1 b < 2 ^ k ->
  __rte_bitmap_index1_inc b = set_pos1 ((index1 b + 1) mod 2 ^ k) (offset1 b) b.
Proof.
  intros Hk Hs Hi. assert (2 ^ k <= 2 ^ 17) by (apply Z.pow_le_mono_r; lia).
  unfold __rte_bitmap_index1_inc. rewrite Hs, !u32_small by lia. by rewrite land_ones_mod by lia.
Qed.

(** [n] slabs of [array1] from [index1], going round. *)
Lemma search_array1_run k n b :
  0 <= k <= 17 -> array1_size b = 2 ^ k -> Z.of_nat (length (array1 b)) = 2 ^ k ->
  slabs_ok (array1 b) -> 0 <= index1 b < 2 ^ k ->
  (exists d o, 0 <= d < Z.of_nat n /\ 0 <= o < 64 /\
     let x := (index1 b + d) mod 2 ^ k in
     Z.testbit (slab_of (array1 b) x) o = true /\
     (forall i, i < o -> Z.testbit (slab_of (array1 b) x) i = false) /\
     (forall e, 0 <= e < d -> slab_of (array1 b) ((index1 b + e) mod 2 ^ k) = 0) /\
     search_array1 n b = Ret (set_pos1 x o b, 1)) \/
  ((forall e, 0 <= e < Z.of_nat n -> slab_of (array1 b) ((index1 b + e) mod 2 ^ k) = 0) /\
   exists x, 0 <= x < 2 ^ k /\ search_array1 n b = Ret (set_pos1 x (offset1 b) b, 0)).
Proof.
  revert b. induction n as [|n IH]; intros b Hk Hs Hl Ha Hi; cbn [search_array1].
  { right. split; [lia|]. exists (index1 b). split; [done|]. by destruct b. }
  rewrite rd_slab by lia. cbn [mbind outcome_bind].
  pose proof (slab_bounds _ (index1 b) Ha) as Hv.
  destruct (bsf_offset1_run _ b Hv) as [[Hz ->]|(o & Ho & Ht & Hlow & ->)]; cbn [mbind outcome_bind negb Z.eqb].
  2: { left. exists 0, o. cbv zeta. rewrite Z.add_0_r, Z.mod_small by lia.
       split; [lia|]. split; [done|]. split; [done|]. split; [done|]. split; [lia|done]. }
  rewrite (index1_inc_run k) by done.
  specialize (IH (set_pos1 ((index1 b + 1) mod 2 ^ k) (offset1 b) b)). cbn in IH.
  assert (Hm : 0 <= (index1 b + 1) mod 2 ^ k < 2 ^ k) by (apply Z.mod_pos_bound; lia).
  assert (Hadd : forall e, ((index1 b + 1) mod 2 ^ k + e) mod 2 ^ k = (index1 b + (e + 1)) mod 2 ^ k).
  { intros e. rewrite Zplus_mod_idemp_l. f_equal. lia. }
  assert (Hhead : slab_of (array1 b) ((index1 b + 0) mod 2 ^ k) = 0)
    by (rewrite Z.add_0_r, Z.mod_small by lia; done).
  destruct IH as [(d & o & Hd & Ho & Ht & Hlow & Hz' & E)|(Hz' & x & Hx & E)]; try done.
  - left. exists (d + 1), o. rewrite Hadd in Ht, Hlow, E.
    split; [lia|]. split; [done|]. split; [done|]. split; [done|]. split; [|exact E].
    intros e He. destruct (Z.eq_dec e 0) as [->|]; [done|].
    specialize (Hz' (e - 1) ltac:(lia)). rewrite Hadd in Hz'. by replace (e - 1 + 1) with e in Hz' by lia.
  - right. split; [|by exists x].
    intros e He. destruct (Z.eq_dec e 0) as [->|]; [done|].
    specialize (Hz' (e - 1) ltac:(lia)). rewrite Hadd in Hz'. by replace (e - 1 + 1) with e in Hz' by lia.
Qed.

Lemma mod_block m y o K : 0 < m -> 0 <= o < m -> 0 < K -> (m * y + o) mod (m * K) = m * (y mod K) + o.
Proof.
  intros Hm Ho HK. pose proof (Z.mod_pos_bound y K HK). pose proof (Z.div_mod y K).
  symmetry. apply Z.mod_unique with (q := y / K); [left|]; nia.
Qed.

Lemma sum_bit_at b x o : 0 <= o < 64 -> bit_of (array1 b) (64 * x + o) = Z.testbit (slab_of (array1 b) x) o.
Proof.
  intros Ho. unfold bit_of.
  replace ((64 * x + o) / 64) with x by (Z.div_mod_to_equations; lia).
  by replace ((64 * x + o) mod 64) with o by (Z.div_mod_to_equations; lia).
Qed.

Lemma unused_line L k b l : bitmap_wf L k b -> 0 <= l -> bit_of (array1 b) l = false -> ~ line_used (array2 b) l.
Proof. intros Hw Hl Hb Hu. apply (wf_sum _ _ _ Hw) in Hu; congruence. Qed.

Section Search.
Context (L k : Z) (b : rte_bitmap).
Hypothesis Hw : bitmap_wf L k b.
Let x := index1 b.
Let o := offset1 b.
Let value1 := Z.land (slab_of (array1 b) x) (__rte_bitmap_mask1_get b).
(** The line after the current one, and the slab that the search turns to next. *)
Let c := 64 * x + o + 1.
Let next := (x + 1) mod 2 ^ k.
Let used l := line_used (array2 b) (l mod (64 * 2 ^ k)).

Lemma value1_bit i : 0 <= i < 64 -> Z.testbit value1 i = bit_of (array1 b) (64 * x + i) && (o <? i).
Proof. intros Hi. unfold value1. by rewrite Z.land_spec, mask1_bit, sum_bit_at by (done || apply Hw). Qed.

Lemma not_used_bit y q : 0 <= y < 2 ^ k -> 0 <= q < 64 ->
  Z.testbit (slab_of (array1 b) y) q = false -> ~ used (64 * y + q).
Proof.
  intros Hy Hq Ht. unfold used. rewrite mod_block, Z.mod_small by lia.
  eapply unused_line; [done|lia|]. by rewrite sum_bit_at.
Qed.

Lemma used_bit y q : 0 <= y < 2 ^ k -> 0 <= q < 64 ->
  Z.testbit (slab_of (array1 b) y) q = true -> used (64 * y + q).
Proof.
  intros Hy Hq Ht. unfold used. rewrite mod_block, Z.mod_small by lia.
  apply (wf_sum _ _ _ Hw); [lia|]. by rewrite sum_bit_at.
Qed.

Lemma search_here q : 0 <= q < 64 -> Z.testbit value1 q = true ->
  (forall i, i < q -> Z.testbit value1 i = false) ->
  first_from (line_used (array2 b)) (64 * 2 ^ k) c (q - o - 1) /\ c + (q - o - 1) = 64 * x + q.
Proof.
  intros Hq Ht Hlow. pose proof (wf_index1 _ _ _ Hw) as Hx. pose proof (wf_offset1 _ _ _ Hw) as Ho.
  rewrite value1_bit in Ht by done. apply andb_true_iff in Ht as [Ht Hlt]. apply Z.ltb_lt in Hlt.
  assert (Hc : c + (q - o - 1) = 64 * x + q) by (unfold c; lia).
  split; [|done]. split; [lia|]. rewrite Hc. split.
  - apply used_bit; [done..|]. by rewrite <- sum_bit_at.
  - intros e He. replace (c + e) with (64 * x + (o + 1 + e)) by (unfold c; lia).
    apply not_used_bit; [done|fold o in Ho; lia|]. rewrite <- sum_bit_at by (fold o in Ho; lia).
    specialize (Hlow (o + 1 + e) ltac:(lia)). rewrite value1_bit in Hlow by (fold o in Ho; lia).
    by rewrite (proj2 (Z.ltb_lt o (o + 1 + e))), andb_true_r in Hlow by lia.
Qed.

(** Nothing after the current bit in its slab: the lines of the following slabs. *)
Hypothesis Hz : value1 = 0.

Lemma skip_here e : 0 <= e < 63 - o -> ~ used (c + e).
Proof.
  intros He. pose proof (wf_index1 _ _ _ Hw) as Hx. pose proof (wf_offset1 _ _ _ Hw) as Ho. fold o in Ho.
  replace (c + e) with (64 * x + (o + 1 + e)) by (unfold c; lia).
  apply not_used_bit; [done|lia|]. rewrite <- sum_bit_at by lia.
  pose proof (value1_bit (o + 1 + e) ltac:(lia)) as Hb. rewrite Hz, Z.bits_0 in Hb.
  by rewrite (proj2 (Z.ltb_lt o (o + 1 + e))), andb_true_r in Hb by lia.
Qed.

Lemma line_after e q : 0 <= q < 64 ->
  (c + (63 - o + 64 * e + q)) mod (64 * 2 ^ k) = 64 * ((next + e) mod 2 ^ k) + q.
Proof.
  intros Hq. pose proof (wf_k _ _ _ Hw).
  replace (c + (63 - o + 64 * e + q)) with (64 * (x + 1 + e) + q) by (unfold c; lia).
  rewrite mod_block by lia. unfold next. by rewrite Zplus_mod_idemp_l.
Qed.

Lemma used_after e q : 0 <= q < 64 ->
  used (c + (63 - o + 64 * e + q)) <-> Z.testbit (slab_of (array1 b) ((next + e) mod 2 ^ k)) q = true.
Proof.
  intros Hq. pose proof (wf_k _ _ _ Hw).
  pose proof (Z.mod_pos_bound (next + e) (2 ^ k) ltac:(lia)).
  unfold used. rewrite line_after by done. rewrite <- sum_bit_at by done. symmetry. apply Hw. lia.
Qed.

Lemma search_next d q :
  0 <= d -> 0 <= q < 64 -> let y := (next + d) mod 2 ^ k in
  Z.testbit (slab_of (array1 b) y) q = true ->
  (forall i, i < q -> Z.testbit (slab_of (array1 b) y) i = false) ->
  (forall e, 0 <= e < d -> slab_of (array1 b) ((next + e) mod 2 ^ k) = 0) ->
  first_from (line_used (array2 b)) (64 * 2 ^ k) c (63 - o + 64 * d + q).
Proof.
  intros Hd Hq y Ht Hlow Hz'. pose proof (wf_offset1 _ _ _ Hw) as Ho. fold o in Ho.
  split; [lia|]. split; [by apply used_after|].
  intros e He. fold (used (c + e)). destruct (decide (e < 63 - o)); [apply skip_here; lia|].
  set (e1 := (e - (63 - o)) / 64). set (e2 := (e - (63 - o)) mod 64).
  assert (He2 : 0 <= e2 < 64) by (apply Z.mod_pos_bound; lia).
  replace e with (63 - o + 64 * e1 + e2) by (unfold e1, e2; Z.div_mod_to_equations; lia).
  rewrite used_after by done.
  assert (He1 : 0 <= e1 <= d /\ (e1 = d -> e2 < q)) by (unfold e1, e2; Z.div_mod_to_equations; lia).
  destruct (Z.eq_dec e1 d) as [->|Hne].
  - rewrite Hlow by lia. done.
  - rewrite Hz', Z.bits_0 by lia. done.
Qed.

Lemma search_empty :
  (forall e, 0 <= e < 2 ^ k -> slab_of (array1 b) ((next + e) mod 2 ^ k) = 0) ->
  forall l, 0 <= l < 64 * 2 ^ k -> ~ line_used (array2 b) l.
Proof.
  intros Hall l Hl. eapply unused_line; [done|lia|].
  replace l with (64 * (l / 64) + l mod 64) by (Z.div_mod_to_equations; lia).
  rewrite sum_bit_at by (apply Z.mod_pos_bound; lia).
  assert (Hp : 0 < 2 ^ k) by (pose proof (wf_k _ _ _ Hw); lia).
  specialize (Hall ((l / 64 - (x + 1)) mod 2 ^ k) (Z.mod_pos_bound _ _ Hp)).
  unfold next in Hall. rewrite <- Zplus_mod in Hall.
  replace (x + 1 + (l / 64 - (x + 1))) with (l / 64) in Hall by lia.
  rewrite (Z.mod_small (l / 64)) in Hall by (Z.div_mod_to_equations; lia).
  rewrite Hall. apply Z.bits_0.
Qed.
End Search.

(** The search stops at the first used line after the current one, going round. *)
Lemma scan_search_run L k b : bitmap_wf L k b ->
  (exists d, first_from (line_used (array2 b)) (64 * 2 ^ k) (64 * index1 b + offset1 b + 1) d /\
     let l := (64 * index1 b + offset1 b + 1 + d) mod (64 * 2 ^ k) in
     __rte_bitmap_scan_search b = Ret (set_pos1 (l / 64) (l mod 64) b, 1)) \/
  ((forall l, 0 <= l < 64 * 2 ^ k -> ~ line_used (array2 b) l) /\
   exists x, 0 <= x < 2 ^ k /\ __rte_bitmap_scan_search b = Ret (set_pos1 x 0 b, 0)).
Proof.
  intros Hw. pose proof (wf_k _ _ _ Hw) as Hk. pose proof (wf_index1 _ _ _ Hw) as Hx.
  pose proof (wf_slabs1 _ _ _ Hw) as S1. pose proof (wf_len1 _ _ _ Hw) as L1.
  pose proof (wf_size1 _ _ _ Hw) as Hs.
  unfold __rte_bitmap_scan_search. rewrite rd_slab by lia. cbn [mbind outcome_bind].
  destruct (bsf_offset1_run (Z.land (slab_of (array1 b) (index1 b)) (__rte_bitmap_mask1_get b)) b)
    as [[Hz ->]|(q & Hq & Ht & Hlow & ->)]; [by apply slab_land| |]; cbn [mbind outcome_bind negb Z.eqb].
  2: { left. destruct (search_here L k b Hw q Hq Ht Hlow) as [Hf Hc]. eexists. split; [exact Hf|].
       rewrite Hc. cbv zeta. rewrite mod_block, Z.mod_small by lia.
       replace ((64 * index1 b + q) / 64) with (index1 b) by (Z.div_mod_to_equations; lia).
       by replace ((64 * index1 b + q) mod 64) with q by (Z.div_mod_to_equations; lia). }
  rewrite (index1_inc_run k) by done. cbn [index1 offset1 set_pos1 array1_size]. rewrite Hs.
  set (b1 := set_pos1 ((index1 b + 1) mod 2 ^ k) 0 b).
  change (set_pos1 ((index1 b + 1) mod 2 ^ k) 0 _) with b1.
  destruct (search_array1_run k (Z.to_nat (2 ^ k)) b1) as [(d & q & Hd & Hq & Ht & Hlow & Hz' & ->)|(Hz' & y & Hy & ->)];
    try done; [cbn; apply Z.mod_pos_bound; lia| |].
  - left. eexists. split; [apply (search_next L k b Hw Hz d q); (done || lia)|].
    cbv zeta. rewrite (line_after L k b Hw d q Hq). cbn [index1 b1 set_pos1].
    set (y := ((index1 b + 1) mod 2 ^ k + d) mod 2 ^ k).
    replace ((64 * y + q) / 64) with y by (Z.div_mod_to_equations; lia).
    by replace ((64 * y + q) mod 64) with q by (Z.div_mod_to_equations; lia).
  - right. split; [|by exists y]. apply (search_empty L k b Hw).
    intros e He. apply Hz'. lia.
Qed.

(** *** From lines to slabs *)

Definition used_slab (b : rte_bitmap) (j : Z) : Prop := slab_of (array2 b) j <> 0.

Lemma first_from_skip P M c s d : 0 <= s ->
  (forall e, 0 <= e < s -> ~ P ((c + e) mod M)) -> first_from P M (c + s) d -> first_from P M c (s + d).
Proof.
  intros Hs Hz (Hd & Hp & Hm). split; [lia|]. split; [by replace (c + (s + d)) with (c + s + d) by lia|].
  intros e He. destruct (decide (e < s)); [apply Hz; lia|].
  replace (c + e) with (c + s + (e - s)) by lia. apply Hm. lia.
Qed.

Lemma first_line_slab b M c d j :
  0 < M -> first_from (line_used (array2 b)) M c d -> let l := (c + d) mod M in
  8 * l <= j < 8 * l + 8 -> slab_of (array2 b) j <> 0 -> (forall i, 8 * l <= i < j -> slab_of (array2 b) i = 0) ->
  first_from (used_slab b) (8 * M) (8 * c) (8 * d + (j - 8 * l)) /\
  (8 * c + (8 * d + (j - 8 * l))) mod (8 * M) = j.
Proof.
  intros HM (Hd & Hu & Hm) l Hj Hn Hz.
  assert (Hmod : forall e q, 0 <= q < 8 -> (8 * c + (8 * e + q)) mod (8 * M) = 8 * ((c + e) mod M) + q).
  { intros e q Hq. replace (8 * c + (8 * e + q)) with (8 * (c + e) + q) by lia. by apply mod_block. }
  assert (Ej : (8 * c + (8 * d + (j - 8 * l))) mod (8 * M) = j) by (rewrite Hmod by lia; fold l; lia).
  split; [|exact Ej]. split; [lia|]. rewrite Ej. split; [exact Hn|]. intros e He.
  replace e with (8 * (e / 8) + e mod 8) by (Z.div_mod_to_equations; lia).
  assert (Hq : 0 <= e mod 8 < 8) by (apply Z.mod_pos_bound; lia).
  rewrite Hmod by done. unfold used_slab.
  assert (Hc : e / 8 < d \/ (e / 8 = d /\ e mod 8 < j - 8 * l)) by (Z.div_mod_to_equations; lia).
  destruct Hc as [Hlt|[-> Hlt]].
  - intros Hne. apply (Hm (e / 8)); [Z.div_mod_to_equations; lia|].
    eexists. split; [|exact Hne]. lia.
  - fold l. rewrite Hz by lia. tauto.
Qed.

Lemma wf_lines L k b l : bitmap_wf L k b -> 0 <= l -> line_used (array2 b) l -> l < L.
Proof.
  intros Hw Hl (j & Hj & Hn). destruct (Z.lt_ge_cases l L); [done|].
  exfalso. apply Hn, slab_out. rewrite (wf_len2 _ _ _ Hw). lia.
Qed.

Lemma read_init_run L k b l : bitmap_wf L k b -> 0 <= l < 64 * 2 ^ k ->
  __rte_bitmap_scan_read_init (set_pos1 (l / 64) (l mod 64) b) =
  set_pos2 (8 * l) 1 (set_pos1 (l / 64) (l mod 64) b).
Proof.
  intros Hw Hl. pose proof (wf_k _ _ _ Hw). assert (2 ^ k <= 2 ^ 17) by (apply Z.pow_le_mono_r; lia).
  unfold __rte_bitmap_scan_read_init, __rte_bitmap_index2_set. cbn [set_pos1 set_pos2 index1 offset1 index2 go2].
  rewrite !Z.shiftl_mul_pow2 by done. change (2 ^ RTE_BITMAP_SLAB_BIT_SIZE_LOG2) with 64.
  change (2 ^ RTE_BITMAP_CL_SLAB_SIZE_LOG2) with 8.
  rewrite (u32_small (l / 64 * 64)) by (Z.div_mod_to_equations; lia).
  replace (l / 64 * 64 + l mod 64) with l by (Z.div_mod_to_equations; lia).
  rewrite (u32_small l), (u32_small (l * 8)) by lia. unfold set_pos2, set_pos1. cbn. f_equal. lia.
Qed.

(** The bitmap after slab [j] was read. *)
Definition after_slab (b : rte_bitmap) (j : Z) : rte_bitmap :=
  set_pos2 (j + 1) ((j + 1) mod 8) (set_pos1 (j / 8 / 64) (j / 8 mod 64) b).

Lemma after_slab_wf L k b j : bitmap_wf L k b -> 0 <= j -> slab_of (array2 b) j <> 0 ->
  bitmap_wf L k (after_slab b j) /\ cursor (after_slab b j) = j + 1.
Proof.
  intros Hw Hj Hn.
  assert (Hl : j < 8 * L).
  { destruct (Z.lt_ge_cases j (8 * L)); [done|]. exfalso. apply Hn, slab_out. by rewrite (wf_len2 _ _ _ Hw). }
  pose proof (wf_L _ _ _ Hw). split.
  - destruct Hw. split; cbn; try done; Z.div_mod_to_equations; lia.
  - unfold cursor, after_slab. cbn. destruct (Z.eqb_spec ((j + 1) mod 8) 0); [|done].
    Z.div_mod_to_equations; lia.
Qed.

(** *** The scan *)

(** What a scan of [b] does: the first non-empty slab from the cursor, going round, or
    nothing when there is none. *)
Definition scan_result (L k : Z) (b : rte_bitmap) (pos slab : Z) (r : outcome (rte_bitmap * Z * (Z * Z)))
    : Prop :=
  (exists d, first_from (used_slab b) (512 * 2 ^ k) (cursor b) d /\
     let j := (cursor b + d) mod (512 * 2 ^ k) in
     r = Ret (after_slab b j, 1, (64 * j, slab_of (array2 b) j))) \/
  ((forall j, 0 <= j -> ~ used_slab b j) /\
   exists b', r = Ret (b', 0, (pos, slab)) /\ bitmap_wf L k b' /\ array2 b' = array2 b).

(** The second half of the scan: it looks for another line. *)
Definition scan_far (b : rte_bitmap) (pos slab : Z) : outcome (rte_bitmap * Z * (Z * Z)) :=
  '(bmp, r) ← __rte_bitmap_scan_search b;
  if negb (r =? 0) then
    let bmp := __rte_bitmap_scan_read_init bmp in
    '(bmp, _, out) ← __rte_bitmap_scan_read bmp pos slab;
    Ret (bmp, 1, out)
  else Ret (bmp, 0, (pos, slab)).

Lemma no_line_no_slab L k b : bitmap_wf L k b ->
  (forall l, 0 <= l < 64 * 2 ^ k -> ~ line_used (array2 b) l) -> forall j, 0 <= j -> ~ used_slab b j.
Proof.
  intros Hw H j Hj Hn. assert (Hu : line_used (array2 b) (j / 8))
    by (exists j; split; [Z.div_mod_to_equations; lia|done]).
  pose proof (wf_L _ _ _ Hw). apply (H (j / 8)); [|done].
  assert (0 <= j / 8) by (apply Z.div_pos; lia). split; [done|].
  pose proof (wf_lines _ _ _ _ Hw ltac:(done) Hu). lia.
Qed.

Lemma bind_Ret_l {A B} (a : A) (f : A -> outcome B) : Ret a ≫= f = f a.
Proof. reflexivity. Qed.

Lemma read_line_run L k b l pos slab : bitmap_wf L k b -> 0 <= l -> line_used (array2 b) l ->
  exists j, 8 * l <= j < 8 * l + 8 /\ slab_of (array2 b) j <> 0 /\
    (forall i, 8 * l <= i < j -> slab_of (array2 b) i = 0) /\
    __rte_bitmap_scan_read (__rte_bitmap_scan_read_init (set_pos1 (l / 64) (l mod 64) b)) pos slab =
    Ret (after_slab b j, 1, (64 * j, slab_of (array2 b) j)).
Proof.
  intros Hw Hl0 Hu. pose proof (wf_lines _ _ _ _ Hw Hl0 Hu) as HlL.
  pose proof (wf_L _ _ _ Hw). pose proof (wf_L23 _ _ _ Hw).
  rewrite (read_init_run L k) by (done || lia). unfold __rte_bitmap_scan_read.
  set (b' := set_pos2 (8 * l) 1 (set_pos1 (l / 64) (l mod 64) b)).
  assert (Hg : go2 b' <> 0) by (cbn; lia). assert (Hi : 8 * l <= index2 b' < 8 * l + 8) by (cbn; lia).
  assert (Hlen : 8 * l + 8 <= Z.of_nat (length (array2 b'))) by (cbn; rewrite (wf_len2 _ _ _ Hw); lia).
  destruct (scan_line_run (Z.to_nat RTE_BITMAP_CL_SLAB_SIZE) b' l Hg Hi Hl0 Hlen) as [(j & Hj & Hn & Hz & ->)|[Hz _]].
  - lia.
  - change (index2 b') with (8 * l). change (Z.of_nat (Z.to_nat RTE_BITMAP_CL_SLAB_SIZE)) with 8. lia.
  - exists j. change (index2 b') with (8 * l) in *. change (array2 b') with (array2 b) in *.
    split; [done|]. split; [done|]. split; [done|]. cbn [mbind outcome_bind]. unfold after_slab.
    by replace (j / 8) with l by (Z.div_mod_to_equations; lia).
  - exfalso. destruct Hu as (j & Hj & Hn). by apply Hn, Hz.
Qed.

Lemma scan_far_run L k b pos slab : bitmap_wf L k b -> go2 b = 0 -> scan_result L k b pos slab (scan_far b pos slab).
Proof.
  intros Hw Hg. pose proof (wf_k _ _ _ Hw) as Hk. assert (HM : 0 < 64 * 2 ^ k) by lia.
  assert (Hc : cursor b = 8 * (64 * index1 b + offset1 b + 1)) by (unfold cursor; by rewrite Hg).
  unfold scan_far, scan_result. rewrite Hc.
  destruct (scan_search_run L k b Hw) as [(d & Hf & ->)|(Hz & x & Hx & ->)].
  - left. cbv zeta in *. rewrite bind_Ret_l. cbn [negb Z.eqb]. set (c := 64 * index1 b + offset1 b + 1) in *. set (l := (c + d) mod (64 * 2 ^ k)) in *.
    assert (Hl : 0 <= l < 64 * 2 ^ k) by (apply Z.mod_pos_bound; lia).
    destruct (read_line_run L k b l pos slab Hw) as (j & Hj & Hn & Hz & ->); [lia|apply Hf|].
    destruct (first_line_slab b (64 * 2 ^ k) c d j) as [Hfs Ej]; [done..|].
    replace (8 * (64 * 2 ^ k)) with (512 * 2 ^ k) in * by lia.
    fold l in Hfs, Ej. exists (8 * d + (j - 8 * l)). split; [exact Hfs|]. cbv zeta. by rewrite Ej.
  - right. split; [by eapply no_line_no_slab|]. eexists. rewrite bind_Ret_l. split; [reflexivity|]. split; [|done].
    destruct Hw. split; cbn; try done; lia.
Qed.

Lemma bitmap_scan_run L k b pos slab : bitmap_wf L k b ->
  scan_result L k b pos slab (rte_bitmap_scan b pos slab).
Proof.
  intros Hw. pose proof (wf_k _ _ _ Hw) as Hk. pose proof (wf_L23 _ _ _ Hw) as HL.
  assert (Hr : rte_bitmap_scan b pos slab = '(bmp, r) ← scan_line 8 b;
    match r with Some out => Ret (bmp, 1, out) | None => scan_far bmp pos slab end).
  { assert (E : __rte_bitmap_scan_read b pos slab = '(bmp, r) ← scan_line 8 b;
      match r with Some out => Ret (bmp, 1, out) | None => Ret (bmp, 0, (pos, slab)) end) by reflexivity.
    unfold rte_bitmap_scan. rewrite E. destruct (scan_line 8 b) as [[b' [out|]]| |]; reflexivity. }
  rewrite Hr. clear Hr.
  destruct (Z.eq_dec (go2 b) 0) as [Hg|Hg].
  { rewrite scan_line_stop by done. by apply scan_far_run. }
  destruct (wf_index2 _ _ _ Hw Hg) as [Hi Hl0]. set (l := 64 * index1 b + offset1 b).
  assert (Hlb : 8 * l <= index2 b < 8 * l + 8) by (unfold l; Z.div_mod_to_equations; lia).
  pose proof (wf_index1 _ _ _ Hw). pose proof (wf_offset1 _ _ _ Hw).
  assert (Hcur : cursor b = index2 b) by (unfold cursor; by rewrite (proj2 (Z.eqb_neq _ _) Hg)).
  assert (Hmod : forall e, 0 <= e < 8 * l + 8 - index2 b -> (cursor b + e) mod (512 * 2 ^ k) = cursor b + e).
  { intros e He. apply Z.mod_small. unfold l in *. lia. }
  destruct (scan_line_run 8 b l) as [(j & Hj & Hn & Hz & ->)|[Hz ->]];
    try done; try (unfold l; lia).
  { rewrite (wf_len2 _ _ _ Hw). unfold l in *. Z.div_mod_to_equations. lia. }
  - left. rewrite bind_Ret_l. exists (j - index2 b).
    rewrite Hmod by lia. rewrite Hcur. replace (index2 b + (j - index2 b)) with j by lia. split.
    + split; [lia|]. rewrite <- Hcur, Hmod by lia. rewrite Hcur.
      replace (index2 b + (j - index2 b)) with j by lia. split; [done|].
      intros e He. rewrite <- Hcur, Hmod by lia. rewrite Hcur. unfold used_slab. rewrite Hz by lia. tauto.
    + unfold after_slab. replace (j / 8) with l by (Z.div_mod_to_equations; lia).
      replace (l / 64) with (index1 b) by (unfold l; Z.div_mod_to_equations; lia).
      replace (l mod 64) with (offset1 b) by (unfold l; Z.div_mod_to_equations; lia).
      unfold set_pos2, set_pos1. by destruct b.
  - rewrite bind_Ret_l. set (b1 := set_pos2 (8 * l + 8) 0 b).
    assert (Hw1 : bitmap_wf L k b1) by (destruct Hw; split; cbn; try done; lia).
    change (scan_result L k b pos slab (scan_far b1 pos slab)).
    assert (Hc1 : cursor b1 = cursor b + (8 * l + 8 - index2 b)) by (rewrite Hcur; unfold cursor, l; cbn; lia).
    destruct (scan_far_run L k b1 pos slab Hw1 eq_refl) as [(d & Hf & E)|(Hz1 & b' & E & Hw' & Ha)].
    + left. exists (8 * l + 8 - index2 b + d). rewrite Hc1 in Hf, E. split.
      * apply first_from_skip; [lia| |exact Hf].
        intros e He. rewrite Hmod by done. unfold used_slab. rewrite Hz by lia. tauto.
      * rewrite E. cbv zeta. by rewrite <- Z.add_assoc.
    + right. split; [exact Hz1|]. by exists b'.
Qed.

(** ** The order of a scan *)

(** The non-empty slabs from [c] on, in increasing order. *)
Definition nonempty_from (b : rte_bitmap) (c n : Z) : list Z :=
  filter (fun j => slab_of (array2 b) j <> 0) (seqZ c n).
Definition nonempty_slabs (b : rte_bitmap) : list Z := nonempty_from b 0 (array2_size b).

(** [m] scans one after the other, as long as they find something. *)
Fixpoint scan_times (m : nat) (b : rte_bitmap) : outcome (rte_bitmap * list (Z * Z)) :=
  match m with
  | O => Ret (b, [])
  | S m =>
      '(b, r, out) ← rte_bitmap_scan b 0 0;
      if r =? 0 then Ret (b, [])
      else '(b, outs) ← scan_times m b; Ret (b, out :: outs)
  end.

Lemma filter_seqZ_cons (P : Z -> Prop) `{!forall z, Decision (P z)} c N j l :
  filter P (seqZ c (N - c)) = j :: l ->
  c <= j < N /\ P j /\ (forall i, c <= i < j -> ~ P i) /\ filter P (seqZ (j + 1) (N - (j + 1))) = l.
Proof.
  remember (Z.to_nat (N - c)) as n eqn:En. revert c En. induction n as [|n IH]; intros c En E.
  { by rewrite seqZ_nil in E by lia. }
  rewrite seqZ_cons in E by lia. rewrite filter_cons in E.
  replace (Z.pred (N - c)) with (N - Z.succ c) in E by lia. destruct (decide (P c)) as [Hc|Hc].
  - injection E as <- E. split; [lia|]. split; [done|]. split; [lia|]. exact E.
  - destruct (IH (Z.succ c) ltac:(lia) E) as (H1 & H2 & H3 & H4). split; [lia|]. split; [done|].
    split; [|done]. intros i Hi. destruct (Z.eq_dec i c) as [->|]; [done|]. apply H3. lia.
Qed.

Lemma filter_seqZ_nil (P : Z -> Prop) `{!forall z, Decision (P z)} c N i :
  filter P (seqZ c (N - c)) = [] -> c <= i < N -> ~ P i.
Proof.
  intros E Hi Hp. apply (filter_nil_not_elem_of _ _ i E Hp), elem_of_seqZ. lia.
Qed.

Lemma first_from_unique (P : Z -> Prop) M c d e : first_from P M c d -> first_from P M c e -> d = e.
Proof.
  intros (Hd & Hp & Hm) (He & Hq & Hn).
  destruct (Z.lt_trichotomy d e) as [?|[?|?]]; [exfalso; apply (Hn d); (done || lia)|done|].
  exfalso. apply (Hm e); (done || lia).
Qed.

Lemma first_from_mod (P : Z -> Prop) M c c' d : c mod M = c' mod M -> first_from P M c d -> first_from P M c' d.
Proof.
  intros E (Hd & Hp & Hm). assert (Hs : forall e, (c' + e) mod M = (c + e) mod M).
  { intros e. by rewrite (Zplus_mod c'), <- E, <- Zplus_mod. }
  split; [done|]. rewrite Hs. split; [done|]. intros e He. rewrite Hs. by apply Hm.
Qed.

Section Enumerate.
Context (L k : Z).
Let N := 512 * 2 ^ k.

(** [l] is what a scan has still to visit before it goes round. *)
Definition pending (b : rte_bitmap) (l : list Z) : Prop :=
  exists c, 0 <= c <= N /\ cursor b mod N = c mod N /\ nonempty_from b c (N - c) = l.

Lemma nonempty_slabs_N b : bitmap_wf L k b -> nonempty_from b 0 (N - 0) = nonempty_slabs b.
Proof.
  intros Hw. unfold nonempty_slabs, nonempty_from. rewrite (wf_size2 _ _ _ Hw), Z.sub_0_r.
  pose proof (wf_L _ _ _ Hw).
  replace N with (8 * L + (N - 8 * L)) by lia. rewrite seqZ_app by (unfold N; lia). rewrite filter_app.
  match goal with |- _ ++ ?x = _ => assert (x = []) as ->; [|by rewrite app_nil_r] end.
  apply elem_of_nil_inv. intros j [Hn Hj]%list_elem_of_filter. apply elem_of_seqZ in Hj.
  apply Hn, slab_out. rewrite (wf_len2 _ _ _ Hw). lia.
Qed.

(** The next slab, and its distance from the cursor. *)
Lemma pending_first b l c : bitmap_wf L k b -> 0 <= c <= N -> nonempty_from b c (N - c) = l ->
  nonempty_slabs b <> [] ->
  exists j l' d, (l = j :: l' \/ l = [] /\ nonempty_slabs b = j :: l') /\
    first_from (used_slab b) N c d /\ (c + d) mod N = j /\ 0 <= j < N /\ slab_of (array2 b) j <> 0 /\
    nonempty_from b (j + 1) (N - (j + 1)) = l'.
Proof.
  intros Hw Hc Hl Hne. pose proof (wf_k _ _ _ Hw). assert (HN : 0 < N) by (unfold N; lia).
  destruct l as [|j l'].
  - destruct (nonempty_slabs b) as [|j l'] eqn:Eall; [done|]. rewrite <- nonempty_slabs_N in Eall by done.
    apply filter_seqZ_cons in Eall as (Hj & Hn & Hm & Hl'). exists j, l', (N - c + j).
    assert (Hmod : (c + (N - c + j)) mod N = j).
    { replace (c + (N - c + j)) with (j + 1 * N) by lia. rewrite Z_mod_plus_full. apply Z.mod_small. lia. }
    split; [by right|]. split; [|by split; [|split]].
    apply first_from_skip; [lia| |].
    + intros e He. rewrite Z.mod_small by lia. apply (filter_seqZ_nil _ _ _ _ Hl). lia.
    + split; [lia|]. replace (c + (N - c) + j) with (c + (N - c + j)) by lia. rewrite Hmod. split; [done|].
      intros e He. replace (c + (N - c) + e) with (e + 1 * N) by lia.
      rewrite Z_mod_plus_full, Z.mod_small by lia. apply Hm. lia.
  - apply filter_seqZ_cons in Hl as (Hj & Hn & Hm & Hl'). exists j, l', (j - c).
    assert (Hmod : forall e, 0 <= e <= j - c -> (c + e) mod N = c + e) by (intros e He; apply Z.mod_small; lia).
    split; [by left|]. rewrite Hmod by lia. replace (c + (j - c)) with j by lia.
    split; [|split; [done|split; [lia|by split]]]. split; [lia|]. rewrite Hmod by lia.
    replace (c + (j - c)) with j by lia. split; [done|]. intros e He. rewrite Hmod by lia. apply Hm. lia.
Qed.

Lemma scan_pending b l : bitmap_wf L k b -> pending b l -> nonempty_slabs b <> [] ->
  exists j l', (l = j :: l' \/ l = [] /\ nonempty_slabs b = j :: l') /\
    rte_bitmap_scan b 0 0 = Ret (after_slab b j, 1, (64 * j, slab_of (array2 b) j)) /\
    bitmap_wf L k (after_slab b j) /\ pending (after_slab b j) l'.
Proof.
  intros Hw (c & Hc & Hcur & Hl) Hne. pose proof (wf_k _ _ _ Hw).
  assert (HN : 0 < N) by (unfold N; lia).
  destruct (pending_first b l c Hw Hc Hl Hne) as (j & l' & d & Hd & Hf & Ej & Hj & Hn & Hl').
  exists j, l'. split; [done|].
  destruct (bitmap_scan_run L k b 0 0 Hw) as [(d' & Hf' & E)|(Hz & _)]; [|exfalso; apply (Hz j); (done || lia)].
  assert (d' = d) as ->.
  { eapply first_from_unique; [exact Hf'|]. eapply first_from_mod; [|exact Hf]. by symmetry. }
  fold N in E. rewrite Zplus_mod, Hcur, <- Zplus_mod, Ej in E. split; [exact E|].
  destruct (after_slab_wf L k b j) as [Hw' Hc']; [done|lia|done|]. split; [done|].
  exists (j + 1). rewrite Hc'. split; [lia|]. split; [done|]. exact Hl'.
Qed.

Lemma scan_rest b l : bitmap_wf L k b -> pending b l -> nonempty_slabs b <> [] ->
  exists b', scan_times (length l) b = Ret (b', map (fun j => (64 * j, slab_of (array2 b) j)) l) /\
    bitmap_wf L k b' /\ pending b' [] /\ array2 b' = array2 b /\ array2_size b' = array2_size b.
Proof.
  revert b. induction l as [|j l IH]; intros b Hw Hp Hne; [by exists b|].
  destruct (scan_pending b (j :: l) Hw Hp Hne) as (j' & l' & [[= <- <-]|[? _]] & E & Hw' & Hp'); [|done].
  destruct (IH (after_slab b j)) as (b' & E' & Hw'' & Hp'' & Ha & Hs); [done..|].
  exists b'. cbn [length scan_times map]. rewrite E. cbn [mbind outcome_bind Z.eqb].
  rewrite E'. done.
Qed.
End Enumerate.

Lemma scan_times_app m n b : scan_times (m + n) b =
  '(b1, o1) ← scan_times m b;
  if (length o1 <? m)%nat then Ret (b1, o1) else '(b2, o2) ← scan_times n b1; Ret (b2, o1 ++ o2).
Proof.
  revert b. induction m as [|m IH]; intros b; cbn [scan_times Nat.add].
  - cbn. by destruct (scan_times n b) as [[]| |].
  - destruct (rte_bitmap_scan b 0 0) as [[[b1 r] out]| |]; cbn [mbind outcome_bind]; [|done..].
    destruct (r =? 0); [done|]. rewrite IH. destruct (scan_times m b1) as [[b2 o]| |]; cbn [mbind outcome_bind length]; [|done..].
    change (S (length o) <? S m)%nat with (length o <? m)%nat. destruct (length o <? m)%nat; [done|].
    by destruct (scan_times n b2) as [[b3 o3]| |].
Qed.

(** A round of scans: from the start, or after the last non-empty slab. *)
Lemma scan_round L k b : bitmap_wf L k b -> nonempty_slabs b <> [] ->
  pending k b (nonempty_slabs b) \/ pending k b [] ->
  exists b', scan_times (length (nonempty_slabs b)) b =
      Ret (b', map (fun j => (64 * j, slab_of (array2 b) j)) (nonempty_slabs b)) /\
    bitmap_wf L k b' /\ pending k b' [] /\ array2 b' = array2 b /\ array2_size b' = array2_size b.
Proof.
  intros Hw Hne [Hp|Hp]; [by apply scan_rest|].
  destruct (scan_pending L k b [] Hw Hp Hne) as (j & l & [[=]|[_ El]] & E & Hw' & Hp'). rewrite El.
  destruct (scan_rest L k (after_slab b j) l Hw' Hp') as (b' & E' & Hw'' & Hp'' & Ha & Hs).
  { intros Hn. apply Hne. exact Hn. }
  exists b'. cbn [length scan_times map]. rewrite E. cbn [mbind outcome_bind Z.eqb]. by rewrite E'.
Qed.

Definition slab_out_of (b : rte_bitmap) (j : Z) : Z * Z := (64 * j, slab_of (array2 b) j).

Lemma scan_rounds L k b n : bitmap_wf L k b -> nonempty_slabs b <> [] ->
  pending k b (nonempty_slabs b) ->
  exists b', scan_times (n * length (nonempty_slabs b)) b =
      Ret (b', concat (replicate n (map (slab_out_of b) (nonempty_slabs b)))) /\
    bitmap_wf L k b' /\ (pending k b' (nonempty_slabs b) \/ pending k b' []) /\
    array2 b' = array2 b /\ array2_size b' = array2_size b.
Proof.
  intros Hw Hne Hp. set (ms := map _ _). set (m := length (nonempty_slabs b)).
  assert (Hms : length ms = m) by (unfold ms; by rewrite length_map).
  induction n as [|n IH]; [exists b; by auto|].
  replace (S n * m)%nat with (n * m + m)%nat by lia.
  destruct IH as (b1 & E1 & Hw1 & Hp1 & Ha1 & Hs1).
  assert (Hsame : nonempty_slabs b1 = nonempty_slabs b)
    by (unfold nonempty_slabs, nonempty_from; by rewrite Ha1, Hs1).
  destruct (scan_round L k b1) as (b2 & E2 & Hw2 & Hp2 & Ha2 & Hs2); rewrite ?Hsame; [done..|].
  rewrite Hsame, Ha1 in E2. exists b2. rewrite scan_times_app, E1. cbn [mbind outcome_bind].
  assert (Hlen : length (concat (replicate n ms)) = (n * m)%nat).
  { clear -Hms. induction n as [|n IH]; [done|]. cbn. rewrite length_app, IH. lia. }
  rewrite Hlen, Nat.ltb_irrefl. fold m in E2. rewrite E2. cbn [mbind outcome_bind].
  split; [|split; [done|split; [by right|split; congruence]]].
  rewrite replicate_S_end, concat_app. cbn [concat]. by rewrite app_nil_r.
Qed.

Lemma fresh_pending L k b : bitmap_wf L k b -> scan_fresh b -> pending k b (nonempty_slabs b).
Proof.
  intros Hw (Hi & Ho & Hg). pose proof (wf_k _ _ _ Hw).
  exists 0. split; [lia|]. split; [|by apply (nonempty_slabs_N L)].
  unfold cursor. rewrite Hg, Hi, Ho, (wf_size1 _ _ _ Hw). cbn [Z.eqb].
  replace (8 * (64 * (2 ^ k - 1) + 63 + 1)) with (1 * (512 * 2 ^ k)) by lia. by rewrite Z.mod_mul by lia.
Qed.

(** C30: a scan of a bitmap whose scan has not begun visits its non-empty slabs in
    increasing order, each once, and then starts over: [rounds * m] scans of a bitmap with [m > 0]
    non-empty slabs return the list of these slabs [rounds] times, each as the position of its
    first bit and its contents. (The first bit of the slab need not be set; the comment on the
    function, which says that the position is that of the next set bit, does not agree with the
    code.) A scan of an empty bitmap returns 0 and leaves the caller's cells as they were. *)
Theorem scan_enumerates L k b rounds pos slab :
  bitmap_wf L k b -> scan_fresh b ->
  (nonempty_slabs b <> [] -> exists b',
     scan_times (rounds * length (nonempty_slabs b)) b =
     Ret (b', concat (replicate rounds (map (slab_out_of b) (nonempty_slabs b)))) /\
     bitmap_wf L k b' /\ array2 b' = array2 b) /\
  (nonempty_slabs b = [] -> exists b', rte_bitmap_scan b pos slab = Ret (b', 0, (pos, slab)) /\
     bitmap_wf L k b' /\ array2 b' = array2 b).
Proof.
  intros Hw Hf. pose proof (wf_k _ _ _ Hw). split.
  - intros Hne. destruct (scan_rounds L k b rounds Hw Hne) as (b' & E & Hw' & _ & Ha & _);
      [by apply (fresh_pending L)|by exists b'].
  - intros Hemp. destruct (bitmap_scan_run L k b pos slab Hw) as [(d & (_ & Hu & _) & _)|(_ & b' & E & Hw' & Ha)];
      [|by exists b'].
    exfalso. set (j := (cursor b + d) mod (512 * 2 ^ k)) in *.
    assert (Hj : 0 <= j < 512 * 2 ^ k) by (apply Z.mod_pos_bound; lia).
    rewrite <- (nonempty_slabs_N L k) in Hemp by done. eapply (filter_seqZ_nil _ 0 _ j Hemp); done.
Qed.
