(* ===== verification/BitmapSpec.v ===== *)
(** * The bitmap as a finite set of positions

    The refinement of every operation to finite sets ([bitmap_refines_set]),
    initialisation with all bits set ([init_all_set_buffer]), the slab of zeros
    ([set_slab_zero]), and the witnesses of the bitmap theorems. *)

From stdpp Require Import gmap.
From S2P Require Import Prelude Common BitOps Bitmap BitmapScan.

Open Scope Z_scope.

(** ** Refinement: the bitmap is a finite set of positions *)

Inductive bop := BSet (p : Z) | BSetSlab (p s : Z) | BClear (p : Z) | BGet (p : Z) | BReset | BScan.
Inductive bres := RUnit | RGet (set : bool) | RScan (found : option (Z * Z)).

Definition run_bop (b : rte_bitmap) (op : bop) : outcome (rte_bitmap * bres) :=
  match op with
  | BSet p => b ← rte_bitmap_set b p; Ret (b, RUnit)
  | BSetSlab p s => b ← rte_bitmap_set_slab b p s; Ret (b, RUnit)
  | BClear p => b ← rte_bitmap_clear b p; Ret (b, RUnit)
  | BGet p => v ← rte_bitmap_get b p; Ret (b, RGet (negb (v =? 0)))
  | BReset => b ← rte_bitmap_reset b; Ret (b, RUnit)
  | BScan => '(b, r, out) ← rte_bitmap_scan b 0 0; Ret (b, RScan (if r =? 0 then None else Some out))
  end.

Fixpoint run_bops (b : rte_bitmap) (ops : list bop) : outcome (rte_bitmap * list bres) :=
  match ops with
  | [] => Ret (b, [])
  | op :: ops => '(b, r) ← run_bop b op; '(b, rs) ← run_bops b ops; Ret (b, r :: rs)
  end.

(** The specification. *)
Definition slab_set (p s : Z) : gset Z :=
  list_to_set (filter (fun q => Z.testbit s (q mod 64) = true) (seqZ (64 * (p / 64)) 64)).

Inductive bop_spec (S : gset Z) : bop -> gset Z -> bres -> Prop :=
  | spec_set p : bop_spec S (BSet p) ({[p]} ∪ S) RUnit
  | spec_set_slab p s : bop_spec S (BSetSlab p s) (slab_set p s ∪ S) RUnit
  | spec_clear p : bop_spec S (BClear p) (S ∖ {[p]}) RUnit
  | spec_get p : bop_spec S (BGet p) S (RGet (bool_decide (p ∈ S)))
  | spec_reset : bop_spec S BReset ∅ RUnit
  | spec_scan_none : S = ∅ -> bop_spec S BScan S (RScan None)
  | spec_scan j v : v <> 0 -> (forall i, 0 <= i < 64 -> Z.testbit v i = true <-> 64 * j + i ∈ S) ->
      bop_spec S BScan S (RScan (Some (64 * j, v))).

Inductive bops_spec (S : gset Z) : list bop -> gset Z -> list bres -> Prop :=
  | specs_nil : bops_spec S [] S []
  | specs_cons op ops r rs S1 S2 : bop_spec S op S1 r -> bops_spec S1 ops S2 rs ->
      bops_spec S (op :: ops) S2 (r :: rs).

Definition bop_valid (n : Z) (op : bop) : Prop :=
  match op with
  | BSet p | BClear p | BGet p => 0 <= p < n
  | BSetSlab p s => 0 <= p < n /\ 0 < s < 2 ^ 64
  | BReset | BScan => True
  end.

Definition represents_set (b : rte_bitmap) (S : gset Z) : Prop :=
  forall q, q ∈ S <-> 0 <= q /\ bit_of (array2 b) q = true.

Lemma slab_set_spec p s q : 0 <= p -> q ∈ slab_set p s <-> 0 <= q /\ slab_bits p s q = true.
Proof.
  intros Hp. unfold slab_set, slab_bits. rewrite elem_of_list_to_set, list_elem_of_filter, elem_of_seqZ.
  rewrite andb_true_iff, Z.eqb_eq. split.
  - intros [Ht Hq]. split; [Z.div_mod_to_equations; lia|]. split; [Z.div_mod_to_equations; lia|done].
  - intros (Hq & E & Ht). split; [done|]. Z.div_mod_to_equations; lia.
Qed.

Lemma run_scan_refines L k b S :
  bitmap_wf L k b -> represents_set b S ->
  exists b' r S', run_bop b BScan = Ret (b', r) /\ bitmap_wf L k b' /\ represents_set b' S' /\ bop_spec S BScan S' r.
Proof.
  unfold represents_set. intros Hw Hr. cbn [run_bop].
  destruct (bitmap_scan_run L k b 0 0 Hw) as [(d & Hf & E)|(Hz & b' & -> & Hw' & Ha)].
  - pose proof (wf_k _ _ _ Hw). rewrite E. cbn. set (j := (cursor b + d) mod (512 * 2 ^ k)) in *.
    assert (Hj : 0 <= j < 512 * 2 ^ k) by (apply Z.mod_pos_bound; lia).
    assert (Hu : slab_of (array2 b) j <> 0) by apply Hf.
    destruct (after_slab_wf L k b j Hw (proj1 Hj) Hu) as [Hw' _].
    do 3 eexists. split; [done|]. split; [done|]. split; [exact Hr|]. apply spec_scan; [done|].
    intros i Hi. rewrite Hr. unfold bit_of.
    replace ((64 * j + i) / 64) with j by (Z.div_mod_to_equations; lia).
    replace ((64 * j + i) mod 64) with i by (Z.div_mod_to_equations; lia).
    split; [intros Ht; split; [lia|done]|by intros [_ ?]].
  - cbn. do 3 eexists. split; [done|]. split; [done|]. split; [by intros q; rewrite Ha; apply Hr|].
    apply spec_scan_none. apply set_eq. intros q. split; [|by intros ?%elem_of_empty].
    intros [Hq Ht]%Hr. exfalso. apply (Hz (q / 64)); [apply Z.div_pos; lia|].
    apply slab_nonzero; [apply Z.div_pos; lia|apply Hw|]. by exists q.
Qed.

Lemma run_bop_refines L k b S n op :
  bitmap_wf L k b -> represents_set b S -> n <= 512 * L -> bop_valid n op ->
  exists b' r S', run_bop b op = Ret (b', r) /\ bitmap_wf L k b' /\ represents_set b' S' /\ bop_spec S op S' r.
Proof.
  unfold represents_set. intros Hw Hr Hn Hv.
  destruct op as [p|p s|p|p| |]; cbn [run_bop bop_valid] in *.
  - destruct (bitmap_set_run L k b p Hw) as (b' & -> & Hw' & Hb); [lia|]. cbn. do 3 eexists.
    split; [done|]. split; [done|]. split; [|apply spec_set].
    intros q. rewrite elem_of_union, elem_of_singleton, Hr. split.
    + intros [-> | [Hq Ht]]; (split; [lia|]); rewrite Hb by lia; [by rewrite Z.eqb_refl|by rewrite Ht, orb_true_r].
    + intros [Hq Ht]. rewrite Hb in Ht by done. apply orb_true_iff in Ht as [E%Z.eqb_eq|Ht]; auto.
  - destruct (bitmap_set_slab_run L k b p s Hw) as (b' & -> & Hw' & Hb); [lia..|]. cbn. do 3 eexists.
    split; [done|]. split; [done|]. split; [|apply spec_set_slab].
    intros q. rewrite elem_of_union, slab_set_spec, Hr by lia. split.
    + intros [[Hq Ht]|[Hq Ht]]; (split; [done|]); rewrite Hb, Ht by done; [done|apply orb_true_r].
    + intros [Hq Ht]. rewrite Hb in Ht by done. apply orb_true_iff in Ht as [Ht|Ht]; auto.
  - destruct (bitmap_clear_run L k b p Hw) as (b' & -> & Hw' & Hb); [lia|]. cbn. do 3 eexists.
    split; [done|]. split; [done|]. split; [|apply spec_clear].
    intros q. rewrite elem_of_difference, elem_of_singleton, Hr. split.
    + intros [[Hq Ht] Hne]. split; [done|]. rewrite Hb, Ht by done.
      by rewrite (proj2 (Z.eqb_neq p q)) by congruence.
    + intros [Hq Ht]. rewrite Hb in Ht by done. apply andb_true_iff in Ht as [Hne Ht].
      apply negb_true_iff, Z.eqb_neq in Hne. auto.
  - destruct (bitmap_get_run L k b p Hw) as (v & -> & Hg); [lia|]. cbn. do 3 eexists.
    split; [done|]. split; [done|]. split; [done|].
    replace (negb (v =? 0)) with (bool_decide (p ∈ S)); [apply spec_get|].
    destruct (Z.eqb_spec v 0) as [->|Hv0]; cbn.
    + apply bool_decide_eq_false. rewrite Hr. tauto.
    + apply bool_decide_eq_true, Hr. split; [lia|tauto].
  - destruct (bitmap_reset_run L k b Hw) as (b' & -> & Hw' & _ & Hb). cbn. do 3 eexists.
    split; [done|]. split; [done|]. split; [|apply spec_reset].
    intros q. rewrite Hb. split; [intros []%elem_of_empty|by intros [_ ?]].
  - by apply run_scan_refines.
Qed.

(** A slab has the bits up to the next multiple of 64. *)
Lemma bop_spec_below n S op S' r : bop_valid n op -> bop_spec S op S' r ->
  (forall q, q ∈ S -> 0 <= q < 64 * ((n + 63) / 64)) -> forall q, q ∈ S' -> 0 <= q < 64 * ((n + 63) / 64).
Proof.
  intros Hv Hs H q. destruct Hs as [p|p s|p|p| | |j v]; cbn [bop_valid] in Hv; try apply H.
  - intros [->%elem_of_singleton|Hq]%elem_of_union; [Z.div_mod_to_equations; lia|by apply H].
  - intros [Hq|Hq]%elem_of_union; [|by apply H]. unfold slab_set in Hq.
    apply elem_of_list_to_set, list_elem_of_filter in Hq as [_ Hq%elem_of_seqZ]. Z.div_mod_to_equations; lia.
  - intros [Hq _]%elem_of_difference. by apply H.
  - by intros ?%elem_of_empty.
Qed.

Lemma bops_spec_below n S ops S' rs : Forall (bop_valid n) ops -> bops_spec S ops S' rs ->
  (forall q, q ∈ S -> 0 <= q < 64 * ((n + 63) / 64)) -> forall q, q ∈ S' -> 0 <= q < 64 * ((n + 63) / 64).
Proof.
  intros Hv Hs. revert Hv. induction Hs as [S|S op ops r rs S1 S2 Hop _ IH]; intros Hv H; [done|].
  apply Forall_cons in Hv as [Hv Hvs]. apply IH; [done|]. by apply (bop_spec_below n S op S1 r).
Qed.

(** C29: a bitmap of [n] bits is a finite set of positions below the next multiple of 64: initialised
    in an aligned buffer that is large enough, it starts empty, and every history of set, clear and
    get at positions below [n], of writes of non-zero slabs at such positions (the slab of zeros
    breaks the summary array: [set_slab_zero]), of reset and scan runs without leaving the arrays,
    keeps the summary array exact, and returns what the set operations return; a scan returns the
    position of the first bit and the contents of a non-empty slab, or nothing exactly when the set
    is empty. *)
Theorem bitmap_refines_set n mem mem_size ops :
  0 < n <= 2 ^ 32 - 512 -> mem <> 0 -> mem mod 64 = 0 ->
  rte_bitmap_get_memory_footprint n <= mem_size -> Forall (bop_valid n) ops ->
  exists k b b' results S,
    rte_bitmap_init n mem mem_size = Ret (Some b) /\ run_bops b ops = Ret (b', results) /\
    bitmap_wf ((n + 511) / 512) k b' /\ represents_set b' S /\ bops_spec ∅ ops S results /\
    (forall q, q ∈ S -> 0 <= q < 64 * ((n + 63) / 64)).
Proof.
  intros Hn Hm Ha Hs Hops.
  destruct (bitmap_init_run n mem mem_size Hn Hm Ha Hs) as (k & b & E & Hw & _ & Hb).
  assert (Hr : represents_set b ∅).
  { intros q. rewrite Hb. split; [by intros ?%elem_of_empty|by intros [_ ?]]. }
  assert (HnL : n <= 512 * ((n + 511) / 512)) by (Z.div_mod_to_equations; lia).
  assert (H : exists b' results S', run_bops b ops = Ret (b', results) /\ bitmap_wf ((n + 511) / 512) k b' /\
    represents_set b' S' /\ bops_spec ∅ ops S' results).
  { clear Hb Hs E. revert b Hw Hr. generalize (∅ : gset Z). induction Hops as [|op ops Hop _ IH]; intros S b Hw Hr.
    - exists b, [], S. split; [done|]. split; [done|]. split; [done|]. constructor.
    - destruct (run_bop_refines _ k b S n op Hw Hr HnL Hop) as (b1 & r & S1 & E1 & Hw1 & Hr1 & Hs1).
      destruct (IH S1 b1 Hw1 Hr1) as (b2 & rs & S2 & E2 & Hw2 & Hr2 & Hs2).
      exists b2, (r :: rs), S2. cbn [run_bops]. rewrite E1. cbn [mbind outcome_bind]. rewrite E2.
      split; [done|]. split; [done|]. split; [done|]. by econstructor. }
  destruct H as (b' & rs & S & Er & Hw' & Hr' & Hsp). exists k, b, b', rs, S. split_and!; try done.
  apply (bops_spec_below n ∅ ops S rs Hops Hsp). by intros q ?%elem_of_empty.
Qed.

(** ** Initialisation with all bits set *)

Lemma clear_from_bit n i v j : 0 <= i -> i + Z.of_nat n <= 64 -> 0 <= v < 2 ^ 64 -> 0 <= j ->
  0 <= clear_from n i v < 2 ^ 64 /\
  Z.testbit (clear_from n i v) j = negb ((i <=? j) && (j <? i + Z.of_nat n)) && Z.testbit v j.
Proof.
  revert i v. induction n as [|n IH]; intros i v Hi Hn Hv Hj; cbn [clear_from].
  - split; [done|]. destruct (Z.leb_spec i j), (Z.ltb_spec j (i + Z.of_nat 0)); (done || lia).
  - unfold u64. change 18446744073709551616 with (2 ^ 64).
    destruct (IH (i + 1) (Z.land v (Z.lnot (Z.shiftl 1 i) mod 2 ^ 64))) as [Hb Ht];
      [lia|lia|by apply (land_bound 64)|done|].
    split; [done|]. rewrite Ht, (clear_bit 64) by lia. rewrite andb_assoc. f_equal.
    destruct (Z.leb_spec (i + 1) j), (Z.ltb_spec j (i + 1 + Z.of_nat n)), (Z.eqb_spec i j),
      (Z.leb_spec i j), (Z.ltb_spec j (i + Z.of_nat (S n))); (done || lia).
Qed.

(** Zeros from slab [i] on. *)
Lemma slab_cut a i j : 0 <= i <= Z.of_nat (length a) -> 0 <= j ->
  slab_of (take (Z.to_nat i) a ++ replicate (Z.to_nat (Z.of_nat (length a) - i)) 0) j =
  if j <? i then slab_of a j else 0.
Proof.
  intros Hi Hj. unfold slab_of. destruct (Z.ltb_spec j i).
  - rewrite lookup_app_l by (rewrite length_take; lia). by rewrite lookup_take_lt by lia.
  - rewrite lookup_app_r by (rewrite length_take; lia). destruct (replicate _ 0 !! _) eqn:E; [|done].
    by apply lookup_replicate_1 in E as [-> _].
Qed.

Lemma bit_cut a i q : 0 <= i <= Z.of_nat (length a) -> 0 <= q ->
  bit_of (take (Z.to_nat i) a ++ replicate (Z.to_nat (Z.of_nat (length a) - i)) 0) q =
  (q / 64 <? i) && bit_of a q.
Proof.
  intros Hi Hq. unfold bit_of. rewrite slab_cut by (try apply Z.div_pos; lia).
  destruct (q / 64 <? i); [done|apply Z.bits_0].
Qed.

Lemma clear_overhead_run a pos :
  slabs_ok a -> Z.of_nat (length a) <= 2 ^ 26 -> 0 <= pos <= 64 * Z.of_nat (length a) ->
  exists a', __rte_bitmap_clear_slab_overhead_bits a (Z.of_nat (length a)) pos = Ret a' /\
    length a' = length a /\ slabs_ok a' /\ forall q, 0 <= q -> bit_of a' q = (q <? pos) && bit_of a q.
Proof.
  intros Ha Hl Hp. unfold __rte_bitmap_clear_slab_overhead_bits. rewrite pos_offset.
  change (pos / RTE_BITMAP_SLAB_BIT_SIZE) with (pos / 64). set (m := Z.of_nat (length a)) in *.
  (* the slabs up to [i], with the partial slab trimmed *)
  assert (Hstep : exists a1 i, (if negb (pos mod 64 =? 0) then
      v ← rd a (pos / 64); slabs ← wr a (pos / 64) (clear_from (Z.to_nat (RTE_BITMAP_SLAB_BIT_SIZE - pos mod 64)) (pos mod 64) v);
      Ret (slabs, (pos / 64 + 1)%u32) else Ret (a, pos / 64)) = Ret (a1, i) /\
    0 <= i <= m /\ Z.of_nat (length a1) = m /\ slabs_ok a1 /\
    forall q, 0 <= q -> (q / 64 <? i) && bit_of a1 q = (q <? pos) && bit_of a q).
  { destruct (Z.eqb_spec (pos mod 64) 0) as [E|E]; cbn [negb].
    - exists a, (pos / 64). split; [done|]. split; [Z.div_mod_to_equations; lia|]. split; [done|]. split; [done|].
      intros q Hq. f_equal. apply eq_true_iff_eq. rewrite !Z.ltb_lt. Z.div_mod_to_equations; lia.
    - pose proof (Z.mod_pos_bound pos 64 ltac:(lia)).
      assert (Hi : 0 <= pos / 64 < m) by (unfold m in *; Z.div_mod_to_equations; lia).
      rewrite rd_slab by done. cbn [mbind outcome_bind]. rewrite wr_Ret by done. cbn [mbind outcome_bind].
      rewrite u32_small by lia. change RTE_BITMAP_SLAB_BIT_SIZE with 64.
      set (v := clear_from _ _ _). do 2 eexists. split; [done|]. split; [lia|].
      split; [by rewrite length_insert|].
      assert (Hv : forall j, 0 <= j < 64 -> 0 <= v < 2 ^ 64 /\
        Z.testbit v j = (j <? pos mod 64) && Z.testbit (slab_of a (pos / 64)) j).
      { intros j Hj. destruct (clear_from_bit (Z.to_nat (64 - pos mod 64)) (pos mod 64) (slab_of a (pos / 64)) j)
          as [Hb Ht]; [lia|lia|by apply slab_bounds|lia|]. split; [exact Hb|]. unfold v. rewrite Ht. f_equal.
        destruct (Z.leb_spec (pos mod 64) j), (Z.ltb_spec j (pos mod 64)); cbn; try lia.
        by rewrite (proj2 (Z.ltb_lt j _)) by lia. }
      split; [apply slabs_insert; [done|by apply (Hv 0)]|].
      intros q Hq. pose proof (Z.mod_pos_bound q 64 ltac:(lia)). rewrite bit_insert by (done || lia).
      destruct (Z.eqb_spec (pos / 64) (q / 64)) as [Eq|Eq].
      + rewrite (proj2 (Hv (q mod 64) ltac:(lia))). unfold bit_of. rewrite <- Eq, andb_assoc. f_equal.
        apply eq_true_iff_eq. rewrite andb_true_iff, !Z.ltb_lt. Z.div_mod_to_equations; lia.
      + f_equal. apply eq_true_iff_eq. rewrite !Z.ltb_lt. Z.div_mod_to_equations; lia. }
  destruct Hstep as (a1 & i & -> & Hi & Hl1 & Ha1 & Hb). cbn [mbind outcome_bind].
  destruct (Z.ltb_spec i m) as [Him|Him].
  - rewrite Hl1, Z.leb_refl, drop_ge, app_nil_r by lia. eexists. split; [done|].
    split; [rewrite length_app, length_take, length_replicate; lia|]. split.
    + apply Forall_app. split; [by apply Forall_take|by apply slabs_replicate].
    + intros q Hq. rewrite <- Hl1 in *. rewrite bit_cut by lia. by apply Hb.
  - exists a1. split; [done|]. split; [lia|]. split; [done|]. intros q Hq. rewrite <- Hb by done.
    destruct (Z.ltb_spec (q / 64) i); [done|]. unfold bit_of. rewrite slab_out, Z.bits_0 by lia. done.
Qed.

Definition all_ones : Z := 18446744073709551615.

Lemma bit_ones m q : 0 <= q -> bit_of (replicate m all_ones) q = (q <? 64 * Z.of_nat m).
Proof.
  intros Hq. unfold bit_of. destruct (Z.ltb_spec q (64 * Z.of_nat m)) as [Hlt|Hge].
  - rewrite slab_replicate by (Z.div_mod_to_equations; lia).
    apply (Z.ones_spec_low 64). apply Z.mod_pos_bound. lia.
  - rewrite slab_out; [apply Z.bits_0|]. rewrite length_replicate. Z.div_mod_to_equations; lia.
Qed.

Lemma all_set_wf L k n b a1 a2 :
  0 <= k <= 17 -> 0 < L <= 64 * 2 ^ k -> L <= 2 ^ 23 -> L = (n + 511) / 512 -> 0 < n ->
  array1_size b = 2 ^ k -> array2_size b = 8 * L ->
  Z.of_nat (length a1) = 2 ^ k -> Z.of_nat (length a2) = 8 * L -> slabs_ok a1 -> slabs_ok a2 ->
  (forall q, 0 <= q -> bit_of a1 q = (q <? L)) -> (forall q, 0 <= q -> bit_of a2 q = (q <? n)) ->
  bitmap_wf L k (set_arrays a1 a2 (__rte_bitmap_scan_init b)) /\
  scan_fresh (set_arrays a1 a2 (__rte_bitmap_scan_init b)).
Proof.
  intros Hk HL HL2 HLn Hn H1 H2 H3 H4 S1 S2 B1 B2.
  destruct (scan_init_wf L k (set_arrays a1 a2 b)) as [Hw Hf]; try done.
  intros l Hl. cbn. rewrite line_used_bits, B1, Z.ltb_lt by done. split.
  - intros Hlt. exists (512 * l). rewrite B2 by lia. split; [lia|].
    split; [Z.div_mod_to_equations; lia|]. apply Z.ltb_lt. Z.div_mod_to_equations; lia.
  - intros (p & Hp & <- & Ht). rewrite B2 in Ht by done. apply Z.ltb_lt in Ht. Z.div_mod_to_equations; lia.
Qed.

(** Initialisation with all bits set compares the sizes the wrong way round: a buffer
    larger than the footprint is refused, a smaller one is accepted and written past its
    end, and only a buffer of exactly the footprint gives the bitmap whose bits below
    [n] are set, with an exact summary and the scan at its start. *)
Theorem init_all_set_buffer n mem mem_size :
  0 < n <= 2 ^ 32 - 512 -> mem <> 0 -> mem mod 64 = 0 ->
  let size := rte_bitmap_get_memory_footprint n in
  (size < mem_size -> rte_bitmap_init_with_all_set n mem mem_size = Ret None) /\
  (mem_size < size -> rte_bitmap_init_with_all_set n mem mem_size = Undef) /\
  (mem_size = size -> exists k b, rte_bitmap_init_with_all_set n mem mem_size = Ret (Some b) /\
     bitmap_wf ((n + 511) / 512) k b /\ scan_fresh b /\
     forall q, 0 <= q -> bit_of (array2 b) q = (q <? n)).
Proof.
  intros Hn Hm Ha. unfold rte_bitmap_get_memory_footprint, rte_bitmap_init_with_all_set.
  rewrite (proj2 (Z.eqb_neq n 0)), (proj2 (Z.eqb_neq mem 0)) by lia.
  change (RTE_CACHE_LINE_SIZE - 1) with (2 ^ 6 - 1). rewrite land_ones_mod, (Ha : mem mod 2 ^ 6 = 0) by lia.
  destruct (footprint_eq n Hn) as (k & C & Hk & HL & HL2 & HC & E). rewrite E. cbn [orb negb Z.eqb fst].
  set (L := (n + 511) / 512) in *.
  assert (Hp : 0 < 2 ^ k <= 2 ^ 17) by (split; [lia|apply Z.pow_le_mono_r; lia]).
  split; [|split]; intros Hs.
  - by rewrite (proj2 (Z.ltb_lt _ _)) by lia.
  - rewrite (proj2 (Z.ltb_ge _ _)) by lia. unfold memset_ok.
    rewrite (proj2 (Z.leb_gt (64 * C + 8 * L * 8) _)) by lia.
    by destruct (_ <=? mem_size), (_ <=? mem_size).
  - rewrite (proj2 (Z.ltb_ge _ _)) by lia. unfold memset_ok, SIZEOF_RTE_BITMAP.
    rewrite !(proj2 (Z.leb_le _ _)) by lia. cbn [mbind outcome_bind].
    change 18446744073709551615 with all_ones.
    change (array1 (__rte_bitmap_scan_init ?b)) with (array1 b). change (array2 (__rte_bitmap_scan_init ?b)) with (array2 b).
    change (array1_size (__rte_bitmap_scan_init ?b)) with (array1_size b).
    change (array2_size (__rte_bitmap_scan_init ?b)) with (array2_size b). cbn [array1 array2 array1_size array2_size].
    replace (Z.shiftr (8 * L) RTE_BITMAP_CL_SLAB_SIZE_LOG2) with L
      by (rewrite Z.shiftr_div_pow2 by done; change (2 ^ RTE_BITMAP_CL_SLAB_SIZE_LOG2) with 8; Z.div_mod_to_equations; lia).
    assert (S : forall m, slabs_ok (replicate m all_ones)) by (intros m; by apply slabs_replicate).
    destruct (clear_overhead_run (replicate (Z.to_nat (2 ^ k)) all_ones) L) as (a1 & E1 & L1 & S1 & B1);
      [done|rewrite length_replicate; lia..|].
    destruct (clear_overhead_run (replicate (Z.to_nat (8 * L)) all_ones) n) as (a2 & E2 & L2 & S2 & B2);
      [done|rewrite length_replicate; lia|rewrite length_replicate; unfold L; Z.div_mod_to_equations; lia|].
    rewrite length_replicate, Z2Nat.id in E1, E2 by lia. rewrite length_replicate in L1, L2.
    rewrite E1. cbn [mbind outcome_bind]. rewrite E2. cbn [mbind outcome_bind].
    exists k. eexists. split; [reflexivity|].
    assert (B2' : forall q, 0 <= q -> bit_of a2 q = (q <? n)).
    { intros q Hq. rewrite B2, bit_ones by done.
      destruct (Z.ltb_spec q n); [|done]. apply Z.ltb_lt. unfold L in *. Z.div_mod_to_equations; lia. }
    assert (B1' : forall q, 0 <= q -> bit_of a1 q = (q <? L)).
    { intros q Hq. rewrite B1, bit_ones by done. destruct (Z.ltb_spec q L); [|done]. apply Z.ltb_lt. lia. }
    destruct (all_set_wf L k n (Bitmap (replicate (Z.to_nat (2 ^ k)) all_ones) (replicate (Z.to_nat (8 * L)) all_ones)
      (2 ^ k) (8 * L) 0 0 0 0) a1 a2) as [Hw Hf]; try done; try lia.
Qed.

(** [rte_bitmap_set_slab] sets the summary bit even for a slab of zeros. In a bitmap
    of 1024 bits that is empty before and after, the next scan then reports success
    without writing the caller's position and slab, although no bit is set. *)
Theorem set_slab_zero pos slab :
  exists b b0 b1 b2, rte_bitmap_init 1024 64 256 = Ret (Some b) /\ rte_bitmap_set_slab b 600 0 = Ret b1 /\
    represents_set b1 ∅ /\ rte_bitmap_scan b pos slab = Ret (b0, 0, (pos, slab)) /\
    rte_bitmap_scan b1 pos slab = Ret (b2, 1, (pos, slab)).
Proof.
  do 4 eexists. split; [vm_compute; reflexivity|]. split; [vm_compute; reflexivity|].
  split; [|split; vm_compute; reflexivity].
  intros q. cbn [array2]. rewrite (bit_zeros 16 q : bit_of [0;0;0;0;0;0;0;0;0;0;0;0;0;0;0;0] q = false).
  split; [by intros ?%elem_of_empty|by intros [_ ?]].
Qed.

(** The position that a scan returns is that of the first bit of the slab, which need not be set,
    though the comment on the function says that it is the position of the next set bit. *)
Theorem scan_position_not_set :
  exists b b1 b2, rte_bitmap_init 64 64 256 = Ret (Some b) /\ rte_bitmap_set b 3 = Ret b1 /\
    rte_bitmap_scan b1 0 0 = Ret (b2, 1, (0, 8)) /\ rte_bitmap_get b1 0 = Ret 0.
Proof. do 3 eexists. split; [vm_compute; reflexivity|]. split; [vm_compute; reflexivity|]. by split; vm_compute. Qed.

(** ** Witnesses *)

Lemma scan_enumerates_witness :
  exists b b', rte_bitmap_init_with_all_set 130 64 (rte_bitmap_get_memory_footprint 130) = Ret (Some b) /\
    scan_times 6 b = Ret (b', [(0, all_ones); (64, all_ones); (128, 3); (0, all_ones); (64, all_ones); (128, 3)]).
Proof.
  destruct (init_all_set_buffer 130 64 (rte_bitmap_get_memory_footprint 130)) as (_ & _ & H); [lia|lia|done|].
  destruct (H eq_refl) as (k & b & E & Hw & Hf & _).
  destruct (scan_enumerates 1 k b 2 0 0 Hw Hf) as [Hs _].
  vm_compute in E. injection E as <-. destruct Hs as (b' & Hs & _); [vm_compute; discriminate|].
  do 2 eexists. split; [vm_compute; reflexivity|exact Hs].
Defined.

Lemma init_all_set_buffer_witness :
  rte_bitmap_init_with_all_set 1000 4096 4096 = Ret None /\ rte_bitmap_init_with_all_set 1000 4096 128 = Undef.
Proof.
  destruct (init_all_set_buffer 1000 4096 4096) as (H1 & _); [lia|lia|done|].
  destruct (init_all_set_buffer 1000 4096 128) as (_ & H2 & _); [lia|lia|done|].
  split; [apply H1|apply H2]; vm_compute; reflexivity.
Defined.

Lemma bitmap_refines_set_witness :
  exists k b b' results S, rte_bitmap_init 1000 4096 4096 = Ret (Some b) /\
    run_bops b [BSet 700; BSet 3; BGet 700; BClear 700; BGet 700; BScan; BReset; BScan] = Ret (b', results) /\
    bitmap_wf 2 k b' /\ represents_set b' S.
Proof.
  destruct (bitmap_refines_set 1000 4096 4096
    [BSet 700; BSet 3; BGet 700; BClear 700; BGet 700; BScan; BReset; BScan]) as (k & b & b' & rs & S & E & R & W & P & _);
    [lia|lia|done|vm_compute; discriminate|repeat constructor; cbn; lia|].
  exists k, b, b', rs, S. split; [exact E|]. split; [exact R|]. split; [exact W|exact P].
Defined.

Example bitmap_demo :
  (b ← rte_bitmap_init 1000 4096 4096;
   match b with
   | None => Undef
   | Some b => '(_, rs) ← run_bops b [BSet 700; BSet 3; BGet 700; BScan; BScan; BClear 700; BGet 700; BScan; BReset; BScan];
               Ret rs
   end) =
  Ret [RUnit; RUnit; RGet true; RScan (Some (0, 8)); RScan (Some (640, 2 ^ 60)); RUnit; RGet false;
       RScan (Some (0, 8)); RUnit; RScan None].
Proof. vm_compute. reflexivity. Qed.
