(* ===== verification/Atomic.v ===== *)
(** * [rte_lib/include/generic/rte_atomic.h] and [rte_pause.h]: one memory cell

    The compare-and-set, exchange and counter operations as functions of the
    cell they work on, with the wrap-around of the counter types, and the
    waiting loops, which are given the values successive loads return. What
    happens between the load and the store of the unlocked compare-and-set is
    the subject of [RingConc]. *)

From S2P Require Import Prelude.

Open Scope Z_scope.

(** ** Definitions *)

(** *** 16-bit operations: the result, then the new value of the cell. *)

(* rte_lib/include/generic/rte_atomic.h:149-153 rte_atomic16_cmpset *)
Definition rte_atomic16_cmpset (dst exp src : Z) : bool * Z :=
  if u16 dst =? u16 exp then (true, src) else (false, dst).

(* rte_lib/include/generic/rte_atomic.h:175-183 rte_atomic16_exchange *)
Definition rte_atomic16_exchange (dst val : Z) : Z * Z := (dst, val).

(* rte_lib/include/generic/rte_atomic.h:204-208 rte_atomic16_init *)
Definition rte_atomic16_init (v : Z) : Z := 0.

(* rte_lib/include/generic/rte_atomic.h:218-222 rte_atomic16_read *)
Definition rte_atomic16_read (v : Z) : Z := v.

(* rte_lib/include/generic/rte_atomic.h:232-236 rte_atomic16_set *)
Definition rte_atomic16_set (v new_value : Z) : Z := new_value.

(* rte_lib/include/generic/rte_atomic.h:246-250 rte_atomic16_add *)
Definition rte_atomic16_add (v inc : Z) : Z := i16 (v + inc).

(* rte_lib/include/generic/rte_atomic.h:260-264 rte_atomic16_sub *)
Definition rte_atomic16_sub (v dec : Z) : Z := i16 (v - dec).

(* rte_lib/include/generic/rte_atomic.h:276-280 rte_atomic16_inc *)
Definition rte_atomic16_inc (v : Z) : Z := rte_atomic16_add v 1.

(* rte_lib/include/generic/rte_atomic.h:293-297 rte_atomic16_dec *)
Definition rte_atomic16_dec (v : Z) : Z := rte_atomic16_sub v 1.

(* rte_lib/include/generic/rte_atomic.h:313-317 rte_atomic16_add_return *)
Definition rte_atomic16_add_return (v inc : Z) : Z * Z :=
  (i16 (v + inc), i16 (v + inc)).

(* rte_lib/include/generic/rte_atomic.h:333-337 rte_atomic16_sub_return *)
Definition rte_atomic16_sub_return (v dec : Z) : Z * Z :=
  (i16 (v - dec), i16 (v - dec)).

(* rte_lib/include/generic/rte_atomic.h:353-356 rte_atomic16_inc_and_test *)
Definition rte_atomic16_inc_and_test (v : Z) : bool * Z :=
  (i16 (v + 1) =? 0, i16 (v + 1)).

(* rte_lib/include/generic/rte_atomic.h:373-376 rte_atomic16_dec_and_test *)
Definition rte_atomic16_dec_and_test (v : Z) : bool * Z :=
  (i16 (v - 1) =? 0, i16 (v - 1)).

(* rte_lib/include/generic/rte_atomic.h:393-396 rte_atomic16_test_and_set *)
Definition rte_atomic16_test_and_set (v : Z) : bool * Z :=
  rte_atomic16_cmpset v 0 1.

(* rte_lib/include/generic/rte_atomic.h:405-408 rte_atomic16_clear *)
Definition rte_atomic16_clear (v : Z) : Z := 0.

(** *** 32-bit operations: the result, then the new value of the cell. *)

(* rte_lib/include/generic/rte_atomic.h:431-447 rte_atomic32_cmpset *)
Definition rte_atomic32_cmpset (dst exp src : Z) : bool * Z :=
  if u32 dst =? u32 exp then (true, src) else (false, dst).

(* rte_lib/include/generic/rte_atomic.h:478-486 rte_atomic32_exchange *)
Definition rte_atomic32_exchange (dst val : Z) : Z * Z := (dst, val).

(* rte_lib/include/generic/rte_atomic.h:507-511 rte_atomic32_init *)
Definition rte_atomic32_init (v : Z) : Z := 0.

(* rte_lib/include/generic/rte_atomic.h:521-525 rte_atomic32_read *)
Definition rte_atomic32_read (v : Z) : Z := v.

(* rte_lib/include/generic/rte_atomic.h:535-539 rte_atomic32_set *)
Definition rte_atomic32_set (v new_value : Z) : Z := new_value.

(* rte_lib/include/generic/rte_atomic.h:549-553 rte_atomic32_add *)
Definition rte_atomic32_add (v inc : Z) : Z := i32 (v + inc).

(* rte_lib/include/generic/rte_atomic.h:563-567 rte_atomic32_sub *)
Definition rte_atomic32_sub (v dec : Z) : Z := i32 (v - dec).

(* rte_lib/include/generic/rte_atomic.h:579-583 rte_atomic32_inc *)
Definition rte_atomic32_inc (v : Z) : Z := rte_atomic32_add v 1.

(* rte_lib/include/generic/rte_atomic.h:596-600 rte_atomic32_dec *)
Definition rte_atomic32_dec (v : Z) : Z := rte_atomic32_sub v 1.

(* rte_lib/include/generic/rte_atomic.h:616-620 rte_atomic32_add_return *)
Definition rte_atomic32_add_return (v inc : Z) : Z * Z :=
  (i32 (v + inc), i32 (v + inc)).

(* rte_lib/include/generic/rte_atomic.h:636-640 rte_atomic32_sub_return *)
Definition rte_atomic32_sub_return (v dec : Z) : Z * Z :=
  (i32 (v - dec), i32 (v - dec)).

(* rte_lib/include/generic/rte_atomic.h:656-659 rte_atomic32_inc_and_test *)
Definition rte_atomic32_inc_and_test (v : Z) : bool * Z :=
  (i32 (v + 1) =? 0, i32 (v + 1)).

(* rte_lib/include/generic/rte_atomic.h:676-679 rte_atomic32_dec_and_test *)
Definition rte_atomic32_dec_and_test (v : Z) : bool * Z :=
  (i32 (v - 1) =? 0, i32 (v - 1)).

(* rte_lib/include/generic/rte_atomic.h:696-699 rte_atomic32_test_and_set *)
Definition rte_atomic32_test_and_set (v : Z) : bool * Z :=
  rte_atomic32_cmpset v 0 1.

(* rte_lib/include/generic/rte_atomic.h:708-711 rte_atomic32_clear *)
Definition rte_atomic32_clear (v : Z) : Z := 0.

(** *** 64-bit operations: the result, then the new value of the cell. *)

(* rte_lib/include/generic/rte_atomic.h:734-738 rte_atomic64_cmpset *)
Definition rte_atomic64_cmpset (dst exp src : Z) : bool * Z :=
  if u64 dst =? u64 exp then (true, src) else (false, dst).

(* rte_lib/include/generic/rte_atomic.h:760-768 rte_atomic64_exchange *)
Definition rte_atomic64_exchange (dst val : Z) : Z * Z := (dst, val).

(* rte_lib/include/generic/rte_atomic.h:793-808 rte_atomic64_init *)
Definition rte_atomic64_init (v : Z) : Z := 0.

(* rte_lib/include/generic/rte_atomic.h:823-840 rte_atomic64_read *)
Definition rte_atomic64_read (v : Z) : Z := v.

(* rte_lib/include/generic/rte_atomic.h:855-870 rte_atomic64_set *)
Definition rte_atomic64_set (v new_value : Z) : Z := new_value.

(* rte_lib/include/generic/rte_atomic.h:885-889 rte_atomic64_add *)
Definition rte_atomic64_add (v inc : Z) : Z := i64 (v + inc).

(* rte_lib/include/generic/rte_atomic.h:904-908 rte_atomic64_sub *)
Definition rte_atomic64_sub (v dec : Z) : Z := i64 (v - dec).

(* rte_lib/include/generic/rte_atomic.h:921-925 rte_atomic64_inc *)
Definition rte_atomic64_inc (v : Z) : Z := rte_atomic64_add v 1.

(* rte_lib/include/generic/rte_atomic.h:938-942 rte_atomic64_dec *)
Definition rte_atomic64_dec (v : Z) : Z := rte_atomic64_sub v 1.

(* rte_lib/include/generic/rte_atomic.h:962-966 rte_atomic64_add_return *)
Definition rte_atomic64_add_return (v inc : Z) : Z * Z :=
  (i64 (v + inc), i64 (v + inc)).

(* rte_lib/include/generic/rte_atomic.h:986-990 rte_atomic64_sub_return *)
Definition rte_atomic64_sub_return (v dec : Z) : Z * Z :=
  (i64 (v - dec), i64 (v - dec)).

(* rte_lib/include/generic/rte_atomic.h:1007-1010 rte_atomic64_inc_and_test *)
Definition rte_atomic64_inc_and_test (v : Z) : bool * Z :=
  let '(x, v) := rte_atomic64_add_return v 1 in (x =? 0, v).

(* rte_lib/include/generic/rte_atomic.h:1027-1030 rte_atomic64_dec_and_test *)
Definition rte_atomic64_dec_and_test (v : Z) : bool * Z :=
  let '(x, v) := rte_atomic64_sub_return v 1 in (x =? 0, v).

(* rte_lib/include/generic/rte_atomic.h:1047-1050 rte_atomic64_test_and_set *)
Definition rte_atomic64_test_and_set (v : Z) : bool * Z :=
  rte_atomic64_cmpset v 0 1.

(* rte_lib/include/generic/rte_atomic.h:1062-1065 rte_atomic64_clear *)
Definition rte_atomic64_clear (v : Z) : Z := rte_atomic64_set v 0.

(** *** Waiting loops

    [load k] is what the [k]-th load of the cell returns: other threads decide.
    The result is the number of loads that failed. *)

(* rte_lib/include/generic/rte_pause.h:89-97 rte_wait_until_equal_16 *)
Definition rte_wait_until_equal_16 (fuel : nat) (load : nat -> Z) (expected : Z)
    : outcome nat :=
  while fuel (fun k => negb (load k =? expected)) (fun k => Ret (S k)) O.

(* rte_lib/include/generic/rte_pause.h:99-107 rte_wait_until_equal_32 *)
Definition rte_wait_until_equal_32 (fuel : nat) (load : nat -> Z) (expected : Z)
    : outcome nat :=
  while fuel (fun k => negb (load k =? expected)) (fun k => Ret (S k)) O.

(* rte_lib/include/generic/rte_pause.h:109-117 rte_wait_until_equal_64 *)
Definition rte_wait_until_equal_64 (fuel : nat) (load : nat -> Z) (expected : Z)
    : outcome nat :=
  while fuel (fun k => negb (load k =? expected)) (fun k => Ret (S k)) O.

(* rte_lib/include/generic/rte_pause.h:137-145 RTE_WAIT_UNTIL_MASKED *)
Definition RTE_WAIT_UNTIL_MASKED (fuel : nat) (load : nat -> Z) (mask : Z)
    (cond : Z -> Z -> bool) (expected : Z) : outcome nat :=
  while fuel (fun k => negb (cond (Z.land (load k) mask) expected)) (fun k => Ret (S k)) O.

(** ** Properties *)

(** Compare-and-set in terms of the two words: it succeeds exactly when the
    cell holds the expected value, and otherwise leaves the cell alone. *)
Lemma cmpset32_spec dst exp src b v :
  is_u32 dst -> is_u32 exp ->
  rte_atomic32_cmpset dst exp src = (b, v) <->
  (b = true /\ dst = exp /\ v = src) \/ (b = false /\ dst <> exp /\ v = dst).
Proof.
  intros H1 H2. unfold rte_atomic32_cmpset. rewrite !u32_small by done.
  destruct (Z.eqb_spec dst exp) as [->|Hne]; split.
  - intros [= <- <-]. auto.
  - by intros [(-> & _ & ->)|(_ & [] & _)].
  - intros [= <- <-]. auto.
  - by intros [(_ & ? & _)|(-> & _ & ->)].
Qed.

Lemma cmpset32_hit v src : rte_atomic32_cmpset v v src = (true, src).
Proof. unfold rte_atomic32_cmpset. by rewrite Z.eqb_refl. Qed.

(** A wait ends with the first load that returns the expected value. *)
Lemma wait_until_equal_32_first load expected k fuel :
  load k = expected -> (forall j, (j < k)%nat -> load j <> expected) -> (k <= fuel)%nat ->
  rte_wait_until_equal_32 fuel load expected = Ret k.
Proof.
  intros Hk Hj Hf. unfold rte_wait_until_equal_32.
  apply (while_count _ _ (fun j => j) k); [done| |done|].
  - intros j Hlt. specialize (Hj j Hlt). apply negb_true_iff. by apply Z.eqb_neq.
  - apply negb_false_iff. by apply Z.eqb_eq.
Qed.
