(* ===== verification/RingCore.v ===== *)
(** * [rte_lib/ring]: the ring structure, its initialisation and its queries

    [struct rte_ring] of [rte_ring_core.h], [rte_ring_init] and the memory-size
    computation of [rte_ring.c], and the observers of [rte_ring.h]. *)

From S2P Require Import Prelude Common.
From stdpp Require Export strings.

Open Scope Z_scope.

(** ** Errno values used by the ring and hash code *)
Definition ENOENT : Z := 2.
Definition EBUSY : Z := 16.
Definition EINVAL : Z := 22.
Definition ENOSPC : Z := 28.
Definition ENAMETOOLONG : Z := 36.
Definition ENOTSUP : Z := 95.
Definition ENOBUFS : Z := 105.
Definition UINT32_MAX : Z := 4294967295.

(** ** Data *)

(** Enqueue/dequeue behaviour. *)
(* rte_lib/ring/rte_ring_core.h:49-54 rte_ring_queue_behavior *)
Inductive rte_ring_queue_behavior :=
  | RTE_RING_QUEUE_FIXED
  | RTE_RING_QUEUE_VARIABLE.

(* rte_lib/ring/rte_ring_core.h:62-67 rte_ring_sync_type *)
Inductive rte_ring_sync_type :=
  | RTE_RING_SYNC_MT
  | RTE_RING_SYNC_ST
  | RTE_RING_SYNC_MT_RTS
  | RTE_RING_SYNC_MT_HTS.

#[export] Instance sync_type_eq_dec : EqDecision rte_ring_sync_type.
Proof. solve_decision. Defined.
#[export] Instance behavior_eq_dec : EqDecision rte_ring_queue_behavior.
Proof. solve_decision. Defined.

(** The value of the C enumerator, as the [is_sp]/[is_sc]/[single] arguments see it. *)
Definition sync_num (st : rte_ring_sync_type) : Z :=
  match st with
  | RTE_RING_SYNC_MT => 0
  | RTE_RING_SYNC_ST => 1
  | RTE_RING_SYNC_MT_RTS => 2
  | RTE_RING_SYNC_MT_HTS => 3
  end.

(** The producer/consumer status is a union of three layouts. The record has
    one field per 32-bit word of the union, so the three views share storage
    exactly as the [offsetof] checks of [rte_ring_init] demand:
    - [rte_ring_headtail]: [head] = [ht_w0], [tail] = [ht_tail];
    - [rte_ring_hts_headtail]: [ht.pos.head] = [ht_w0], [ht.pos.tail] = [ht_tail];
    - [rte_ring_rts_headtail]: [tail.val.cnt] = [ht_w0], [tail.val.pos] = [ht_tail],
      [htd_max], and [head.val] = ([ht_hcnt], [ht_hpos]). *)
(* rte_lib/ring/rte_ring_core.h:74-115 rte_ring_headtail *)
Record rte_ring_headtail := HT {
  ht_w0 : Z;
  ht_tail : Z;
  ht_sync_type : rte_ring_sync_type;
  ht_htd_max : Z;
  ht_hcnt : Z;
  ht_hpos : Z;
}.

(** [r_mem] is the element storage that follows the structure in its memory
    zone ([&r[1]]), as 32-bit words. *)
(* rte_lib/ring/rte_ring_core.h:126-157 rte_ring *)
Record rte_ring := Ring {
  r_name : string;
  r_flags : Z;
  r_memzone : option Z;
  r_size : Z;
  r_mask : Z;
  r_capacity : Z;
  r_prod : rte_ring_headtail;
  r_cons : rte_ring_headtail;
  r_mem : list Z;
}.

(** Field updates. *)
Definition set_w0 (v : Z) (h : rte_ring_headtail) : rte_ring_headtail :=
  HT v (ht_tail h) (ht_sync_type h) (ht_htd_max h) (ht_hcnt h) (ht_hpos h).
Definition set_tail (v : Z) (h : rte_ring_headtail) : rte_ring_headtail :=
  HT (ht_w0 h) v (ht_sync_type h) (ht_htd_max h) (ht_hcnt h) (ht_hpos h).
Definition set_sync_type (v : rte_ring_sync_type) (h : rte_ring_headtail) :=
  HT (ht_w0 h) (ht_tail h) v (ht_htd_max h) (ht_hcnt h) (ht_hpos h).
Definition set_htd_max (v : Z) (h : rte_ring_headtail) : rte_ring_headtail :=
  HT (ht_w0 h) (ht_tail h) (ht_sync_type h) v (ht_hcnt h) (ht_hpos h).
Definition set_rts_head (cnt pos : Z) (h : rte_ring_headtail) : rte_ring_headtail :=
  HT (ht_w0 h) (ht_tail h) (ht_sync_type h) (ht_htd_max h) cnt pos.
Definition set_prod (h : rte_ring_headtail) (r : rte_ring) : rte_ring :=
  Ring (r_name r) (r_flags r) (r_memzone r) (r_size r) (r_mask r) (r_capacity r)
    h (r_cons r) (r_mem r).
Definition set_cons (h : rte_ring_headtail) (r : rte_ring) : rte_ring :=
  Ring (r_name r) (r_flags r) (r_memzone r) (r_size r) (r_mask r) (r_capacity r)
    (r_prod r) h (r_mem r).
Definition set_mem (m : list Z) (r : rte_ring) : rte_ring :=
  Ring (r_name r) (r_flags r) (r_memzone r) (r_size r) (r_mask r) (r_capacity r)
    (r_prod r) (r_cons r) m.
Definition set_sizes (size mask capacity : Z) (r : rte_ring) : rte_ring :=
  Ring (r_name r) (r_flags r) (r_memzone r) size mask capacity
    (r_prod r) (r_cons r) (r_mem r).

(** ** Flags *)
(* rte_lib/ring/rte_ring_core.h:159-159 RING_F_SP_ENQ *)
Definition RING_F_SP_ENQ : Z := 1.
(* rte_lib/ring/rte_ring_core.h:160-160 RING_F_SC_DEQ *)
Definition RING_F_SC_DEQ : Z := 2.
(* rte_lib/ring/rte_ring_core.h:169-169 RING_F_EXACT_SZ *)
Definition RING_F_EXACT_SZ : Z := 4.
(* rte_lib/ring/rte_ring_core.h:172-172 RING_F_MP_RTS_ENQ *)
Definition RING_F_MP_RTS_ENQ : Z := 8.
(* rte_lib/ring/rte_ring_core.h:173-173 RING_F_MC_RTS_DEQ *)
Definition RING_F_MC_RTS_DEQ : Z := 16.
(* rte_lib/ring/rte_ring_core.h:175-175 RING_F_MP_HTS_ENQ *)
Definition RING_F_MP_HTS_ENQ : Z := 32.
(* rte_lib/ring/rte_ring_core.h:176-176 RING_F_MC_HTS_DEQ *)
Definition RING_F_MC_HTS_DEQ : Z := 64.
(* rte_lib/ring/rte_ring_core.h:170-170 RTE_RING_SZ_MASK *)
Definition RTE_RING_SZ_MASK : Z := 2147483647.

(* rte_lib/ring/rte_ring.c:46-48 RING_F_MASK *)
Definition RING_F_MASK : Z :=
  Z.lor (Z.lor (Z.lor (Z.lor (Z.lor (Z.lor RING_F_SP_ENQ RING_F_SC_DEQ)
    RING_F_EXACT_SZ) RING_F_MP_RTS_ENQ) RING_F_MC_RTS_DEQ)
    RING_F_MP_HTS_ENQ) RING_F_MC_HTS_DEQ.

(** [sizeof(struct rte_ring)]: the name, flags, memzone and sizes fill the
    first cache line, then pad, [prod], pad, [cons] and pad take one each. *)
Definition SIZEOF_RTE_RING : Z := 384.

(** [sizeof(r->name)], i.e. [RTE_MEMZONE_NAMESIZE - sizeof("RG_") + 1]. *)
Definition RTE_RING_NAMESIZE : Z := 29.

(* rte_lib/ring/rte_ring.c:54-54 HTD_MAX_DEF *)
Definition HTD_MAX_DEF : Z := 8.

(* rte_lib/ring/rte_ring.c:51-51 POWEROF2 *)
Definition POWEROF2 (x : Z) : bool := Z.land (x - 1)%u32 x =? 0.

(** [C] truth value of a masked flag word. *)
Definition flag_set (flags f : Z) : bool := negb (Z.land flags f =? 0).

(** ** Size of a ring *)

(** [count * esize] is a product of two [unsigned int]. *)
(* rte_lib/ring/rte_ring.c:57-79 rte_ring_get_memsize_elem *)
Definition rte_ring_get_memsize_elem (esize count : Z) : Z :=
  if negb (esize mod 4 =? 0) then - EINVAL
  else if negb (POWEROF2 count) || (count >? RTE_RING_SZ_MASK) then - EINVAL
  else
    let sz := u64 (SIZEOF_RTE_RING + (count * esize)%u32) in
    RTE_ALIGN sz RTE_CACHE_LINE_SIZE.

(* rte_lib/ring/rte_ring.c:82-86 rte_ring_get_memsize *)
Definition rte_ring_get_memsize (count : Z) : Z := rte_ring_get_memsize_elem 8 count.

(** ** Reset *)

(* rte_lib/ring/rte_ring.c:91-119 reset_headtail *)
Definition reset_headtail (ht : rte_ring_headtail) : rte_ring_headtail :=
  match ht_sync_type ht with
  | RTE_RING_SYNC_MT | RTE_RING_SYNC_ST => set_tail 0 (set_w0 0 ht)
  | RTE_RING_SYNC_MT_RTS =>
      let ht := set_rts_head 0 0 ht in
      set_tail 0 (set_w0 0 ht)
  | RTE_RING_SYNC_MT_HTS => set_tail 0 (set_w0 0 ht)
  end.

(* rte_lib/ring/rte_ring.c:121-126 rte_ring_reset *)
Definition rte_ring_reset (r : rte_ring) : rte_ring :=
  let r := set_prod (reset_headtail (r_prod r)) r in
  set_cons (reset_headtail (r_cons r)) r.

(** ** Initialisation *)

(** The returned [int], then the two out-parameters. *)
(* rte_lib/ring/rte_ring.c:133-177 get_sync_type *)
Definition get_sync_type (flags : Z) (prod_st cons_st : rte_ring_sync_type)
    : Z * rte_ring_sync_type * rte_ring_sync_type :=
  let prod_st_flags := Z.lor (Z.lor RING_F_SP_ENQ RING_F_MP_RTS_ENQ) RING_F_MP_HTS_ENQ in
  let cons_st_flags := Z.lor (Z.lor RING_F_SC_DEQ RING_F_MC_RTS_DEQ) RING_F_MC_HTS_DEQ in
  let pf := Z.land flags prod_st_flags in
  let set_cons_st (prod_st : rte_ring_sync_type) :=
    let cf := Z.land flags cons_st_flags in
    if cf =? 0 then (0, prod_st, RTE_RING_SYNC_MT)
    else if cf =? RING_F_SC_DEQ then (0, prod_st, RTE_RING_SYNC_ST)
    else if cf =? RING_F_MC_RTS_DEQ then (0, prod_st, RTE_RING_SYNC_MT_RTS)
    else if cf =? RING_F_MC_HTS_DEQ then (0, prod_st, RTE_RING_SYNC_MT_HTS)
    else (- EINVAL, prod_st, cons_st) in
  if pf =? 0 then set_cons_st RTE_RING_SYNC_MT
  else if pf =? RING_F_SP_ENQ then set_cons_st RTE_RING_SYNC_ST
  else if pf =? RING_F_MP_RTS_ENQ then set_cons_st RTE_RING_SYNC_MT_RTS
  else if pf =? RING_F_MP_HTS_ENQ then set_cons_st RTE_RING_SYNC_MT_HTS
  else (- EINVAL, prod_st, cons_st).

(* rte_lib/ring/rte_ring_rts.h:273-279 rte_ring_get_prod_htd_max *)
Definition rte_ring_get_prod_htd_max (r : rte_ring) : Z :=
  match ht_sync_type (r_prod r) with
  | RTE_RING_SYNC_MT_RTS => ht_htd_max (r_prod r)
  | _ => UINT32_MAX
  end.

(* rte_lib/ring/rte_ring_rts.h:292-300 rte_ring_set_prod_htd_max *)
Definition rte_ring_set_prod_htd_max (r : rte_ring) (v : Z) : Z * rte_ring :=
  match ht_sync_type (r_prod r) with
  | RTE_RING_SYNC_MT_RTS => (0, set_prod (set_htd_max v (r_prod r)) r)
  | _ => (- ENOTSUP, r)
  end.

(* rte_lib/ring/rte_ring_rts.h:311-317 rte_ring_get_cons_htd_max *)
Definition rte_ring_get_cons_htd_max (r : rte_ring) : Z :=
  match ht_sync_type (r_cons r) with
  | RTE_RING_SYNC_MT_RTS => ht_htd_max (r_cons r)
  | _ => UINT32_MAX
  end.

(* rte_lib/ring/rte_ring_rts.h:330-338 rte_ring_set_cons_htd_max *)
Definition rte_ring_set_cons_htd_max (r : rte_ring) (v : Z) : Z * rte_ring :=
  match ht_sync_type (r_cons r) with
  | RTE_RING_SYNC_MT_RTS => (0, set_cons (set_htd_max v (r_cons r)) r)
  | _ => (- ENOTSUP, r)
  end.

(** [memset(r, 0, sizeof( *r))]: every field of the structure, not the storage
    behind it. *)
Definition zero_headtail : rte_ring_headtail := HT 0 0 RTE_RING_SYNC_MT 0 0 0.
Definition memset_ring (r : rte_ring) : rte_ring :=
  Ring EmptyString 0 None 0 0 0 zero_headtail zero_headtail (r_mem r).

(** [strlcpy], i.e. [rte_strlcpy]: what [snprintf(dst, size, "%s", src)] leaves
    in [dst] and returns. *)
(* rte_lib/include/rte_string_fns.h:58-62 rte_strlcpy *)
Definition rte_strlcpy (src : string) (size : Z) : string * Z :=
  (String.substring 0 (Z.to_nat (size - 1)) src, Z.of_nat (String.length src)).

(* rte_lib/ring/rte_ring.c:179-240 rte_ring_init *)
Definition rte_ring_init (r : rte_ring) (name : string) (count flags : Z) : Z * rte_ring :=
  if negb (Z.land flags (Z.lnot RING_F_MASK) =? 0) then (- EINVAL, r)
  else
    let r := memset_ring r in
    let '(nm, ret) := rte_strlcpy name RTE_RING_NAMESIZE in
    let r := Ring nm (r_flags r) (r_memzone r) (r_size r) (r_mask r) (r_capacity r)
               (r_prod r) (r_cons r) (r_mem r) in
    if (ret <? 0) || (ret >=? RTE_RING_NAMESIZE) then (- ENAMETOOLONG, r)
    else
      let r := Ring (r_name r) flags (r_memzone r) (r_size r) (r_mask r) (r_capacity r)
                 (r_prod r) (r_cons r) (r_mem r) in
      let '(ret, pst, cst) :=
        get_sync_type flags (ht_sync_type (r_prod r)) (ht_sync_type (r_cons r)) in
      let r := set_prod (set_sync_type pst (r_prod r)) r in
      let r := set_cons (set_sync_type cst (r_cons r)) r in
      if negb (ret =? 0) then (ret, r)
      else
        let finish (r : rte_ring) : Z * rte_ring :=
          let r := if flag_set flags RING_F_MP_RTS_ENQ
                   then snd (rte_ring_set_prod_htd_max r (r_capacity r / HTD_MAX_DEF))
                   else r in
          let r := if flag_set flags RING_F_MC_RTS_DEQ
                   then snd (rte_ring_set_cons_htd_max r (r_capacity r / HTD_MAX_DEF))
                   else r in
          (0, r) in
        if flag_set flags RING_F_EXACT_SZ then
          let size := rte_align32pow2 (count + 1)%u32 in
          finish (set_sizes size (size - 1)%u32 count r)
        else if negb (POWEROF2 count) || (count >? RTE_RING_SZ_MASK) then (- EINVAL, r)
        else finish (set_sizes count (count - 1)%u32 (count - 1)%u32 r).

(** ** Observers *)

(* rte_lib/ring/rte_ring.h:488-495 rte_ring_count *)
Definition rte_ring_count (r : rte_ring) : Z :=
  let prod_tail := ht_tail (r_prod r) in
  let cons_tail := ht_tail (r_cons r) in
  let count := Z.land (prod_tail - cons_tail)%u32 (r_mask r) in
  if count >? r_capacity r then r_capacity r else count.

(* rte_lib/ring/rte_ring.h:505-509 rte_ring_free_count *)
Definition rte_ring_free_count (r : rte_ring) : Z :=
  (r_capacity r - rte_ring_count r)%u32.

(* rte_lib/ring/rte_ring.h:520-524 rte_ring_full *)
Definition rte_ring_full (r : rte_ring) : bool := rte_ring_free_count r =? 0.

(* rte_lib/ring/rte_ring.h:535-541 rte_ring_empty *)
Definition rte_ring_empty (r : rte_ring) : bool :=
  let prod_tail := ht_tail (r_prod r) in
  let cons_tail := ht_tail (r_cons r) in
  cons_tail =? prod_tail.

(* rte_lib/ring/rte_ring.h:553-557 rte_ring_get_size *)
Definition rte_ring_get_size (r : rte_ring) : Z := r_size r.

(* rte_lib/ring/rte_ring.h:567-571 rte_ring_get_capacity *)
Definition rte_ring_get_capacity (r : rte_ring) : Z := r_capacity r.

(* rte_lib/ring/rte_ring.h:581-585 rte_ring_get_prod_sync_type *)
Definition rte_ring_get_prod_sync_type (r : rte_ring) : rte_ring_sync_type :=
  ht_sync_type (r_prod r).

(* rte_lib/ring/rte_ring.h:595-599 rte_ring_is_prod_single *)
Definition rte_ring_is_prod_single (r : rte_ring) : bool :=
  bool_decide (rte_ring_get_prod_sync_type r = RTE_RING_SYNC_ST).

(* rte_lib/ring/rte_ring.h:609-613 rte_ring_get_cons_sync_type *)
Definition rte_ring_get_cons_sync_type (r : rte_ring) : rte_ring_sync_type :=
  ht_sync_type (r_cons r).

(* rte_lib/ring/rte_ring.h:623-627 rte_ring_is_cons_single *)
Definition rte_ring_is_cons_single (r : rte_ring) : bool :=
  bool_decide (rte_ring_get_cons_sync_type r = RTE_RING_SYNC_ST).
