(* ===== verification/RingCopy.v ===== *)
(** * [rte_ring_elem_pvt.h]: copying elements in and out of the ring storage

    The unrolled copy loops for 4-, 8- and 16-byte units, in the shape of the
    source, over the storage and the object table seen as 32-bit words, and
    their closed form: a copy is a run of words, cut in two at the end of the
    storage. *)

From S2P Require Import Prelude.

Open Scope Z_scope.

(** ** Definitions *)

(** The loop state: the memory being written, the ring index and the table index. *)
Abbreviation cstate := (list Z * Z * Z)%type.

(** [k] consecutive words [dst[d + j] = src[s + j]]: one assignment of a
    [k]-word type, or a [memcpy] of [4 * k] bytes between distinct objects. *)
(* rte_lib/ring/rte_ring_elem_pvt.h:106-107 memcpy *)
Fixpoint copy_words (k : nat) (dst : list Z) (d : Z) (src : list Z) (s : Z)
    : outcome (list Z) :=
  match k with
  | O => Ret dst
  | S k =>
      v ← rd src s;
      dst ← wr dst d v;
      copy_words k dst (d + 1) src (s + 1)
  end.

(** [ring[idx] = obj[i]] and [obj[i] = ring[idx]] for a type of [w] words. *)
(* rte_lib/ring/rte_ring_elem_pvt.h:55-55 __rte_ring_enqueue_elems_32 *)
Definition enq_asg (w : nat) (obj : list Z) (ring : list Z) (idx i : Z) :=
  copy_words w ring (idx * Z.of_nat w) obj (i * Z.of_nat w).
(* rte_lib/ring/rte_ring_elem_pvt.h:189-189 __rte_ring_dequeue_elems_32 *)
Definition deq_asg (w : nat) (ring : list Z) (obj : list Z) (idx i : Z) :=
  copy_words w obj (i * Z.of_nat w) ring (idx * Z.of_nat w).

Section Unrolled.
(** The single assignment of the loop body, [asg mem idx i]. *)
Variable asg : list Z -> Z -> Z -> outcome (list Z).

(** [ring[idx++] = obj[i++]] *)
(* rte_lib/ring/rte_ring_elem_pvt.h:39-39 __rte_ring_enqueue_elems_32 *)
Definition asg_pp (st : cstate) : outcome cstate :=
  let '(m, idx, i) := st in
  m ← asg m idx i;
  Ret (m, (idx + 1)%u32, (i + 1)%u32).

(** The body of an eight-fold, four-fold and two-fold unrolled loop. *)
(* rte_lib/ring/rte_ring_elem_pvt.h:27-36 __rte_ring_enqueue_elems_32 *)
Definition body8 (st : cstate) : outcome cstate :=
  let '(m, idx, i) := st in
  m ← asg m idx i;
  m ← asg m (idx + 1)%u32 (i + 1)%u32;
  m ← asg m (idx + 2)%u32 (i + 2)%u32;
  m ← asg m (idx + 3)%u32 (i + 3)%u32;
  m ← asg m (idx + 4)%u32 (i + 4)%u32;
  m ← asg m (idx + 5)%u32 (i + 5)%u32;
  m ← asg m (idx + 6)%u32 (i + 6)%u32;
  m ← asg m (idx + 7)%u32 (i + 7)%u32;
  Ret (m, (idx + 8)%u32, (i + 8)%u32).

(* rte_lib/ring/rte_ring_elem_pvt.h:72-77 __rte_ring_enqueue_elems_64 *)
Definition body4 (st : cstate) : outcome cstate :=
  let '(m, idx, i) := st in
  m ← asg m idx i;
  m ← asg m (idx + 1)%u32 (i + 1)%u32;
  m ← asg m (idx + 2)%u32 (i + 2)%u32;
  m ← asg m (idx + 3)%u32 (i + 3)%u32;
  Ret (m, (idx + 4)%u32, (i + 4)%u32).

(** [switch (n & 0x7)] with every case falling through to the next. *)
(* rte_lib/ring/rte_ring_elem_pvt.h:37-52 __rte_ring_enqueue_elems_32 *)
Definition switch7 (k : Z) (st : cstate) : outcome cstate :=
  match k with
  | 7 => st ← asg_pp st; st ← asg_pp st; st ← asg_pp st; st ← asg_pp st;
         st ← asg_pp st; st ← asg_pp st; asg_pp st
  | 6 => st ← asg_pp st; st ← asg_pp st; st ← asg_pp st; st ← asg_pp st;
         st ← asg_pp st; asg_pp st
  | 5 => st ← asg_pp st; st ← asg_pp st; st ← asg_pp st; st ← asg_pp st; asg_pp st
  | 4 => st ← asg_pp st; st ← asg_pp st; st ← asg_pp st; asg_pp st
  | 3 => st ← asg_pp st; st ← asg_pp st; asg_pp st
  | 2 => st ← asg_pp st; asg_pp st
  | 1 => asg_pp st
  | _ => Ret st
  end.

(* rte_lib/ring/rte_ring_elem_pvt.h:78-85 __rte_ring_enqueue_elems_64 *)
Definition switch3 (k : Z) (st : cstate) : outcome cstate :=
  match k with
  | 3 => st ← asg_pp st; st ← asg_pp st; asg_pp st
  | 2 => st ← asg_pp st; asg_pp st
  | 1 => asg_pp st
  | _ => Ret st
  end.

(** The wrap-around branch: to the end of the storage, then from its start.
    [for (i = 0; idx < size; i++, idx++) ...; for (idx = 0; i < n; i++, idx++) ...] *)
(* rte_lib/ring/rte_ring_elem_pvt.h:53-59 __rte_ring_enqueue_elems_32 *)
Definition wrap_copy (size n : Z) (m : list Z) (idx : Z) : outcome (list Z) :=
  '(m, idx, i) ← while (Z.to_nat size) (fun st => let '(m, idx, i) := st in idx <? size)
                   asg_pp (m, idx, 0);
  '(m, idx, i) ← while (Z.to_nat n) (fun st => let '(m, idx, i) := st in i <? n)
                   asg_pp (m, 0, i);
  Ret m.
End Unrolled.

(* rte_lib/ring/rte_ring_elem_pvt.h:19-60 __rte_ring_enqueue_elems_32 *)
Definition __rte_ring_enqueue_elems_32 (ring : list Z) (size idx : Z)
    (obj : list Z) (n : Z) : outcome (list Z) :=
  let asg := enq_asg 1 obj in
  if (idx + n)%u32 <? size then
    st ← while (Z.to_nat n) (fun st => let '(m, idx, i) := st in i <? Z.land n (Z.lnot 7))
           (body8 asg) (ring, idx, 0);
    '(ring, idx, i) ← switch7 asg (Z.land n 7) st;
    Ret ring
  else wrap_copy asg size n ring idx.

(* rte_lib/ring/rte_ring_elem_pvt.h:62-93 __rte_ring_enqueue_elems_64 *)
Definition __rte_ring_enqueue_elems_64 (ring : list Z) (r_size r_mask prod_head : Z)
    (obj : list Z) (n : Z) : outcome (list Z) :=
  let size := r_size in
  let idx := Z.land prod_head r_mask in
  let asg := enq_asg 2 obj in
  if (idx + n)%u32 <? size then
    st ← while (Z.to_nat n) (fun st => let '(m, idx, i) := st in i <? Z.land n (Z.lnot 3))
           (body4 asg) (ring, idx, 0);
    '(ring, idx, i) ← switch3 asg (Z.land n 3) st;
    Ret ring
  else wrap_copy asg size n ring idx.

(** The 16-byte loop moves two elements per [memcpy] of 32 bytes. *)
(* rte_lib/ring/rte_ring_elem_pvt.h:95-122 __rte_ring_enqueue_elems_128 *)
Definition __rte_ring_enqueue_elems_128 (ring : list Z) (r_size r_mask prod_head : Z)
    (obj : list Z) (n : Z) : outcome (list Z) :=
  let size := r_size in
  let idx := Z.land prod_head r_mask in
  if (idx + n)%u32 <? size then
    '(ring, idx, i) ←
      while (Z.to_nat n) (fun st => let '(m, idx, i) := st in i <? Z.land n (Z.lnot 1))
        (fun st => let '(m, idx, i) := st in
           m ← copy_words 8 m (idx * 4) obj (i * 4);
           Ret (m, (idx + 2)%u32, (i + 2)%u32)) (ring, idx, 0);
    match Z.land n 1 with
    | 1 => copy_words 4 ring (idx * 4) obj (i * 4)
    | _ => Ret ring
    end
  else wrap_copy (enq_asg 4 obj) size n ring idx.

(* rte_lib/ring/rte_ring_elem_pvt.h:128-151 __rte_ring_enqueue_elems *)
Definition __rte_ring_enqueue_elems (ring : list Z) (r_size r_mask prod_head : Z)
    (obj_table : list Z) (esize num : Z) : outcome (list Z) :=
  if esize =? 8 then __rte_ring_enqueue_elems_64 ring r_size r_mask prod_head obj_table num
  else if esize =? 16 then
    __rte_ring_enqueue_elems_128 ring r_size r_mask prod_head obj_table num
  else
    let scale := esize / 4 in
    let nr_num := (num * scale)%u32 in
    let idx := Z.land prod_head r_mask in
    let nr_idx := (idx * scale)%u32 in
    let nr_size := (r_size * scale)%u32 in
    __rte_ring_enqueue_elems_32 ring nr_size nr_idx obj_table nr_num.

(* rte_lib/ring/rte_ring_elem_pvt.h:153-194 __rte_ring_dequeue_elems_32 *)
Definition __rte_ring_dequeue_elems_32 (ring : list Z) (size idx : Z)
    (obj : list Z) (n : Z) : outcome (list Z) :=
  let asg := deq_asg 1 ring in
  if (idx + n)%u32 <? size then
    st ← while (Z.to_nat n) (fun st => let '(m, idx, i) := st in i <? Z.land n (Z.lnot 7))
           (body8 asg) (obj, idx, 0);
    '(obj, idx, i) ← switch7 asg (Z.land n 7) st;
    Ret obj
  else wrap_copy asg size n obj idx.

(* rte_lib/ring/rte_ring_elem_pvt.h:196-227 __rte_ring_dequeue_elems_64 *)
Definition __rte_ring_dequeue_elems_64 (ring : list Z) (r_size r_mask prod_head : Z)
    (obj : list Z) (n : Z) : outcome (list Z) :=
  let size := r_size in
  let idx := Z.land prod_head r_mask in
  let asg := deq_asg 2 ring in
  if (idx + n)%u32 <? size then
    st ← while (Z.to_nat n) (fun st => let '(m, idx, i) := st in i <? Z.land n (Z.lnot 3))
           (body4 asg) (obj, idx, 0);
    '(obj, idx, i) ← switch3 asg (Z.land n 3) st;
    Ret obj
  else wrap_copy asg size n obj idx.

(* rte_lib/ring/rte_ring_elem_pvt.h:229-252 __rte_ring_dequeue_elems_128 *)
Definition __rte_ring_dequeue_elems_128 (ring : list Z) (r_size r_mask prod_head : Z)
    (obj : list Z) (n : Z) : outcome (list Z) :=
  let size := r_size in
  let idx := Z.land prod_head r_mask in
  if (idx + n)%u32 <? size then
    '(obj, idx, i) ←
      while (Z.to_nat n) (fun st => let '(m, idx, i) := st in i <? Z.land n (Z.lnot 1))
        (fun st => let '(m, idx, i) := st in
           m ← copy_words 8 m (i * 4) ring (idx * 4);
           Ret (m, (idx + 2)%u32, (i + 2)%u32)) (obj, idx, 0);
    match Z.land n 1 with
    | 1 => copy_words 4 obj (i * 4) ring (idx * 4)
    | _ => Ret obj
    end
  else wrap_copy (deq_asg 4 ring) size n obj idx.

(* rte_lib/ring/rte_ring_elem_pvt.h:258-281 __rte_ring_dequeue_elems *)
Definition __rte_ring_dequeue_elems (ring : list Z) (r_size r_mask cons_head : Z)
    (obj_table : list Z) (esize num : Z) : outcome (list Z) :=
  if esize =? 8 then __rte_ring_dequeue_elems_64 ring r_size r_mask cons_head obj_table num
  else if esize =? 16 then
    __rte_ring_dequeue_elems_128 ring r_size r_mask cons_head obj_table num
  else
    let scale := esize / 4 in
    let nr_num := (num * scale)%u32 in
    let idx := Z.land cons_head r_mask in
    let nr_idx := (idx * scale)%u32 in
    let nr_size := (r_size * scale)%u32 in
    __rte_ring_dequeue_elems_32 ring nr_size nr_idx obj_table nr_num.

(** ** Closed forms *)

Section RunFacts.
Variable asg : list Z -> Z -> Z -> outcome (list Z).

(** [k] assignments at consecutive indices, without wrap-around. *)
Fixpoint run (k : nat) (m : list Z) (idx i : Z) : outcome (list Z) :=
  match k with
  | O => Ret m
  | S k => m ← asg m idx i; run k m (idx + 1) (i + 1)
  end.

Lemma run_app a b m idx i :
  run (a + b) m idx i =
  (m ← run a m idx i; run b m (idx + Z.of_nat a) (i + Z.of_nat a)).
Proof.
  revert m idx i; induction a as [|a IH]; intros m idx i.
  - simpl. by rewrite !Z.add_0_r.
  - change (S a + b)%nat with (S (a + b)). cbn [run]. rewrite bind_assoc.
    destruct (asg m idx i) as [m1| |]; [|done|done]. cbn.
    rewrite IH, Nat2Z.inj_succ.
    replace (idx + 1 + Z.of_nat a) with (idx + Z.succ (Z.of_nat a)) by lia.
    by replace (i + 1 + Z.of_nat a) with (i + Z.succ (Z.of_nat a)) by lia.
Qed.

Lemma run_S {B} k m idx i (f : list Z -> outcome B) :
  run (S k) m idx i ≫= f = asg m idx i ≫= (fun m => run k m (idx + 1) (i + 1) ≫= f).
Proof. cbn [run]. apply bind_assoc. Qed.

Lemma asg_pp_bind {B} m idx i (g : cstate -> outcome B) :
  0 <= idx -> 0 <= i -> idx + 1 < 2 ^ 32 -> i + 1 < 2 ^ 32 ->
  asg_pp asg (m, idx, i) ≫= g = asg m idx i ≫= (fun m => g (m, idx + 1, i + 1)).
Proof.
  intros. unfold asg_pp. rewrite bind_assoc.
  by rewrite (u32_small (idx + 1)), (u32_small (i + 1)) by lia.
Qed.

Lemma Ret_triple (m : list Z) (a a' b b' : Z) :
  a = a' -> b = b' -> Ret (m, a, b) = Ret (m, a', b').
Proof. by intros -> ->. Qed.

(** One step of a chain of assignments against one step of [run]. *)
Ltac run_step :=
  rewrite run_S; apply bind_ext; [f_equal; rewrite ?u32_small by lia; lia|intros ?].
Ltac run_done := cbn [run mret outcome_ret mbind outcome_bind]; apply Ret_triple; rewrite ?u32_small by lia; lia.

Lemma body8_run m idx i :
  0 <= idx -> 0 <= i -> idx + 8 < 2 ^ 32 -> i + 8 < 2 ^ 32 ->
  body8 asg (m, idx, i) = (m ← run 8 m idx i; Ret (m, idx + 8, i + 8)).
Proof. intros. unfold body8. do 8 run_step. run_done. Qed.

Lemma body4_run m idx i :
  0 <= idx -> 0 <= i -> idx + 4 < 2 ^ 32 -> i + 4 < 2 ^ 32 ->
  body4 asg (m, idx, i) = (m ← run 4 m idx i; Ret (m, idx + 4, i + 4)).
Proof. intros. unfold body4. do 4 run_step. run_done. Qed.

(** A loop whose body is [u] assignments and which makes [q] passes. *)
Lemma while_run (u : nat) cond body (q fuel : nat) m idx i :
  (q <= fuel)%nat ->
  (forall j m', (j < q)%nat ->
     cond (m', idx + Z.of_nat (u * j), i + Z.of_nat (u * j)) = true /\
     body (m', idx + Z.of_nat (u * j), i + Z.of_nat (u * j)) =
     (m'' ← run u m' (idx + Z.of_nat (u * j)) (i + Z.of_nat (u * j));
      Ret (m'', idx + Z.of_nat (u * j) + Z.of_nat u, i + Z.of_nat (u * j) + Z.of_nat u))) ->
  (forall m', cond (m', idx + Z.of_nat (u * q), i + Z.of_nat (u * q)) = false) ->
  while fuel cond body (m, idx, i) =
  (m ← run (u * q) m idx i; Ret (m, idx + Z.of_nat (u * q), i + Z.of_nat (u * q))).
Proof.
  revert fuel m idx i; induction q as [|q IH]; intros fuel m idx i Hf Hb He.
  - rewrite Nat.mul_0_r in *. cbn. rewrite !Z.add_0_r in *.
    destruct fuel; cbn; by rewrite He.
  - destruct fuel as [|fuel]; [lia|].
    destruct (Hb O m) as [Hc0 Hb0]; [lia|].
    rewrite Nat.mul_0_r, !Z.add_0_r in Hc0, Hb0. cbn [while]. rewrite Hc0, Hb0.
    replace (u * S q)%nat with (u + u * q)%nat by lia.
    rewrite run_app, !bind_assoc.
    destruct (run u m idx i) as [m1| |]; [|done|done]. cbn -[Z.of_nat].
    rewrite (IH fuel m1 (idx + Z.of_nat u) (i + Z.of_nat u)); [|lia| |].
    + by rewrite Nat2Z.inj_add, <- !Z.add_assoc.
    + intros j m' Hj. destruct (Hb (S j) m') as [Hc Hbd]; [lia|].
      replace (idx + Z.of_nat u + Z.of_nat (u * j)) with (idx + Z.of_nat (u * S j)) by lia.
      by replace (i + Z.of_nat u + Z.of_nat (u * j)) with (i + Z.of_nat (u * S j)) by lia.
    + intros m'. specialize (He m').
      replace (idx + Z.of_nat u + Z.of_nat (u * q)) with (idx + Z.of_nat (u * S q)) by lia.
      by replace (i + Z.of_nat u + Z.of_nat (u * q)) with (i + Z.of_nat (u * S q)) by lia.
Qed.

Ltac pp_step := rewrite asg_pp_bind by lia; run_step.
Ltac pp_chain := rewrite <- (bind_ret_r (_ ≫= _)), ?bind_assoc.

Lemma asg_pp_run m idx i :
  0 <= idx -> 0 <= i -> idx + 1 < 2 ^ 32 -> i + 1 < 2 ^ 32 ->
  asg_pp asg (m, idx, i) = (m ← run 1 m idx i; Ret (m, idx + 1, i + 1)).
Proof. intros. rewrite <- (bind_ret_r (asg_pp _ _)). pp_step. run_done. Qed.

Lemma switch7_run k m idx i :
  0 <= k <= 7 -> 0 <= idx -> 0 <= i -> idx + k < 2 ^ 32 -> i + k < 2 ^ 32 ->
  switch7 asg k (m, idx, i) = (m ← run (Z.to_nat k) m idx i; Ret (m, idx + k, i + k)).
Proof.
  intros Hk ????.
  assert (k = 0 \/ k = 1 \/ k = 2 \/ k = 3 \/ k = 4 \/ k = 5 \/ k = 6 \/ k = 7)
    as [->|[->|[->|[->|[->|[->|[->| ->]]]]]]] by lia; cbn [switch7];
    cbv [Z.to_nat Pos.to_nat Pos.iter_op Nat.add]; [run_done|..];
    repeat pp_step; rewrite <- (bind_ret_r (asg_pp _ _)); pp_step; run_done.
Qed.

Lemma switch3_run k m idx i :
  0 <= k <= 3 -> 0 <= idx -> 0 <= i -> idx + k < 2 ^ 32 -> i + k < 2 ^ 32 ->
  switch3 asg k (m, idx, i) = (m ← run (Z.to_nat k) m idx i; Ret (m, idx + k, i + k)).
Proof.
  intros Hk ????.
  assert (k = 0 \/ k = 1 \/ k = 2 \/ k = 3) as [->|[->|[->| ->]]] by lia;
    cbn [switch3]; cbv [Z.to_nat Pos.to_nat Pos.iter_op Nat.add]; [run_done|..];
    repeat pp_step; rewrite <- (bind_ret_r (asg_pp _ _)); pp_step; run_done.
Qed.

(** The wrap-around branch copies [size - idx] elements at [idx], the rest at 0. *)
Lemma wrap_copy_run size n m idx :
  0 <= idx <= size -> size - idx <= n -> size < 2 ^ 32 -> n < 2 ^ 32 ->
  wrap_copy asg size n m idx =
  (m ← run (Z.to_nat (size - idx)) m idx 0;
   run (Z.to_nat (n - (size - idx))) m 0 (size - idx)).
Proof.
  intros. unfold wrap_copy.
  rewrite (while_run 1 _ _ (Z.to_nat (size - idx))); [|lia| |].
  - rewrite Nat.mul_1_l, bind_assoc. apply bind_ext; [done|]. intros m'. cbn.
    rewrite (while_run 1 _ _ (Z.to_nat (n - (size - idx)))); [|lia| |].
    + rewrite Nat.mul_1_l, bind_assoc, Z2Nat.id by lia.
      rewrite <- (bind_ret_r (run _ _ _ (size - idx))).
      apply bind_ext; [f_equal; lia|]. done.
    + intros j m'' Hj. split; [apply Z.ltb_lt; lia|]. apply asg_pp_run; lia.
    + intros m''. apply Z.ltb_ge. lia.
  - intros j m'' Hj. split; [apply Z.ltb_lt; lia|]. apply asg_pp_run; lia.
  - intros m''. apply Z.ltb_ge. lia.
Qed.
End RunFacts.

(** ** The reference: one word at a time, modulo the size of the storage *)

Fixpoint ring_store (m : list Z) (p : Z) (ws : list Z) : list Z :=
  match ws with
  | [] => m
  | v :: ws => ring_store (<[Z.to_nat (p mod Z.of_nat (length m)) := v]> m) (p + 1) ws
  end.

Definition ring_load (m : list Z) (p : Z) (n : Z) : list Z :=
  (fun j => m !!! Z.to_nat (j mod Z.of_nat (length m))) <$> seqZ p n.

Lemma ring_store_length m p ws : length (ring_store m p ws) = length m.
Proof.
  revert m p; induction ws as [|v ws IH]; intros m p; [done|].
  cbn [ring_store]. by rewrite IH, length_insert.
Qed.

Lemma ring_load_length m p n : length (ring_load m p n) = Z.to_nat n.
Proof. unfold ring_load. by rewrite length_fmap, length_seqZ. Qed.

Lemma ring_store_app m p a b :
  ring_store m p (a ++ b) = ring_store (ring_store m p a) (p + Z.of_nat (length a)) b.
Proof.
  revert m p; induction a as [|v a IH]; intros m p; cbn [app ring_store length].
  - by rewrite Z.add_0_r.
  - rewrite IH. f_equal. lia.
Qed.

Lemma ring_load_app m p a b :
  0 <= a -> 0 <= b -> ring_load m p (a + b) = ring_load m p a ++ ring_load m (p + a) b.
Proof. intros. unfold ring_load. by rewrite seqZ_app, fmap_app by lia. Qed.

Lemma ring_load_S m p n :
  0 < n -> ring_load m p n =
  m !!! Z.to_nat (p mod Z.of_nat (length m)) :: ring_load m (p + 1) (n - 1).
Proof.
  intros. unfold ring_load. rewrite seqZ_cons by lia. cbn.
  by rewrite <- Z.add_1_r, <- Z.sub_1_r.
Qed.

Lemma ring_load_nil m p n : n <= 0 -> ring_load m p n = [].
Proof. intros. unfold ring_load. by rewrite seqZ_nil by lia. Qed.

(** Positions matter only modulo the length of the storage. *)
Lemma ring_store_mod m p q ws :
  p mod Z.of_nat (length m) = q mod Z.of_nat (length m) ->
  ring_store m p ws = ring_store m q ws.
Proof.
  revert m p q; induction ws as [|v ws IH]; intros m p q E; [done|].
  cbn [ring_store]. rewrite E. apply IH. rewrite length_insert.
  rewrite <- (Zplus_mod_idemp_l p), E. apply Zplus_mod_idemp_l.
Qed.

Lemma ring_load_mod m p q n :
  p mod Z.of_nat (length m) = q mod Z.of_nat (length m) ->
  ring_load m p n = ring_load m q n.
Proof.
  intros E. apply list_eq_same_length with (n := Z.to_nat n);
    [by rewrite ring_load_length..|].
  intros i x y Hi Hx Hy. unfold ring_load in Hx, Hy.
  rewrite list_lookup_fmap, lookup_seqZ_lt in Hx, Hy by lia. cbn in Hx, Hy.
  injection Hx as <-. injection Hy as <-.
  by rewrite <- (Zplus_mod_idemp_l p), E, Zplus_mod_idemp_l.
Qed.

(** A segment that does not reach the end of the storage is contiguous. *)
Lemma ring_load_contig m p n :
  0 <= p -> 0 <= n -> p + n <= Z.of_nat (length m) ->
  ring_load m p n = take (Z.to_nat n) (drop (Z.to_nat p) m).
Proof.
  intros. apply list_eq_same_length with (n := Z.to_nat n).
  - rewrite length_take, length_drop. lia.
  - apply ring_load_length.
  - intros i x y Hi Hx Hy. unfold ring_load in Hx.
    rewrite list_lookup_fmap, lookup_seqZ_lt in Hx by lia. cbn in Hx.
    injection Hx as <-. rewrite lookup_take_lt, lookup_drop in Hy by lia.
    rewrite Z.mod_small by lia. apply list_lookup_total_correct.
    by replace (Z.to_nat (p + Z.of_nat i)) with (Z.to_nat p + i)%nat by lia.
Qed.

(** A word stored at [p] is not seen at positions that differ from [p] modulo
    the length. *)
Lemma mod_apart L p q : 0 < L -> p < q -> q < p + L -> q mod L <> p mod L.
Proof.
  intros HL H1 H2 E. assert (Hd : (q - p) mod L = 0).
  - rewrite Zminus_mod, E, Z.sub_diag. by apply Z.mod_0_l; lia.
  - rewrite Z.mod_small in Hd by lia. lia.
Qed.

Lemma ring_store_lookup_other m p ws q :
  p + Z.of_nat (length ws) <= q -> q < p + Z.of_nat (length m) ->
  ring_store m p ws !!! Z.to_nat (q mod Z.of_nat (length m)) =
  m !!! Z.to_nat (q mod Z.of_nat (length m)).
Proof.
  revert m p; induction ws as [|v ws IH]; intros m p H1 H2; [done|].
  cbn [ring_store length] in *.
  specialize (IH (<[Z.to_nat (p mod Z.of_nat (length m)):=v]> m) (p + 1)).
  rewrite length_insert in IH. rewrite IH by lia.
  apply list_lookup_total_insert_ne.
  assert (q mod Z.of_nat (length m) <> p mod Z.of_nat (length m)) by (apply mod_apart; lia).
  pose proof (Z.mod_pos_bound p (Z.of_nat (length m))).
  pose proof (Z.mod_pos_bound q (Z.of_nat (length m))). lia.
Qed.

(** What was stored is loaded; what lies elsewhere is not disturbed. *)
Lemma ring_load_store_same m p ws :
  Z.of_nat (length ws) <= Z.of_nat (length m) ->
  ring_load (ring_store m p ws) p (Z.of_nat (length ws)) = ws.
Proof.
  revert m p; induction ws as [|v ws IH]; intros m p H; [done|].
  cbn [length] in *. rewrite ring_load_S by lia. rewrite ring_store_length. f_equal.
  - cbn [ring_store].
    set (m1 := <[Z.to_nat (p mod Z.of_nat (length m)) := v]> m).
    assert (Hl : length m1 = length m) by apply length_insert.
    rewrite (ring_store_mod _ (p + 1) (p + 1 - Z.of_nat (length m))).
    + rewrite <- Hl. rewrite ring_store_lookup_other by lia. rewrite Hl.
      pose proof (Z.mod_pos_bound p (Z.of_nat (length m))).
      unfold m1. apply list_lookup_total_insert_eq. lia.
    + rewrite Hl. symmetry.
      rewrite <- Zminus_mod_idemp_r, Z_mod_same_full. by rewrite Z.sub_0_r.
  - cbn [ring_store]. replace (Z.of_nat (S (length ws)) - 1) with (Z.of_nat (length ws)) by lia.
    apply IH. rewrite length_insert. lia.
Qed.

Lemma ring_load_store_other m p ws q n :
  q + n <= p -> p + Z.of_nat (length ws) <= q + Z.of_nat (length m) ->
  ring_load (ring_store m p ws) q n = ring_load m q n.
Proof.
  intros H1 H2. apply list_eq_same_length with (n := Z.to_nat n);
    [by rewrite ring_load_length..|].
  intros i x y Hi Hx Hy. unfold ring_load in Hx, Hy.
  rewrite list_lookup_fmap, lookup_seqZ_lt in Hx, Hy by lia. cbn in Hx, Hy.
  injection Hx as <-. injection Hy as <-. rewrite ring_store_length.
  rewrite (ring_store_mod _ p (p - Z.of_nat (length m))).
  - apply ring_store_lookup_other; lia.
  - rewrite <- (Zminus_mod_idemp_r p), Z_mod_same_full. by rewrite Z.sub_0_r.
Qed.

(** ** The copy loops against the reference *)

Lemma drop_take_S {A} (l : list A) i v k :
  l !! i = Some v -> take (S k) (drop i l) = v :: take k (drop (S i) l).
Proof. intros H. by rewrite (drop_S _ _ _ H). Qed.

Lemma copy_words_store k dst d src s :
  0 <= d -> 0 <= s -> d + Z.of_nat k <= Z.of_nat (length dst) ->
  s + Z.of_nat k <= Z.of_nat (length src) ->
  copy_words k dst d src s = Ret (ring_store dst d (take k (drop (Z.to_nat s) src))).
Proof.
  revert dst d s; induction k as [|k IH]; intros dst d s Hd Hs H1 H2; [done|].
  cbn [copy_words].
  destruct (lookup_lt_is_Some_2 src (Z.to_nat s)) as [v Hv]; [lia|].
  rewrite (rd_Ret _ _ v) by (lia || done). cbn.
  rewrite wr_Ret by lia. cbn. rewrite IH; rewrite ?length_insert; [|lia..].
  rewrite (drop_take_S _ _ _ _ Hv). cbn [ring_store]. rewrite Z.mod_small by lia.
  by replace (Z.to_nat (s + 1)) with (S (Z.to_nat s)) by lia.
Qed.

Lemma copy_words_splice k dst d src s :
  0 <= d -> 0 <= s -> d + Z.of_nat k <= Z.of_nat (length dst) ->
  s + Z.of_nat k <= Z.of_nat (length src) ->
  copy_words k dst d src s =
  Ret (take (Z.to_nat d) dst ++ ring_load src s (Z.of_nat k)
       ++ drop (Z.to_nat d + k) dst).
Proof.
  revert dst d s; induction k as [|k IH]; intros dst d s Hd Hs H1 H2.
  - cbn [copy_words]. rewrite ring_load_nil by lia. cbn.
    by rewrite Nat.add_0_r, take_drop.
  - cbn [copy_words].
    destruct (lookup_lt_is_Some_2 src (Z.to_nat s)) as [v Hv]; [lia|].
    rewrite (rd_Ret _ _ v) by (lia || done). cbn.
    rewrite wr_Ret by lia. cbn. rewrite IH; rewrite ?length_insert; [|lia..]. f_equal.
    rewrite (ring_load_S _ s), Z.mod_small, (list_lookup_total_correct _ _ _ Hv) by lia.
    replace (Z.to_nat (d + 1)) with (S (Z.to_nat d)) by lia.
    replace (Z.of_nat (S k) - 1) with (Z.of_nat k) by lia.
    rewrite (take_S_r _ _ v).
    + rewrite take_insert_ge, <- app_assoc by lia. cbn. do 3 f_equal.
      rewrite drop_insert_lt by lia. f_equal. lia.
    + apply list_lookup_insert_eq. lia.
Qed.

Lemma copy_words_app a b dst d src s :
  copy_words (a + b) dst d src s =
  (dst ← copy_words a dst d src s;
   copy_words b dst (d + Z.of_nat a) src (s + Z.of_nat a)).
Proof.
  revert dst d s; induction a as [|a IH]; intros dst d s.
  - simpl. by rewrite !Z.add_0_r.
  - change (S a + b)%nat with (S (a + b)). cbn [copy_words]. rewrite bind_assoc.
    apply bind_ext; [done|]. intros v. rewrite bind_assoc.
    apply bind_ext; [done|]. intros m. rewrite IH.
    apply bind_ext; [done|]. intros m'. f_equal; lia.
Qed.

(** [k] element assignments are [k * w] word copies. *)
Lemma run_enq w k ring obj idx i :
  run (enq_asg w obj) k ring idx i =
  copy_words (k * w) ring (idx * Z.of_nat w) obj (i * Z.of_nat w).
Proof.
  revert ring idx i; induction k as [|k IH]; intros ring idx i; [done|].
  cbn [run]. change (S k * w)%nat with (w + k * w)%nat. rewrite copy_words_app.
  apply bind_ext; [done|]. intros m. rewrite IH. f_equal; lia.
Qed.

Lemma run_deq w k ring obj idx i :
  run (deq_asg w ring) k obj idx i =
  copy_words (k * w) obj (i * Z.of_nat w) ring (idx * Z.of_nat w).
Proof.
  revert obj idx i; induction k as [|k IH]; intros obj idx i; [done|].
  cbn [run]. change (S k * w)%nat with (w + k * w)%nat. rewrite copy_words_app.
  apply bind_ext; [done|]. intros m. rewrite IH. f_equal; lia.
Qed.

(** The two arms of an unrolled copy come to the same sequence of assignments:
    one run, or two runs cut at the end of the storage. *)
Definition two_runs (asg : list Z -> Z -> Z -> outcome (list Z)) (size idx n : Z)
    (m : list Z) : outcome (list Z) :=
  if idx + n <? size then run asg (Z.to_nat n) m idx 0
  else m ← run asg (Z.to_nat (size - idx)) m idx 0;
       run asg (Z.to_nat (n - (size - idx))) m 0 (size - idx).

Lemma two_runs_enq w size idx n ring obj :
  0 <= idx < size -> 0 <= n <= size ->
  Z.of_nat (length ring) = size * Z.of_nat w ->
  n * Z.of_nat w <= Z.of_nat (length obj) ->
  two_runs (enq_asg w obj) size idx n ring =
  Ret (ring_store ring (idx * Z.of_nat w) (take (Z.to_nat n * w) obj)).
Proof.
  intros Hi Hn Hr Ho. unfold two_runs. destruct (Z.ltb_spec (idx + n) size).
  - rewrite run_enq, copy_words_store by nia. by rewrite drop_0.
  - rewrite run_enq, copy_words_store by nia.
    cbn [mbind outcome_bind]. rewrite run_enq, copy_words_store by
      (rewrite ?ring_store_length; nia).
    f_equal. rewrite drop_0.
    replace (Z.to_nat n * w)%nat
      with (Z.to_nat (size - idx) * w + Z.to_nat (n - (size - idx)) * w)%nat by nia.
    rewrite <- take_take_drop, ring_store_app.
    replace (Z.to_nat ((size - idx) * Z.of_nat w)) with (Z.to_nat (size - idx) * w)%nat by nia.
    apply ring_store_mod. rewrite ring_store_length, length_take_le, Hr by nia.
    replace (idx * Z.of_nat w + Z.of_nat (Z.to_nat (size - idx) * w))
      with (0 * Z.of_nat w + 1 * (size * Z.of_nat w)) by nia.
    by rewrite Z_mod_plus_full.
Qed.

Lemma two_runs_deq w size idx n ring obj :
  0 <= idx < size -> 0 <= n <= size ->
  Z.of_nat (length ring) = size * Z.of_nat w ->
  n * Z.of_nat w <= Z.of_nat (length obj) ->
  two_runs (deq_asg w ring) size idx n obj =
  Ret (ring_load ring (idx * Z.of_nat w) (n * Z.of_nat w) ++ drop (Z.to_nat n * w) obj).
Proof.
  intros Hi Hn Hr Ho. unfold two_runs. destruct (Z.ltb_spec (idx + n) size).
  - rewrite run_deq, copy_words_splice by nia. cbn [Z.mul Z.to_nat Nat.add take app].
    by replace (Z.of_nat (Z.to_nat n * w)) with (n * Z.of_nat w) by nia.
  - rewrite run_deq, copy_words_splice by nia.
    cbn [mbind outcome_bind Z.mul Z.to_nat Nat.add take app].
    set (a := (Z.to_nat (size - idx) * w)%nat).
    set (b := (Z.to_nat (n - (size - idx)) * w)%nat).
    assert (Hab : (Z.to_nat n * w = a + b)%nat) by (unfold a, b; nia).
    assert (Ha : Z.to_nat ((size - idx) * Z.of_nat w) = a) by (unfold a; nia).
    rewrite run_deq, copy_words_splice; fold b.
    + rewrite Ha, Hab. f_equal.
      rewrite Z.mul_0_l. change (Z.to_nat 0) with 0%nat. cbn [Nat.add take app].
      set (la := ring_load ring (idx * Z.of_nat w) (Z.of_nat a)).
      assert (Hla : length la = a) by (unfold la; rewrite ring_load_length; lia).
      rewrite !take_0, !app_nil_l, (take_app_length' la), (drop_app_ge la) by lia.
      rewrite drop_drop, app_assoc, Hla.
      unfold la. f_equal; [|f_equal; lia].
      replace (n * Z.of_nat w) with (Z.of_nat a + Z.of_nat b) by (unfold a, b; nia).
      rewrite ring_load_app by lia. f_equal. apply ring_load_mod. rewrite Hr.
      replace (idx * Z.of_nat w + Z.of_nat a)
        with (0 * Z.of_nat w + 1 * (size * Z.of_nat w)) by (unfold a; nia).
      by rewrite Z_mod_plus_full.
    + nia.
    + nia.
    + rewrite !length_app, ring_load_length, length_take, length_drop. unfold a, b in *. nia.
    + nia.
Qed.

(** A loop unrolled [2^k] times followed by its remainder is one run. *)
Lemma unrolled_run asg k body (fin : cstate -> outcome (list Z)) n m idx :
  0 <= k -> 0 <= n -> 0 <= idx -> idx + n < 2 ^ 32 ->
  (forall m idx i, 0 <= idx -> 0 <= i -> idx + 2 ^ k < 2 ^ 32 -> i + 2 ^ k < 2 ^ 32 ->
     body (m, idx, i) =
     (m ← run asg (Z.to_nat (2 ^ k)) m idx i; Ret (m, idx + 2 ^ k, i + 2 ^ k))) ->
  (forall m idx i, 0 <= idx -> 0 <= i -> idx + n mod 2 ^ k < 2 ^ 32 ->
     i + n mod 2 ^ k < 2 ^ 32 ->
     fin (m, idx, i) = run asg (Z.to_nat (n mod 2 ^ k)) m idx i) ->
  (st ← while (Z.to_nat n)
          (fun st => let '(m, idx, i) := st in i <? Z.land n (Z.lnot (2 ^ k - 1)))
          body (m, idx, 0); fin st) = run asg (Z.to_nat n) m idx 0.
Proof.
  intros Hk Hn Hidx Hb Hbody Hfin.
  assert (Hu : 0 < 2 ^ k) by lia.
  pose proof (Z.mod_pos_bound n (2 ^ k) Hu) as Hr.
  pose proof (Z.div_mod n (2 ^ k)) as Hd. pose proof (Z.div_pos n (2 ^ k)) as Hq.
  set (u := Z.to_nat (2 ^ k)) in *. set (q := Z.to_nat (n / 2 ^ k)).
  assert (Huq : Z.of_nat (u * q) = n - n mod 2 ^ k) by (unfold u, q; nia).
  rewrite (while_run asg u _ _ q).
  - rewrite bind_assoc. cbn [mbind outcome_bind].
    replace (Z.to_nat n) with (u * q + Z.to_nat (n mod 2 ^ k))%nat by (unfold u, q in *; nia).
    rewrite run_app. apply bind_ext; [done|]. intros m'. apply Hfin; lia.
  - unfold q. nia.
  - intros j m' Hj. assert (Hj' : (u * S j <= u * q)%nat) by (apply Nat.mul_le_mono_l; lia).
    split; [rewrite land_lnot_ones by done; apply Z.ltb_lt; unfold u in *; lia|].
    rewrite Hbody by (unfold u in *; lia).
    apply bind_ext; [done|]. intros m''. f_equal. f_equal; [f_equal|]; unfold u; lia.
  - intros m'. rewrite land_lnot_ones by done. apply Z.ltb_ge. lia.
Qed.

Lemma enq_32_runs ring size idx obj n :
  0 <= idx < size -> 0 <= n <= size -> size <= 2 ^ 31 ->
  __rte_ring_enqueue_elems_32 ring size idx obj n =
  two_runs (enq_asg 1 obj) size idx n ring.
Proof.
  intros Hi Hn Hs. unfold __rte_ring_enqueue_elems_32, two_runs.
  rewrite u32_small by lia. destruct (Z.ltb_spec (idx + n) size).
  - apply (unrolled_run _ 3); [lia..| |].
    + intros. by apply body8_run.
    + intros. change 7 with (2 ^ 3 - 1). rewrite land_ones_mod by lia.
      pose proof (Z.mod_pos_bound n (2 ^ 3)).
      rewrite switch7_run, bind_assoc by lia.
      etransitivity; [|exact (bind_ret_r _)]. by apply bind_ext.
  - apply wrap_copy_run; lia.
Qed.

Lemma enq_64_runs ring size mask head obj n :
  0 <= Z.land head mask < size -> 0 <= n <= size -> size <= 2 ^ 31 ->
  __rte_ring_enqueue_elems_64 ring size mask head obj n =
  two_runs (enq_asg 2 obj) size (Z.land head mask) n ring.
Proof.
  intros Hi Hn Hs. unfold __rte_ring_enqueue_elems_64, two_runs.
  rewrite u32_small by lia. destruct (Z.ltb_spec (Z.land head mask + n) size).
  - apply (unrolled_run _ 2); [lia..| |].
    + intros. by apply body4_run.
    + intros. change 3 with (2 ^ 2 - 1). rewrite land_ones_mod by lia.
      pose proof (Z.mod_pos_bound n (2 ^ 2)).
      rewrite switch3_run, bind_assoc by lia.
      etransitivity; [|exact (bind_ret_r _)]. by apply bind_ext.
  - apply wrap_copy_run; lia.
Qed.

(** The match on the low bit that ends the 16-byte copies. *)
Lemma low_bit_run asg n m idx i :
  match Z.land n 1 with 1 => asg m idx i | _ => Ret m end =
  run asg (Z.to_nat (n mod 2 ^ 1)) m idx i.
Proof.
  change 1 with (2 ^ 1 - 1) at 1. rewrite land_ones_mod by lia.
  pose proof (Z.mod_pos_bound n (2 ^ 1)).
  assert (n mod 2 ^ 1 = 0 \/ n mod 2 ^ 1 = 1) as [-> | ->] by lia; [done|].
  symmetry. exact (bind_ret_r _).
Qed.

Lemma enq_128_runs ring size mask head obj n :
  0 <= Z.land head mask < size -> 0 <= n <= size -> size <= 2 ^ 31 ->
  __rte_ring_enqueue_elems_128 ring size mask head obj n =
  two_runs (enq_asg 4 obj) size (Z.land head mask) n ring.
Proof.
  intros Hi Hn Hs. unfold __rte_ring_enqueue_elems_128, two_runs.
  rewrite u32_small by lia. destruct (Z.ltb_spec (Z.land head mask + n) size).
  - rewrite <- (unrolled_run _ 1 (fun st => let '(m, idx, i) := st in
           m ← copy_words 8 m (idx * 4) obj (i * 4);
           Ret (m, (idx + 2)%u32, (i + 2)%u32))
      (fun st => let '(m, idx, i) := st in
           match Z.land n 1 with 1 => enq_asg 4 obj m idx i | _ => Ret m end));
      [|lia..| |].
    + apply bind_ext; [done|]. by intros [[m' idx'] i'].
    + intros m' idx' i' ????. rewrite run_enq. change (2 ^ 1) with 2 in *.
      apply bind_ext; [done|]. intros m''. by rewrite !u32_small by lia.
    + intros m' idx' i' ????. apply low_bit_run.
  - apply wrap_copy_run; lia.
Qed.

Lemma deq_32_runs ring size idx obj n :
  0 <= idx < size -> 0 <= n <= size -> size <= 2 ^ 31 ->
  __rte_ring_dequeue_elems_32 ring size idx obj n =
  two_runs (deq_asg 1 ring) size idx n obj.
Proof.
  intros Hi Hn Hs. unfold __rte_ring_dequeue_elems_32, two_runs.
  rewrite u32_small by lia. destruct (Z.ltb_spec (idx + n) size).
  - apply (unrolled_run _ 3); [lia..| |].
    + intros. by apply body8_run.
    + intros. change 7 with (2 ^ 3 - 1). rewrite land_ones_mod by lia.
      pose proof (Z.mod_pos_bound n (2 ^ 3)).
      rewrite switch7_run, bind_assoc by lia.
      etransitivity; [|exact (bind_ret_r _)]. by apply bind_ext.
  - apply wrap_copy_run; lia.
Qed.

Lemma deq_64_runs ring size mask head obj n :
  0 <= Z.land head mask < size -> 0 <= n <= size -> size <= 2 ^ 31 ->
  __rte_ring_dequeue_elems_64 ring size mask head obj n =
  two_runs (deq_asg 2 ring) size (Z.land head mask) n obj.
Proof.
  intros Hi Hn Hs. unfold __rte_ring_dequeue_elems_64, two_runs.
  rewrite u32_small by lia. destruct (Z.ltb_spec (Z.land head mask + n) size).
  - apply (unrolled_run _ 2); [lia..| |].
    + intros. by apply body4_run.
    + intros. change 3 with (2 ^ 2 - 1). rewrite land_ones_mod by lia.
      pose proof (Z.mod_pos_bound n (2 ^ 2)).
      rewrite switch3_run, bind_assoc by lia.
      etransitivity; [|exact (bind_ret_r _)]. by apply bind_ext.
  - apply wrap_copy_run; lia.
Qed.

Lemma deq_128_runs ring size mask head obj n :
  0 <= Z.land head mask < size -> 0 <= n <= size -> size <= 2 ^ 31 ->
  __rte_ring_dequeue_elems_128 ring size mask head obj n =
  two_runs (deq_asg 4 ring) size (Z.land head mask) n obj.
Proof.
  intros Hi Hn Hs. unfold __rte_ring_dequeue_elems_128, two_runs.
  rewrite u32_small by lia. destruct (Z.ltb_spec (Z.land head mask + n) size).
  - rewrite <- (unrolled_run _ 1 (fun st => let '(m, idx, i) := st in
           m ← copy_words 8 m (i * 4) ring (idx * 4);
           Ret (m, (idx + 2)%u32, (i + 2)%u32))
      (fun st => let '(m, idx, i) := st in
           match Z.land n 1 with 1 => deq_asg 4 ring m idx i | _ => Ret m end));
      [|lia..| |].
    + apply bind_ext; [done|]. by intros [[m' idx'] i'].
    + intros m' idx' i' ????. rewrite run_deq. change (2 ^ 1) with 2 in *.
      apply bind_ext; [done|]. intros m''. by rewrite !u32_small by lia.
    + intros m' idx' i' ????. apply low_bit_run.
  - apply wrap_copy_run; lia.
Qed.

(** The words of one element, and the element sizes the copies support. *)
Definition ewords (esize : Z) : nat := Z.to_nat (esize / 4).

(** The side conditions of a copy: an element size that is a positive multiple of
    4, a power-of-two ring whose words can be counted in half a 32-bit word, a
    storage of that length, and a table that holds the elements. *)
Record copy_ok (mem : list Z) (size esize n : Z) (obj : list Z) : Prop := {
  co_esize : 0 < esize /\ esize mod 4 = 0;
  co_size : exists k, 0 <= k <= 31 /\ size = 2 ^ k;
  co_words : size * (esize / 4) <= 2 ^ 31;
  co_mem : Z.of_nat (length mem) = size * (esize / 4);
  co_n : 0 <= n <= size;
  co_obj : n * (esize / 4) <= Z.of_nat (length obj);
}.

Lemma copy_ok_index mem size esize n obj head :
  copy_ok mem size esize n obj ->
  Z.land head (size - 1) = head mod size /\ 0 <= head mod size < size.
Proof.
  intros [_ (k & Hk & ->) _ _ _ _]. split; [by apply land_ones_mod; lia|].
  apply Z.mod_pos_bound. lia.
Qed.

(** The 32-bit path counts in words; its positions are those of the elements. *)
Lemma copy_ok_scaled mem size esize n obj head :
  copy_ok mem size esize n obj ->
  let scale := esize / 4 in let idx := Z.land head (size - 1) in
  (size * scale)%u32 = size * scale /\ (n * scale)%u32 = n * scale /\
  (idx * scale)%u32 = idx * scale /\ 0 <= idx * scale < size * scale /\
  0 <= n * scale <= size * scale.
Proof.
  intros H. pose proof (copy_ok_index _ _ _ _ _ head H) as [Hi Hr].
  destruct H as [[He1 He2] _ Hw _ Hn _]. intros scale idx.
  assert (Hs : 0 < scale) by (unfold scale; Z.div_mod_to_equations; lia).
  fold scale in Hw. assert (Hb : 0 <= idx < size) by (unfold idx; lia).
  rewrite !u32_small by nia. nia.
Qed.

Lemma slot_mod len head size w :
  Z.of_nat len = size * w ->
  (head mod size * w) mod Z.of_nat len = (head * w) mod Z.of_nat len.
Proof.
  intros ->. destruct (Z.eq_dec w 0) as [->|]; [by rewrite !Z.mul_0_r|].
  rewrite !Zmult_mod_distr_r. by rewrite Zmod_mod.
Qed.

(** An enqueue copy never leaves the storage or the table, and is the same as
    storing the first [n] elements of the table word by word, modulo the storage,
    from the slot [prod_head mod size] - whatever unrolled loop the element size
    selects and wherever the storage wraps around. *)
Lemma enqueue_elems_store ring obj size esize n head :
  copy_ok ring size esize n obj ->
  __rte_ring_enqueue_elems ring size (size - 1) head obj esize n =
  Ret (ring_store ring (head * (esize / 4)) (take (Z.to_nat (n * (esize / 4))) obj)).
Proof.
  intros H. pose proof (copy_ok_scaled _ _ _ _ _ head H) as (E1 & E2 & E3 & B1 & B2).
  pose proof (copy_ok_index _ _ _ _ _ head H) as [Hi Hr].
  destruct H as [[He1 He2] (k & Hk & Hsz) Hw Hm Hn Ho].
  pose proof (fun w => slot_mod (length ring) head size w) as Hmod.
  assert (size <= 2 ^ 31) by (subst size; apply Z.pow_le_mono_r; lia).
  unfold __rte_ring_enqueue_elems.
  destruct (Z.eqb_spec esize 8) as [->|]; [|destruct (Z.eqb_spec esize 16) as [->|]].
  - change (8 / 4) with (Z.of_nat 2) in *.
    rewrite enq_64_runs, two_runs_enq, Hi by lia. f_equal.
    rewrite (ring_store_mod _ _ _ _ (Hmod _ Hm)). f_equal. f_equal. lia.
  - change (16 / 4) with (Z.of_nat 4) in *.
    rewrite enq_128_runs, two_runs_enq, Hi by lia. f_equal.
    rewrite (ring_store_mod _ _ _ _ (Hmod _ Hm)). f_equal. f_equal. lia.
  - cbv zeta. rewrite E1, E2, E3, enq_32_runs, two_runs_enq, Hi by lia. f_equal.
    rewrite !Z.mul_1_r, (ring_store_mod _ _ _ _ (Hmod _ Hm)).
    f_equal. f_equal. lia.
Qed.

(** Dually, a dequeue copy fills the first [n] elements of the table with the
    [n] elements from the slot [cons_head mod size] on, and leaves the rest of
    the table alone. *)
Lemma dequeue_elems_load ring obj size esize n head :
  copy_ok ring size esize n obj ->
  __rte_ring_dequeue_elems ring size (size - 1) head obj esize n =
  Ret (ring_load ring (head * (esize / 4)) (n * (esize / 4))
       ++ drop (Z.to_nat (n * (esize / 4))) obj).
Proof.
  intros H. pose proof (copy_ok_scaled _ _ _ _ _ head H) as (E1 & E2 & E3 & B1 & B2).
  pose proof (copy_ok_index _ _ _ _ _ head H) as [Hi Hr].
  destruct H as [[He1 He2] (k & Hk & Hsz) Hw Hm Hn Ho].
  pose proof (fun w => slot_mod (length ring) head size w) as Hmod.
  assert (size <= 2 ^ 31) by (subst size; apply Z.pow_le_mono_r; lia).
  unfold __rte_ring_dequeue_elems.
  destruct (Z.eqb_spec esize 8) as [->|]; [|destruct (Z.eqb_spec esize 16) as [->|]].
  - change (8 / 4) with (Z.of_nat 2) in *.
    rewrite deq_64_runs, two_runs_deq, Hi by lia. f_equal.
    rewrite (ring_load_mod _ _ _ _ (Hmod _ Hm)). f_equal. f_equal. lia.
  - change (16 / 4) with (Z.of_nat 4) in *.
    rewrite deq_128_runs, two_runs_deq, Hi by lia. f_equal.
    rewrite (ring_load_mod _ _ _ _ (Hmod _ Hm)). f_equal. f_equal. lia.
  - cbv zeta. rewrite E1, E2, E3, deq_32_runs, two_runs_deq, Hi by lia. f_equal.
    rewrite !Z.mul_1_r, (ring_load_mod _ _ _ _ (Hmod _ Hm)).
    f_equal. f_equal. lia.
Qed.
