(* ===== verification/RingElem.v ===== *)
(** * [rte_ring_generic_pvt.h], [rte_ring_c11_pvt.h], the HTS and RTS variants
    and the element API of [rte_ring_elem.h] and [rte_ring.h]

    Head moves, tail updates and the enqueue and dequeue operations as one
    thread executes them, in every synchronisation mode, and the refinement
    theorems: a ring is a bounded FIFO queue of elements. [fuel] bounds the
    passes of a loop that waits for other threads; with a single thread running
    on a quiescent ring every such loop is left at once, whatever the fuel.
    The interleavings are the subject of [RingConc].

    A NULL out-parameter is a result the caller drops: operations return
    [free_space]/[available] always. An out-parameter left unwritten by an
    early return (the new head of a move of 0 elements) is 0. *)

From S2P Require Import Prelude Common Atomic RingCore RingCopy.

Open Scope Z_scope.

(** ** Definitions *)

(** The clipping of [n] that every head move applies to the room there is. *)
(* rte_lib/ring/rte_ring_generic_pvt.h:98-100 __rte_ring_move_prod_head *)
Definition clip (behavior : rte_ring_queue_behavior) (n avail : Z) : Z :=
  if n >? avail then
    match behavior with
    | RTE_RING_QUEUE_FIXED => 0
    | RTE_RING_QUEUE_VARIABLE => avail
    end
  else n.

(** The 64-bit compare-exchange of a pair of 32-bit words: success, the new
    pair in memory, and the pair left in [*expected]. *)
Definition cas_pair (mem expected desired : Z * Z) : bool * (Z * Z) * (Z * Z) :=
  if decide (mem = expected) then (true, desired, expected) else (false, mem, mem).

Section Ops.
Variable fuel : nat.

(** *** Generic head move: the locals are the ring, [n], and the pointees of
    [old_head], [new_head], [free_entries]/[entries]. *)
Definition mvstate : Type := rte_ring * Z * Z * Z * Z.

(* rte_lib/ring/rte_ring_generic_pvt.h:27-43 __rte_ring_update_tail *)
Definition __rte_ring_update_tail (ht : rte_ring_headtail) (old_val new_val single : Z)
    : outcome rte_ring_headtail :=
  _ ← if single =? 0
      then rte_wait_until_equal_32 fuel (fun _ => ht_tail ht) old_val
      else Ret O;
  Ret (set_tail new_val ht).

(* rte_lib/ring/rte_ring_generic_pvt.h:68-113 __rte_ring_move_prod_head *)
Definition __rte_ring_move_prod_head (r : rte_ring) (is_sp n : Z)
    (behavior : rte_ring_queue_behavior) : outcome mvstate :=
  let capacity := r_capacity r in
  let max := n in
  do_while fuel (fun st : mvstate =>
    let '(r, n, old_head, new_head, free_entries) := st in
    let n := max in
    let old_head := ht_w0 (r_prod r) in
    let free_entries := ((capacity + ht_tail (r_cons r)) - old_head)%u32 in
    let n := clip behavior n free_entries in
    if n =? 0 then Ret (false, (r, 0, old_head, new_head, free_entries))
    else
      let new_head := (old_head + n)%u32 in
      let '(success, h) :=
        if is_sp =? 0 then rte_atomic32_cmpset (ht_w0 (r_prod r)) old_head new_head
        else (true, new_head) in
      Ret (negb success, (set_prod (set_w0 h (r_prod r)) r, n, old_head, new_head, free_entries)))
  (r, n, 0, 0, 0).

(* rte_lib/ring/rte_ring_generic_pvt.h:138-184 __rte_ring_move_cons_head *)
Definition __rte_ring_move_cons_head (r : rte_ring) (is_sc n : Z)
    (behavior : rte_ring_queue_behavior) : outcome mvstate :=
  let max := n in
  do_while fuel (fun st : mvstate =>
    let '(r, n, old_head, new_head, entries) := st in
    let n := max in
    let old_head := ht_w0 (r_cons r) in
    let entries := (ht_tail (r_prod r) - old_head)%u32 in
    let n := clip behavior n entries in
    if n =? 0 then Ret (false, (r, 0, old_head, new_head, entries))
    else
      let new_head := (old_head + n)%u32 in
      let '(success, h) :=
        if is_sc =? 0 then rte_atomic32_cmpset (ht_w0 (r_cons r)) old_head new_head
        else (true, new_head) in
      Ret (negb success, (set_cons (set_w0 h (r_cons r)) r, n, old_head, new_head, entries)))
  (r, n, 0, 0, 0).

(** *** The C11 variants: the head is loaded once, and reloaded by a failed
    compare-exchange. *)
(* rte_lib/ring/rte_ring_c11_pvt.h:14-28 __rte_ring_update_tail *)
Definition __rte_ring_update_tail_c11 (ht : rte_ring_headtail) (old_val new_val single : Z)
    : outcome rte_ring_headtail :=
  _ ← if single =? 0
      then rte_wait_until_equal_32 fuel (fun _ => ht_tail ht) old_val
      else Ret O;
  Ret (set_tail new_val ht).

(* rte_lib/ring/rte_ring_c11_pvt.h:53-104 __rte_ring_move_prod_head *)
Definition __rte_ring_move_prod_head_c11 (r : rte_ring) (is_sp n : Z)
    (behavior : rte_ring_queue_behavior) : outcome mvstate :=
  let capacity := r_capacity r in
  let max := n in
  let old_head := ht_w0 (r_prod r) in
  do_while fuel (fun st : mvstate =>
    let '(r, n, old_head, new_head, free_entries) := st in
    let n := max in
    let cons_tail := ht_tail (r_cons r) in
    let free_entries := ((capacity + cons_tail) - old_head)%u32 in
    let n := clip behavior n free_entries in
    if n =? 0 then Ret (false, (r, 0, old_head, new_head, free_entries))
    else
      let new_head := (old_head + n)%u32 in
      if is_sp =? 0 then
        if ht_w0 (r_prod r) =? old_head
        then Ret (false, (set_prod (set_w0 new_head (r_prod r)) r, n, old_head, new_head, free_entries))
        else Ret (true, (r, n, ht_w0 (r_prod r), new_head, free_entries))
      else Ret (false, (set_prod (set_w0 new_head (r_prod r)) r, n, old_head, new_head, free_entries)))
  (r, n, old_head, 0, 0).

(* rte_lib/ring/rte_ring_c11_pvt.h:129-179 __rte_ring_move_cons_head *)
Definition __rte_ring_move_cons_head_c11 (r : rte_ring) (is_sc n : Z)
    (behavior : rte_ring_queue_behavior) : outcome mvstate :=
  let max := n in
  let old_head := ht_w0 (r_cons r) in
  do_while fuel (fun st : mvstate =>
    let '(r, n, old_head, new_head, entries) := st in
    let n := max in
    let prod_tail := ht_tail (r_prod r) in
    let entries := (prod_tail - old_head)%u32 in
    let n := clip behavior n entries in
    if n =? 0 then Ret (false, (r, 0, old_head, new_head, entries))
    else
      let new_head := (old_head + n)%u32 in
      if is_sc =? 0 then
        if ht_w0 (r_cons r) =? old_head
        then Ret (false, (set_cons (set_w0 new_head (r_cons r)) r, n, old_head, new_head, entries))
        else Ret (true, (r, n, ht_w0 (r_cons r), new_head, entries))
      else Ret (false, (set_cons (set_w0 new_head (r_cons r)) r, n, old_head, new_head, entries)))
  (r, n, old_head, 0, 0).

(** *** Plain enqueue and dequeue *)

(** [r] with the elements copied into its storage. *)
(* rte_lib/ring/rte_ring_elem_pvt.h:334-334 __rte_ring_do_enqueue_elem *)
Definition enqueue_elems (r : rte_ring) (head : Z) (obj_table : list Z) (esize n : Z)
    : outcome rte_ring :=
  m ← __rte_ring_enqueue_elems (r_mem r) (r_size r) (r_mask r) head obj_table esize n;
  Ret (set_mem m r).
(* rte_lib/ring/rte_ring_elem_pvt.h:381-381 __rte_ring_do_dequeue_elem *)
Definition dequeue_elems (r : rte_ring) (head : Z) (obj_table : list Z) (esize n : Z)
    : outcome (list Z) :=
  __rte_ring_dequeue_elems (r_mem r) (r_size r) (r_mask r) head obj_table esize n.

(** The ring, the returned count and [*free_space]. *)
(* rte_lib/ring/rte_ring_elem_pvt.h:320-341 __rte_ring_do_enqueue_elem *)
Definition __rte_ring_do_enqueue_elem (r : rte_ring) (obj_table : list Z) (esize n : Z)
    (behavior : rte_ring_queue_behavior) (is_sp : Z) : outcome (rte_ring * Z * Z) :=
  '(r, n, prod_head, prod_next, free_entries) ← __rte_ring_move_prod_head r is_sp n behavior;
  if n =? 0 then Ret (r, n, (free_entries - n)%u32)
  else
    r ← enqueue_elems r prod_head obj_table esize n;
    ht ← __rte_ring_update_tail (r_prod r) prod_head prod_next is_sp;
    Ret (set_prod ht r, n, (free_entries - n)%u32).

(** The ring, the object table, the returned count and [*available]. *)
(* rte_lib/ring/rte_ring_elem_pvt.h:367-389 __rte_ring_do_dequeue_elem *)
Definition __rte_ring_do_dequeue_elem (r : rte_ring) (obj_table : list Z) (esize n : Z)
    (behavior : rte_ring_queue_behavior) (is_sc : Z) : outcome (rte_ring * list Z * Z * Z) :=
  '(r, n, cons_head, cons_next, entries) ← __rte_ring_move_cons_head r is_sc n behavior;
  if n =? 0 then Ret (r, obj_table, n, (entries - n)%u32)
  else
    obj_table ← dequeue_elems r cons_head obj_table esize n;
    ht ← __rte_ring_update_tail (r_cons r) cons_head cons_next is_sc;
    Ret (set_cons ht r, obj_table, n, (entries - n)%u32).

(** *** HTS: one 64-bit word holds head and tail; an operation waits until they
    are equal. *)
(* rte_lib/ring/rte_ring_hts_elem_pvt.h:24-34 __rte_ring_hts_update_tail *)
Definition __rte_ring_hts_update_tail (ht : rte_ring_headtail) (old_tail num : Z)
    : rte_ring_headtail :=
  let tail := (old_tail + num)%u32 in
  set_tail tail ht.

Definition hts_pos (ht : rte_ring_headtail) : Z * Z := (ht_w0 ht, ht_tail ht).
Definition set_hts_pos (p : Z * Z) (ht : rte_ring_headtail) : rte_ring_headtail :=
  set_tail (snd p) (set_w0 (fst p) ht).

(* rte_lib/ring/rte_ring_hts_elem_pvt.h:41-49 __rte_ring_hts_head_wait *)
Definition __rte_ring_hts_head_wait (ht : rte_ring_headtail) (p : Z * Z) : outcome (Z * Z) :=
  while fuel (fun p => negb (fst p =? snd p)) (fun _ => Ret (hts_pos ht)) p.

(** The locals are the ring, [n], [op], and the pointee of [free_entries]. *)
Definition htsstate : Type := rte_ring * Z * (Z * Z) * Z.

(* rte_lib/ring/rte_ring_hts_elem_pvt.h:54-107 __rte_ring_hts_move_prod_head *)
Definition __rte_ring_hts_move_prod_head (r : rte_ring) (num : Z)
    (behavior : rte_ring_queue_behavior) : outcome (rte_ring * Z * Z * Z) :=
  let capacity := r_capacity r in
  let op := hts_pos (r_prod r) in
  '(r, n, op, free_entries) ← do_while fuel (fun st : htsstate =>
    let '(r, n, op, free_entries) := st in
    let n := num in
    op ← __rte_ring_hts_head_wait (r_prod r) op;
    let free_entries := ((capacity + ht_tail (r_cons r)) - fst op)%u32 in
    let n := clip behavior n free_entries in
    if n =? 0 then Ret (false, (r, n, op, free_entries))
    else
      let np := ((fst op + n)%u32, snd op) in
      let '(ok, m, op) := cas_pair (hts_pos (r_prod r)) op np in
      Ret (negb ok, (set_prod (set_hts_pos m (r_prod r)) r, n, op, free_entries)))
  (r, num, op, 0);
  Ret (r, n, fst op, free_entries).

(* rte_lib/ring/rte_ring_hts_elem_pvt.h:112-162 __rte_ring_hts_move_cons_head *)
Definition __rte_ring_hts_move_cons_head (r : rte_ring) (num : Z)
    (behavior : rte_ring_queue_behavior) : outcome (rte_ring * Z * Z * Z) :=
  let op := hts_pos (r_cons r) in
  '(r, n, op, entries) ← do_while fuel (fun st : htsstate =>
    let '(r, n, op, entries) := st in
    let n := num in
    op ← __rte_ring_hts_head_wait (r_cons r) op;
    let entries := (ht_tail (r_prod r) - fst op)%u32 in
    let n := clip behavior n entries in
    if n =? 0 then Ret (false, (r, n, op, entries))
    else
      let np := ((fst op + n)%u32, snd op) in
      let '(ok, m, op) := cas_pair (hts_pos (r_cons r)) op np in
      Ret (negb ok, (set_cons (set_hts_pos m (r_cons r)) r, n, op, entries)))
  (r, num, op, 0);
  Ret (r, n, fst op, entries).

(* rte_lib/ring/rte_ring_hts_elem_pvt.h:186-203 __rte_ring_do_hts_enqueue_elem *)
Definition __rte_ring_do_hts_enqueue_elem (r : rte_ring) (obj_table : list Z) (esize n : Z)
    (behavior : rte_ring_queue_behavior) : outcome (rte_ring * Z * Z) :=
  '(r, n, head, free) ← __rte_ring_hts_move_prod_head r n behavior;
  r ← if n =? 0 then Ret r
      else r ← enqueue_elems r head obj_table esize n;
           Ret (set_prod (__rte_ring_hts_update_tail (r_prod r) head n) r);
  Ret (r, n, (free - n)%u32).

(* rte_lib/ring/rte_ring_hts_elem_pvt.h:227-244 __rte_ring_do_hts_dequeue_elem *)
Definition __rte_ring_do_hts_dequeue_elem (r : rte_ring) (obj_table : list Z) (esize n : Z)
    (behavior : rte_ring_queue_behavior) : outcome (rte_ring * list Z * Z * Z) :=
  '(r, n, head, entries) ← __rte_ring_hts_move_cons_head r n behavior;
  '(r, obj_table) ←
    if n =? 0 then Ret (r, obj_table)
    else obj_table ← dequeue_elems r head obj_table esize n;
         Ret (set_cons (__rte_ring_hts_update_tail (r_cons r) head n) r, obj_table);
  Ret (r, obj_table, n, (entries - n)%u32).

(** *** RTS: head and tail each carry a count of operations; the tail moves only
    when the counts meet, and a head more than [htd_max] ahead waits. *)
Definition rts_head (ht : rte_ring_headtail) : Z * Z := (ht_hcnt ht, ht_hpos ht).
Definition rts_tail (ht : rte_ring_headtail) : Z * Z := (ht_w0 ht, ht_tail ht).

(* rte_lib/ring/rte_ring_rts_elem_pvt.h:24-46 __rte_ring_rts_update_tail *)
Definition __rte_ring_rts_update_tail (ht : rte_ring_headtail) : outcome rte_ring_headtail :=
  let ot := rts_tail ht in
  '(ht, ot) ← do_while fuel (fun st : rte_ring_headtail * (Z * Z) =>
    let '(ht, ot) := st in
    let h := rts_head ht in
    let nt_cnt := (fst ot + 1)%u32 in
    let nt := (nt_cnt, if nt_cnt =? fst h then snd h else snd ot) in
    let '(ok, m, ot) := cas_pair (rts_tail ht) ot nt in
    Ret (negb ok, (set_hts_pos m ht, ot))) (ht, ot);
  Ret ht.

(* rte_lib/ring/rte_ring_rts_elem_pvt.h:52-64 __rte_ring_rts_head_wait *)
Definition __rte_ring_rts_head_wait (ht : rte_ring_headtail) (h : Z * Z) : outcome (Z * Z) :=
  let max := ht_htd_max ht in
  while fuel (fun h => (snd h - ht_tail ht)%u32 >? max) (fun _ => Ret (rts_head ht)) h.

(* rte_lib/ring/rte_ring_rts_elem_pvt.h:69-122 __rte_ring_rts_move_prod_head *)
Definition __rte_ring_rts_move_prod_head (r : rte_ring) (num : Z)
    (behavior : rte_ring_queue_behavior) : outcome (rte_ring * Z * Z * Z) :=
  let capacity := r_capacity r in
  let oh := rts_head (r_prod r) in
  '(r, n, oh, free_entries) ← do_while fuel (fun st : htsstate =>
    let '(r, n, oh, free_entries) := st in
    let n := num in
    oh ← __rte_ring_rts_head_wait (r_prod r) oh;
    let free_entries := ((capacity + ht_tail (r_cons r)) - snd oh)%u32 in
    let n := clip behavior n free_entries in
    if n =? 0 then Ret (false, (r, n, oh, free_entries))
    else
      let nh := ((fst oh + 1)%u32, (snd oh + n)%u32) in
      let '(ok, m, oh) := cas_pair (rts_head (r_prod r)) oh nh in
      Ret (negb ok, (set_prod (set_rts_head (fst m) (snd m) (r_prod r)) r, n, oh, free_entries)))
  (r, num, oh, 0);
  Ret (r, n, snd oh, free_entries).

(* rte_lib/ring/rte_ring_rts_elem_pvt.h:127-177 __rte_ring_rts_move_cons_head *)
Definition __rte_ring_rts_move_cons_head (r : rte_ring) (num : Z)
    (behavior : rte_ring_queue_behavior) : outcome (rte_ring * Z * Z * Z) :=
  let oh := rts_head (r_cons r) in
  '(r, n, oh, entries) ← do_while fuel (fun st : htsstate =>
    let '(r, n, oh, entries) := st in
    let n := num in
    oh ← __rte_ring_rts_head_wait (r_cons r) oh;
    let entries := (ht_tail (r_prod r) - snd oh)%u32 in
    let n := clip behavior n entries in
    if n =? 0 then Ret (false, (r, n, oh, entries))
    else
      let nh := ((fst oh + 1)%u32, (snd oh + n)%u32) in
      let '(ok, m, oh) := cas_pair (rts_head (r_cons r)) oh nh in
      Ret (negb ok, (set_cons (set_rts_head (fst m) (snd m) (r_cons r)) r, n, oh, entries)))
  (r, num, oh, 0);
  Ret (r, n, snd oh, entries).

(* rte_lib/ring/rte_ring_rts_elem_pvt.h:201-218 __rte_ring_do_rts_enqueue_elem *)
Definition __rte_ring_do_rts_enqueue_elem (r : rte_ring) (obj_table : list Z) (esize n : Z)
    (behavior : rte_ring_queue_behavior) : outcome (rte_ring * Z * Z) :=
  '(r, n, head, free) ← __rte_ring_rts_move_prod_head r n behavior;
  r ← if n =? 0 then Ret r
      else r ← enqueue_elems r head obj_table esize n;
           ht ← __rte_ring_rts_update_tail (r_prod r);
           Ret (set_prod ht r);
  Ret (r, n, (free - n)%u32).

(* rte_lib/ring/rte_ring_rts_elem_pvt.h:242-259 __rte_ring_do_rts_dequeue_elem *)
Definition __rte_ring_do_rts_dequeue_elem (r : rte_ring) (obj_table : list Z) (esize n : Z)
    (behavior : rte_ring_queue_behavior) : outcome (rte_ring * list Z * Z * Z) :=
  '(r, n, head, entries) ← __rte_ring_rts_move_cons_head r n behavior;
  '(r, obj_table) ←
    if n =? 0 then Ret (r, obj_table)
    else obj_table ← dequeue_elems r head obj_table esize n;
         ht ← __rte_ring_rts_update_tail (r_cons r);
         Ret (set_cons ht r, obj_table);
  Ret (r, obj_table, n, (entries - n)%u32).

(** *** The element API: bulk is all or nothing, burst is as many as possible *)

(* rte_lib/ring/rte_ring_elem.h:132-138 rte_ring_mp_enqueue_bulk_elem *)
Definition rte_ring_mp_enqueue_bulk_elem (r : rte_ring) (obj_table : list Z) (esize n : Z)
    : outcome (rte_ring * Z * Z) :=
  __rte_ring_do_enqueue_elem r obj_table esize n RTE_RING_QUEUE_FIXED (sync_num RTE_RING_SYNC_MT).

(* rte_lib/ring/rte_ring_elem.h:161-167 rte_ring_sp_enqueue_bulk_elem *)
Definition rte_ring_sp_enqueue_bulk_elem (r : rte_ring) (obj_table : list Z) (esize n : Z)
    : outcome (rte_ring * Z * Z) :=
  __rte_ring_do_enqueue_elem r obj_table esize n RTE_RING_QUEUE_FIXED (sync_num RTE_RING_SYNC_ST).

(* rte_lib/ring/rte_ring_elem.h:319-325 rte_ring_mc_dequeue_bulk_elem *)
Definition rte_ring_mc_dequeue_bulk_elem (r : rte_ring) (obj_table : list Z) (esize n : Z)
    : outcome (rte_ring * list Z * Z * Z) :=
  __rte_ring_do_dequeue_elem r obj_table esize n RTE_RING_QUEUE_FIXED (sync_num RTE_RING_SYNC_MT).

(* rte_lib/ring/rte_ring_elem.h:347-353 rte_ring_sc_dequeue_bulk_elem *)
Definition rte_ring_sc_dequeue_bulk_elem (r : rte_ring) (obj_table : list Z) (esize n : Z)
    : outcome (rte_ring * list Z * Z * Z) :=
  __rte_ring_do_dequeue_elem r obj_table esize n RTE_RING_QUEUE_FIXED (sync_num RTE_RING_SYNC_ST).

(* rte_lib/ring/rte_ring_hts.h:52-58 rte_ring_mp_hts_enqueue_bulk_elem *)
Definition rte_ring_mp_hts_enqueue_bulk_elem (r : rte_ring) (obj_table : list Z) (esize n : Z)
    : outcome (rte_ring * Z * Z) :=
  __rte_ring_do_hts_enqueue_elem r obj_table esize n RTE_RING_QUEUE_FIXED.

(* rte_lib/ring/rte_ring_hts.h:79-85 rte_ring_mc_hts_dequeue_bulk_elem *)
Definition rte_ring_mc_hts_dequeue_bulk_elem (r : rte_ring) (obj_table : list Z) (esize n : Z)
    : outcome (rte_ring * list Z * Z * Z) :=
  __rte_ring_do_hts_dequeue_elem r obj_table esize n RTE_RING_QUEUE_FIXED.

(* rte_lib/ring/rte_ring_rts.h:79-85 rte_ring_mp_rts_enqueue_bulk_elem *)
Definition rte_ring_mp_rts_enqueue_bulk_elem (r : rte_ring) (obj_table : list Z) (esize n : Z)
    : outcome (rte_ring * Z * Z) :=
  __rte_ring_do_rts_enqueue_elem r obj_table esize n RTE_RING_QUEUE_FIXED.

(* rte_lib/ring/rte_ring_rts.h:106-112 rte_ring_mc_rts_dequeue_bulk_elem *)
Definition rte_ring_mc_rts_dequeue_bulk_elem (r : rte_ring) (obj_table : list Z) (esize n : Z)
    : outcome (rte_ring * list Z * Z * Z) :=
  __rte_ring_do_rts_dequeue_elem r obj_table esize n RTE_RING_QUEUE_FIXED.

(* rte_lib/ring/rte_ring_elem.h:195-220 rte_ring_enqueue_bulk_elem *)
Definition rte_ring_enqueue_bulk_elem (r : rte_ring) (obj_table : list Z) (esize n : Z)
    : outcome (rte_ring * Z * Z) :=
  match ht_sync_type (r_prod r) with
  | RTE_RING_SYNC_MT => rte_ring_mp_enqueue_bulk_elem r obj_table esize n
  | RTE_RING_SYNC_ST => rte_ring_sp_enqueue_bulk_elem r obj_table esize n
  | RTE_RING_SYNC_MT_RTS => rte_ring_mp_rts_enqueue_bulk_elem r obj_table esize n
  | RTE_RING_SYNC_MT_HTS => rte_ring_mp_hts_enqueue_bulk_elem r obj_table esize n
  end.

(* rte_lib/ring/rte_ring_elem.h:378-403 rte_ring_dequeue_bulk_elem *)
Definition rte_ring_dequeue_bulk_elem (r : rte_ring) (obj_table : list Z) (esize n : Z)
    : outcome (rte_ring * list Z * Z * Z) :=
  match ht_sync_type (r_cons r) with
  | RTE_RING_SYNC_MT => rte_ring_mc_dequeue_bulk_elem r obj_table esize n
  | RTE_RING_SYNC_ST => rte_ring_sc_dequeue_bulk_elem r obj_table esize n
  | RTE_RING_SYNC_MT_RTS => rte_ring_mc_rts_dequeue_bulk_elem r obj_table esize n
  | RTE_RING_SYNC_MT_HTS => rte_ring_mc_hts_dequeue_bulk_elem r obj_table esize n
  end.

(* rte_lib/ring/rte_ring_elem.h:505-511 rte_ring_mp_enqueue_burst_elem *)
Definition rte_ring_mp_enqueue_burst_elem (r : rte_ring) (obj_table : list Z) (esize n : Z)
    : outcome (rte_ring * Z * Z) :=
  __rte_ring_do_enqueue_elem r obj_table esize n RTE_RING_QUEUE_VARIABLE (sync_num RTE_RING_SYNC_MT).

(* rte_lib/ring/rte_ring_elem.h:534-540 rte_ring_sp_enqueue_burst_elem *)
Definition rte_ring_sp_enqueue_burst_elem (r : rte_ring) (obj_table : list Z) (esize n : Z)
    : outcome (rte_ring * Z * Z) :=
  __rte_ring_do_enqueue_elem r obj_table esize n RTE_RING_QUEUE_VARIABLE (sync_num RTE_RING_SYNC_ST).

(* rte_lib/ring/rte_ring_elem.h:616-622 rte_ring_mc_dequeue_burst_elem *)
Definition rte_ring_mc_dequeue_burst_elem (r : rte_ring) (obj_table : list Z) (esize n : Z)
    : outcome (rte_ring * list Z * Z * Z) :=
  __rte_ring_do_dequeue_elem r obj_table esize n RTE_RING_QUEUE_VARIABLE (sync_num RTE_RING_SYNC_MT).

(* rte_lib/ring/rte_ring_elem.h:645-651 rte_ring_sc_dequeue_burst_elem *)
Definition rte_ring_sc_dequeue_burst_elem (r : rte_ring) (obj_table : list Z) (esize n : Z)
    : outcome (rte_ring * list Z * Z * Z) :=
  __rte_ring_do_dequeue_elem r obj_table esize n RTE_RING_QUEUE_VARIABLE (sync_num RTE_RING_SYNC_ST).

(* rte_lib/ring/rte_ring_hts.h:106-112 rte_ring_mp_hts_enqueue_burst_elem *)
Definition rte_ring_mp_hts_enqueue_burst_elem (r : rte_ring) (obj_table : list Z) (esize n : Z)
    : outcome (rte_ring * Z * Z) :=
  __rte_ring_do_hts_enqueue_elem r obj_table esize n RTE_RING_QUEUE_VARIABLE.

(* rte_lib/ring/rte_ring_hts.h:135-141 rte_ring_mc_hts_dequeue_burst_elem *)
Definition rte_ring_mc_hts_dequeue_burst_elem (r : rte_ring) (obj_table : list Z) (esize n : Z)
    : outcome (rte_ring * list Z * Z * Z) :=
  __rte_ring_do_hts_dequeue_elem r obj_table esize n RTE_RING_QUEUE_VARIABLE.

(* rte_lib/ring/rte_ring_rts.h:133-139 rte_ring_mp_rts_enqueue_burst_elem *)
Definition rte_ring_mp_rts_enqueue_burst_elem (r : rte_ring) (obj_table : list Z) (esize n : Z)
    : outcome (rte_ring * Z * Z) :=
  __rte_ring_do_rts_enqueue_elem r obj_table esize n RTE_RING_QUEUE_VARIABLE.

(* rte_lib/ring/rte_ring_rts.h:162-168 rte_ring_mc_rts_dequeue_burst_elem *)
Definition rte_ring_mc_rts_dequeue_burst_elem (r : rte_ring) (obj_table : list Z) (esize n : Z)
    : outcome (rte_ring * list Z * Z * Z) :=
  __rte_ring_do_rts_dequeue_elem r obj_table esize n RTE_RING_QUEUE_VARIABLE.

(* rte_lib/ring/rte_ring_elem.h:565-590 rte_ring_enqueue_burst_elem *)
Definition rte_ring_enqueue_burst_elem (r : rte_ring) (obj_table : list Z) (esize n : Z)
    : outcome (rte_ring * Z * Z) :=
  match ht_sync_type (r_prod r) with
  | RTE_RING_SYNC_MT => rte_ring_mp_enqueue_burst_elem r obj_table esize n
  | RTE_RING_SYNC_ST => rte_ring_sp_enqueue_burst_elem r obj_table esize n
  | RTE_RING_SYNC_MT_RTS => rte_ring_mp_rts_enqueue_burst_elem r obj_table esize n
  | RTE_RING_SYNC_MT_HTS => rte_ring_mp_hts_enqueue_burst_elem r obj_table esize n
  end.

(* rte_lib/ring/rte_ring_elem.h:676-701 rte_ring_dequeue_burst_elem *)
Definition rte_ring_dequeue_burst_elem (r : rte_ring) (obj_table : list Z) (esize n : Z)
    : outcome (rte_ring * list Z * Z * Z) :=
  match ht_sync_type (r_cons r) with
  | RTE_RING_SYNC_MT => rte_ring_mc_dequeue_burst_elem r obj_table esize n
  | RTE_RING_SYNC_ST => rte_ring_sc_dequeue_burst_elem r obj_table esize n
  | RTE_RING_SYNC_MT_RTS => rte_ring_mc_rts_dequeue_burst_elem r obj_table esize n
  | RTE_RING_SYNC_MT_HTS => rte_ring_mc_hts_dequeue_burst_elem r obj_table esize n
  end.

(** One element: 0 or a negative errno. *)

(* rte_lib/ring/rte_ring_elem.h:240-245 rte_ring_mp_enqueue_elem *)
Definition rte_ring_mp_enqueue_elem (r : rte_ring) (obj : list Z) (esize : Z)
    : outcome (rte_ring * Z) :=
  '(r, n, _) ← rte_ring_mp_enqueue_bulk_elem r obj esize 1;
  Ret (r, if n =? 0 then - ENOBUFS else 0).

(* rte_lib/ring/rte_ring_elem.h:264-269 rte_ring_sp_enqueue_elem *)
Definition rte_ring_sp_enqueue_elem (r : rte_ring) (obj : list Z) (esize : Z)
    : outcome (rte_ring * Z) :=
  '(r, n, _) ← rte_ring_sp_enqueue_bulk_elem r obj esize 1;
  Ret (r, if n =? 0 then - ENOBUFS else 0).

(* rte_lib/ring/rte_ring_elem.h:290-295 rte_ring_enqueue_elem *)
Definition rte_ring_enqueue_elem (r : rte_ring) (obj : list Z) (esize : Z)
    : outcome (rte_ring * Z) :=
  '(r, n, _) ← rte_ring_enqueue_bulk_elem r obj esize 1;
  Ret (r, if n =? 0 then - ENOBUFS else 0).

(* rte_lib/ring/rte_ring_elem.h:424-430 rte_ring_mc_dequeue_elem *)
Definition rte_ring_mc_dequeue_elem (r : rte_ring) (obj_p : list Z) (esize : Z)
    : outcome (rte_ring * list Z * Z) :=
  '(r, obj_p, n, _) ← rte_ring_mc_dequeue_bulk_elem r obj_p esize 1;
  Ret (r, obj_p, if n =? 0 then - ENOENT else 0).

(* rte_lib/ring/rte_ring_elem.h:448-454 rte_ring_sc_dequeue_elem *)
Definition rte_ring_sc_dequeue_elem (r : rte_ring) (obj_p : list Z) (esize : Z)
    : outcome (rte_ring * list Z * Z) :=
  '(r, obj_p, n, _) ← rte_ring_sc_dequeue_bulk_elem r obj_p esize 1;
  Ret (r, obj_p, if n =? 0 then - ENOENT else 0).

(* rte_lib/ring/rte_ring_elem.h:476-481 rte_ring_dequeue_elem *)
Definition rte_ring_dequeue_elem (r : rte_ring) (obj_p : list Z) (esize : Z)
    : outcome (rte_ring * list Z * Z) :=
  '(r, obj_p, n, _) ← rte_ring_dequeue_bulk_elem r obj_p esize 1;
  Ret (r, obj_p, if n =? 0 then - ENOENT else 0).

(** *** The pointer API: elements of [sizeof(void * )] bytes. *)
Definition sizeof_ptr : Z := 8.

(* rte_lib/ring/rte_ring.h:212-218 rte_ring_mp_enqueue_bulk *)
Definition rte_ring_mp_enqueue_bulk (r : rte_ring) (obj_table : list Z) (n : Z)
    : outcome (rte_ring * Z * Z) :=
  rte_ring_mp_enqueue_bulk_elem r obj_table sizeof_ptr n.

(* rte_lib/ring/rte_ring.h:235-241 rte_ring_sp_enqueue_bulk *)
Definition rte_ring_sp_enqueue_bulk (r : rte_ring) (obj_table : list Z) (n : Z)
    : outcome (rte_ring * Z * Z) :=
  rte_ring_sp_enqueue_bulk_elem r obj_table sizeof_ptr n.

(* rte_lib/ring/rte_ring.h:262-268 rte_ring_enqueue_bulk *)
Definition rte_ring_enqueue_bulk (r : rte_ring) (obj_table : list Z) (n : Z)
    : outcome (rte_ring * Z * Z) :=
  rte_ring_enqueue_bulk_elem r obj_table sizeof_ptr n.

(* rte_lib/ring/rte_ring.h:346-352 rte_ring_mc_dequeue_bulk *)
Definition rte_ring_mc_dequeue_bulk (r : rte_ring) (obj_table : list Z) (n : Z)
    : outcome (rte_ring * list Z * Z * Z) :=
  rte_ring_mc_dequeue_bulk_elem r obj_table sizeof_ptr n.

(* rte_lib/ring/rte_ring.h:370-376 rte_ring_sc_dequeue_bulk *)
Definition rte_ring_sc_dequeue_bulk (r : rte_ring) (obj_table : list Z) (n : Z)
    : outcome (rte_ring * list Z * Z * Z) :=
  rte_ring_sc_dequeue_bulk_elem r obj_table sizeof_ptr n.

(* rte_lib/ring/rte_ring.h:397-403 rte_ring_dequeue_bulk *)
Definition rte_ring_dequeue_bulk (r : rte_ring) (obj_table : list Z) (n : Z)
    : outcome (rte_ring * list Z * Z * Z) :=
  rte_ring_dequeue_bulk_elem r obj_table sizeof_ptr n.

(* rte_lib/ring/rte_ring_hts.h:158-164 rte_ring_mp_hts_enqueue_bulk *)
Definition rte_ring_mp_hts_enqueue_bulk (r : rte_ring) (obj_table : list Z) (n : Z)
    : outcome (rte_ring * Z * Z) :=
  rte_ring_mp_hts_enqueue_bulk_elem r obj_table sizeof_ptr n.

(* rte_lib/ring/rte_ring_hts.h:181-187 rte_ring_mc_hts_dequeue_bulk *)
Definition rte_ring_mc_hts_dequeue_bulk (r : rte_ring) (obj_table : list Z) (n : Z)
    : outcome (rte_ring * list Z * Z * Z) :=
  rte_ring_mc_hts_dequeue_bulk_elem r obj_table sizeof_ptr n.

(* rte_lib/ring/rte_ring_rts.h:185-191 rte_ring_mp_rts_enqueue_bulk *)
Definition rte_ring_mp_rts_enqueue_bulk (r : rte_ring) (obj_table : list Z) (n : Z)
    : outcome (rte_ring * Z * Z) :=
  rte_ring_mp_rts_enqueue_bulk_elem r obj_table sizeof_ptr n.

(* rte_lib/ring/rte_ring_rts.h:208-214 rte_ring_mc_rts_dequeue_bulk *)
Definition rte_ring_mc_rts_dequeue_bulk (r : rte_ring) (obj_table : list Z) (n : Z)
    : outcome (rte_ring * list Z * Z * Z) :=
  rte_ring_mc_rts_dequeue_bulk_elem r obj_table sizeof_ptr n.

(* rte_lib/ring/rte_ring.h:667-673 rte_ring_mp_enqueue_burst *)
Definition rte_ring_mp_enqueue_burst (r : rte_ring) (obj_table : list Z) (n : Z)
    : outcome (rte_ring * Z * Z) :=
  rte_ring_mp_enqueue_burst_elem r obj_table sizeof_ptr n.

(* rte_lib/ring/rte_ring.h:690-696 rte_ring_sp_enqueue_burst *)
Definition rte_ring_sp_enqueue_burst (r : rte_ring) (obj_table : list Z) (n : Z)
    : outcome (rte_ring * Z * Z) :=
  rte_ring_sp_enqueue_burst_elem r obj_table sizeof_ptr n.

(* rte_lib/ring/rte_ring.h:717-723 rte_ring_enqueue_burst *)
Definition rte_ring_enqueue_burst (r : rte_ring) (obj_table : list Z) (n : Z)
    : outcome (rte_ring * Z * Z) :=
  rte_ring_enqueue_burst_elem r obj_table sizeof_ptr n.

(* rte_lib/ring/rte_ring.h:745-751 rte_ring_mc_dequeue_burst *)
Definition rte_ring_mc_dequeue_burst (r : rte_ring) (obj_table : list Z) (n : Z)
    : outcome (rte_ring * list Z * Z * Z) :=
  rte_ring_mc_dequeue_burst_elem r obj_table sizeof_ptr n.

(* rte_lib/ring/rte_ring.h:770-776 rte_ring_sc_dequeue_burst *)
Definition rte_ring_sc_dequeue_burst (r : rte_ring) (obj_table : list Z) (n : Z)
    : outcome (rte_ring * list Z * Z * Z) :=
  rte_ring_sc_dequeue_burst_elem r obj_table sizeof_ptr n.

(* rte_lib/ring/rte_ring.h:797-803 rte_ring_dequeue_burst *)
Definition rte_ring_dequeue_burst (r : rte_ring) (obj_table : list Z) (n : Z)
    : outcome (rte_ring * list Z * Z * Z) :=
  rte_ring_dequeue_burst_elem r obj_table sizeof_ptr n.

(* rte_lib/ring/rte_ring_hts.h:204-210 rte_ring_mp_hts_enqueue_burst *)
Definition rte_ring_mp_hts_enqueue_burst (r : rte_ring) (obj_table : list Z) (n : Z)
    : outcome (rte_ring * Z * Z) :=
  rte_ring_mp_hts_enqueue_burst_elem r obj_table sizeof_ptr n.

(* rte_lib/ring/rte_ring_hts.h:229-235 rte_ring_mc_hts_dequeue_burst *)
Definition rte_ring_mc_hts_dequeue_burst (r : rte_ring) (obj_table : list Z) (n : Z)
    : outcome (rte_ring * list Z * Z * Z) :=
  rte_ring_mc_hts_dequeue_burst_elem r obj_table sizeof_ptr n.

(* rte_lib/ring/rte_ring_rts.h:231-237 rte_ring_mp_rts_enqueue_burst *)
Definition rte_ring_mp_rts_enqueue_burst (r : rte_ring) (obj_table : list Z) (n : Z)
    : outcome (rte_ring * Z * Z) :=
  rte_ring_mp_rts_enqueue_burst_elem r obj_table sizeof_ptr n.

(* rte_lib/ring/rte_ring_rts.h:256-262 rte_ring_mc_rts_dequeue_burst *)
Definition rte_ring_mc_rts_dequeue_burst (r : rte_ring) (obj_table : list Z) (n : Z)
    : outcome (rte_ring * list Z * Z * Z) :=
  rte_ring_mc_rts_dequeue_burst_elem r obj_table sizeof_ptr n.

(** A pointer is the two words of its 64-bit value, low word first. *)
Definition ptr_words (p : Z) : list Z := [u32 p; u32 (Z.shiftr p 32)].

(* rte_lib/ring/rte_ring.h:284-288 rte_ring_mp_enqueue *)
Definition rte_ring_mp_enqueue (r : rte_ring) (obj : Z)
    : outcome (rte_ring * Z) :=
  rte_ring_mp_enqueue_elem r (ptr_words obj) sizeof_ptr.

(* rte_lib/ring/rte_ring.h:301-305 rte_ring_sp_enqueue *)
Definition rte_ring_sp_enqueue (r : rte_ring) (obj : Z)
    : outcome (rte_ring * Z) :=
  rte_ring_sp_enqueue_elem r (ptr_words obj) sizeof_ptr.

(* rte_lib/ring/rte_ring.h:322-326 rte_ring_enqueue *)
Definition rte_ring_enqueue (r : rte_ring) (obj : Z)
    : outcome (rte_ring * Z) :=
  rte_ring_enqueue_elem r (ptr_words obj) sizeof_ptr.

(* rte_lib/ring/rte_ring.h:420-424 rte_ring_mc_dequeue *)
Definition rte_ring_mc_dequeue (r : rte_ring) (obj_p : list Z)
    : outcome (rte_ring * list Z * Z) :=
  rte_ring_mc_dequeue_elem r obj_p sizeof_ptr.

(* rte_lib/ring/rte_ring.h:438-442 rte_ring_sc_dequeue *)
Definition rte_ring_sc_dequeue (r : rte_ring) (obj_p : list Z)
    : outcome (rte_ring * list Z * Z) :=
  rte_ring_sc_dequeue_elem r obj_p sizeof_ptr.

(* rte_lib/ring/rte_ring.h:460-464 rte_ring_dequeue *)
Definition rte_ring_dequeue (r : rte_ring) (obj_p : list Z)
    : outcome (rte_ring * list Z * Z) :=
  rte_ring_dequeue_elem r obj_p sizeof_ptr.

End Ops.

(** ** The invariant and the abstract queue *)

(** No operation is in progress on a side: its head is its tail. *)
Definition plain_quiet (ht : rte_ring_headtail) : Prop := ht_w0 ht = ht_tail ht.
Definition rts_quiet (ht : rte_ring_headtail) : Prop :=
  is_u32 (ht_w0 ht) /\ ht_hcnt ht = ht_w0 ht /\ ht_hpos ht = ht_tail ht /\ is_u32 (ht_htd_max ht).
Definition quiet (ht : rte_ring_headtail) : Prop :=
  is_u32 (ht_tail ht) /\
  match ht_sync_type ht with
  | RTE_RING_SYNC_MT_RTS => rts_quiet ht
  | _ => plain_quiet ht
  end.

(** The number of elements between the tails. *)
Definition used (r : rte_ring) : Z := (ht_tail (r_prod r) - ht_tail (r_cons r))%u32.

(** The sizes and the storage of a ring of elements of [esize] bytes. *)
Record ring_shape (esize : Z) (r : rte_ring) : Prop := {
  rs_esize : 0 < esize /\ esize mod 4 = 0;
  rs_size : exists k, 0 <= k <= 31 /\ r_size r = 2 ^ k;
  rs_mask : r_mask r = r_size r - 1;
  rs_cap : 0 <= r_capacity r <= r_mask r;
  rs_words : r_size r * (esize / 4) <= 2 ^ 31;
  rs_mem : Z.of_nat (length (r_mem r)) = r_size r * (esize / 4);
}.

(** A well-formed ring at rest. *)
Record ring_wf (esize : Z) (r : rte_ring) : Prop := {
  rw_shape : ring_shape esize r;
  rw_prod : quiet (r_prod r);
  rw_cons : quiet (r_cons r);
  rw_used : used r <= r_capacity r;
}.

(** The queued elements, oldest first, as words. *)
Definition contents (esize : Z) (r : rte_ring) : list Z :=
  ring_load (r_mem r) (ht_tail (r_cons r) * (esize / 4)) (used r * (esize / 4)).

(** The specification: a bounded FIFO queue of elements of [w] words. *)
Record fifo := Fifo { q_cap : Z; q_items : list Z }.
Definition q_len (w : Z) (q : fifo) : Z := Z.of_nat (length (q_items q)) / w.

(** The queue, the number accepted and the room left. *)
Definition fifo_enqueue (w : Z) (beh : rte_ring_queue_behavior) (q : fifo)
    (obj : list Z) (n : Z) : fifo * Z * Z :=
  let free := q_cap q - q_len w q in
  let n := clip beh n free in
  (Fifo (q_cap q) (q_items q ++ take (Z.to_nat (n * w)) obj), n, free - n).

(** The queue, the table with its first [n] elements overwritten, the number
    taken and the number left. *)
Definition fifo_dequeue (w : Z) (beh : rte_ring_queue_behavior) (q : fifo)
    (obj : list Z) (n : Z) : fifo * list Z * Z * Z :=
  let n := clip beh n (q_len w q) in
  let k := Z.to_nat (n * w) in
  (Fifo (q_cap q) (drop k (q_items q)), take k (q_items q) ++ drop k obj, n, q_len w q - n).

Definition abs_ring (esize : Z) (r : rte_ring) : fifo :=
  Fifo (r_capacity r) (contents esize r).

(** The side after an operation of [n] elements. *)
Definition advance (n : Z) (ht : rte_ring_headtail) : rte_ring_headtail :=
  let tail := (ht_tail ht + n)%u32 in
  match ht_sync_type ht with
  | RTE_RING_SYNC_MT_RTS =>
      let cnt := (ht_w0 ht + 1)%u32 in
      set_tail tail (set_w0 cnt (set_rts_head cnt tail ht))
  | _ => set_tail tail (set_w0 tail ht)
  end.

(** ** Lemmas: one operation on a ring at rest *)

Lemma clip_range beh n avail : 0 <= n -> 0 <= avail ->
  0 <= clip beh n avail <= avail /\ clip beh n avail <= n.
Proof.
  intros. unfold clip. destruct (Z.gtb_spec n avail), beh; lia.
Qed.

Lemma used_range r : is_u32 (used r).
Proof. apply u32_range. Qed.

Lemma cas_pair_hit (p q : Z * Z) : cas_pair p p q = (true, q, p).
Proof. unfold cas_pair. by rewrite decide_True. Qed.

Lemma hts_wait_quiet fuel ht :
  plain_quiet ht -> __rte_ring_hts_head_wait fuel ht (hts_pos ht) = Ret (hts_pos ht).
Proof.
  intros Hq. unfold __rte_ring_hts_head_wait, hts_pos. rewrite Hq.
  destruct fuel; cbn; by rewrite Z.eqb_refl.
Qed.

Lemma rts_wait_quiet fuel ht :
  rts_quiet ht -> __rte_ring_rts_head_wait fuel ht (rts_head ht) = Ret (rts_head ht).
Proof.
  intros (_ & _ & Hq & Hm). unfold __rte_ring_rts_head_wait, rts_head. rewrite Hq.
  assert (E : ((ht_tail ht - ht_tail ht)%u32 >? ht_htd_max ht) = false).
  { rewrite Z.sub_diag. rewrite Z.gtb_ltb. apply Z.ltb_ge. rewrite u32_small; lia. }
  destruct fuel; cbn; by rewrite E.
Qed.

Section Moves.
Variables (fuel : nat) (r : rte_ring) (n : Z) (beh : rte_ring_queue_behavior).
Let free := r_capacity r - used r.
Let nf := clip beh n free.
Let nu := clip beh n (used r).

Lemma free_entries_eq :
  0 <= r_capacity r < 2 ^ 32 -> used r <= r_capacity r ->
  (r_capacity r + ht_tail (r_cons r) - ht_tail (r_prod r))%u32 = free.
Proof. intros. unfold free, used in *. wrap_lia. Qed.

Lemma move_prod_plain single :
  0 <= r_capacity r < 2 ^ 32 -> used r <= r_capacity r -> plain_quiet (r_prod r) ->
  __rte_ring_move_prod_head fuel r single n beh =
  Ret (if nf =? 0 then (r, 0, ht_tail (r_prod r), 0, free)
       else (set_prod (set_w0 (ht_tail (r_prod r) + nf)%u32 (r_prod r)) r,
             nf, ht_tail (r_prod r), (ht_tail (r_prod r) + nf)%u32, free)).
Proof.
  intros Hc Hu Hq. unfold __rte_ring_move_prod_head.
  destruct fuel; cbn; rewrite Hq, free_entries_eq by done; fold nf;
    (destruct (nf =? 0); [done|]); rewrite cmpset32_hit;
    by destruct (single =? 0).
Qed.

Lemma move_cons_plain single :
  plain_quiet (r_cons r) ->
  __rte_ring_move_cons_head fuel r single n beh =
  Ret (if nu =? 0 then (r, 0, ht_tail (r_cons r), 0, used r)
       else (set_cons (set_w0 (ht_tail (r_cons r) + nu)%u32 (r_cons r)) r,
             nu, ht_tail (r_cons r), (ht_tail (r_cons r) + nu)%u32, used r)).
Proof.
  intros Hq. unfold __rte_ring_move_cons_head.
  destruct fuel; cbn; rewrite Hq; fold (used r); fold nu;
    (destruct (nu =? 0); [done|]); rewrite cmpset32_hit;
    by destruct (single =? 0).
Qed.

(** The C11 head moves compute the same. *)
Lemma move_prod_c11_eq single :
  __rte_ring_move_prod_head_c11 fuel r single n beh =
  __rte_ring_move_prod_head fuel r single n beh.
Proof.
  unfold __rte_ring_move_prod_head_c11, __rte_ring_move_prod_head.
  destruct fuel; cbn;
    (destruct (clip _ _ _ =? 0); [done|]); rewrite cmpset32_hit, Z.eqb_refl;
    by destruct (single =? 0).
Qed.

Lemma move_cons_c11_eq single :
  __rte_ring_move_cons_head_c11 fuel r single n beh =
  __rte_ring_move_cons_head fuel r single n beh.
Proof.
  unfold __rte_ring_move_cons_head_c11, __rte_ring_move_cons_head.
  destruct fuel; cbn;
    (destruct (clip _ _ _ =? 0); [done|]); rewrite cmpset32_hit, Z.eqb_refl;
    by destruct (single =? 0).
Qed.

Lemma move_prod_hts :
  0 <= r_capacity r < 2 ^ 32 -> used r <= r_capacity r -> plain_quiet (r_prod r) ->
  __rte_ring_hts_move_prod_head fuel r n beh =
  Ret (if nf =? 0 then r else set_prod (set_w0 (ht_tail (r_prod r) + nf)%u32 (r_prod r)) r,
       nf, ht_tail (r_prod r), free).
Proof.
  intros Hc Hu Hq. unfold __rte_ring_hts_move_prod_head.
  rewrite (do_while_once _ _ _ (if nf =? 0 then r else set_prod (set_w0 (ht_tail (r_prod r) + nf)%u32 (r_prod r)) r,
    nf, hts_pos (r_prod r), free)).
  { unfold hts_pos. cbn. by rewrite Hq. }
  cbv zeta. rewrite hts_wait_quiet by done. unfold hts_pos. cbn.
  rewrite Hq, free_entries_eq by done. fold nf.
  destruct (nf =? 0); [done|]. by rewrite cas_pair_hit.
Qed.

Lemma move_cons_hts :
  plain_quiet (r_cons r) ->
  __rte_ring_hts_move_cons_head fuel r n beh =
  Ret (if nu =? 0 then r else set_cons (set_w0 (ht_tail (r_cons r) + nu)%u32 (r_cons r)) r,
       nu, ht_tail (r_cons r), used r).
Proof.
  intros Hq. unfold __rte_ring_hts_move_cons_head.
  rewrite (do_while_once _ _ _ (if nu =? 0 then r else set_cons (set_w0 (ht_tail (r_cons r) + nu)%u32 (r_cons r)) r,
    nu, hts_pos (r_cons r), used r)).
  { unfold hts_pos. cbn. by rewrite Hq. }
  cbv zeta. rewrite hts_wait_quiet by done. unfold hts_pos. cbn.
    rewrite Hq; fold (used r). fold nu.
    destruct (nu =? 0); [done|]. by rewrite cas_pair_hit.
Qed.

Lemma move_prod_rts :
  0 <= r_capacity r < 2 ^ 32 -> used r <= r_capacity r -> rts_quiet (r_prod r) ->
  __rte_ring_rts_move_prod_head fuel r n beh =
  Ret (if nf =? 0 then r
       else set_prod (set_rts_head (ht_w0 (r_prod r) + 1)%u32
                        (ht_tail (r_prod r) + nf)%u32 (r_prod r)) r,
       nf, ht_tail (r_prod r), free).
Proof.
  intros Hc Hu Hq. pose proof Hq as (_ & Hcnt & Hpos & _).
  unfold __rte_ring_rts_move_prod_head.
  rewrite (do_while_once _ _ _ (if nf =? 0 then r
       else set_prod (set_rts_head (ht_w0 (r_prod r) + 1)%u32
                        (ht_tail (r_prod r) + nf)%u32 (r_prod r)) r,
    nf, rts_head (r_prod r), free)).
  { unfold rts_head. cbn. by rewrite Hpos. }
  cbv zeta. rewrite rts_wait_quiet by done. unfold rts_head. cbn.
    rewrite Hcnt, Hpos, free_entries_eq by done. fold nf.
    destruct (nf =? 0); [done|]. by rewrite cas_pair_hit.
Qed.

Lemma move_cons_rts :
  rts_quiet (r_cons r) ->
  __rte_ring_rts_move_cons_head fuel r n beh =
  Ret (if nu =? 0 then r
       else set_cons (set_rts_head (ht_w0 (r_cons r) + 1)%u32
                        (ht_tail (r_cons r) + nu)%u32 (r_cons r)) r,
       nu, ht_tail (r_cons r), used r).
Proof.
  intros Hq. pose proof Hq as (_ & Hcnt & Hpos & _).
  unfold __rte_ring_rts_move_cons_head.
  rewrite (do_while_once _ _ _ (if nu =? 0 then r
       else set_cons (set_rts_head (ht_w0 (r_cons r) + 1)%u32
                        (ht_tail (r_cons r) + nu)%u32 (r_cons r)) r,
    nu, rts_head (r_cons r), used r)).
  { unfold rts_head. cbn. by rewrite Hpos. }
  cbv zeta. rewrite rts_wait_quiet by done. unfold rts_head. cbn.
    rewrite Hcnt, Hpos; fold (used r). fold nu.
    destruct (nu =? 0); [done|]. by rewrite cas_pair_hit.
Qed.
End Moves.

(** The ring after [n] elements of [obj] were enqueued, or [n] dequeued. *)
Definition enq_after (esize n : Z) (obj : list Z) (r : rte_ring) : rte_ring :=
  if n =? 0 then r
  else set_prod (advance n (r_prod r))
         (set_mem (ring_store (r_mem r) (ht_tail (r_prod r) * (esize / 4))
                     (take (Z.to_nat (n * (esize / 4))) obj)) r).
Definition deq_after (n : Z) (r : rte_ring) : rte_ring :=
  if n =? 0 then r else set_cons (advance n (r_cons r)) r.
Definition deq_table (esize n : Z) (obj : list Z) (r : rte_ring) : list Z :=
  ring_load (r_mem r) (ht_tail (r_cons r) * (esize / 4)) (n * (esize / 4))
  ++ drop (Z.to_nat (n * (esize / 4))) obj.

Lemma shape_bounds esize r :
  ring_wf esize r -> 0 <= r_capacity r < r_size r /\ r_size r <= 2 ^ 31 /\ 0 < esize / 4.
Proof.
  intros [[[He1 He2] (k & Hk & Hs) Hm Hc _ _] _ _ _].
  assert (r_size r <= 2 ^ 31) by (rewrite Hs; apply Z.pow_le_mono_r; lia).
  assert (0 < esize / 4) by (Z.div_mod_to_equations; lia). lia.
Qed.

Section Operations.
Context (fuel : nat) (esize : Z) (r : rte_ring).
Context (n : Z) (beh : rte_ring_queue_behavior) (obj : list Z).
Hypothesis Hwf : ring_wf esize r.
Hypothesis Hn : is_u32 n.
Let free := r_capacity r - used r.
Let nf := clip beh n free.
Let nu := clip beh n (used r).

Lemma nf_range : 0 <= nf <= free /\ nf <= n.
Proof.
  apply clip_range; [lia|]. unfold free. pose proof (rw_used _ _ Hwf). lia.
Qed.
Lemma nu_range : 0 <= nu <= used r /\ nu <= n.
Proof. apply clip_range; [lia|]. apply used_range. Qed.

Lemma room_u32 : (free - nf)%u32 = free - nf /\ (used r - nu)%u32 = used r - nu.
Proof.
  pose proof (shape_bounds _ _ Hwf). pose proof nf_range. pose proof nu_range.
  pose proof (used_range r). unfold free in *. rewrite !u32_small by lia. done.
Qed.

Lemma shape_copy_ok mem k :
  length mem = length (r_mem r) -> 0 <= k <= r_capacity r ->
  k * (esize / 4) <= Z.of_nat (length obj) ->
  copy_ok mem (r_size r) esize k obj.
Proof.
  intros Hl Hk Ho. pose proof (shape_bounds _ _ Hwf). destruct Hwf as [[] _ _ _].
  split; [done..| | |]; rewrite ?Hl; (done || lia).
Qed.

Lemma enqueue_elems_at r' :
  r_mem r' = r_mem r -> r_size r' = r_size r -> r_mask r' = r_mask r ->
  n * (esize / 4) <= Z.of_nat (length obj) ->
  enqueue_elems r' (ht_tail (r_prod r)) obj esize nf =
  Ret (set_mem (ring_store (r_mem r) (ht_tail (r_prod r) * (esize / 4))
                  (take (Z.to_nat (nf * (esize / 4))) obj)) r').
Proof.
  intros Hm Hs Hk Ho. pose proof (shape_bounds _ _ Hwf). pose proof nf_range.
  pose proof (used_range r). unfold enqueue_elems. rewrite Hm, Hs, Hk.
  rewrite (rs_mask _ _ (rw_shape _ _ Hwf)), enqueue_elems_store; [done|].
  apply shape_copy_ok; [done|unfold free in *; lia|nia].
Qed.

Lemma dequeue_elems_at r' :
  r_mem r' = r_mem r -> r_size r' = r_size r -> r_mask r' = r_mask r ->
  n * (esize / 4) <= Z.of_nat (length obj) ->
  dequeue_elems r' (ht_tail (r_cons r)) obj esize nu = Ret (deq_table esize nu obj r).
Proof.
  intros Hm Hs Hk Ho. pose proof (shape_bounds _ _ Hwf). pose proof nu_range.
  pose proof (used_range r). pose proof (rw_used _ _ Hwf).
  unfold dequeue_elems. rewrite Hm, Hs, Hk.
  rewrite (rs_mask _ _ (rw_shape _ _ Hwf)), dequeue_elems_load; [done|].
  apply shape_copy_ok; [done|lia|nia].
Qed.

(** The results all modes share. *)
Definition enq_result : outcome (rte_ring * Z * Z) :=
  Ret (enq_after esize nf obj r, nf, free - nf).
Definition deq_result : outcome (rte_ring * list Z * Z * Z) :=
  Ret (deq_after nu r, deq_table esize nu obj r, nu, used r - nu).

Hypothesis Ho : n * (esize / 4) <= Z.of_nat (length obj).

Lemma deq_table_0 : nu = 0 -> obj = deq_table esize nu obj r.
Proof.
  intros ->. unfold deq_table. rewrite Z.mul_0_l, ring_load_nil by lia. by rewrite drop_0.
Qed.

Lemma update_tail_at ht old v single :
  ht_tail ht = old -> __rte_ring_update_tail fuel ht old v single = Ret (set_tail v ht).
Proof.
  intros <-. unfold __rte_ring_update_tail, rte_wait_until_equal_32.
  destruct (single =? 0); [|done]. destruct fuel; cbn; by rewrite Z.eqb_refl.
Qed.

(** A head move that got no room returns with the ring as it was. *)
Ltac move_none E := cbn; rewrite <- ?E, ?(proj1 room_u32), ?(proj2 room_u32), ?E; cbn.

Lemma quiet_plain ht : quiet ht -> ht_sync_type ht <> RTE_RING_SYNC_MT_RTS -> plain_quiet ht.
Proof. intros [_ Hq] Hs. by destruct (ht_sync_type ht). Qed.
Lemma quiet_rts ht : quiet ht -> ht_sync_type ht = RTE_RING_SYNC_MT_RTS -> rts_quiet ht.
Proof. intros [_ Hq] Hs. by rewrite Hs in Hq. Qed.

Lemma advance_plain k ht : ht_sync_type ht <> RTE_RING_SYNC_MT_RTS ->
  advance k ht = set_tail (ht_tail ht + k)%u32 (set_w0 (ht_tail ht + k)%u32 ht).
Proof. intros Hs. unfold advance. by destruct (ht_sync_type ht). Qed.

Lemma do_enqueue_plain single :
  ht_sync_type (r_prod r) <> RTE_RING_SYNC_MT_RTS ->
  __rte_ring_do_enqueue_elem fuel r obj esize n beh single = enq_result.
Proof.
  intros Hs. pose proof (shape_bounds _ _ Hwf). pose proof (quiet_plain _ (rw_prod _ _ Hwf) Hs).
  unfold __rte_ring_do_enqueue_elem, enq_result, enq_after.
  rewrite move_prod_plain by (lia || done || apply (rw_used _ _ Hwf)).
  fold free; fold nf. destruct (Z.eqb_spec nf 0) as [E|E]; move_none E; [done|].
  rewrite (proj2 (Z.eqb_neq nf 0) E), enqueue_elems_at by done. cbn.
  rewrite update_tail_at by done. cbn. by rewrite advance_plain.
Qed.

Lemma do_dequeue_plain single :
  ht_sync_type (r_cons r) <> RTE_RING_SYNC_MT_RTS ->
  __rte_ring_do_dequeue_elem fuel r obj esize n beh single = deq_result.
Proof.
  intros Hs. pose proof (quiet_plain _ (rw_cons _ _ Hwf) Hs).
  unfold __rte_ring_do_dequeue_elem, deq_result, deq_after.
  rewrite move_cons_plain by done. fold nu.
  destruct (Z.eqb_spec nu 0) as [E|E]; move_none E.
  - by rewrite <- E, <- deq_table_0.
  - rewrite (proj2 (Z.eqb_neq nu 0) E), dequeue_elems_at by done. cbn.
    rewrite update_tail_at by done. cbn. by rewrite advance_plain.
Qed.

Lemma do_enqueue_hts :
  ht_sync_type (r_prod r) <> RTE_RING_SYNC_MT_RTS ->
  __rte_ring_do_hts_enqueue_elem fuel r obj esize n beh = enq_result.
Proof.
  intros Hs. pose proof (shape_bounds _ _ Hwf). pose proof (quiet_plain _ (rw_prod _ _ Hwf) Hs).
  unfold __rte_ring_do_hts_enqueue_elem, enq_result, enq_after.
  rewrite move_prod_hts by (lia || done || apply (rw_used _ _ Hwf)).
  fold free; fold nf. cbn. rewrite (proj1 room_u32).
  destruct (nf =? 0); [done|]. rewrite enqueue_elems_at by done. cbn.
  by rewrite advance_plain.
Qed.

Lemma do_dequeue_hts :
  ht_sync_type (r_cons r) <> RTE_RING_SYNC_MT_RTS ->
  __rte_ring_do_hts_dequeue_elem fuel r obj esize n beh = deq_result.
Proof.
  intros Hs. pose proof (quiet_plain _ (rw_cons _ _ Hwf) Hs).
  unfold __rte_ring_do_hts_dequeue_elem, deq_result, deq_after.
  rewrite move_cons_hts by done. fold nu. cbn. rewrite (proj2 room_u32).
  destruct (Z.eqb_spec nu 0); [by rewrite <- deq_table_0|].
  rewrite dequeue_elems_at by done. cbn. by rewrite advance_plain.
Qed.

Lemma rts_update_tail_at ht k :
  rts_quiet ht -> ht_sync_type ht = RTE_RING_SYNC_MT_RTS ->
  __rte_ring_rts_update_tail fuel
    (set_rts_head (ht_w0 ht + 1)%u32 (ht_tail ht + k)%u32 ht) = Ret (advance k ht).
Proof.
  intros (_ & Hc & Hp & _) Hs. unfold __rte_ring_rts_update_tail, advance. rewrite Hs.
  set (ht1 := set_rts_head _ _ _).
  rewrite (do_while_once _ _ _
    (set_hts_pos ((ht_w0 ht + 1)%u32, (ht_tail ht + k)%u32) ht1, rts_tail ht1)).
  - by destruct ht.
  - cbv zeta. rewrite cas_pair_hit. cbn. by rewrite Z.eqb_refl.
Qed.

Lemma do_enqueue_rts :
  ht_sync_type (r_prod r) = RTE_RING_SYNC_MT_RTS ->
  __rte_ring_do_rts_enqueue_elem fuel r obj esize n beh = enq_result.
Proof.
  intros Hs. pose proof (shape_bounds _ _ Hwf). pose proof (quiet_rts _ (rw_prod _ _ Hwf) Hs).
  unfold __rte_ring_do_rts_enqueue_elem, enq_result, enq_after.
  rewrite move_prod_rts by (lia || done || apply (rw_used _ _ Hwf)).
  fold free; fold nf. cbn. rewrite (proj1 room_u32).
  destruct (nf =? 0); [done|]. rewrite enqueue_elems_at by done. cbn.
  by rewrite rts_update_tail_at.
Qed.

Lemma do_dequeue_rts :
  ht_sync_type (r_cons r) = RTE_RING_SYNC_MT_RTS ->
  __rte_ring_do_rts_dequeue_elem fuel r obj esize n beh = deq_result.
Proof.
  intros Hs. pose proof (quiet_rts _ (rw_cons _ _ Hwf) Hs).
  unfold __rte_ring_do_rts_dequeue_elem, deq_result, deq_after.
  rewrite move_cons_rts by done. fold nu. cbn. rewrite (proj2 room_u32).
  destruct (Z.eqb_spec nu 0); [by rewrite <- deq_table_0|].
  rewrite dequeue_elems_at by done. cbn. by rewrite rts_update_tail_at.
Qed.
End Operations.

(** ** The effect of an operation on the abstract queue *)

Lemma advance_tail n ht : ht_tail (advance n ht) = (ht_tail ht + n)%u32.
Proof. unfold advance. by destruct (ht_sync_type ht). Qed.

Lemma advance_sync n ht : ht_sync_type (advance n ht) = ht_sync_type ht.
Proof. unfold advance. by destruct (ht_sync_type ht) eqn:E; cbn. Qed.

Lemma advance_quiet n ht : quiet ht -> quiet (advance n ht).
Proof.
  intros [Ht Hq]. split; [rewrite advance_tail; apply u32_range|].
  rewrite advance_sync. unfold advance. destruct (ht_sync_type ht); try done.
  destruct Hq as (? & ? & ? & ?). split; [apply u32_range|done].
Qed.

Section Effects.
Context (esize : Z) (r : rte_ring).
Hypothesis Hwf : ring_wf esize r.
Let w := esize / 4.

Lemma w_pos : 0 < w.
Proof. apply (shape_bounds _ _ Hwf). Qed.

Lemma tails_u32 : is_u32 (ht_tail (r_prod r)) /\ is_u32 (ht_tail (r_cons r)).
Proof. split; [apply (rw_prod _ _ Hwf)|apply (rw_cons _ _ Hwf)]. Qed.

(** Positions scaled to words and wrapped at 32 bits index the same words. *)
Lemma wrapped_words_mod x :
  (u32 x * w) mod Z.of_nat (length (r_mem r)) = (x * w) mod Z.of_nat (length (r_mem r)).
Proof.
  destruct (rw_shape _ _ Hwf) as [_ (k & Hk & Hs) _ _ _ Hm]. fold w in Hm.
  rewrite Hm, !Zmult_mod_distr_r, Hs, u32_mod_pow2 by lia. done.
Qed.

Lemma used_enq n :
  0 <= n <= r_capacity r - used r ->
  used (set_prod (advance n (r_prod r)) r) = used r + n.
Proof.
  intros Hn. pose proof (shape_bounds _ _ Hwf). pose proof (used_range r).
  unfold used in *. cbn. rewrite advance_tail. wrap_lia.
Qed.

Lemma used_deq n :
  0 <= n <= used r -> used (set_cons (advance n (r_cons r)) r) = used r - n.
Proof.
  intros Hn. pose proof (shape_bounds _ _ Hwf). pose proof (used_range r).
  unfold used in *. cbn. rewrite advance_tail. wrap_lia.
Qed.

(** [prod.tail] in words is [cons.tail] plus the used words, modulo the storage. *)
Lemma prod_words_mod :
  (ht_tail (r_prod r) * w) mod Z.of_nat (length (r_mem r)) =
  (ht_tail (r_cons r) * w + used r * w) mod Z.of_nat (length (r_mem r)).
Proof.
  rewrite <- Z.mul_add_distr_r, <- wrapped_words_mod. symmetry.
  rewrite <- wrapped_words_mod. do 2 f_equal. pose proof tails_u32.
  unfold used. wrap_lia.
Qed.

Lemma enq_after_wf n obj :
  0 <= n <= r_capacity r - used r -> ring_wf esize (enq_after esize n obj r).
Proof.
  intros Hn. unfold enq_after. destruct (n =? 0); [done|].
  destruct Hwf as [[] Hp Hc Hu]. split.
  - split; cbn; try done. by rewrite ring_store_length.
  - by apply advance_quiet.
  - done.
  - pose proof (used_enq n Hn) as E. unfold used in *. cbn in *. rewrite E. lia.
Qed.

Lemma deq_after_wf n : 0 <= n <= used r -> ring_wf esize (deq_after n r).
Proof.
  intros Hn. unfold deq_after. destruct (n =? 0); [done|].
  destruct Hwf as [[] Hp Hc Hu]. split.
  - by split.
  - done.
  - by apply advance_quiet.
  - pose proof (used_deq n Hn) as E. cbn. rewrite E. lia.
Qed.

Lemma contents_enq n obj :
  0 <= n <= r_capacity r - used r -> n * w <= Z.of_nat (length obj) ->
  contents esize (enq_after esize n obj r) =
  contents esize r ++ take (Z.to_nat (n * w)) obj.
Proof.
  intros Hn Ho. unfold enq_after. destruct (Z.eqb_spec n 0) as [->|Hne];
    [by rewrite Z.mul_0_l, app_nil_r|].
  pose proof (shape_bounds _ _ Hwf) as (Hcap & _ & Hw). fold w in Hw.
  pose proof (used_range r) as Hu. pose proof (rs_mem _ _ (rw_shape _ _ Hwf)) as Hm.
  fold w in Hm. unfold contents. fold w. pose proof (used_enq n Hn) as Eu.
  unfold used in Eu |- *. cbn in Eu |- *. rewrite Eu. fold (used r).
  rewrite Z.mul_add_distr_r, ring_load_app by nia.
  rewrite (ring_store_mod _ _ _ _ prod_words_mod).
  assert (Hl : Z.of_nat (length (take (Z.to_nat (n * w)) obj)) = n * w)
    by (rewrite length_take; nia).
  rewrite ring_load_store_other by nia.
  f_equal. set (ws := take _ _) in *. rewrite <- Hl. apply ring_load_store_same. nia.
Qed.

Lemma contents_deq n :
  0 <= n <= used r ->
  contents esize r = ring_load (r_mem r) (ht_tail (r_cons r) * w) (n * w)
                     ++ contents esize (deq_after n r).
Proof.
  intros Hn. unfold deq_after. destruct (Z.eqb_spec n 0) as [->|Hne].
  - by rewrite Z.mul_0_l, ring_load_nil by lia.
  - pose proof w_pos. unfold contents. fold w.
    rewrite (used_deq n Hn). cbn. rewrite advance_tail, (ring_load_mod _ _ _ _ (wrapped_words_mod _)).
    replace (used r * w) with (n * w + (used r - n) * w) by lia.
    rewrite ring_load_app by nia. by rewrite Z.mul_add_distr_r.
Qed.

Lemma contents_length : Z.of_nat (length (contents esize r)) = used r * w.
Proof.
  pose proof w_pos. pose proof (used_range r).
  unfold contents. rewrite ring_load_length. fold w. nia.
Qed.

Lemma abs_len : q_len w (abs_ring esize r) = used r.
Proof.
  pose proof w_pos. unfold q_len, abs_ring. cbn [q_items].
  rewrite contents_length. apply Z.div_mul. lia.
Qed.

(** The detailed operations do to the ring what the queue operations do to the
    abstract queue. *)
Lemma abs_enq beh n obj :
  is_u32 n -> n * w <= Z.of_nat (length obj) ->
  let nf := clip beh n (r_capacity r - used r) in
  fifo_enqueue w beh (abs_ring esize r) obj n =
  (abs_ring esize (enq_after esize nf obj r), nf, r_capacity r - used r - nf).
Proof.
  intros Hn Ho nf. pose proof w_pos. unfold fifo_enqueue. rewrite abs_len. cbn [abs_ring q_cap q_items].
  fold nf. pose proof (nf_range _ _ n beh Hwf Hn) as Hr. fold nf in Hr.
  unfold abs_ring. rewrite contents_enq by nia. f_equal. f_equal. f_equal.
  unfold enq_after. by destruct (nf =? 0).
Qed.

Lemma abs_deq beh n obj :
  is_u32 n ->
  let nu := clip beh n (used r) in
  fifo_dequeue w beh (abs_ring esize r) obj n =
  (abs_ring esize (deq_after nu r), deq_table esize nu obj r, nu, used r - nu).
Proof.
  intros Hn nu. pose proof w_pos. unfold fifo_dequeue. rewrite abs_len. fold nu.
  assert (Hr : 0 <= nu <= used r) by (apply clip_range; [lia|apply used_range]).
  unfold abs_ring. cbn [q_cap q_items]. rewrite (contents_deq nu Hr).
  assert (Hl : length (ring_load (r_mem r) (ht_tail (r_cons r) * w) (nu * w))
               = Z.to_nat (nu * w)) by apply ring_load_length.
  rewrite take_app_length', drop_app_length' by done.
  do 2 f_equal. f_equal. f_equal. unfold deq_after. by destruct (nu =? 0).
Qed.
End Effects.

(** ** Runs of operations *)

(** One call of the element API, with its object table and count. *)
Inductive ring_op :=
  | EnqueueBulk (obj : list Z) (n : Z)
  | EnqueueBurst (obj : list Z) (n : Z)
  | DequeueBulk (obj : list Z) (n : Z)
  | DequeueBurst (obj : list Z) (n : Z).

(** What the caller sees: the count, the space or number left, and the table
    after a dequeue. *)
Definition op_result : Type := Z * Z * list Z.

Definition run_op (fuel : nat) (esize : Z) (r : rte_ring) (op : ring_op)
    : outcome (rte_ring * op_result) :=
  match op with
  | EnqueueBulk obj n =>
      '(r, n, free) ← rte_ring_enqueue_bulk_elem fuel r obj esize n; Ret (r, (n, free, []))
  | EnqueueBurst obj n =>
      '(r, n, free) ← rte_ring_enqueue_burst_elem fuel r obj esize n; Ret (r, (n, free, []))
  | DequeueBulk obj n =>
      '(r, tbl, n, avail) ← rte_ring_dequeue_bulk_elem fuel r obj esize n;
      Ret (r, (n, avail, tbl))
  | DequeueBurst obj n =>
      '(r, tbl, n, avail) ← rte_ring_dequeue_burst_elem fuel r obj esize n;
      Ret (r, (n, avail, tbl))
  end.

Definition fifo_op (w : Z) (q : fifo) (op : ring_op) : fifo * op_result :=
  let enq beh obj n := let '(q, n, free) := fifo_enqueue w beh q obj n in (q, (n, free, [])) in
  let deq beh obj n :=
    let '(q, tbl, n, avail) := fifo_dequeue w beh q obj n in (q, (n, avail, tbl)) in
  match op with
  | EnqueueBulk obj n => enq RTE_RING_QUEUE_FIXED obj n
  | EnqueueBurst obj n => enq RTE_RING_QUEUE_VARIABLE obj n
  | DequeueBulk obj n => deq RTE_RING_QUEUE_FIXED obj n
  | DequeueBurst obj n => deq RTE_RING_QUEUE_VARIABLE obj n
  end.

Fixpoint run_ops (fuel : nat) (esize : Z) (r : rte_ring) (ops : list ring_op)
    : outcome (rte_ring * list op_result) :=
  match ops with
  | [] => Ret (r, [])
  | op :: ops =>
      '(r, res) ← run_op fuel esize r op;
      '(r, rs) ← run_ops fuel esize r ops;
      Ret (r, res :: rs)
  end.

Fixpoint fifo_ops (w : Z) (q : fifo) (ops : list ring_op) : fifo * list op_result :=
  match ops with
  | [] => (q, [])
  | op :: ops =>
      let '(q, res) := fifo_op w q op in
      let '(q, rs) := fifo_ops w q ops in (q, res :: rs)
  end.

(** A call the API allows: an [unsigned int] count and a table that holds it. *)
Definition op_ok (esize : Z) (op : ring_op) : Prop :=
  match op with
  | EnqueueBulk obj n | EnqueueBurst obj n | DequeueBulk obj n | DequeueBurst obj n =>
      is_u32 n /\ n * (esize / 4) <= Z.of_nat (length obj)
  end.

(** Every synchronisation mode of the element API gives the shared result. *)
Section Api.
Context (fuel : nat) (esize : Z) (r : rte_ring) (n : Z) (obj : list Z).
Hypotheses (Hwf : ring_wf esize r) (Hn : is_u32 n).
Hypothesis Ho : n * (esize / 4) <= Z.of_nat (length obj).

Ltac by_mode :=
  match goal with |- context [match ht_sync_type ?h with _ => _ end] =>
    let E := fresh "E" in destruct (ht_sync_type h) eqn:E end;
  first [ apply do_enqueue_plain | apply do_dequeue_plain
        | apply do_enqueue_hts | apply do_dequeue_hts
        | apply do_enqueue_rts | apply do_dequeue_rts ]; congruence.

Lemma enqueue_bulk_result :
  rte_ring_enqueue_bulk_elem fuel r obj esize n = enq_result esize r n RTE_RING_QUEUE_FIXED obj.
Proof. unfold rte_ring_enqueue_bulk_elem. by_mode. Qed.
Lemma enqueue_burst_result :
  rte_ring_enqueue_burst_elem fuel r obj esize n =
  enq_result esize r n RTE_RING_QUEUE_VARIABLE obj.
Proof. unfold rte_ring_enqueue_burst_elem. by_mode. Qed.
Lemma dequeue_bulk_result :
  rte_ring_dequeue_bulk_elem fuel r obj esize n = deq_result esize r n RTE_RING_QUEUE_FIXED obj.
Proof. unfold rte_ring_dequeue_bulk_elem. by_mode. Qed.
Lemma dequeue_burst_result :
  rte_ring_dequeue_burst_elem fuel r obj esize n =
  deq_result esize r n RTE_RING_QUEUE_VARIABLE obj.
Proof. unfold rte_ring_dequeue_burst_elem. by_mode. Qed.
End Api.

Lemma run_op_refines fuel esize r op :
  ring_wf esize r -> op_ok esize op ->
  exists r' res, run_op fuel esize r op = Ret (r', res) /\ ring_wf esize r' /\
    fifo_op (esize / 4) (abs_ring esize r) op = (abs_ring esize r', res).
Proof.
  intros Hwf Hok. pose proof (shape_bounds _ _ Hwf). pose proof (rw_used _ _ Hwf).
  pose proof (used_range r).
  destruct op as [obj n|obj n|obj n|obj n]; destruct Hok as [Hn Ho]; unfold run_op, fifo_op.
  - rewrite enqueue_bulk_result, abs_enq by done. do 2 eexists. split; [done|].
    split; [|done]. apply enq_after_wf; [done|]. apply clip_range; lia.
  - rewrite enqueue_burst_result, abs_enq by done. do 2 eexists. split; [done|].
    split; [|done]. apply enq_after_wf; [done|]. apply clip_range; lia.
  - rewrite dequeue_bulk_result, abs_deq by done. do 2 eexists. split; [done|].
    split; [|done]. apply deq_after_wf; [done|]. apply clip_range; lia.
  - rewrite dequeue_burst_result, abs_deq by done. do 2 eexists. split; [done|].
    split; [|done]. apply deq_after_wf; [done|]. apply clip_range; lia.
Qed.

(** C2: refinement of the whole ring API to a bounded FIFO queue: from any
    well-formed ring at rest - whatever the synchronisation modes of its two
    sides, the element size, the position of its counters in the 32-bit range -
    every sequence of bulk and burst operations runs to completion without
    leaving its objects, the ring stays well formed, and every count, space and
    object table it returns is the one the abstract queue returns. *)
Theorem ring_refines_fifo fuel esize r ops :
  ring_wf esize r -> Forall (op_ok esize) ops ->
  exists r' rs, run_ops fuel esize r ops = Ret (r', rs) /\ ring_wf esize r' /\
    fifo_ops (esize / 4) (abs_ring esize r) ops = (abs_ring esize r', rs).
Proof.
  intros Hwf Hops. revert r Hwf; induction Hops as [|op ops Hop _ IH]; intros r Hwf.
  - eexists _, _. done.
  - destruct (run_op_refines fuel esize r op Hwf Hop) as (r1 & res & E1 & Hwf1 & A1).
    destruct (IH r1 Hwf1) as (r2 & rs & E2 & Hwf2 & A2).
    exists r2, (res :: rs). cbn [run_ops fifo_ops]. rewrite E1, A1. cbn. rewrite E2, A2. done.
Qed.
