(* ===== verification/RingSpec.v ===== *)
(** * The ring: initialisation, observers and the pointer API against the queue *)

From S2P Require Import Prelude Common Atomic RingCore RingCopy RingElem.

Open Scope Z_scope.

(** ** Specification of the arguments of [rte_ring_init] *)

(** At most one bit of [f] among those of the list is set: [count_flags f l <= 1]. *)
Definition count_flags (f : Z) (l : list Z) : nat :=
  length (filter (fun b => flag_set f b = true) l).
Definition prod_flags : list Z := [RING_F_SP_ENQ; RING_F_MP_RTS_ENQ; RING_F_MP_HTS_ENQ].
Definition cons_flags : list Z := [RING_F_SC_DEQ; RING_F_MC_RTS_DEQ; RING_F_MC_HTS_DEQ].
Definition known_flags (f : Z) : bool := Z.land f (Z.lnot RING_F_MASK) =? 0.
Definition sync_flags_ok (f : Z) : bool :=
  (count_flags f prod_flags <=? 1)%nat && (count_flags f cons_flags <=? 1)%nat.

(** The mode the flags ask for, when they are consistent. *)
Definition prod_mode (f : Z) : rte_ring_sync_type :=
  if flag_set f RING_F_SP_ENQ then RTE_RING_SYNC_ST
  else if flag_set f RING_F_MP_RTS_ENQ then RTE_RING_SYNC_MT_RTS
  else if flag_set f RING_F_MP_HTS_ENQ then RTE_RING_SYNC_MT_HTS
  else RTE_RING_SYNC_MT.
Definition cons_mode (f : Z) : rte_ring_sync_type :=
  if flag_set f RING_F_SC_DEQ then RTE_RING_SYNC_ST
  else if flag_set f RING_F_MC_RTS_DEQ then RTE_RING_SYNC_MT_RTS
  else if flag_set f RING_F_MC_HTS_DEQ then RTE_RING_SYNC_MT_HTS
  else RTE_RING_SYNC_MT.

(** The return value, by the first check that fails. *)
Definition init_code (name : string) (count flags : Z) : Z :=
  if negb (known_flags flags) then - EINVAL
  else if Z.of_nat (String.length name) >=? RTE_RING_NAMESIZE then - ENAMETOOLONG
  else if negb (sync_flags_ok flags) then - EINVAL
  else if flag_set flags RING_F_EXACT_SZ then 0
  else if negb (POWEROF2 count) || (count >? RTE_RING_SZ_MASK) then - EINVAL
  else 0.

(** ** Lemmas *)

Lemma known_flags_range f : known_flags f = true -> 0 <= f < 128.
Proof.
  unfold known_flags. intros H%Z.eqb_eq.
  change RING_F_MASK with (2 ^ 7 - 1) in H. rewrite land_lnot_ones in H by lia.
  pose proof (Z.mod_pos_bound f (2 ^ 7)). lia.
Qed.

(** A statement about known flags, by checking the 128 of them. *)
Lemma known_flags_ind (P : Z -> bool) :
  forallb P (seqZ 0 128) = true -> forall f, known_flags f = true -> P f = true.
Proof.
  intros H f Hf%known_flags_range. rewrite forallb_forall in H. apply H.
  apply list_elem_of_In, elem_of_seqZ. lia.
Qed.

Definition sync_eqb (a b : rte_ring_sync_type) : bool := bool_decide (a = b).

Lemma get_sync_type_spec f pst cst :
  known_flags f = true ->
  (sync_flags_ok f = true /\ get_sync_type f pst cst = (0, prod_mode f, cons_mode f)) \/
  (sync_flags_ok f = false /\ fst (fst (get_sync_type f pst cst)) = - EINVAL).
Proof.
  intros Hf.
  pose (P := fun f => forallb (fun pst => forallb (fun cst =>
      let '(ret, p, c) := get_sync_type f pst cst in
      if sync_flags_ok f
      then (ret =? 0) && sync_eqb p (prod_mode f) && sync_eqb c (cons_mode f)
      else ret =? - EINVAL)
    [RTE_RING_SYNC_MT; RTE_RING_SYNC_ST; RTE_RING_SYNC_MT_RTS; RTE_RING_SYNC_MT_HTS])
    [RTE_RING_SYNC_MT; RTE_RING_SYNC_ST; RTE_RING_SYNC_MT_RTS; RTE_RING_SYNC_MT_HTS]).
  assert (HP : P f = true) by (apply (known_flags_ind P); [vm_compute; reflexivity|done]).
  unfold P in HP. rewrite forallb_forall in HP. specialize (HP pst).
  rewrite forallb_forall in HP. specialize (HP ltac:(destruct pst; cbn; tauto) cst).
  specialize (HP ltac:(destruct cst; cbn; tauto)).
  destruct (get_sync_type f pst cst) as [[ret p] c]. destruct (sync_flags_ok f).
  - left. split; [done|]. apply andb_true_iff in HP as [HP Hc].
    apply andb_true_iff in HP as [Hr Hp].
    apply Z.eqb_eq in Hr. apply bool_decide_eq_true in Hp, Hc. by subst.
  - right. split; [done|]. cbn. by apply Z.eqb_eq in HP.
Qed.

(** The flags ask for a relaxed-tail-sync side exactly when that is its mode. *)
Lemma rts_flags f :
  known_flags f = true -> sync_flags_ok f = true ->
  (flag_set f RING_F_MP_RTS_ENQ = true <-> prod_mode f = RTE_RING_SYNC_MT_RTS) /\
  (flag_set f RING_F_MC_RTS_DEQ = true <-> cons_mode f = RTE_RING_SYNC_MT_RTS).
Proof.
  intros Hf Hs.
  pose (P := fun f => implb (sync_flags_ok f)
    (Bool.eqb (flag_set f RING_F_MP_RTS_ENQ) (sync_eqb (prod_mode f) RTE_RING_SYNC_MT_RTS) &&
     Bool.eqb (flag_set f RING_F_MC_RTS_DEQ) (sync_eqb (cons_mode f) RTE_RING_SYNC_MT_RTS))).
  assert (HP : P f = true) by (apply (known_flags_ind P); [vm_compute; reflexivity|done]).
  unfold P in HP. rewrite Hs in HP. cbn in HP. apply andb_true_iff in HP as [H1 H2].
  apply Bool.eqb_prop in H1, H2. rewrite H1, H2. unfold sync_eqb.
  by rewrite !bool_decide_eq_true.
Qed.

Lemma POWEROF2_pow2 x : 0 < x < 2 ^ 32 -> POWEROF2 x = true -> exists k, 0 <= k < 32 /\ x = 2 ^ k.
Proof.
  intros Hx H. unfold POWEROF2 in H. apply Z.eqb_eq in H. rewrite u32_small in H by lia.
  rewrite Z.land_comm in H. apply land_pred_zero_pow2 in H; [|lia].
  exists (Z.log2 x). split; [|done]. split; [apply Z.log2_nonneg|].
  apply Z.log2_lt_pow2; lia.
Qed.

Lemma POWEROF2_of_pow2 k : 0 <= k <= 31 -> POWEROF2 (2 ^ k) = true.
Proof.
  intros Hk. unfold POWEROF2. assert (2 ^ k <= 2 ^ 31) by (apply Z.pow_le_mono_r; lia).
  rewrite u32_small, Z.land_comm, land_pred_pow2 by lia. done.
Qed.

(** ** Initialisation *)

(** A fresh side in a given mode. *)
Definition fresh_side (st : rte_ring_sync_type) (cap : Z) : rte_ring_headtail :=
  HT 0 0 st (match st with RTE_RING_SYNC_MT_RTS => cap / HTD_MAX_DEF | _ => 0 end) 0 0.

(** The ring a successful [rte_ring_init] leaves in the zone [mem]. *)
Definition init_ring (name : string) (count flags : Z) (mem : list Z) : rte_ring :=
  let exact := flag_set flags RING_F_EXACT_SZ in
  let size := if exact then rte_align32pow2 (count + 1)%u32 else count in
  let cap := if exact then count else (count - 1)%u32 in
  Ring name flags None size (size - 1)%u32 cap
    (fresh_side (prod_mode flags) cap) (fresh_side (cons_mode flags) cap) mem.

Lemma substring_all s n : (String.length s <= n)%nat -> String.substring 0 n s = s.
Proof.
  revert n; induction s as [|c s IH]; intros n Hn; [by destruct n|].
  destruct n as [|n]; cbn in *; [lia|]. f_equal. apply IH. lia.
Qed.

Lemma rte_ring_init_run r name count flags :
  exists r', rte_ring_init r name count flags = (init_code name count flags, r') /\
    (init_code name count flags = 0 -> r' = init_ring name count flags (r_mem r)).
Proof.
  unfold rte_ring_init, init_code. fold (known_flags flags).
  destruct (known_flags flags) eqn:Hf; cbn [negb]; [|by eexists].
  unfold rte_strlcpy. cbv zeta.
  assert (E0 : (Z.of_nat (String.length name) <? 0) = false) by (apply Z.ltb_ge; lia).
  rewrite E0. cbn [orb].
  destruct (Z.of_nat (String.length name) >=? RTE_RING_NAMESIZE) eqn:Hn; [by eexists|].
  assert (Hname : String.substring 0 (Z.to_nat (RTE_RING_NAMESIZE - 1)) name = name).
  { apply substring_all. rewrite Z.geb_leb in Hn. apply Z.leb_gt in Hn.
    unfold RTE_RING_NAMESIZE in *. lia. }
  destruct (get_sync_type_spec flags RTE_RING_SYNC_MT RTE_RING_SYNC_MT Hf)
    as [[Hs E]|[Hs E]]; rewrite Hs; cbn [negb]; cbn.
  - destruct (rts_flags flags Hf Hs) as [Hp Hc].
    rewrite E. cbn. unfold init_ring. rewrite Hname.
    destruct (flag_set flags RING_F_EXACT_SZ);
      [|destruct (negb (POWEROF2 count) || (count >? RTE_RING_SZ_MASK)); [by eexists|]];
      eexists; split; try done; intros _;
      destruct (flag_set flags RING_F_MP_RTS_ENQ), (flag_set flags RING_F_MC_RTS_DEQ),
        (prod_mode flags), (cons_mode flags); try done;
      try (by discriminate (proj1 Hp)); try (by discriminate (proj2 Hp));
      try (by discriminate (proj1 Hc)); try (by discriminate (proj2 Hc)).
  - destruct (get_sync_type flags RTE_RING_SYNC_MT RTE_RING_SYNC_MT) as [[ret p] c].
    cbn in E. subst ret. by eexists.
Qed.

(** The power of two and the usable capacity a count asks for. *)
Definition init_geometry (count flags : Z) : Z * Z :=
  if flag_set flags RING_F_EXACT_SZ then (2 ^ Z.log2_up (count + 1), count)
  else (count, count - 1).

Lemma init_geometry_ok name count flags :
  init_code name count flags = 0 -> 0 < count < 2 ^ 31 ->
  exists k, 0 <= k <= 31 /\ fst (init_geometry count flags) = 2 ^ k /\
    0 <= snd (init_geometry count flags) < fst (init_geometry count flags) /\
    forall mem, r_size (init_ring name count flags mem) = 2 ^ k /\
      r_capacity (init_ring name count flags mem) = snd (init_geometry count flags).
Proof.
  unfold init_code, init_geometry, init_ring. cbn [r_size r_capacity].
  destruct (negb (known_flags flags)); [done|].
  destruct (_ >=? _); [done|]. destruct (negb (sync_flags_ok flags)); [done|].
  destruct (flag_set flags RING_F_EXACT_SZ); intros Hcode Hc; cbn [fst snd].
  - rewrite u32_small by lia. rewrite rte_align32pow2_log2_up by lia.
    exists (Z.log2_up (count + 1)).
    destruct (pow2_log2_up_bounds (count + 1)) as (? & ? & ?); [lia|].
    split; [split; [done|]|split; [done|split; [lia|done]]].
    change 31 with (Z.log2_up (2 ^ 31)). apply Z.log2_up_le_mono; lia.
  - destruct (POWEROF2 count) eqn:Hp; [|done].
    destruct (POWEROF2_pow2 count) as (k & Hk & ->); [lia|done|].
    exists k. rewrite u32_small by lia. repeat split; lia.
Qed.

(** A fresh side is at rest. *)
Lemma fresh_side_quiet st cap : 0 <= cap < 2 ^ 32 -> quiet (fresh_side st cap).
Proof.
  intros Hc. split; [cbn; lia|]. destruct st; cbn; try done.
  assert (0 <= cap / HTD_MAX_DEF < 2 ^ 32)
    by (unfold HTD_MAX_DEF; Z.div_mod_to_equations; lia).
  by repeat split; cbn; try lia.
Qed.

Lemma init_ring_wf esize name count flags mem :
  init_code name count flags = 0 -> 0 < count < 2 ^ 31 ->
  0 < esize -> esize mod 4 = 0 ->
  fst (init_geometry count flags) * (esize / 4) <= 2 ^ 31 ->
  Z.of_nat (length mem) = fst (init_geometry count flags) * (esize / 4) ->
  let r := init_ring name count flags mem in
  ring_wf esize r /\ abs_ring esize r = Fifo (snd (init_geometry count flags)) [].
Proof.
  intros Hcode Hc He1 He2 Hw Hm r.
  destruct (init_geometry_ok name count flags Hcode Hc) as (k & Hk & Hg & Hcap & Hi).
  destruct (Hi mem) as [Hs Hca]. fold r in Hs, Hca. rewrite Hg in *.
  assert (2 ^ k <= 2 ^ 31) by (apply Z.pow_le_mono_r; lia).
  assert (Hmask : r_mask r = 2 ^ k - 1).
  { unfold r, init_ring in *. cbn in *. rewrite Hs. apply u32_small. lia. }
  split.
  - split; [split| | |].
    + done.
    + by exists k.
    + by rewrite Hmask, Hs.
    + rewrite Hca, Hmask. lia.
    + by rewrite Hs.
    + by rewrite Hs.
    + apply fresh_side_quiet. unfold r, init_ring in Hca. cbn in Hca. rewrite Hca. lia.
    + apply fresh_side_quiet. unfold r, init_ring in Hca. cbn in Hca. rewrite Hca. lia.
    + assert (used r = 0) as -> by reflexivity. lia.
  - unfold abs_ring, contents. rewrite Hca. f_equal.
Qed.

(** C28: [rte_ring_init] on any zone establishes the invariant: with consistent
    flags, a short enough name and a count in range it returns 0 and the ring is
    well formed, empty, in the modes the flags ask for, and holds exactly
    [count - 1] elements, or [count] with [RING_F_EXACT_SZ]. *)
Theorem rte_ring_init_establishes esize r name count flags :
  init_code name count flags = 0 -> 0 < count < 2 ^ 31 ->
  0 < esize -> esize mod 4 = 0 ->
  fst (init_geometry count flags) * (esize / 4) <= 2 ^ 31 ->
  Z.of_nat (length (r_mem r)) = fst (init_geometry count flags) * (esize / 4) ->
  exists r', rte_ring_init r name count flags = (0, r') /\ ring_wf esize r' /\
    abs_ring esize r' = Fifo (snd (init_geometry count flags)) [] /\
    rte_ring_get_prod_sync_type r' = prod_mode flags /\
    rte_ring_get_cons_sync_type r' = cons_mode flags.
Proof.
  intros Hcode Hc He1 He2 Hw Hm.
  destruct (rte_ring_init_run r name count flags) as (r' & E & Hr').
  specialize (Hr' Hcode). subst r'. rewrite Hcode in E. eexists. split; [exact E|].
  destruct (init_ring_wf esize name count flags (r_mem r)) as [Hwf Ha]; try done.
Qed.

(** A 16-slot multi-producer, single-consumer ring of pointers. *)
Definition blank_ring (words : nat) : rte_ring :=
  Ring "" 0 None 0 0 0 zero_headtail zero_headtail (repeat 0 words).

Lemma rte_ring_init_establishes_witness :
  exists r', rte_ring_init (blank_ring 32) "tx" 16 RING_F_SC_DEQ = (0, r') /\
    ring_wf 8 r' /\ abs_ring 8 r' = Fifo 15 [] /\
    rte_ring_get_prod_sync_type r' = RTE_RING_SYNC_MT /\
    rte_ring_get_cons_sync_type r' = RTE_RING_SYNC_ST.
Proof.
  apply (rte_ring_init_establishes 8 (blank_ring 32) "tx" 16 RING_F_SC_DEQ);
    vm_compute; repeat split; congruence.
Defined.

(** The return value of [rte_ring_init] is decided by its checks in order:
    unknown flags, an over-long name, more than one producer or consumer mode,
    and, without [RING_F_EXACT_SZ], a count that is not a power of two in range. *)
Theorem rte_ring_init_returns r name count flags :
  fst (rte_ring_init r name count flags) = init_code name count flags.
Proof. by destruct (rte_ring_init_run r name count flags) as (r' & -> & _). Qed.

(** Two parameters for which initialisation reports success and builds a ring
    that has no slot: a count of 0, which passes the power-of-two test and gives the
    capacity [2^32 - 1] (with no storage, the first enqueue leaves the array); and, with
    [RING_F_EXACT_SZ], any count from [2^31] up, whose rounding wraps. *)
Theorem rte_ring_init_slotless r name :
  (String.length name < 29)%nat ->
  (exists r', rte_ring_init r name 0 0 = (0, r') /\
    r_size r' = 0 /\ r_mask r' = UINT32_MAX /\ r_capacity r' = UINT32_MAX /\
    (r_mem r = [] -> rte_ring_mp_enqueue O r' 1 = Undef)) /\
  (forall count, 2 ^ 31 <= count < 2 ^ 32 ->
   exists r', rte_ring_init r name count RING_F_EXACT_SZ = (0, r') /\
    r_size r' = 0 /\ r_mask r' = UINT32_MAX /\ r_capacity r' = count).
Proof.
  intros Hn. assert (Hl : Z.of_nat (String.length name) < RTE_RING_NAMESIZE)
    by (unfold RTE_RING_NAMESIZE; lia).
  split.
  - destruct (rte_ring_init_run r name 0 0) as (r' & E & Hr').
    assert (Hcode : init_code name 0 0 = 0).
    { unfold init_code. rewrite Z.geb_leb, (proj2 (Z.leb_gt _ _)) by done. done. }
    exists r'. rewrite E, Hcode, (Hr' Hcode). repeat split. destruct r. cbn. by intros ->.
  - intros count Hc. destruct (rte_ring_init_run r name count RING_F_EXACT_SZ) as (r' & E & Hr').
    assert (Hcode : init_code name count RING_F_EXACT_SZ = 0).
    { unfold init_code. change (known_flags RING_F_EXACT_SZ) with true.
      change (sync_flags_ok RING_F_EXACT_SZ) with true. cbn [negb].
      by rewrite Z.geb_leb, (proj2 (Z.leb_gt _ _)) by done. }
    exists r'. rewrite E, Hcode, (Hr' Hcode). split; [done|].
    unfold init_ring. cbn. rewrite rte_align32pow2_wraps by wrap_lia. done.
Qed.

Lemma rte_ring_init_slotless_witness :
  exists r', rte_ring_init (blank_ring 0) "big" 3000000000 RING_F_EXACT_SZ = (0, r') /\
    r_size r' = 0 /\ r_mask r' = UINT32_MAX /\ r_capacity r' = 3000000000.
Proof.
  apply (rte_ring_init_slotless (blank_ring 0) "big"); [cbn; lia|lia].
Defined.

(** ** Memory size *)

(** The memory size, where the product of the element size and the count fits
    in 32 bits: the header and every slot, rounded up to the cache line. *)
Theorem memsize_elem_fits esize count :
  0 < esize -> esize mod 4 = 0 -> 0 < count -> POWEROF2 count = true ->
  count <= RTE_RING_SZ_MASK -> count * esize < 2 ^ 32 ->
  let sz := rte_ring_get_memsize_elem esize count in
  SIZEOF_RTE_RING + count * esize <= sz
    < SIZEOF_RTE_RING + count * esize + RTE_CACHE_LINE_SIZE /\
  sz mod RTE_CACHE_LINE_SIZE = 0.
Proof.
  intros He1 He2 Hc Hp Hm Hf sz. unfold sz, rte_ring_get_memsize_elem.
  rewrite He2, Hp. cbn [Z.eqb negb orb]. rewrite Z.gtb_ltb, (proj2 (Z.ltb_ge _ _)) by done.
  rewrite u32_small by nia. rewrite u64_small by (unfold SIZEOF_RTE_RING; nia).
  change RTE_CACHE_LINE_SIZE with (2 ^ 6).
  rewrite RTE_ALIGN_pow2 by (unfold SIZEOF_RTE_RING; nia).
  split; [Z.div_mod_to_equations; lia|]. apply Z.mod_mul. lia.
Qed.

Lemma memsize_elem_fits_witness :
  let sz := rte_ring_get_memsize_elem 12 1024 in
  SIZEOF_RTE_RING + 1024 * 12 <= sz < SIZEOF_RTE_RING + 1024 * 12 + RTE_CACHE_LINE_SIZE /\
  sz mod RTE_CACHE_LINE_SIZE = 0.
Proof. apply (memsize_elem_fits 12 1024); vm_compute; congruence. Defined.

(** The product is computed in 32 bits, so a large ring is given a memory size
    that holds no slot at all: for every power of two from [2^30] up, with
    4-byte elements, the size is that of the header alone. *)
Theorem memsize_elem_overflows esize count :
  0 < esize -> esize mod 4 = 0 -> 2 ^ 30 <= count -> POWEROF2 count = true ->
  count <= RTE_RING_SZ_MASK -> rte_ring_get_memsize_elem esize count = SIZEOF_RTE_RING.
Proof.
  intros He1 He2 Hc Hp Hm. unfold rte_ring_get_memsize_elem, RTE_RING_SZ_MASK in *.
  rewrite He2, Hp. cbn [Z.eqb negb orb]. rewrite Z.gtb_ltb, (proj2 (Z.ltb_ge _ _)) by done.
  destruct (POWEROF2_pow2 count) as (k & Hk & ->); [lia|done|].
  assert (k = 30) as ->.
  { assert (30 <= k) by (apply (Z.pow_le_mono_r_iff 2); lia).
    assert (k < 31) by (apply (Z.pow_lt_mono_r_iff 2); lia). lia. }
  replace ((2 ^ 30 * esize)%u32) with 0; [done|].
  unfold u32. pose proof (Z.div_mod esize 4). rewrite He2 in *.
  replace (2 ^ 30 * esize) with (esize / 4 * 4294967296) by lia. by rewrite Z.mod_mul.
Qed.

Lemma memsize_elem_overflows_witness :
  rte_ring_get_memsize_elem 8 (2 ^ 30) = SIZEOF_RTE_RING.
Proof. apply (memsize_elem_overflows 8 (2 ^ 30)); vm_compute; congruence. Defined.

(** ** Observers *)

Lemma ring_count_used esize r : ring_wf esize r -> rte_ring_count r = used r.
Proof.
  intros Hwf. pose proof (rw_used _ _ Hwf) as Hu. pose proof (used_range r) as Hr.
  destruct (rw_shape _ _ Hwf) as [_ (k & Hk & Hs) Hm Hc _ _].
  unfold rte_ring_count. fold (used r). rewrite Hm, Hs, land_ones_mod by lia.
  rewrite Z.mod_small by lia. destruct (Z.gtb_spec (used r) (r_capacity r)); lia.
Qed.

(** The observers of a ring at rest say what the queue says: the number of
    queued elements, the room left, full and empty. *)
Theorem ring_observers esize r :
  ring_wf esize r ->
  let q := abs_ring esize r in
  rte_ring_count r = q_len (esize / 4) q /\
  rte_ring_free_count r = q_cap q - q_len (esize / 4) q /\
  (rte_ring_full r = true <-> q_len (esize / 4) q = q_cap q) /\
  (rte_ring_empty r = true <-> q_items q = []).
Proof.
  intros Hwf q. pose proof (ring_count_used _ _ Hwf) as Hc.
  pose proof (shape_bounds _ _ Hwf) as (Hb & Hs & Hw).
  pose proof (used_range r) as Hr. pose proof (rw_used _ _ Hwf) as Hu.
  unfold q. rewrite abs_len by done. cbn [abs_ring q_cap q_items].
  assert (Hfree : rte_ring_free_count r = r_capacity r - used r).
  { unfold rte_ring_free_count. rewrite Hc. apply u32_small. lia. }
  split; [done|]. split; [done|]. split.
  - unfold rte_ring_full. rewrite Hfree, Z.eqb_eq. lia.
  - unfold rte_ring_empty. rewrite Z.eqb_eq.
    pose proof (contents_length _ _ Hwf) as Hl. pose proof (tails_u32 _ _ Hwf) as [Hp Hcn].
    split.
    + intros E. apply length_zero_iff_nil.
      assert (used r = 0) as E0 by (unfold used; rewrite E, Z.sub_diag; done).
      rewrite E0 in Hl. lia.
    + intros E. rewrite E in Hl. cbn in Hl. assert (used r = 0) as E0 by nia.
      unfold used in E0. clear -E0 Hp Hcn. wrap_lia.
Qed.

(** ** The pointer API *)

Definition ptr_of_words (l : list Z) : Z := nth 0 l 0 + 2 ^ 32 * nth 1 l 0.

Lemma ptr_words_inv p : is_u64 p -> ptr_of_words (ptr_words p) = p.
Proof.
  intros Hp. unfold ptr_of_words, ptr_words. cbn [nth].
  rewrite Z.shiftr_div_pow2 by lia.
  rewrite (u32_small (p / 2 ^ 32)) by (Z.div_mod_to_equations; lia).
  unfold u32. change 4294967296 with (2 ^ 32). pose proof (Z.div_mod p (2 ^ 32)). lia.
Qed.

Lemma enqueue_elem_result fuel esize r obj :
  ring_wf esize r -> esize / 4 <= Z.of_nat (length obj) ->
  rte_ring_enqueue_elem fuel r obj esize =
  if used r =? r_capacity r then Ret (r, - ENOBUFS)
  else Ret (enq_after esize 1 obj r, 0).
Proof.
  intros Hwf Ho. pose proof (rw_used _ _ Hwf). pose proof (used_range r).
  unfold rte_ring_enqueue_elem. rewrite enqueue_bulk_result by (done || lia).
  unfold enq_result. cbn [mbind outcome_bind]. unfold clip.
  destruct (Z.eqb_spec (used r) (r_capacity r)) as [->|Hne].
  - by rewrite Z.sub_diag.
  - by destruct (Z.gtb_spec 1 (r_capacity r - used r)); [lia|].
Qed.

Lemma dequeue_elem_result fuel esize r obj :
  ring_wf esize r -> esize / 4 <= Z.of_nat (length obj) ->
  rte_ring_dequeue_elem fuel r obj esize =
  if used r =? 0 then Ret (r, obj, - ENOENT)
  else Ret (deq_after 1 r, deq_table esize 1 obj r, 0).
Proof.
  intros Hwf Ho. pose proof (used_range r).
  unfold rte_ring_dequeue_elem. rewrite dequeue_bulk_result by (done || lia).
  unfold deq_result. cbn [mbind outcome_bind]. unfold clip.
  destruct (Z.eqb_spec (used r) 0) as [->|Hne].
  - cbn. unfold deq_table. rewrite Z.mul_0_l, ring_load_nil by lia. by rewrite drop_0.
  - by destruct (Z.gtb_spec 1 (used r)); [lia|].
Qed.

(** One pointer through the ring: [rte_ring_enqueue] refuses with [-ENOBUFS]
    exactly when the ring is full and then changes nothing; otherwise the
    pointer becomes the youngest element, and a ring that was empty gives the
    same 64-bit pointer back to [rte_ring_dequeue] and is empty again. *)
Theorem pointer_roundtrip fuel r p tbl :
  ring_wf 8 r -> is_u64 p -> length tbl = 2%nat ->
  (rte_ring_full r = true /\ rte_ring_enqueue fuel r p = Ret (r, - ENOBUFS)) \/
  (exists r1, rte_ring_enqueue fuel r p = Ret (r1, 0) /\ ring_wf 8 r1 /\
     contents 8 r1 = contents 8 r ++ ptr_words p /\
     (rte_ring_empty r = true ->
      exists r2 tbl', rte_ring_dequeue fuel r1 tbl = Ret (r2, tbl', 0) /\
        ptr_of_words tbl' = p /\ contents 8 r2 = [])).
Proof.
  intros Hwf Hp Hl. pose proof (rw_used _ _ Hwf) as Hu. pose proof (used_range r).
  pose proof (shape_bounds _ _ Hwf) as (Hb & Hs & _).
  unfold rte_ring_enqueue, sizeof_ptr. rewrite enqueue_elem_result by (done || cbn; lia).
  destruct (Z.eqb_spec (used r) (r_capacity r)) as [E|E]; [left|right].
  - split; [|done]. unfold rte_ring_full, rte_ring_free_count.
    rewrite (ring_count_used _ _ Hwf), E, Z.sub_diag. done.
  - assert (Hwf1 : ring_wf 8 (enq_after 8 1 (ptr_words p) r)) by (apply enq_after_wf; [done|lia]).
    assert (Hc1 : contents 8 (enq_after 8 1 (ptr_words p) r) = contents 8 r ++ ptr_words p)
      by (rewrite contents_enq by (done || cbn; lia); done).
    eexists. split; [done|]. split; [done|]. split; [done|]. intros He.
    unfold rte_ring_empty in He. apply Z.eqb_eq in He.
    assert (Hu0 : used r = 0) by (unfold used; rewrite He, Z.sub_diag; done).
    assert (Hu1 : used (enq_after 8 1 (ptr_words p) r) = 1).
    { pose proof (used_enq 8 r Hwf 1 ltac:(lia)) as Hq. rewrite Hu0 in Hq. exact Hq. }
    assert (Hc0 : contents 8 r = []).
    { unfold contents. by rewrite Hu0. }
    unfold rte_ring_dequeue, sizeof_ptr.
    rewrite dequeue_elem_result by (done || by rewrite Hl). rewrite Hu1. cbn [Z.eqb].
    assert (H1 : 0 <= 1 <= used (enq_after 8 1 (ptr_words p) r)) by lia.
    pose proof (contents_deq 8 _ Hwf1 1 H1) as Hd.
    rewrite Hc1, Hc0, app_nil_l in Hd.
    apply (eq_trans (app_nil_r (ptr_words p))) in Hd.
    set (r1 := enq_after 8 1 (ptr_words p) r) in *.
    assert (Hlen : length (ring_load (r_mem r1) (ht_tail (r_cons r1) * (8 / 4)) (1 * (8 / 4)))
                   = length (ptr_words p)) by apply ring_load_length.
    apply app_inj_1 in Hd as [Hd1 Hd2]; [|done].
    clear Hlen.
    eexists _, _. split; [done|]. split.
    + unfold deq_table. rewrite <- Hd1. unfold ptr_of_words.
      change (nth 0 _ 0) with (nth 0 (ptr_words p) 0).
      change (nth 1 _ 0) with (nth 1 (ptr_words p) 0). by apply ptr_words_inv.
    + done.
Qed.

(** ** Bulk and burst, enqueue and dequeue *)

(** C7: [rte_ring_enqueue_bulk_elem] is all or nothing, and
    [rte_ring_enqueue_burst_elem] takes what fits: the elements accepted are the
    first ones of the table, appended behind those queued, and the space
    reported is what remains. *)
Theorem enqueue_bulk_burst_spec fuel esize r obj n :
  ring_wf esize r -> is_u32 n -> n * (esize / 4) <= Z.of_nat (length obj) ->
  let room := r_capacity r - rte_ring_count r in
  let k_bulk := if n <=? room then n else 0 in
  let k_burst := Z.min n room in
  (exists r1, rte_ring_enqueue_bulk_elem fuel r obj esize n = Ret (r1, k_bulk, room - k_bulk) /\
     ring_wf esize r1 /\ rte_ring_count r1 = rte_ring_count r + k_bulk /\
     contents esize r1 = contents esize r ++ take (Z.to_nat (k_bulk * (esize / 4))) obj) /\
  (exists r2, rte_ring_enqueue_burst_elem fuel r obj esize n = Ret (r2, k_burst, room - k_burst) /\
     ring_wf esize r2 /\ rte_ring_count r2 = rte_ring_count r + k_burst /\
     contents esize r2 = contents esize r ++ take (Z.to_nat (k_burst * (esize / 4))) obj).
Proof.
  intros Hwf Hn Ho. rewrite (ring_count_used _ _ Hwf). cbv zeta.
  pose proof (rw_used _ _ Hwf) as Hu. pose proof (shape_bounds _ _ Hwf) as (_ & _ & Hw).
  assert (Hk : forall beh k, clip beh n (r_capacity r - used r) = k ->
    enq_result esize r n beh obj = Ret (enq_after esize k obj r, k, r_capacity r - used r - k) /\
    ring_wf esize (enq_after esize k obj r) /\
    rte_ring_count (enq_after esize k obj r) = used r + k /\
    contents esize (enq_after esize k obj r) =
      contents esize r ++ take (Z.to_nat (k * (esize / 4))) obj).
  { intros beh k Hk. pose proof (clip_range beh n (r_capacity r - used r)) as Hr.
    rewrite Hk in Hr. unfold enq_result. rewrite Hk.
    assert (Hwf' : ring_wf esize (enq_after esize k obj r)) by (apply enq_after_wf; [done|lia]).
    split; [done|]. split; [done|]. split; [|apply contents_enq; [done|lia|nia]].
    rewrite (ring_count_used _ _ Hwf'). unfold enq_after.
    destruct (Z.eqb_spec k 0) as [->|]; [lia|].
    assert (Hk' : 0 <= k <= r_capacity r - used r) by lia.
    exact (used_enq esize r Hwf k Hk'). }
  rewrite enqueue_bulk_result, enqueue_burst_result by done.
  split; eexists; apply Hk; unfold clip.
  - destruct (Z.gtb_spec n (r_capacity r - used r)), (Z.leb_spec n (r_capacity r - used r)); lia.
  - destruct (Z.gtb_spec n (r_capacity r - used r)); lia.
Qed.

(** C8: [rte_ring_dequeue_bulk_elem] is all or nothing, and
    [rte_ring_dequeue_burst_elem] takes what there is: the oldest elements are
    removed and written, in order, at the start of the table, whose rest is kept. *)
Theorem dequeue_bulk_burst_spec fuel esize r obj n :
  ring_wf esize r -> is_u32 n -> n * (esize / 4) <= Z.of_nat (length obj) ->
  let cnt := rte_ring_count r in
  let k_bulk := if n <=? cnt then n else 0 in
  let k_burst := Z.min n cnt in
  let taken k r' tbl :=
    exists items, contents esize r = items ++ contents esize r' /\
      Z.of_nat (length items) = k * (esize / 4) /\
      tbl = items ++ drop (length items) obj in
  (exists r1 tbl, rte_ring_dequeue_bulk_elem fuel r obj esize n =
     Ret (r1, tbl, k_bulk, cnt - k_bulk) /\ ring_wf esize r1 /\ taken k_bulk r1 tbl) /\
  (exists r2 tbl, rte_ring_dequeue_burst_elem fuel r obj esize n =
     Ret (r2, tbl, k_burst, cnt - k_burst) /\ ring_wf esize r2 /\ taken k_burst r2 tbl).
Proof.
  intros Hwf Hn Ho. rewrite (ring_count_used _ _ Hwf). cbv zeta.
  pose proof (used_range r) as Hu. pose proof (shape_bounds _ _ Hwf) as (_ & _ & Hw).
  assert (Hk : forall beh k, clip beh n (used r) = k ->
    deq_result esize r n beh obj = Ret (deq_after k r, deq_table esize k obj r, k, used r - k) /\
    ring_wf esize (deq_after k r) /\
    exists items, contents esize r = items ++ contents esize (deq_after k r) /\
      Z.of_nat (length items) = k * (esize / 4) /\
      deq_table esize k obj r = items ++ drop (length items) obj).
  { intros beh k Hk. pose proof (clip_range beh n (used r)) as Hr.
    rewrite Hk in Hr. unfold deq_result. rewrite Hk.
    split; [done|]. split; [apply deq_after_wf; [done|lia]|].
    eexists. split; [apply contents_deq; [done|lia]|]. rewrite ring_load_length.
    split; [nia|done]. }
  rewrite dequeue_bulk_result, dequeue_burst_result by done.
  split; eexists _, _; apply Hk; unfold clip.
  - destruct (Z.gtb_spec n (used r)), (Z.leb_spec n (used r)); lia.
  - destruct (Z.gtb_spec n (used r)); lia.
Qed.

(** The two memory-model variants of the head moves compute the same results
    on every ring, for every count, behaviour and fuel. *)
Theorem c11_head_moves_equivalent fuel r n beh single :
  __rte_ring_move_prod_head_c11 fuel r single n beh =
    __rte_ring_move_prod_head fuel r single n beh /\
  __rte_ring_move_cons_head_c11 fuel r single n beh =
    __rte_ring_move_cons_head fuel r single n beh.
Proof. split; [apply move_prod_c11_eq|apply move_cons_c11_eq]. Qed.

(** C27: the copy loops round-trip: copying [n] elements into the storage at a
    position and back out at the same position returns the elements, whichever
    unrolled loop the element size selects and wherever the storage wraps
    around, and the slots of any other elements are left as they were. *)
Theorem copy_roundtrip mem obj tbl size esize n head :
  copy_ok mem size esize n obj -> n * (esize / 4) <= Z.of_nat (length tbl) ->
  exists mem', __rte_ring_enqueue_elems mem size (size - 1) head obj esize n = Ret mem' /\
    __rte_ring_dequeue_elems mem' size (size - 1) head tbl esize n =
      Ret (take (Z.to_nat (n * (esize / 4))) obj ++ drop (Z.to_nat (n * (esize / 4))) tbl) /\
    forall p k, 0 <= k -> p + k <= head -> head + n <= p + size ->
      ring_load mem' (p * (esize / 4)) (k * (esize / 4)) =
      ring_load mem (p * (esize / 4)) (k * (esize / 4)).
Proof.
  intros H Ht. pose proof H as [[He1 He2] Hs Hw Hm Hn Ho].
  assert (0 < esize / 4) by (Z.div_mod_to_equations; lia).
  rewrite enqueue_elems_store by done. eexists. split; [done|].
  set (ws := take _ obj). set (p := head * (esize / 4)).
  assert (Hl : Z.of_nat (length ws) = n * (esize / 4)) by (unfold ws; rewrite length_take; nia).
  split.
  - rewrite dequeue_elems_load.
    + rewrite <- Hl. rewrite ring_load_store_same by nia. done.
    + split; rewrite ?ring_store_length; done.
  - intros q k Hk H1 H2. apply ring_load_store_other; rewrite ?Hl, ?Hm; unfold p; nia.
Qed.

(** ** Witnesses: a ring whose 32-bit counters are about to wrap around *)

(** Eight slots of one-word elements, two of them used, an RTS producer and an
    HTS consumer. *)
Definition late_ring : rte_ring :=
  Ring "late" (Z.lor RING_F_MP_RTS_ENQ RING_F_MC_HTS_DEQ) None 8 7 7
    (HT 41 4294967295 RTE_RING_SYNC_MT_RTS 2 41 4294967295)
    (HT 4294967293 4294967293 RTE_RING_SYNC_MT_HTS 0 0 0)
    [10; 11; 12; 13; 14; 15; 16; 17].

Lemma late_ring_wf : ring_wf 4 late_ring.
Proof.
  split; [split|..]; try (by vm_compute); try (vm_compute; intuition congruence).
  exists 3. split; [lia|reflexivity].
Qed.

Definition late_ops : list ring_op :=
  [EnqueueBulk [1; 2; 3] 3; DequeueBurst [0; 0; 0; 0] 4; EnqueueBulk [4; 5; 6; 7; 8; 9; 10] 7;
   EnqueueBurst [4; 5; 6; 7; 8; 9; 10] 7; DequeueBulk [0; 0; 0; 0; 0; 0; 0] 7].

Lemma late_ops_ok : Forall (op_ok 4) late_ops.
Proof. repeat constructor; vm_compute; congruence. Qed.

Lemma ring_refines_fifo_witness :
  exists r' rs, run_ops 0 4 late_ring late_ops = Ret (r', rs) /\ ring_wf 4 r' /\
    fifo_ops 1 (Fifo 7 [15; 16]) late_ops = (abs_ring 4 r', rs).
Proof. exact (ring_refines_fifo 0 4 late_ring late_ops late_ring_wf late_ops_ok). Defined.

Lemma enqueue_bulk_burst_spec_witness :
  exists r1, rte_ring_enqueue_bulk_elem 0 late_ring [1; 2; 3] 4 3 = Ret (r1, 3, 2) /\
    contents 4 r1 = [15; 16; 1; 2; 3].
Proof.
  destruct (enqueue_bulk_burst_spec 0 4 late_ring [1; 2; 3] 3 late_ring_wf)
    as [(r1 & E & _ & _ & Hc) _]; [lia|vm_compute; congruence|].
  exists r1. split; [exact E|exact Hc].
Defined.

Lemma dequeue_bulk_burst_spec_witness :
  exists r2 tbl, rte_ring_dequeue_burst_elem 0 late_ring [0; 0; 0; 0] 4 4 = Ret (r2, tbl, 2, 0) /\
    ring_wf 4 r2.
Proof.
  destruct (dequeue_bulk_burst_spec 0 4 late_ring [0; 0; 0; 0] 4 late_ring_wf)
    as [_ (r2 & tbl & E & Hwf & _)]; [lia|vm_compute; congruence|].
  exists r2, tbl. split; [exact E|exact Hwf].
Defined.

Lemma ring_observers_witness :
  rte_ring_count late_ring = 2 /\ rte_ring_free_count late_ring = 5.
Proof.
  destruct (ring_observers 4 late_ring late_ring_wf) as (E1 & E2 & _).
  split; [exact E1|exact E2].
Defined.

(** A ring of two pointers, empty. *)
Definition small_ring : rte_ring := init_ring "ptr" 2 0 [0; 0; 0; 0].

Lemma small_ring_wf : ring_wf 8 small_ring.
Proof. apply (init_ring_wf 8 "ptr" 2 0 [0; 0; 0; 0]); vm_compute; intuition congruence. Qed.

Lemma pointer_roundtrip_witness :
  exists r1, rte_ring_enqueue 0 small_ring 139637976727552 = Ret (r1, 0) /\
    contents 8 r1 = ptr_words 139637976727552.
Proof.
  destruct (pointer_roundtrip 0 small_ring 139637976727552 [0; 0] small_ring_wf)
    as [[H _]|(r1 & E & _ & Hc & _)]; [lia|done|discriminate H|].
  exists r1. split; [exact E|exact Hc].
Defined.

Lemma late_copy_ok : copy_ok (repeat 0 24) 8 12 3 (repeat 7 9).
Proof.
  split; try (by vm_compute); try (vm_compute; intuition congruence).
  exists 3. split; [lia|reflexivity].
Qed.

Lemma copy_roundtrip_witness :
  exists mem', __rte_ring_enqueue_elems (repeat 0 24) 8 7 4294967294 (repeat 7 9) 12 3 = Ret mem' /\
    __rte_ring_dequeue_elems mem' 8 7 4294967294 (repeat 0 9) 12 3 = Ret (repeat 7 9).
Proof.
  destruct (copy_roundtrip (repeat 0 24) (repeat 7 9) (repeat 0 9) 8 12 3 4294967294 late_copy_ok)
    as (mem' & E & D & _); [vm_compute; congruence|].
  exists mem'. split; [exact E|exact D].
Defined.
