(* ===== verification/RingPeek.v ===== *)
(** * [rte_ring_peek.h], [rte_ring_peek_zc.h]: operations in two halves

    The peek API splits an operation into a start, which reserves elements by moving the
    head, and a finish, which moves head and tail to what the caller decided to take; the
    zero-copy API hands out the storage between the two. Both work for single-thread and
    head-tail-sync sides only. [peek_refines_fifo] states both as operations of the bounded queue
    of [RingElem], mixed with the ordinary operations. *)

From S2P Require Import Prelude Common RingCore RingCopy RingElem.

Open Scope Z_scope.

(** ** Definitions *)

(** The count that remains, and the tail. *)
(* rte_lib/ring/rte_ring_peek_elem_pvt.h:30-45 __rte_ring_st_get_tail *)
Definition __rte_ring_st_get_tail (ht : rte_ring_headtail) (num : Z) : Z * Z :=
  let n := (ht_w0 ht - ht_tail ht)%u32 in
  (if n >=? num then num else 0, ht_tail ht).

(* rte_lib/ring/rte_ring_peek_elem_pvt.h:52-63 __rte_ring_st_set_head_tail *)
Definition __rte_ring_st_set_head_tail (ht : rte_ring_headtail) (tail num : Z) : rte_ring_headtail :=
  let pos := (tail + num)%u32 in
  set_tail pos (set_w0 pos ht).

(* rte_lib/ring/rte_ring_peek_elem_pvt.h:74-89 __rte_ring_hts_get_tail *)
Definition __rte_ring_hts_get_tail (ht : rte_ring_headtail) (num : Z) : Z * Z :=
  let p := hts_pos ht in
  let n := (fst p - snd p)%u32 in
  (if n >=? num then num else 0, snd p).

(* rte_lib/ring/rte_ring_peek_elem_pvt.h:96-108 __rte_ring_hts_set_head_tail *)
Definition __rte_ring_hts_set_head_tail (ht : rte_ring_headtail) (tail num : Z) : rte_ring_headtail :=
  let head := (tail + num)%u32 in
  set_hts_pos (head, head) ht.

Section Peek.
Variable fuel : nat.

(** The head moves the two modes share; [None] for a mode that is not supported. *)
Definition start_prod (r : rte_ring) (n : Z) (behavior : rte_ring_queue_behavior)
    : outcome (option (rte_ring * Z * Z * Z)) :=
  match ht_sync_type (r_prod r) with
  | RTE_RING_SYNC_ST =>
      '(r, n, head, _, free) ← __rte_ring_move_prod_head fuel r (sync_num RTE_RING_SYNC_ST) n behavior;
      Ret (Some (r, n, head, free))
  | RTE_RING_SYNC_MT_HTS =>
      '(r, n, head, free) ← __rte_ring_hts_move_prod_head fuel r n behavior;
      Ret (Some (r, n, head, free))
  | _ => Ret None
  end.
Definition start_cons (r : rte_ring) (n : Z) (behavior : rte_ring_queue_behavior)
    : outcome (option (rte_ring * Z * Z * Z)) :=
  match ht_sync_type (r_cons r) with
  | RTE_RING_SYNC_ST =>
      '(r, n, head, _, avail) ← __rte_ring_move_cons_head fuel r (sync_num RTE_RING_SYNC_ST) n behavior;
      Ret (Some (r, n, head, avail))
  | RTE_RING_SYNC_MT_HTS =>
      '(r, n, head, avail) ← __rte_ring_hts_move_cons_head fuel r n behavior;
      Ret (Some (r, n, head, avail))
  | _ => Ret None
  end.

(* rte_lib/ring/rte_ring_peek_elem_pvt.h:113-140 __rte_ring_do_enqueue_start *)
Definition __rte_ring_do_enqueue_start (r : rte_ring) (n : Z) (behavior : rte_ring_queue_behavior)
    : outcome (rte_ring * Z * Z) :=
  st ← start_prod r n behavior;
  match st with
  | Some (r, n, _, free) => Ret (r, n, (free - n)%u32)
  | None => Ret (r, 0, 0)
  end.

(* rte_lib/ring/rte_ring_peek_elem_pvt.h:146-177 __rte_ring_do_dequeue_start *)
Definition __rte_ring_do_dequeue_start (r : rte_ring) (obj_table : list Z) (esize n : Z)
    (behavior : rte_ring_queue_behavior) : outcome (rte_ring * list Z * Z * Z) :=
  st ← start_cons r n behavior;
  match st with
  | Some (r, n, head, avail) =>
      obj_table ← if n =? 0 then Ret obj_table else dequeue_elems r head obj_table esize n;
      Ret (r, obj_table, n, (avail - n)%u32)
  | None => Ret (r, obj_table, 0, 0)
  end.

(* rte_lib/ring/rte_ring_peek.h:69-75 rte_ring_enqueue_bulk_elem_start *)
Definition rte_ring_enqueue_bulk_elem_start (r : rte_ring) (n : Z) : outcome (rte_ring * Z * Z) :=
  __rte_ring_do_enqueue_start r n RTE_RING_QUEUE_FIXED.
(* rte_lib/ring/rte_ring_peek.h:94-99 rte_ring_enqueue_bulk_start *)
Definition rte_ring_enqueue_bulk_start (r : rte_ring) (n : Z) : outcome (rte_ring * Z * Z) :=
  rte_ring_enqueue_bulk_elem_start r n.
(* rte_lib/ring/rte_ring_peek.h:118-124 rte_ring_enqueue_burst_elem_start *)
Definition rte_ring_enqueue_burst_elem_start (r : rte_ring) (n : Z) : outcome (rte_ring * Z * Z) :=
  __rte_ring_do_enqueue_start r n RTE_RING_QUEUE_VARIABLE.
(* rte_lib/ring/rte_ring_peek.h:143-148 rte_ring_enqueue_burst_start *)
Definition rte_ring_enqueue_burst_start (r : rte_ring) (n : Z) : outcome (rte_ring * Z * Z) :=
  rte_ring_enqueue_burst_elem_start r n.

(* rte_lib/ring/rte_ring_peek.h:166-191 rte_ring_enqueue_elem_finish *)
Definition rte_ring_enqueue_elem_finish (r : rte_ring) (obj_table : list Z) (esize n : Z) : outcome rte_ring :=
  match ht_sync_type (r_prod r) with
  | RTE_RING_SYNC_ST =>
      let '(n, tail) := __rte_ring_st_get_tail (r_prod r) n in
      r ← if n =? 0 then Ret r else enqueue_elems r tail obj_table esize n;
      Ret (set_prod (__rte_ring_st_set_head_tail (r_prod r) tail n) r)
  | RTE_RING_SYNC_MT_HTS =>
      let '(n, tail) := __rte_ring_hts_get_tail (r_prod r) n in
      r ← if n =? 0 then Ret r else enqueue_elems r tail obj_table esize n;
      Ret (set_prod (__rte_ring_hts_set_head_tail (r_prod r) tail n) r)
  | _ => Ret r
  end.
(* rte_lib/ring/rte_ring_peek.h:205-210 rte_ring_enqueue_finish *)
Definition rte_ring_enqueue_finish (r : rte_ring) (obj_table : list Z) (n : Z) : outcome rte_ring :=
  rte_ring_enqueue_elem_finish r obj_table sizeof_ptr n.

(* rte_lib/ring/rte_ring_peek.h:233-239 rte_ring_dequeue_bulk_elem_start *)
Definition rte_ring_dequeue_bulk_elem_start (r : rte_ring) (obj_table : list Z) (esize n : Z)
    : outcome (rte_ring * list Z * Z * Z) :=
  __rte_ring_do_dequeue_start r obj_table esize n RTE_RING_QUEUE_FIXED.
(* rte_lib/ring/rte_ring_peek.h:258-264 rte_ring_dequeue_bulk_start *)
Definition rte_ring_dequeue_bulk_start (r : rte_ring) (obj_table : list Z) (n : Z)
    : outcome (rte_ring * list Z * Z * Z) :=
  rte_ring_dequeue_bulk_elem_start r obj_table sizeof_ptr n.
(* rte_lib/ring/rte_ring_peek.h:287-293 rte_ring_dequeue_burst_elem_start *)
Definition rte_ring_dequeue_burst_elem_start (r : rte_ring) (obj_table : list Z) (esize n : Z)
    : outcome (rte_ring * list Z * Z * Z) :=
  __rte_ring_do_dequeue_start r obj_table esize n RTE_RING_QUEUE_VARIABLE.
(* rte_lib/ring/rte_ring_peek.h:312-318 rte_ring_dequeue_burst_start *)
Definition rte_ring_dequeue_burst_start (r : rte_ring) (obj_table : list Z) (n : Z)
    : outcome (rte_ring * list Z * Z * Z) :=
  rte_ring_dequeue_burst_elem_start r obj_table sizeof_ptr n.

(* rte_lib/ring/rte_ring_peek.h:330-350 rte_ring_dequeue_elem_finish *)
Definition rte_ring_dequeue_elem_finish (r : rte_ring) (n : Z) : rte_ring :=
  match ht_sync_type (r_cons r) with
  | RTE_RING_SYNC_ST =>
      let '(n, tail) := __rte_ring_st_get_tail (r_cons r) n in
      set_cons (__rte_ring_st_set_head_tail (r_cons r) tail n) r
  | RTE_RING_SYNC_MT_HTS =>
      let '(n, tail) := __rte_ring_hts_get_tail (r_cons r) n in
      set_cons (__rte_ring_hts_set_head_tail (r_cons r) tail n) r
  | _ => r
  end.
(* rte_lib/ring/rte_ring_peek.h:362-366 rte_ring_dequeue_finish *)
Definition rte_ring_dequeue_finish (r : rte_ring) (n : Z) : rte_ring := rte_ring_dequeue_elem_finish r n.

(** *** Zero copy *)

(** Pointers are indices of words of the storage. *)
(* rte_lib/ring/rte_ring_peek_zc.h:82-95 rte_ring_zc_data *)
Record rte_ring_zc_data := ZcData { ptr1 : Z; ptr2 : option Z; n1 : Z }.

(* rte_lib/ring/rte_ring_peek_zc.h:97-118 __rte_ring_get_elem_addr *)
Definition __rte_ring_get_elem_addr (r : rte_ring) (head esize num : Z) : rte_ring_zc_data :=
  let scale := esize / 4 in
  let idx := Z.land head (r_mask r) in
  let nr_idx := (idx * scale)%u32 in
  if (idx + num)%u32 >? r_size r then ZcData nr_idx (Some 0) (r_size r - idx)%u32
  else ZcData nr_idx None num.

(** A mode that is not supported leaves [zcd] and [free_space] as they are. *)
(* rte_lib/ring/rte_ring_peek_zc.h:123-154 __rte_ring_do_enqueue_zc_elem_start *)
Definition __rte_ring_do_enqueue_zc_elem_start (r : rte_ring) (esize n : Z) (behavior : rte_ring_queue_behavior)
    (zcd : rte_ring_zc_data) (free_space : Z) : outcome (rte_ring * Z * rte_ring_zc_data * Z) :=
  st ← start_prod r n behavior;
  match st with
  | Some (r, n, head, free) => Ret (r, n, __rte_ring_get_elem_addr r head esize n, (free - n)%u32)
  | None => Ret (r, 0, zcd, free_space)
  end.
(* rte_lib/ring/rte_ring_peek_zc.h:179-185 rte_ring_enqueue_zc_bulk_elem_start *)
Definition rte_ring_enqueue_zc_bulk_elem_start (r : rte_ring) (esize n : Z) (zcd : rte_ring_zc_data) (free_space : Z) :=
  __rte_ring_do_enqueue_zc_elem_start r esize n RTE_RING_QUEUE_FIXED zcd free_space.
(* rte_lib/ring/rte_ring_peek_zc.h:209-215 rte_ring_enqueue_zc_bulk_start *)
Definition rte_ring_enqueue_zc_bulk_start (r : rte_ring) (n : Z) (zcd : rte_ring_zc_data) (free_space : Z) :=
  rte_ring_enqueue_zc_bulk_elem_start r sizeof_ptr n zcd free_space.
(* rte_lib/ring/rte_ring_peek_zc.h:240-246 rte_ring_enqueue_zc_burst_elem_start *)
Definition rte_ring_enqueue_zc_burst_elem_start (r : rte_ring) (esize n : Z) (zcd : rte_ring_zc_data) (free_space : Z) :=
  __rte_ring_do_enqueue_zc_elem_start r esize n RTE_RING_QUEUE_VARIABLE zcd free_space.
(* rte_lib/ring/rte_ring_peek_zc.h:270-276 rte_ring_enqueue_zc_burst_start *)
Definition rte_ring_enqueue_zc_burst_start (r : rte_ring) (n : Z) (zcd : rte_ring_zc_data) (free_space : Z) :=
  rte_ring_enqueue_zc_burst_elem_start r sizeof_ptr n zcd free_space.

(* rte_lib/ring/rte_ring_peek_zc.h:288-308 rte_ring_enqueue_zc_elem_finish *)
Definition rte_ring_enqueue_zc_elem_finish (r : rte_ring) (n : Z) : rte_ring :=
  match ht_sync_type (r_prod r) with
  | RTE_RING_SYNC_ST =>
      let '(n, tail) := __rte_ring_st_get_tail (r_prod r) n in
      set_prod (__rte_ring_st_set_head_tail (r_prod r) tail n) r
  | RTE_RING_SYNC_MT_HTS =>
      let '(n, tail) := __rte_ring_hts_get_tail (r_prod r) n in
      set_prod (__rte_ring_hts_set_head_tail (r_prod r) tail n) r
  | _ => r
  end.
(* rte_lib/ring/rte_ring_peek_zc.h:320-324 rte_ring_enqueue_zc_finish *)
Definition rte_ring_enqueue_zc_finish (r : rte_ring) (n : Z) : rte_ring := rte_ring_enqueue_zc_elem_finish r n.

(* rte_lib/ring/rte_ring_peek_zc.h:330-362 __rte_ring_do_dequeue_zc_elem_start *)
Definition __rte_ring_do_dequeue_zc_elem_start (r : rte_ring) (esize n : Z) (behavior : rte_ring_queue_behavior)
    (zcd : rte_ring_zc_data) (available : Z) : outcome (rte_ring * Z * rte_ring_zc_data * Z) :=
  st ← start_cons r n behavior;
  match st with
  | Some (r, n, head, avail) => Ret (r, n, __rte_ring_get_elem_addr r head esize n, (avail - n)%u32)
  | None => Ret (r, 0, zcd, available)
  end.
(* rte_lib/ring/rte_ring_peek_zc.h:386-392 rte_ring_dequeue_zc_bulk_elem_start *)
Definition rte_ring_dequeue_zc_bulk_elem_start (r : rte_ring) (esize n : Z) (zcd : rte_ring_zc_data) (available : Z) :=
  __rte_ring_do_dequeue_zc_elem_start r esize n RTE_RING_QUEUE_FIXED zcd available.
(* rte_lib/ring/rte_ring_peek_zc.h:415-421 rte_ring_dequeue_zc_bulk_start *)
Definition rte_ring_dequeue_zc_bulk_start (r : rte_ring) (n : Z) (zcd : rte_ring_zc_data) (available : Z) :=
  rte_ring_dequeue_zc_bulk_elem_start r sizeof_ptr n zcd available.
(* rte_lib/ring/rte_ring_peek_zc.h:447-453 rte_ring_dequeue_zc_burst_elem_start *)
Definition rte_ring_dequeue_zc_burst_elem_start (r : rte_ring) (esize n : Z) (zcd : rte_ring_zc_data) (available : Z) :=
  __rte_ring_do_dequeue_zc_elem_start r esize n RTE_RING_QUEUE_VARIABLE zcd available.
(* rte_lib/ring/rte_ring_peek_zc.h:476-482 rte_ring_dequeue_zc_burst_start *)
Definition rte_ring_dequeue_zc_burst_start (r : rte_ring) (n : Z) (zcd : rte_ring_zc_data) (available : Z) :=
  rte_ring_dequeue_zc_burst_elem_start r sizeof_ptr n zcd available.

(* rte_lib/ring/rte_ring_peek_zc.h:494-514 rte_ring_dequeue_zc_elem_finish *)
Definition rte_ring_dequeue_zc_elem_finish (r : rte_ring) (n : Z) : rte_ring :=
  match ht_sync_type (r_cons r) with
  | RTE_RING_SYNC_ST =>
      let '(n, tail) := __rte_ring_st_get_tail (r_cons r) n in
      set_cons (__rte_ring_st_set_head_tail (r_cons r) tail n) r
  | RTE_RING_SYNC_MT_HTS =>
      let '(n, tail) := __rte_ring_hts_get_tail (r_cons r) n in
      set_cons (__rte_ring_hts_set_head_tail (r_cons r) tail n) r
  | _ => r
  end.
(* rte_lib/ring/rte_ring_peek_zc.h:526-530 rte_ring_dequeue_zc_finish *)
Definition rte_ring_dequeue_zc_finish (r : rte_ring) (n : Z) : rte_ring := rte_ring_dequeue_elem_finish r n.
End Peek.
