(* ===== verification/RingPeekSpec.v ===== *)
(** * The peek and zero-copy operations as operations of a bounded queue

    [peek_refines_fifo]: histories that mix ordinary operations with operations in two
    halves, on rings whose sides support them. *)

From S2P Require Import Prelude Common RingCore RingCopy RingElem RingPeek.

Open Scope Z_scope.

(** The modes the two halves support. *)
Definition peek_mode (st : rte_ring_sync_type) : Prop := st = RTE_RING_SYNC_ST \/ st = RTE_RING_SYNC_MT_HTS.

Lemma peek_not_rts st : peek_mode st -> st <> RTE_RING_SYNC_MT_RTS.
Proof. by intros [->| ->]. Qed.

(** A side between the halves: [k] elements reserved. *)
Definition hold (k : Z) (ht : rte_ring_headtail) : rte_ring_headtail :=
  if k =? 0 then ht else set_w0 (ht_tail ht + k)%u32 ht.
Definition hold_prod (k : Z) (r : rte_ring) : rte_ring := if k =? 0 then r else set_prod (hold k (r_prod r)) r.
Definition hold_cons (k : Z) (r : rte_ring) : rte_ring := if k =? 0 then r else set_cons (hold k (r_cons r)) r.

(** What a finish with [j] settles on when [k] are reserved. *)
Definition settle (k j : Z) : Z := if j <=? k then j else 0.

Lemma settle_range k j : 0 <= k -> 0 <= j -> 0 <= settle k j <= k.
Proof. intros. unfold settle. destruct (Z.leb_spec j k); lia. Qed.

Lemma plain_w0 ht : is_u32 (ht_tail ht) -> plain_quiet ht -> set_tail (ht_tail ht + 0)%u32 (set_w0 (ht_tail ht + 0)%u32 ht) = ht.
Proof. intros Ht Hq. unfold plain_quiet in Hq. rewrite Z.add_0_r, u32_small by done. destruct ht. cbn in *. by subst. Qed.

Lemma set_prod_same r : set_prod (r_prod r) r = r.
Proof. by destruct r. Qed.
Lemma set_cons_same r : set_cons (r_cons r) r = r.
Proof. by destruct r. Qed.

(** The tails both modes read, and the heads and tails they set. *)
Lemma hold_get k ht j : is_u32 k -> plain_quiet ht ->
  __rte_ring_st_get_tail (hold k ht) j = (settle k j, ht_tail ht) /\
  __rte_ring_hts_get_tail (hold k ht) j = (settle k j, ht_tail ht).
Proof.
  intros Hk Hq. unfold plain_quiet in Hq.
  assert (E : (ht_w0 (hold k ht) - ht_tail (hold k ht))%u32 = k /\ ht_tail (hold k ht) = ht_tail ht).
  { unfold hold. destruct (Z.eqb_spec k 0) as [->|]; cbn; [rewrite Hq|]; split; try done; wrap_lia. }
  destruct E as [E Et]. unfold __rte_ring_st_get_tail, __rte_ring_hts_get_tail, hts_pos, settle. cbn [fst snd].
  by rewrite E, Et, Z.geb_leb.
Qed.

Lemma hold_set k ht j : plain_quiet ht -> is_u32 (ht_tail ht) -> peek_mode (ht_sync_type ht) ->
  __rte_ring_st_set_head_tail (hold k ht) (ht_tail ht) j = (if j =? 0 then ht else advance j ht) /\
  __rte_ring_hts_set_head_tail (hold k ht) (ht_tail ht) j = (if j =? 0 then ht else advance j ht).
Proof.
  intros Hq Ht Hm. unfold __rte_ring_st_set_head_tail, __rte_ring_hts_set_head_tail, set_hts_pos. cbn [fst snd].
  assert (E : forall v, set_tail v (set_w0 v (hold k ht)) = set_tail v (set_w0 v ht)).
  { intros v. unfold hold. destruct (k =? 0); [done|]. by destruct ht. }
  rewrite E. destruct (Z.eqb_spec j 0) as [->|Hj].
  - by rewrite plain_w0.
  - by rewrite (advance_plain _ _ (peek_not_rts _ Hm)).
Qed.

Section Halves.
Context (fuel : nat) (esize : Z) (r : rte_ring).
Hypothesis Hwf : ring_wf esize r.
Let w := esize / 4.

Lemma prod_plain : peek_mode (ht_sync_type (r_prod r)) -> plain_quiet (r_prod r).
Proof. intros H. apply quiet_plain; [apply (rw_prod _ _ Hwf)|by apply peek_not_rts]. Qed.
Lemma cons_plain : peek_mode (ht_sync_type (r_cons r)) -> plain_quiet (r_cons r).
Proof. intros H. apply quiet_plain; [apply (rw_cons _ _ Hwf)|by apply peek_not_rts]. Qed.

Lemma start_prod_run n beh : peek_mode (ht_sync_type (r_prod r)) ->
  let k := clip beh n (r_capacity r - used r) in
  exists nh, start_prod fuel r n beh = Ret (Some (hold_prod k r, k, nh, r_capacity r - used r)) /\
    nh = ht_tail (r_prod r).
Proof.
  intros Hm k. pose proof (shape_bounds _ _ Hwf). pose proof (prod_plain Hm) as Hq. unfold start_prod, hold_prod, hold.
  destruct Hm as [-> | ->].
  - rewrite move_prod_plain by (lia || done || apply (rw_used _ _ Hwf)). fold k.
    destruct (Z.eqb_spec k 0) as [->|]; by eexists.
  - rewrite move_prod_hts by (lia || done || apply (rw_used _ _ Hwf)). fold k. cbn [mbind outcome_bind].
    destruct (k =? 0); by eexists.
Qed.

Lemma start_cons_run n beh : peek_mode (ht_sync_type (r_cons r)) ->
  let k := clip beh n (used r) in
  start_cons fuel r n beh = Ret (Some (hold_cons k r, k, ht_tail (r_cons r), used r)).
Proof.
  intros Hm k. pose proof (cons_plain Hm) as Hq. unfold start_cons, hold_cons, hold.
  destruct Hm as [-> | ->].
  - rewrite move_cons_plain by done. fold k. by destruct (Z.eqb_spec k 0) as [->|].
  - rewrite move_cons_hts by done. fold k. cbn [mbind outcome_bind]. by destruct (k =? 0).
Qed.

Lemma hold_prod_fields k : r_prod (hold_prod k r) = hold k (r_prod r) /\ r_cons (hold_prod k r) = r_cons r /\
  r_mem (hold_prod k r) = r_mem r /\ r_size (hold_prod k r) = r_size r /\ r_mask (hold_prod k r) = r_mask r.
Proof. unfold hold_prod, hold. by destruct (k =? 0). Qed.
Lemma hold_cons_fields k : r_cons (hold_cons k r) = hold k (r_cons r) /\ r_prod (hold_cons k r) = r_prod r /\
  r_mem (hold_cons k r) = r_mem r /\ r_size (hold_cons k r) = r_size r /\ r_mask (hold_cons k r) = r_mask r.
Proof. unfold hold_cons, hold. by destruct (k =? 0). Qed.
Lemma hold_sync k ht : ht_sync_type (hold k ht) = ht_sync_type ht.
Proof. unfold hold. by destruct (k =? 0). Qed.

(** Storing any number of elements the ring has room for. *)
Lemma store_elems r' j obj : r_mem r' = r_mem r -> r_size r' = r_size r -> r_mask r' = r_mask r ->
  0 <= j <= r_capacity r -> j * w <= Z.of_nat (length obj) ->
  enqueue_elems r' (ht_tail (r_prod r)) obj esize j =
  Ret (set_mem (ring_store (r_mem r) (ht_tail (r_prod r) * w) (take (Z.to_nat (j * w)) obj)) r').
Proof.
  intros Hm Hs Hk Hj Ho. unfold enqueue_elems. rewrite Hm, Hs, Hk, (rs_mask _ _ (rw_shape _ _ Hwf)), enqueue_elems_store; [done|].
  by apply (shape_copy_ok _ _ 0 RTE_RING_QUEUE_FIXED _ Hwf).
Qed.

Lemma load_elems r' k obj : r_mem r' = r_mem r -> r_size r' = r_size r -> r_mask r' = r_mask r ->
  0 <= k <= r_capacity r -> k * w <= Z.of_nat (length obj) ->
  dequeue_elems r' (ht_tail (r_cons r)) obj esize k = Ret (deq_table esize k obj r).
Proof.
  intros Hm Hs Hk Hj Ho. unfold dequeue_elems. rewrite Hm, Hs, Hk, (rs_mask _ _ (rw_shape _ _ Hwf)), dequeue_elems_load; [done|].
  by apply (shape_copy_ok _ _ 0 RTE_RING_QUEUE_FIXED _ Hwf).
Qed.

(** The finishes. *)
Lemma enqueue_finish_run k j obj : peek_mode (ht_sync_type (r_prod r)) -> 0 <= k <= r_capacity r -> 0 <= j ->
  settle k j * w <= Z.of_nat (length obj) ->
  rte_ring_enqueue_elem_finish (hold_prod k r) obj esize j = Ret (enq_after esize (settle k j) obj r).
Proof.
  intros Hm Hk Hj Ho. pose proof (shape_bounds _ _ Hwf). pose proof (settle_range k j ltac:(lia) Hj) as Hset.
  pose proof (prod_plain Hm) as Hq. destruct (rw_prod _ _ Hwf) as [Ht _].
  destruct (hold_prod_fields k) as (E1 & E2 & E3 & E4 & E5).
  destruct (hold_get k (r_prod r) j ltac:(lia) Hq) as [G1 G2].
  destruct (hold_set k (r_prod r) (settle k j) Hq Ht Hm) as [S1 S2].
  assert (Emem : forall m, r_prod (set_mem m (hold_prod k r)) = hold k (r_prod r)) by (intros m; by rewrite <- E1).
  assert (Efin : forall m h, set_prod h (set_mem m (hold_prod k r)) = set_prod h (set_mem m r)).
  { intros m h. unfold hold_prod. by destruct (k =? 0). }
  assert (Enone : forall h, set_prod h (hold_prod k r) = set_prod h r) by (intros h; unfold hold_prod; by destruct (k =? 0)).
  unfold rte_ring_enqueue_elem_finish, enq_after. rewrite E1, hold_sync, G1, G2.
  destruct Hm as [-> | ->]; destruct (Z.eqb_spec (settle k j) 0) as [E0|E0]; cbn [mbind outcome_bind].
  1, 3: rewrite ?E1, ?S1, ?S2, ?(proj2 (Z.eqb_eq _ _) E0), Enone, set_prod_same; done.
  all: rewrite store_elems by (done || lia); cbn [mbind outcome_bind]; rewrite Emem, ?S1, ?S2, ?Efin, ?(proj2 (Z.eqb_neq _ _) E0), ?Efin; done.
Qed.

Lemma dequeue_finish_run k j : peek_mode (ht_sync_type (r_cons r)) -> is_u32 k ->
  rte_ring_dequeue_elem_finish (hold_cons k r) j = deq_after (settle k j) r.
Proof.
  intros Hm Hk. pose proof (cons_plain Hm) as Hq. destruct (rw_cons _ _ Hwf) as [Ht _].
  destruct (hold_cons_fields k) as (E1 & _). destruct (hold_get k (r_cons r) j Hk Hq) as [G1 G2].
  destruct (hold_set k (r_cons r) (settle k j) Hq Ht Hm) as [S1 S2].
  assert (Enone : forall h, set_cons h (hold_cons k r) = set_cons h r) by (intros h; unfold hold_cons; by destruct (k =? 0)).
  unfold rte_ring_dequeue_elem_finish, deq_after. rewrite E1, hold_sync, G1, G2.
  destruct Hm as [-> | ->]; rewrite ?S1, ?S2, Enone; (destruct (settle k j =? 0); [by rewrite set_cons_same|done]).
Qed.

Lemma dequeue_zc_finish_run k j : rte_ring_dequeue_zc_elem_finish (hold_cons k r) j = rte_ring_dequeue_elem_finish (hold_cons k r) j.
Proof. done. Qed.

(** The finish without a copy, on a storage the caller has written. *)
Lemma enqueue_zc_finish_run k j m : peek_mode (ht_sync_type (r_prod r)) -> is_u32 k ->
  rte_ring_enqueue_zc_elem_finish (set_mem m (hold_prod k r)) j =
  if settle k j =? 0 then set_mem m r else set_prod (advance (settle k j) (r_prod r)) (set_mem m r).
Proof.
  intros Hm Hk. pose proof (prod_plain Hm) as Hq. destruct (rw_prod _ _ Hwf) as [Ht _].
  destruct (hold_prod_fields k) as (E1 & _). destruct (hold_get k (r_prod r) j Hk Hq) as [G1 G2].
  destruct (hold_set k (r_prod r) (settle k j) Hq Ht Hm) as [S1 S2].
  assert (Emem : r_prod (set_mem m (hold_prod k r)) = hold k (r_prod r)) by by rewrite <- E1.
  assert (Efin : forall h, set_prod h (set_mem m (hold_prod k r)) = set_prod h (set_mem m r)).
  { intros h. unfold hold_prod. by destruct (k =? 0). }
  unfold rte_ring_enqueue_zc_elem_finish. rewrite Emem, hold_sync, G1, G2.
  destruct Hm as [-> | ->]; rewrite ?S1, ?S2, Efin; (destruct (settle k j =? 0); [by destruct r|done]).
Qed.
End Halves.

(** ** The caller's access to the storage *)

(** [j] elements of [w] words: into the first space, the rest into the second. *)
Definition zc_write (z : rte_ring_zc_data) (w : nat) (j : Z) (obj m : list Z) : outcome (list Z) :=
  let a := Z.min j (n1 z) in
  m ← copy_words (Z.to_nat a * w) m (ptr1 z) obj 0;
  if j =? a then Ret m
  else match ptr2 z with
       | Some p => copy_words (Z.to_nat (j - a) * w) m p obj (a * Z.of_nat w)
       | None => Undef
       end.
Definition zc_read (z : rte_ring_zc_data) (w : nat) (j : Z) (m obj : list Z) : outcome (list Z) :=
  let a := Z.min j (n1 z) in
  obj ← copy_words (Z.to_nat a * w) obj 0 m (ptr1 z);
  if j =? a then Ret obj
  else match ptr2 z with
       | Some p => copy_words (Z.to_nat (j - a) * w) obj (a * Z.of_nat w) m p
       | None => Undef
       end.

(** The reserved space as two pieces of the storage. *)
Lemma elem_addr_pieces esize r head k : ring_wf esize r -> is_u32 head -> 0 <= k <= r_capacity r ->
  let w := Z.to_nat (esize / 4) in
  let z := __rte_ring_get_elem_addr r head esize k in
  let idx := head mod r_size r in
  Z.of_nat w = esize / 4 /\ 0 <= idx < r_size r /\ ptr1 z = idx * Z.of_nat w /\
  (idx + k <= r_size r /\ n1 z = k \/ r_size r < idx + k /\ n1 z = r_size r - idx /\ ptr2 z = Some 0) /\
  Z.of_nat (length (r_mem r)) = r_size r * Z.of_nat w /\
  (head * (esize / 4)) mod Z.of_nat (length (r_mem r)) = (idx * Z.of_nat w) mod Z.of_nat (length (r_mem r)).
Proof.
  intros Hwf Hh Hk w z idx. pose proof (shape_bounds _ _ Hwf) as (Hc & Hs & Hw).
  destruct (rw_shape _ _ Hwf) as [_ (e & He & Hsz) Hm _ Hwords Hmem].
  assert (Ew : Z.of_nat w = esize / 4) by (unfold w; lia).
  assert (Hidx : 0 <= idx < r_size r) by (apply Z.mod_pos_bound; lia).
  assert (Eland : Z.land head (r_mask r) = idx).
  { unfold idx. rewrite Hm, Hsz. replace (2 ^ e - 1) with (2 ^ e - 1) by lia. apply land_ones_mod. lia. }
  split; [done|]. split; [done|].
  assert (E1 : (idx * (esize / 4))%u32 = idx * Z.of_nat w) by (rewrite Ew; apply u32_small; nia).
  unfold z, __rte_ring_get_elem_addr. rewrite Eland, E1, (u32_small (idx + k)), (u32_small (r_size r - idx)) by lia.
  split; [by destruct (_ >? _)|]. split.
  { rewrite Z.gtb_ltb. destruct (Z.ltb_spec (r_size r) (idx + k)); cbn; [right|left]; lia || (split_and!; done || lia). }
  rewrite Ew. split; [done|]. symmetry. unfold idx. by apply slot_mod.
Qed.

Lemma zc_write_run esize r head k j obj : ring_wf esize r -> is_u32 head -> 0 <= k <= r_capacity r -> 0 <= j <= k ->
  j * (esize / 4) <= Z.of_nat (length obj) ->
  zc_write (__rte_ring_get_elem_addr r head esize k) (Z.to_nat (esize / 4)) j obj (r_mem r) =
  Ret (ring_store (r_mem r) (head * (esize / 4)) (take (Z.to_nat (j * (esize / 4))) obj)).
Proof.
  intros Hwf Hh Hk Hj Ho. destruct (elem_addr_pieces esize r head k Hwf Hh Hk) as (Ew & Hi & E1 & Hp & Hm & Hmod).
  pose proof (shape_bounds _ _ Hwf).
  rewrite (ring_store_mod _ _ _ _ Hmod).
  set (z := __rte_ring_get_elem_addr r head esize k) in *. set (w := Z.to_nat (esize / 4)) in *.
  set (idx := head mod r_size r) in *. rewrite <- Ew in Ho |- *.
  replace (Z.to_nat (j * Z.of_nat w)) with (Z.to_nat j * w)%nat by nia.
  unfold zc_write. destruct (Z.le_gt_cases j (n1 z)) as [Hle|Hgt].
  - rewrite (Z.min_l _ _ Hle), Z.eqb_refl, E1, copy_words_store by nia. by rewrite drop_0.
  - destruct Hp as [[? ?]|(Hx & En & ->)]; [lia|]. rewrite Z.min_r, En, (proj2 (Z.eqb_neq _ _)), E1 by lia.
    rewrite <- (two_runs_enq w (r_size r)) by lia. unfold two_runs.
    rewrite (proj2 (Z.ltb_ge _ _)) by lia. rewrite run_enq. apply bind_ext; [done|]. intros m'. by rewrite run_enq.
Qed.

Lemma zc_read_run esize r head k j obj : ring_wf esize r -> is_u32 head -> 0 <= k <= r_capacity r -> 0 <= j <= k ->
  j * (esize / 4) <= Z.of_nat (length obj) ->
  zc_read (__rte_ring_get_elem_addr r head esize k) (Z.to_nat (esize / 4)) j (r_mem r) obj =
  Ret (ring_load (r_mem r) (head * (esize / 4)) (j * (esize / 4)) ++ drop (Z.to_nat (j * (esize / 4))) obj).
Proof.
  intros Hwf Hh Hk Hj Ho. destruct (elem_addr_pieces esize r head k Hwf Hh Hk) as (Ew & Hi & E1 & Hp & Hm & Hmod).
  pose proof (shape_bounds _ _ Hwf).
  rewrite (ring_load_mod _ _ _ _ Hmod).
  set (z := __rte_ring_get_elem_addr r head esize k) in *. set (w := Z.to_nat (esize / 4)) in *.
  set (idx := head mod r_size r) in *. rewrite <- Ew in Ho |- *.
  replace (Z.to_nat (j * Z.of_nat w)) with (Z.to_nat j * w)%nat by nia.
  unfold zc_read. destruct (Z.le_gt_cases j (n1 z)) as [Hle|Hgt].
  - rewrite (Z.min_l _ _ Hle), Z.eqb_refl, E1, copy_words_splice by nia. cbn [mbind outcome_bind Z.to_nat Nat.add take app].
    by replace (Z.of_nat (Z.to_nat j * w)) with (j * Z.of_nat w) by nia.
  - destruct Hp as [[? ?]|(Hx & En & ->)]; [lia|]. rewrite Z.min_r, En, (proj2 (Z.eqb_neq _ _)), E1 by lia.
    rewrite <- (two_runs_deq w (r_size r)) by lia. unfold two_runs.
    rewrite (proj2 (Z.ltb_ge _ _)) by lia. rewrite run_deq. apply bind_ext; [done|]. intros m'. by rewrite run_deq.
Qed.

(** ** Operations and histories *)

(** A peek or zero-copy call pair: start with a behaviour and a count, finish with [j]. A zero-copy
    producer writes what it settles on, a zero-copy consumer reads all it was given. *)
Inductive peek_op :=
  | Whole (op : ring_op)
  | PeekEnqueue (beh : rte_ring_queue_behavior) (n : Z) (obj : list Z) (j : Z)
  | PeekDequeue (beh : rte_ring_queue_behavior) (n : Z) (obj : list Z) (j : Z)
  | ZcEnqueue (beh : rte_ring_queue_behavior) (n : Z) (obj : list Z) (j : Z)
  | ZcDequeue (beh : rte_ring_queue_behavior) (n : Z) (obj : list Z) (j : Z).

Definition by_behavior {A} (beh : rte_ring_queue_behavior) (bulk burst : A) : A :=
  match beh with RTE_RING_QUEUE_FIXED => bulk | RTE_RING_QUEUE_VARIABLE => burst end.

(** Out-parameters before a start writes them. *)
Definition no_zcd : rte_ring_zc_data := ZcData 0 None 0.

Definition run_peek (fuel : nat) (esize : Z) (r : rte_ring) (op : peek_op) : outcome (rte_ring * op_result) :=
  let w := Z.to_nat (esize / 4) in
  match op with
  | Whole op => run_op fuel esize r op
  | PeekEnqueue beh n obj j =>
      '(r, k, free) ← by_behavior beh (rte_ring_enqueue_bulk_elem_start fuel r n) (rte_ring_enqueue_burst_elem_start fuel r n);
      r ← rte_ring_enqueue_elem_finish r obj esize j;
      Ret (r, (k, free, []))
  | PeekDequeue beh n obj j =>
      '(r, tbl, k, avail) ← by_behavior beh (rte_ring_dequeue_bulk_elem_start fuel r obj esize n)
                                            (rte_ring_dequeue_burst_elem_start fuel r obj esize n);
      Ret (rte_ring_dequeue_elem_finish r j, (k, avail, tbl))
  | ZcEnqueue beh n obj j =>
      '(r, k, z, free) ← by_behavior beh (rte_ring_enqueue_zc_bulk_elem_start fuel r esize n no_zcd 0)
                                         (rte_ring_enqueue_zc_burst_elem_start fuel r esize n no_zcd 0);
      m ← zc_write z w (settle k j) obj (r_mem r);
      Ret (rte_ring_enqueue_zc_elem_finish (set_mem m r) j, (k, free, []))
  | ZcDequeue beh n obj j =>
      '(r, k, z, avail) ← by_behavior beh (rte_ring_dequeue_zc_bulk_elem_start fuel r esize n no_zcd 0)
                                          (rte_ring_dequeue_zc_burst_elem_start fuel r esize n no_zcd 0);
      tbl ← zc_read z w k (r_mem r) obj;
      Ret (rte_ring_dequeue_zc_elem_finish r j, (k, avail, tbl))
  end.

(** On the abstract queue: the start reserves, the finish takes [settle k j] of the reserved. *)
Definition fifo_peek_enqueue (w : Z) (beh : rte_ring_queue_behavior) (q : fifo) (obj : list Z) (n j : Z) : fifo * op_result :=
  let free := q_cap q - q_len w q in
  let k := clip beh n free in
  (Fifo (q_cap q) (q_items q ++ take (Z.to_nat (settle k j * w)) obj), (k, free - k, [])).
Definition fifo_peek_dequeue (w : Z) (beh : rte_ring_queue_behavior) (q : fifo) (obj : list Z) (n j : Z) : fifo * op_result :=
  let k := clip beh n (q_len w q) in
  (Fifo (q_cap q) (drop (Z.to_nat (settle k j * w)) (q_items q)),
   (k, q_len w q - k, take (Z.to_nat (k * w)) (q_items q) ++ drop (Z.to_nat (k * w)) obj)).

Definition fifo_peek (w : Z) (q : fifo) (op : peek_op) : fifo * op_result :=
  match op with
  | Whole op => fifo_op w q op
  | PeekEnqueue beh n obj j | ZcEnqueue beh n obj j => fifo_peek_enqueue w beh q obj n j
  | PeekDequeue beh n obj j | ZcDequeue beh n obj j => fifo_peek_dequeue w beh q obj n j
  end.

Fixpoint run_peeks (fuel : nat) (esize : Z) (r : rte_ring) (ops : list peek_op) : outcome (rte_ring * list op_result) :=
  match ops with
  | [] => Ret (r, [])
  | op :: ops =>
      '(r, res) ← run_peek fuel esize r op;
      '(r, rs) ← run_peeks fuel esize r ops;
      Ret (r, res :: rs)
  end.
Fixpoint fifo_peeks (w : Z) (q : fifo) (ops : list peek_op) : fifo * list op_result :=
  match ops with
  | [] => (q, [])
  | op :: ops =>
      let '(q, res) := fifo_peek w q op in
      let '(q, rs) := fifo_peeks w q ops in (q, res :: rs)
  end.

(** A producer's table holds what it finishes with; a consumer's, what it asks for. *)
Definition peek_ok (esize : Z) (op : peek_op) : Prop :=
  match op with
  | Whole op => op_ok esize op
  | PeekEnqueue _ n obj j | ZcEnqueue _ n obj j => is_u32 n /\ is_u32 j /\ j * (esize / 4) <= Z.of_nat (length obj)
  | PeekDequeue _ n obj j | ZcDequeue _ n obj j => is_u32 n /\ is_u32 j /\ n * (esize / 4) <= Z.of_nat (length obj)
  end.

(** Rings both of whose sides have a mode with two halves. *)
Definition peekable (r : rte_ring) : Prop :=
  peek_mode (ht_sync_type (r_prod r)) /\ peek_mode (ht_sync_type (r_cons r)).

Lemma enq_after_peekable esize k obj r : peekable r -> peekable (enq_after esize k obj r).
Proof. unfold enq_after, peekable. destruct (k =? 0); [done|]. cbn. by rewrite advance_sync. Qed.
Lemma deq_after_peekable k r : peekable r -> peekable (deq_after k r).
Proof. unfold deq_after, peekable. destruct (k =? 0); [done|]. cbn. by rewrite advance_sync. Qed.

Lemma run_op_peekable fuel esize r op r' res : ring_wf esize r -> op_ok esize op -> peekable r ->
  run_op fuel esize r op = Ret (r', res) -> peekable r'.
Proof.
  intros Hwf Hok Hp. destruct op as [obj n|obj n|obj n|obj n]; destruct Hok as [Hn Ho]; unfold run_op;
    rewrite ?enqueue_bulk_result, ?enqueue_burst_result, ?dequeue_bulk_result, ?dequeue_burst_result by done;
    cbn [enq_result deq_result mbind outcome_bind]; unfold enq_result, deq_result; cbn [mbind outcome_bind]; intros [= <- _];
    auto using enq_after_peekable, deq_after_peekable.
Qed.

Lemma by_behavior_same {A} (f : rte_ring_queue_behavior -> A) beh :
  by_behavior beh (f RTE_RING_QUEUE_FIXED) (f RTE_RING_QUEUE_VARIABLE) = f beh.
Proof. by destruct beh. Qed.

Section Pairs.
Context (fuel : nat) (esize : Z) (r : rte_ring) (beh : rte_ring_queue_behavior) (n j : Z) (obj : list Z).
Hypotheses (Hwf : ring_wf esize r) (Hp : peekable r) (Hn : is_u32 n) (Hj : is_u32 j).
Let w := esize / 4.
Let free := r_capacity r - used r.
Let kp := clip beh n free.
Let kc := clip beh n (used r).

Lemma pair_bounds : 0 <= used r <= r_capacity r /\ r_capacity r < 2 ^ 31 /\ 0 <= kp <= free /\ 0 <= kc <= used r /\ kc <= n /\
  0 <= settle kp j <= kp /\ settle kp j <= j /\ 0 <= settle kc j <= kc.
Proof.
  pose proof (shape_bounds _ _ Hwf) as (Hc & Hs & _). pose proof (rw_used _ _ Hwf). pose proof (used_range r).
  assert (0 <= free) by (unfold free; lia).
  destruct (clip_range beh n free) as [Ha _]; [lia..|]. destruct (clip_range beh n (used r)) as [Hb Hb']; [lia..|].
  fold kp in Ha. fold kc in Hb, Hb'.
  assert (settle kp j <= j) by (unfold settle; destruct (j <=? kp); lia).
  pose proof (settle_range kp j). pose proof (settle_range kc j). lia.
Qed.

Lemma pair_rooms : (free - kp)%u32 = free - kp /\ (used r - kc)%u32 = used r - kc.
Proof. pose proof pair_bounds. unfold free in *. rewrite !u32_small by lia. done. Qed.

(** What a producer's pair, and a consumer's, come to. *)
Definition prod_pair : outcome (rte_ring * op_result) := Ret (enq_after esize (settle kp j) obj r, (kp, free - kp, [])).
Definition cons_pair : outcome (rte_ring * op_result) := Ret (deq_after (settle kc j) r, (kc, used r - kc, deq_table esize kc obj r)).

Lemma peek_enqueue_run : j * w <= Z.of_nat (length obj) -> run_peek fuel esize r (PeekEnqueue beh n obj j) = prod_pair.
Proof.
  intros Ho. pose proof pair_bounds. pose proof (shape_bounds _ _ Hwf) as (_ & _ & Hw). fold w in Hw. cbn [run_peek].
  rewrite (by_behavior_same (__rte_ring_do_enqueue_start fuel r n)). unfold __rte_ring_do_enqueue_start.
  destruct (start_prod_run fuel esize r Hwf n beh (proj1 Hp)) as (nh & -> & _). fold free kp. cbn [mbind outcome_bind].
  rewrite enqueue_finish_run by first [done | apply Hp | unfold free in *; lia | fold w; nia]. cbn [mbind outcome_bind].
  by rewrite (proj1 pair_rooms).
Qed.

Lemma peek_dequeue_run : n * w <= Z.of_nat (length obj) -> run_peek fuel esize r (PeekDequeue beh n obj j) = cons_pair.
Proof.
  intros Ho. pose proof pair_bounds. pose proof (shape_bounds _ _ Hwf) as (_ & _ & Hw). fold w in Hw. cbn [run_peek].
  rewrite (by_behavior_same (__rte_ring_do_dequeue_start fuel r obj esize n)). unfold __rte_ring_do_dequeue_start.
  rewrite (start_cons_run fuel esize r Hwf n beh (proj2 Hp)). fold kc. cbn [mbind outcome_bind].
  destruct (hold_cons_fields r kc) as (_ & _ & Em & Es & Ek).
  assert (Eload : (if kc =? 0 then Ret obj else dequeue_elems (hold_cons kc r) (ht_tail (r_cons r)) obj esize kc) =
                  Ret (deq_table esize kc obj r)).
  { destruct (Z.eqb_spec kc 0) as [->|]; [|apply load_elems; first [done | lia | fold w; nia]].
    unfold deq_table. rewrite Z.mul_0_l, ring_load_nil by lia. by rewrite drop_0. }
  rewrite Eload. cbn [mbind outcome_bind].
  rewrite (dequeue_finish_run esize r Hwf kc j (proj2 Hp)) by lia. by rewrite (proj2 pair_rooms).
Qed.

Lemma zc_enqueue_run : j * w <= Z.of_nat (length obj) -> run_peek fuel esize r (ZcEnqueue beh n obj j) = prod_pair.
Proof.
  intros Ho. pose proof pair_bounds. pose proof (shape_bounds _ _ Hwf) as (_ & _ & Hw). fold w in Hw. cbn [run_peek].
  rewrite (by_behavior_same (fun b => __rte_ring_do_enqueue_zc_elem_start fuel r esize n b no_zcd 0)).
  unfold __rte_ring_do_enqueue_zc_elem_start.
  destruct (start_prod_run fuel esize r Hwf n beh (proj1 Hp)) as (nh & -> & ->). fold free kp. cbn [mbind outcome_bind].
  destruct (hold_prod_fields r kp) as (_ & _ & Em & Es & Ek). unfold __rte_ring_get_elem_addr. rewrite Em, Es, Ek.
  fold (__rte_ring_get_elem_addr r (ht_tail (r_prod r)) esize kp).
  rewrite zc_write_run by first [done | apply (rw_prod _ _ Hwf) | unfold free in *; lia | fold w; nia]. cbn [mbind outcome_bind].
  rewrite (enqueue_zc_finish_run esize r Hwf kp j _ (proj1 Hp)) by (unfold free in *; lia).
  rewrite (proj1 pair_rooms). unfold prod_pair, enq_after.
  destruct (Z.eqb_spec (settle kp j) 0) as [->|]; [|done]. rewrite Z.mul_0_l. cbn. by destruct r.
Qed.

Lemma zc_dequeue_run : n * w <= Z.of_nat (length obj) -> run_peek fuel esize r (ZcDequeue beh n obj j) = cons_pair.
Proof.
  intros Ho. pose proof pair_bounds. pose proof (shape_bounds _ _ Hwf) as (_ & _ & Hw). fold w in Hw. cbn [run_peek].
  rewrite (by_behavior_same (fun b => __rte_ring_do_dequeue_zc_elem_start fuel r esize n b no_zcd 0)).
  unfold __rte_ring_do_dequeue_zc_elem_start.
  rewrite (start_cons_run fuel esize r Hwf n beh (proj2 Hp)). fold kc. cbn [mbind outcome_bind].
  destruct (hold_cons_fields r kc) as (_ & _ & Em & Es & Ek). unfold __rte_ring_get_elem_addr. rewrite Em, Es, Ek.
  fold (__rte_ring_get_elem_addr r (ht_tail (r_cons r)) esize kc).
  rewrite zc_read_run by first [done | apply (rw_cons _ _ Hwf) | lia | fold w; nia]. cbn [mbind outcome_bind].
  rewrite dequeue_zc_finish_run, (dequeue_finish_run esize r Hwf kc j (proj2 Hp)) by lia. by rewrite (proj2 pair_rooms).
Qed.

(** The same pairs on the queue. *)
Lemma abs_prod_pair : j * w <= Z.of_nat (length obj) ->
  fifo_peek_enqueue w beh (abs_ring esize r) obj n j =
  (abs_ring esize (enq_after esize (settle kp j) obj r), (kp, free - kp, [])).
Proof.
  intros Ho. pose proof pair_bounds. pose proof (w_pos _ _ Hwf) as Hw0. fold w in Hw0. unfold fifo_peek_enqueue, w.
  rewrite abs_len by done. cbn [abs_ring q_cap q_items]. fold free kp. unfold abs_ring.
  rewrite (contents_enq _ _ Hwf) by first [unfold free in *; lia | fold w; nia]. f_equal. f_equal.
  unfold enq_after. by destruct (_ =? 0).
Qed.

Lemma abs_cons_pair :
  fifo_peek_dequeue w beh (abs_ring esize r) obj n j =
  (abs_ring esize (deq_after (settle kc j) r), (kc, used r - kc, deq_table esize kc obj r)).
Proof.
  pose proof pair_bounds. pose proof (w_pos _ _ Hwf). unfold fifo_peek_dequeue, w.
  rewrite abs_len by done. fold kc. unfold abs_ring. cbn [q_cap q_items].
  assert (Et : forall k, 0 <= k <= used r -> take (Z.to_nat (k * (esize / 4))) (contents esize r) =
                 ring_load (r_mem r) (ht_tail (r_cons r) * (esize / 4)) (k * (esize / 4)) /\
                 drop (Z.to_nat (k * (esize / 4))) (contents esize r) = contents esize (deq_after k r)).
  { intros k Hk. rewrite (contents_deq _ _ Hwf k Hk). by rewrite take_app_length', drop_app_length' by (symmetry; apply ring_load_length). }
  rewrite (proj2 (Et (settle kc j) ltac:(lia))), (proj1 (Et kc ltac:(lia))). f_equal. f_equal.
  unfold deq_after. by destruct (_ =? 0).
Qed.
End Pairs.

Lemma run_peek_refines fuel esize r op : ring_wf esize r -> peekable r -> peek_ok esize op ->
  exists r' res, run_peek fuel esize r op = Ret (r', res) /\ ring_wf esize r' /\ peekable r' /\
    fifo_peek (esize / 4) (abs_ring esize r) op = (abs_ring esize r', res).
Proof.
  intros Hwf Hp Hok. destruct op as [op|beh n obj j|beh n obj j|beh n obj j|beh n obj j]; cbn [fifo_peek].
  1: { destruct (run_op_refines fuel esize r op Hwf Hok) as (r' & res & E & Hwf' & A). exists r', res.
       split_and!; try done. by apply (run_op_peekable fuel esize r op r' res). }
  all: destruct Hok as (Hn & Hj & Ho); pose proof (pair_bounds esize r beh n j Hwf Hn Hj).
  1, 3: rewrite ?peek_enqueue_run, ?zc_enqueue_run, abs_prod_pair by done; eexists _, _; split; [done|]; split_and!;
    [apply enq_after_wf; [done|lia]|by apply enq_after_peekable|done].
  all: rewrite ?peek_dequeue_run, ?zc_dequeue_run, abs_cons_pair by done; eexists _, _; split; [done|]; split_and!;
    [apply deq_after_wf; [done|lia]|by apply deq_after_peekable|done].
Qed.

(** C10: refinement of the peek and zero-copy API: on a well-formed ring at rest both of whose sides
    are single-thread or head-tail-sync, every history of ordinary operations, peek pairs and
    zero-copy pairs runs to its end and returns what the bounded queue returns on which a start
    reserves, and a finish takes what it is given of the reservation, or nothing when it is given
    more. The storage a zero-copy caller writes and reads through the addresses it was handed, cut
    at the end of the storage, is the storage the ordinary copies use. *)
Theorem peek_refines_fifo fuel esize r ops :
  ring_wf esize r -> peekable r -> Forall (peek_ok esize) ops ->
  exists r' rs, run_peeks fuel esize r ops = Ret (r', rs) /\ ring_wf esize r' /\
    fifo_peeks (esize / 4) (abs_ring esize r) ops = (abs_ring esize r', rs).
Proof.
  intros Hwf Hp Hops. revert r Hwf Hp; induction Hops as [|op ops Hop _ IH]; intros r Hwf Hp.
  - by eexists _, _.
  - destruct (run_peek_refines fuel esize r op Hwf Hp Hop) as (r1 & res & E1 & Hwf1 & Hp1 & A1).
    destruct (IH r1 Hwf1 Hp1) as (r2 & rs & E2 & Hwf2 & A2).
    exists r2, (res :: rs). cbn [run_peeks fifo_peeks]. rewrite E1, A1. cbn [mbind outcome_bind]. rewrite E2, A2. done.
Qed.

(** ** Witness: a head-tail-sync producer, a single consumer, counters about to wrap *)

Definition late_peek_ring : rte_ring :=
  Ring "latepeek" (Z.lor RING_F_MP_HTS_ENQ RING_F_SC_DEQ) None 8 7 7
    (HT 4294967295 4294967295 RTE_RING_SYNC_MT_HTS 0 0 0)
    (HT 4294967293 4294967293 RTE_RING_SYNC_ST 0 0 0)
    [10; 11; 12; 13; 14; 15; 16; 17].

Definition late_peek_ops : list peek_op :=
  [ZcEnqueue RTE_RING_QUEUE_FIXED 4 [1; 2; 3] 3;
   PeekDequeue RTE_RING_QUEUE_VARIABLE 9 [0; 0; 0; 0; 0; 0; 0; 0; 0] 2;
   Whole (EnqueueBurst [4; 5; 6; 7; 8; 9; 10] 7);
   PeekEnqueue RTE_RING_QUEUE_VARIABLE 2 [11; 12] 2;
   ZcDequeue RTE_RING_QUEUE_FIXED 7 [0; 0; 0; 0; 0; 0; 0] 7].

Lemma peek_refines_fifo_witness :
  exists r' rs, run_peeks 0 4 late_peek_ring late_peek_ops = Ret (r', rs) /\ ring_wf 4 r' /\
    fifo_peeks 1 (Fifo 7 [15; 16]) late_peek_ops = (abs_ring 4 r', rs).
Proof.
  apply (peek_refines_fifo 0 4 late_peek_ring late_peek_ops).
  - split; [split|..]; try (by vm_compute); try (vm_compute; intuition congruence).
    exists 3. split; [lia|reflexivity].
  - split; [by right|by left].
  - repeat constructor; vm_compute; congruence.
Defined.
