(* ===== verification/RingConc.v ===== *)
(** * The multi-producer multi-consumer ring under any number of threads

    The accesses of [__rte_ring_move_prod_head], of the copy, of
    [__rte_ring_update_tail] and of their consumer counterparts, for elements of
    one word and the default synchronisation (MP/MC), as steps of threads that
    interleave in any way, memory being sequentially consistent and the
    compare-and-set of the head atomic; and, separately, what happens when it is
    not, as in the x86 code of the repository. *)

From S2P Require Import Prelude Common Atomic RingCore RingCopy RingElem.

Open Scope Z_scope.

(** ** The system *)

(** Where a thread is. [old] is the head that it loaded, in 32 bits; [stamp] is the
    number of elements reserved when it did so, which the code does not keep. *)
Inductive rpc :=
  | Idle
  | EHead (beh : rte_ring_queue_behavior) (objs : list Z)
  | ETail (beh : rte_ring_queue_behavior) (objs : list Z) (old : Z) (stamp : nat)
  | ECas (beh : rte_ring_queue_behavior) (objs : list Z) (old n : Z) (stamp : nat)
  | ECopy (objs : list Z) (old : Z) (i stamp : nat)
  | DHead (beh : rte_ring_queue_behavior) (max : Z)
  | DTail (beh : rte_ring_queue_behavior) (max old : Z) (stamp : nat)
  | DCas (beh : rte_ring_queue_behavior) (max old n : Z) (stamp : nat)
  | DCopy (n : nat) (old : Z) (got : list Z) (stamp : nat)
  (** Between the two halves of a compare-and-set that is not atomic. *)
  | EStore (objs : list Z) (old n : Z) (stamp : nat).

(** The ring and the threads; and histories that the code does not keep: the
    elements in the order in which producers reserved room for them, the results
    of the dequeues in the order of their tail updates, and the number of elements
    that consumers have reserved. *)
Record rsys := RSys {
  s_ring : rte_ring; s_pcs : list rpc; s_in : list Z; s_log : list (list Z); s_taken : nat }.

Definition set_prod_head (v : Z) (r : rte_ring) : rte_ring := set_prod (set_w0 v (r_prod r)) r.
Definition set_prod_tail (v : Z) (r : rte_ring) : rte_ring := set_prod (set_tail v (r_prod r)) r.
Definition set_cons_head (v : Z) (r : rte_ring) : rte_ring := set_cons (set_w0 v (r_cons r)) r.
Definition set_cons_tail (v : Z) (r : rte_ring) : rte_ring := set_cons (set_tail v (r_cons r)) r.

(** The index of the [i]-th element from the head [old]. *)
Definition slot_idx (r : rte_ring) (old : Z) (i : nat) : Z :=
  Z.land (old + Z.of_nat i)%u32 (r_mask r).

(** Producers: load the head; load the consumers' tail and clip; compare-and-set the
    head; copy element by element; wait for the earlier producers and move the tail. *)
(* rte_lib/ring/rte_ring_generic_pvt.h:28-113 __rte_ring_move_prod_head *)
Inductive prod_step : rsys -> rsys -> Prop :=
  | e_call r pcs inn log tk i beh objs :
      pcs !! i = Some Idle ->
      prod_step (RSys r pcs inn log tk) (RSys r (<[i := EHead beh objs]> pcs) inn log tk)
  | e_head r pcs inn log tk i beh objs :
      pcs !! i = Some (EHead beh objs) ->
      prod_step (RSys r pcs inn log tk)
        (RSys r (<[i := ETail beh objs (ht_w0 (r_prod r)) (length inn)]> pcs) inn log tk)
  | e_tail r pcs inn log tk i beh objs old st n :
      pcs !! i = Some (ETail beh objs old st) ->
      n = clip beh (Z.of_nat (length objs)) ((r_capacity r + ht_tail (r_cons r)) - old)%u32 ->
      prod_step (RSys r pcs inn log tk)
        (RSys r (<[i := if n =? 0 then Idle else ECas beh objs old n st]> pcs) inn log tk)
  | e_cas r pcs inn log tk i beh objs old n st h :
      pcs !! i = Some (ECas beh objs old n st) ->
      rte_atomic32_cmpset (ht_w0 (r_prod r)) old (old + n)%u32 = (true, h) ->
      prod_step (RSys r pcs inn log tk)
        (RSys (set_prod_head h r) (<[i := ECopy (take (Z.to_nat n) objs) old 0 st]> pcs)
           (inn ++ take (Z.to_nat n) objs) log tk)
  | e_cas_fail r pcs inn log tk i beh objs old n st h :
      pcs !! i = Some (ECas beh objs old n st) ->
      rte_atomic32_cmpset (ht_w0 (r_prod r)) old (old + n)%u32 = (false, h) ->
      prod_step (RSys r pcs inn log tk) (RSys r (<[i := EHead beh objs]> pcs) inn log tk)
  | e_copy r pcs inn log tk i objs old j st v m :
      pcs !! i = Some (ECopy objs old j st) -> objs !! j = Some v ->
      wr (r_mem r) (slot_idx r old j) v = Ret m ->
      prod_step (RSys r pcs inn log tk)
        (RSys (set_mem m r) (<[i := ECopy objs old (S j) st]> pcs) inn log tk)
  | e_wait r pcs inn log tk i objs old st :
      pcs !! i = Some (ECopy objs old (length objs) st) -> ht_tail (r_prod r) <> old ->
      prod_step (RSys r pcs inn log tk) (RSys r pcs inn log tk)
  | e_done r pcs inn log tk i objs old st :
      pcs !! i = Some (ECopy objs old (length objs) st) -> ht_tail (r_prod r) = old ->
      prod_step (RSys r pcs inn log tk)
        (RSys (set_prod_tail (old + Z.of_nat (length objs))%u32 r) (<[i := Idle]> pcs) inn log tk).

(** Consumers likewise. *)
(* rte_lib/ring/rte_ring_generic_pvt.h:138-184 __rte_ring_move_cons_head *)
Inductive cons_step : rsys -> rsys -> Prop :=
  | d_call r pcs inn log tk i beh max :
      pcs !! i = Some Idle -> 0 <= max ->
      cons_step (RSys r pcs inn log tk) (RSys r (<[i := DHead beh max]> pcs) inn log tk)
  | d_head r pcs inn log tk i beh max :
      pcs !! i = Some (DHead beh max) ->
      cons_step (RSys r pcs inn log tk)
        (RSys r (<[i := DTail beh max (ht_w0 (r_cons r)) tk]> pcs) inn log tk)
  | d_tail r pcs inn log tk i beh max old st n :
      pcs !! i = Some (DTail beh max old st) ->
      n = clip beh max (ht_tail (r_prod r) - old)%u32 ->
      cons_step (RSys r pcs inn log tk)
        (RSys r (<[i := if n =? 0 then Idle else DCas beh max old n st]> pcs) inn log tk)
  | d_cas r pcs inn log tk i beh max old n st h :
      pcs !! i = Some (DCas beh max old n st) ->
      rte_atomic32_cmpset (ht_w0 (r_cons r)) old (old + n)%u32 = (true, h) ->
      cons_step (RSys r pcs inn log tk)
        (RSys (set_cons_head h r) (<[i := DCopy (Z.to_nat n) old [] st]> pcs) inn log
           (tk + Z.to_nat n))
  | d_cas_fail r pcs inn log tk i beh max old n st h :
      pcs !! i = Some (DCas beh max old n st) ->
      rte_atomic32_cmpset (ht_w0 (r_cons r)) old (old + n)%u32 = (false, h) ->
      cons_step (RSys r pcs inn log tk) (RSys r (<[i := DHead beh max]> pcs) inn log tk)
  | d_copy r pcs inn log tk i n old got st v :
      pcs !! i = Some (DCopy n old got st) -> (length got < n)%nat ->
      rd (r_mem r) (slot_idx r old (length got)) = Ret v ->
      cons_step (RSys r pcs inn log tk)
        (RSys r (<[i := DCopy n old (got ++ [v]) st]> pcs) inn log tk)
  | d_wait r pcs inn log tk i n old got st :
      pcs !! i = Some (DCopy n old got st) -> length got = n -> ht_tail (r_cons r) <> old ->
      cons_step (RSys r pcs inn log tk) (RSys r pcs inn log tk)
  | d_done r pcs inn log tk i n old got st :
      pcs !! i = Some (DCopy n old got st) -> length got = n -> ht_tail (r_cons r) = old ->
      cons_step (RSys r pcs inn log tk)
        (RSys (set_cons_tail (old + Z.of_nat n)%u32 r) (<[i := Idle]> pcs) inn (log ++ [got]) tk).

(** No thread sleeps between its load of a head and its compare-and-set for so long
    that the 32-bit head comes round again in the meantime. *)
Definition timely (s : rsys) : Prop :=
  forall i p, s_pcs s !! i = Some p ->
    match p with
    | ECas _ _ _ _ st => Z.of_nat (length (s_in s)) - Z.of_nat st < 2 ^ 32
    | DCas _ _ _ _ st => Z.of_nat (s_taken s) - Z.of_nat st < 2 ^ 32
    | _ => True
    end.

Definition mt_step (s s' : rsys) : Prop := timely s /\ (prod_step s s' \/ cons_step s s').

(** ** The invariant *)

(** The positions that a thread has reserved, counted from the start of history. *)
Definition e_owned (p : rpc) : list nat :=
  match p with ECopy objs _ _ st => seq st (length objs) | _ => [] end.
Definition d_owned (p : rpc) : list nat :=
  match p with DCopy n _ _ st => seq st n | _ => [] end.
Lemma elem_seq q a b : (a <= q < a + b)%nat -> q ∈ seq a b.
Proof. intros. apply elem_of_seq. lia. Qed.

Section Invariant.
(** [2^k] slots; the positions of history start at the 32-bit counter value [p0]. *)
Context (k p0 : Z).
Let size := 2 ^ k.

(** The slot of a position, and its content. *)
Definition slot_of (q : nat) : nat := Z.to_nat ((p0 + Z.of_nat q) mod 2 ^ k).
Definition at_pos (m : list Z) (q : nat) : option Z := m !! slot_of q.

(** What a thread knows: [PT] elements are published, [CT] released. *)
Definition pc_ok (cap : Z) (m inn : list Z) (PT CH CT : nat) (p : rpc) : Prop :=
  match p with
  | Idle | EHead _ _ => True
  | DHead _ max => 0 <= max
  | ETail _ objs old st => old = u32 (p0 + Z.of_nat st) /\ (st <= length inn)%nat
  | ECas _ objs old n st =>
      old = u32 (p0 + Z.of_nat st) /\ (st <= length inn)%nat /\ 0 < n <= Z.of_nat (length objs) /\
      (st = length inn -> Z.of_nat st + n <= Z.of_nat CT + cap)
  | ECopy objs old i st =>
      old = u32 (p0 + Z.of_nat st) /\ (0 < length objs)%nat /\ (i <= length objs)%nat /\
      (forall j v, objs !! j = Some v -> inn !! (st + j)%nat = Some v) /\
      (forall j, (j < i)%nat -> at_pos m (st + j) = objs !! j)
  | DTail _ max old st => old = u32 (p0 + Z.of_nat st) /\ (st <= CH)%nat /\ 0 <= max
  | DCas _ max old n st =>
      old = u32 (p0 + Z.of_nat st) /\ (st <= CH)%nat /\ 0 < n <= max /\
      (st = CH -> Z.of_nat st + n <= Z.of_nat PT)
  | DCopy n old got st =>
      old = u32 (p0 + Z.of_nat st) /\ (0 < n)%nat /\ (length got <= n)%nat /\
      got = take (length got) (drop st inn)
  | EStore _ _ _ _ => False
  end.

Record mt_inv (PT : nat) (s : rsys) : Prop := {
  mi_k : 0 <= k <= 31;
  mi_size : r_mask (s_ring s) = 2 ^ k - 1 /\ 0 <= r_capacity (s_ring s) < 2 ^ k /\
    Z.of_nat (length (r_mem (s_ring s))) = 2 ^ k /\ r_size (s_ring s) = 2 ^ k;
  mi_phead : ht_w0 (r_prod (s_ring s)) = u32 (p0 + Z.of_nat (length (s_in s)));
  mi_ptail : ht_tail (r_prod (s_ring s)) = u32 (p0 + Z.of_nat PT);
  mi_chead : ht_w0 (r_cons (s_ring s)) = u32 (p0 + Z.of_nat (s_taken s));
  mi_ctail : ht_tail (r_cons (s_ring s)) = u32 (p0 + Z.of_nat (length (concat (s_log s))));
  mi_order : (length (concat (s_log s)) <= s_taken s <= PT)%nat /\ (PT <= length (s_in s))%nat /\
    Z.of_nat (length (s_in s)) <= Z.of_nat (length (concat (s_log s))) + r_capacity (s_ring s);
  mi_prod : all_owned e_owned (s_pcs s) ≡ₚ seq PT (length (s_in s) - PT);
  mi_cons : all_owned d_owned (s_pcs s) ≡ₚ
    seq (length (concat (s_log s))) (s_taken s - length (concat (s_log s)));
  mi_log : concat (s_log s) = take (length (concat (s_log s))) (s_in s);
  mi_slots : forall q, (length (concat (s_log s)) <= q < PT)%nat ->
    at_pos (r_mem (s_ring s)) q = s_in s !! q;
  mi_pcs : forall i p, s_pcs s !! i = Some p ->
    pc_ok (r_capacity (s_ring s)) (r_mem (s_ring s)) (s_in s) PT (s_taken s)
      (length (concat (s_log s))) p;
}.

(** ** Positions and slots *)

Lemma slot_idx_of r old st i :
  0 <= k <= 31 -> r_mask r = 2 ^ k - 1 -> old = u32 (p0 + Z.of_nat st) ->
  slot_idx r old i = Z.of_nat (slot_of (st + i)).
Proof.
  intros Hk Hm ->. unfold slot_idx, slot_of. rewrite Hm, u32_add_l, land_ones_mod by lia.
  rewrite u32_mod_pow2 by lia. rewrite Z2Nat.id; [f_equal; lia|].
  apply Z.mod_pos_bound. lia.
Qed.

Lemma slot_lt q : 0 <= k -> Z.of_nat (slot_of q) < 2 ^ k.
Proof.
  intros Hk. unfold slot_of. pose proof (Z.mod_pos_bound (p0 + Z.of_nat q) (2 ^ k)).
  rewrite Z2Nat.id by lia. lia.
Qed.

Lemma slot_ne q q' :
  0 <= k -> q <> q' -> Z.abs (Z.of_nat q - Z.of_nat q') < 2 ^ k -> slot_of q <> slot_of q'.
Proof.
  intros Hk Hne Hd E. unfold slot_of in E.
  pose proof (Z.mod_pos_bound (p0 + Z.of_nat q) (2 ^ k) ltac:(lia)).
  pose proof (Z.mod_pos_bound (p0 + Z.of_nat q') (2 ^ k) ltac:(lia)).
  apply Z2Nat.inj in E; [|lia..].
  pose proof (Z.div_mod (p0 + Z.of_nat q) (2 ^ k) ltac:(lia)) as D1.
  pose proof (Z.div_mod (p0 + Z.of_nat q') (2 ^ k) ltac:(lia)) as D2. rewrite E in D1.
  set (a := (p0 + Z.of_nat q) / 2 ^ k) in *. set (b := (p0 + Z.of_nat q') / 2 ^ k) in *.
  assert (Hab : Z.of_nat q - Z.of_nat q' = 2 ^ k * (a - b)) by lia.
  assert (a - b = 0 \/ 1 <= Z.abs (a - b)) as [Hz|Hz] by lia; [|nia]. nia.
Qed.

(** Equal 32-bit counters at less than [2^32] of each other are equal. *)
Lemma u32_pos_eq a b :
  u32 (p0 + Z.of_nat a) = u32 (p0 + Z.of_nat b) -> Z.abs (Z.of_nat a - Z.of_nat b) < 2 ^ 32 -> a = b.
Proof. intros E Hd. wrap_lia. Qed.

(** ** Steps *)

Lemma pc_ok_mono cap m m' inn ext PT PT' CH CH' CT CT' p :
  (PT <= PT')%nat -> (CH <= CH')%nat -> (CT <= CT')%nat ->
  (forall objs old i st j, p = ECopy objs old i st -> (j < i)%nat ->
     at_pos m' (st + j) = at_pos m (st + j)) ->
  pc_ok cap m inn PT CH CT p -> pc_ok cap m' (inn ++ ext) PT' CH' CT' p.
Proof.
  intros HPT HCH HCT Hm. destruct p as [|beh objs|beh objs old st|beh objs old n st|objs old i st
    |beh max|beh max old st|beh max old n st|n old got st|objs old n st]; cbn; rewrite ?length_app; try done.
  - intros [-> ?]. split; [done|lia].
  - intros (-> & ? & ? & Hc). split; [done|]. split; [lia|]. split; [done|]. lia.
  - intros (-> & ? & ? & Hin & Hmem). do 3 (split; [done|]). split.
    + intros j v Hj. by apply lookup_app_l_Some, Hin.
    + intros j Hj. rewrite (Hm objs _ i st j) by done. by apply Hmem.
  - intros (-> & ? & ?). split; [done|]. lia.
  - intros (-> & ? & ? & ?). split; [done|]. lia.
  - intros (-> & ? & ? & Hgot). do 3 (split; [done|]).
    assert (Hl : (length got <= length (drop st inn))%nat)
      by (apply (f_equal length) in Hgot; rewrite length_take in Hgot; lia).
    rewrite drop_app, take_app_le by done. done.
Qed.

(** A step of a thread that moves nothing shared. *)
Lemma local_inv PT r pcs inn log tk i p p' :
  pcs !! i = Some p -> mt_inv PT (RSys r pcs inn log tk) ->
  e_owned p' = e_owned p -> d_owned p' = d_owned p ->
  pc_ok (r_capacity r) (r_mem r) inn PT tk (length (concat log)) p' ->
  mt_inv PT (RSys r (<[i := p']> pcs) inn log tk).
Proof.
  intros Hi [H1 H2 H3 H4 H5 H6 H7 H8 H9 H10 H11 H12] Ee Ed Hp. cbn in *. split; cbn; try done.
  - by rewrite (owned_same e_owned pcs i p p' Hi Ee).
  - by rewrite (owned_same d_owned pcs i p p' Hi Ed).
  - by apply (pcs_insert _ _ _ _ _ Hp (fun j q _ _ H => H)).
Qed.

(** A reserved position lies between the published (released) ones and the head. *)
Lemma owned_range f (pcs : list rpc) a b i p q :
  all_owned f pcs ≡ₚ seq a b -> pcs !! i = Some p -> q ∈ f p -> (a <= q < a + b)%nat.
Proof.
  intros Hperm Hi Hq. destruct (owned_split f pcs i p Hi) as (rest & Hs & _).
  assert (H : q ∈ seq a b) by (rewrite <- Hperm, Hs; apply elem_of_app; by left).
  by apply elem_of_seq in H.
Qed.

Lemma clip_bounds beh n a :
  0 <= n -> 0 <= a -> 0 <= clip beh n a <= n /\ clip beh n a <= a.
Proof. intros. unfold clip. destruct (Z.gtb_spec n a), beh; lia. Qed.

(** *** Producers *)

Lemma e_tail_inv PT r pcs inn log tk i beh objs old st :
  pcs !! i = Some (ETail beh objs old st) -> mt_inv PT (RSys r pcs inn log tk) ->
  let n := clip beh (Z.of_nat (length objs)) ((r_capacity r + ht_tail (r_cons r)) - old)%u32 in
  mt_inv PT (RSys r (<[i := if n =? 0 then Idle else ECas beh objs old n st]> pcs) inn log tk).
Proof.
  intros Hi H n. pose proof (mi_pcs _ _ H i _ Hi) as (Hold & Hst). cbn in Hold, Hst.
  pose proof (mi_order _ _ H) as (Ho1 & Ho2 & Ho3). pose proof (mi_size _ _ H) as (_ & Hcap & _).
  pose proof (mi_ctail _ _ H) as Hct. pose proof (mi_k _ _ H) as Hk. cbn in *.
  assert (Hk2 : 2 ^ k <= 2 ^ 31) by (apply Z.pow_le_mono_r; lia).
  assert (Hfree : 0 <= ((r_capacity r + ht_tail (r_cons r)) - old)%u32) by apply u32_range.
  destruct (clip_bounds beh (Z.of_nat (length objs)) _ ltac:(lia) Hfree) as [Hn1 Hn2]. fold n in Hn1, Hn2.
  destruct (Z.eqb_spec n 0) as [E|E]; apply (local_inv _ _ _ _ _ _ _ _ _ Hi H); try done.
  split; [done|]. split; [done|]. split; [lia|]. intros ->.
  assert (Hf : ((r_capacity r + ht_tail (r_cons r)) - old)%u32 =
    r_capacity r + Z.of_nat (length (concat log)) - Z.of_nat (length inn)) by (rewrite Hold, Hct; wrap_lia).
  lia.
Qed.

(** A compare-and-set that succeeds in time found the head unmoved. *)
Lemma cas_in_time w st now n h :
  w = u32 (p0 + Z.of_nat now) -> (st <= now)%nat -> Z.of_nat now - Z.of_nat st < 2 ^ 32 ->
  rte_atomic32_cmpset w (u32 (p0 + Z.of_nat st)) (u32 (p0 + Z.of_nat st) + n)%u32 = (true, h) ->
  st = now /\ h = u32 (p0 + Z.of_nat now + n).
Proof.
  intros -> Hst Ht Hcas. apply (cmpset32_spec _ _ _ _ _ (u32_range _) (u32_range _)) in Hcas.
  destruct Hcas as [(_ & E & ->)|([=] & _)].
  assert (st = now) as -> by (symmetry; apply (u32_pos_eq _ _ E); lia).
  split; [done|]. by rewrite u32_add_l.
Qed.

Lemma e_cas_inv PT r pcs inn log tk i beh objs old n st h :
  pcs !! i = Some (ECas beh objs old n st) ->
  rte_atomic32_cmpset (ht_w0 (r_prod r)) old (old + n)%u32 = (true, h) ->
  timely (RSys r pcs inn log tk) -> mt_inv PT (RSys r pcs inn log tk) ->
  mt_inv PT (RSys (set_prod_head h r) (<[i := ECopy (take (Z.to_nat n) objs) old 0 st]> pcs)
    (inn ++ take (Z.to_nat n) objs) log tk).
Proof.
  intros Hi Hcas Ht H. pose proof (mi_pcs _ _ H i _ Hi) as (-> & Hst & Hn & Hroom).
  specialize (Ht i _ Hi). cbn in Hst, Hn, Hroom, Ht.
  destruct (cas_in_time _ _ _ _ _ (mi_phead _ _ H) Hst Ht Hcas) as [-> ->]. specialize (Hroom eq_refl).
  destruct H as [H1 H2 H3 H4 H5 H6 H7 H8 H9 H10 H11 H12]. cbn in *.
  assert (Hl : length (take (Z.to_nat n) objs) = Z.to_nat n) by (rewrite length_take; lia).
  set (ne := take (Z.to_nat n) objs) in *.
  split; cbn; rewrite ?length_app, ?Hl; try done.
  - f_equal. lia.
  - lia.
  - destruct (owned_split e_owned pcs i _ Hi) as (rest & Hs & Hins & _). rewrite Hins. cbn. rewrite Hl.
    cbn in Hs. rewrite Hs in H8. rewrite H8.
    replace (length inn + Z.to_nat n - PT)%nat with ((length inn - PT) + Z.to_nat n)%nat by lia.
    rewrite seq_app. replace (PT + (length inn - PT))%nat with (length inn) by lia.
    apply Permutation_app_comm.
  - by rewrite (owned_same d_owned pcs i _ _ Hi).
  - rewrite take_app_le by lia. done.
  - intros q Hq. rewrite lookup_app_l by lia. by apply H11.
  - eapply pcs_insert; [| |exact H12].
    + cbn. rewrite Hl. split; [done|]. split; [lia|]. split; [lia|]. split; [|lia].
      intros j v Hj. rewrite lookup_app_r by lia. by replace (length inn + j - length inn)%nat with j by lia.
    + intros j q _ _. by apply pc_ok_mono.
Qed.

(** Writing the slot of a position leaves the other positions of the window alone. *)
Lemma at_pos_write (m : list Z) q v :
  0 <= k -> Z.of_nat (length m) = 2 ^ k ->
  at_pos (<[slot_of q := v]> m) q = Some v /\
  forall q', q' <> q -> Z.abs (Z.of_nat q' - Z.of_nat q) < 2 ^ k ->
    at_pos (<[slot_of q := v]> m) q' = at_pos m q'.
Proof.
  intros Hk Hm. pose proof (slot_lt q Hk). split.
  - apply list_lookup_insert_eq. lia.
  - intros q' Hne Hd. apply list_lookup_insert_ne. intros E. symmetry in E.
    by apply (slot_ne q' q Hk Hne Hd).
Qed.

Lemma e_copy_inv PT r pcs inn log tk i objs old j st v m :
  pcs !! i = Some (ECopy objs old j st) -> objs !! j = Some v ->
  wr (r_mem r) (slot_idx r old j) v = Ret m -> mt_inv PT (RSys r pcs inn log tk) ->
  mt_inv PT (RSys (set_mem m r) (<[i := ECopy objs old (S j) st]> pcs) inn log tk).
Proof.
  intros Hi Hv Hw H. pose proof (mi_pcs _ _ H i _ Hi) as (Hold & Hpos & Hj & Hin & Hmem).
  pose proof (lookup_lt_Some _ _ _ Hv) as Hlt.
  destruct H as [H1 H2 H3 H4 H5 H6 H7 H8 H9 H10 H11 H12]. cbn in *.
  destruct H2 as (Hmask & Hcap & Hlen & Hsize).
  rewrite (slot_idx_of r old st j H1 Hmask Hold) in Hw. apply wr_inv in Hw as [Hb ->].
  rewrite Nat2Z.id in *.
  destruct (at_pos_write (r_mem r) (st + j) v ltac:(lia) Hlen) as [Ws Wo].
  destruct (owned_split e_owned pcs i _ Hi) as (rest & Hs & Hins & Hoth). cbn in Hs.
  assert (Hown : forall q, q ∈ seq st (length objs) \/ q ∈ rest -> (PT <= q < length inn)%nat).
  { intros q Hq. assert (Hq' : q ∈ seq PT (length inn - PT)) by (rewrite <- H8, Hs; by apply elem_of_app).
    apply elem_of_seq in Hq'. lia. }
  assert (Hnd : NoDup (seq st (length objs) ++ rest)) by (rewrite <- Hs, H8; apply NoDup_seq).
  apply NoDup_app in Hnd as (_ & Hdis & _).
  assert (Hr : (PT <= st + j < length inn)%nat) by (apply Hown; left; apply elem_seq; lia).
  split; cbn; rewrite ?length_insert; try done.
  - by rewrite (owned_same e_owned pcs i _ _ Hi).
  - by rewrite (owned_same d_owned pcs i _ _ Hi).
  - intros q Hq. rewrite Wo by lia. by apply H11.
  - eapply pcs_insert; [| |exact H12].
    + cbn. do 2 (split; [done|]). split; [lia|]. split; [done|]. intros j' Hj'.
      destruct (Nat.eq_dec j' j) as [->|Hne]; [by rewrite Ws|].
      assert (PT <= st + j' < length inn)%nat by (apply Hown; left; apply elem_seq; lia).
      rewrite Wo by lia. apply Hmem. lia.
    + intros i' q Hne Hq Hok. rewrite <- (app_nil_r inn). eapply pc_ok_mono; [..|exact Hok]; try done.
      intros objs' old' n' st' j' -> Hj'. cbn in Hok.
      assert (Hrest : (st' + j')%nat ∈ rest)
        by (eapply Hoth; [exact Hne|exact Hq|]; cbn; apply elem_seq; lia).
      pose proof (Hown _ (or_intror Hrest)). apply Wo; [|lia].
      intros E. apply (Hdis (st + j)%nat); [apply elem_seq; lia|]. by rewrite <- E.
Qed.

(** The owner whose turn it is: the rest of the reservations start after its own. *)
Lemma turn f (pcs : list rpc) i p a b n :
  all_owned f pcs ≡ₚ seq a b -> pcs !! i = Some p -> f p = seq a n -> f Idle = [] ->
  (n <= b)%nat /\ all_owned f (<[i := Idle]> pcs) ≡ₚ seq (a + n) (b - n).
Proof.
  intros Hperm Hi Hp H0. destruct (owned_split f pcs i p Hi) as (rest & Hs & Hins & _).
  rewrite Hins, H0. cbn. rewrite Hs, Hp in Hperm.
  assert (Hnb : (n <= b)%nat).
  { apply Permutation_length in Hperm. rewrite length_app, !length_seq in Hperm. lia. }
  split; [done|]. replace b with (n + (b - n))%nat in Hperm by lia. rewrite seq_app in Hperm.
  by apply Permutation_app_inv_l in Hperm.
Qed.

Lemma e_done_inv PT r pcs inn log tk i objs old st :
  pcs !! i = Some (ECopy objs old (length objs) st) -> ht_tail (r_prod r) = old ->
  mt_inv PT (RSys r pcs inn log tk) ->
  mt_inv (PT + length objs)
    (RSys (set_prod_tail (old + Z.of_nat (length objs))%u32 r) (<[i := Idle]> pcs) inn log tk).
Proof.
  intros Hi Htl H. pose proof (mi_pcs _ _ H i _ Hi) as (Hold & Hpos & _ & Hin & Hmem).
  destruct H as [H1 H2 H3 H4 H5 H6 H7 H8 H9 H10 H11 H12]. cbn in *.
  assert (Hk2 : 2 ^ k <= 2 ^ 31) by (apply Z.pow_le_mono_r; lia).
  assert (Hr : (PT <= st < PT + (length inn - PT))%nat)
    by (apply (owned_range _ _ _ _ _ _ st H8 Hi); apply elem_seq; lia).
  assert (st = PT) as -> by (apply u32_pos_eq; [congruence|lia]).
  destruct (turn e_owned pcs i _ _ _ (length objs) H8 Hi) as [Hn Hrest]; [done|done|].
  split; cbn; try done.
  - rewrite Hold, u32_add_l. f_equal. lia.
  - lia.
  - rewrite Hrest. by replace (length inn - PT - length objs)%nat with (length inn - (PT + length objs))%nat by lia.
  - by rewrite (owned_same d_owned pcs i _ _ Hi).
  - intros q Hq. destruct (Nat.ltb_spec q PT); [apply H11; lia|].
    replace q with (PT + (q - PT))%nat by lia. rewrite Hmem by lia.
    destruct (lookup_lt_is_Some_2 objs (q - PT)) as [v Hv]; [lia|]. by rewrite Hv, (Hin _ _ Hv).
  - eapply pcs_insert; [done| |exact H12]. intros j q _ _ Hok. rewrite <- (app_nil_r inn).
    eapply pc_ok_mono; [..|exact Hok]; (done || lia).
Qed.

(** *** Consumers *)

Lemma d_tail_inv PT r pcs inn log tk i beh max old st :
  pcs !! i = Some (DTail beh max old st) -> mt_inv PT (RSys r pcs inn log tk) ->
  let n := clip beh max (ht_tail (r_prod r) - old)%u32 in
  mt_inv PT (RSys r (<[i := if n =? 0 then Idle else DCas beh max old n st]> pcs) inn log tk).
Proof.
  intros Hi H n. pose proof (mi_pcs _ _ H i _ Hi) as (Hold & Hst & Hmax). cbn in Hold, Hst, Hmax.
  pose proof (mi_order _ _ H) as (Ho1 & Ho2 & Ho3). pose proof (mi_size _ _ H) as (_ & Hcap & _).
  pose proof (mi_ptail _ _ H) as Hpt. pose proof (mi_k _ _ H) as Hk. cbn in *.
  assert (Hk2 : 2 ^ k <= 2 ^ 31) by (apply Z.pow_le_mono_r; lia).
  assert (He : 0 <= (ht_tail (r_prod r) - old)%u32) by apply u32_range.
  destruct (clip_bounds beh max _ Hmax He) as [Hn1 Hn2]. fold n in Hn1, Hn2.
  destruct (Z.eqb_spec n 0) as [E|E]; apply (local_inv _ _ _ _ _ _ _ _ _ Hi H); try done.
  split; [done|]. split; [done|]. split; [lia|]. intros ->.
  assert (Hf : (ht_tail (r_prod r) - old)%u32 = Z.of_nat PT - Z.of_nat tk)
    by (rewrite Hold, Hpt; wrap_lia).
  lia.
Qed.

Lemma d_cas_inv PT r pcs inn log tk i beh max old n st h :
  pcs !! i = Some (DCas beh max old n st) ->
  rte_atomic32_cmpset (ht_w0 (r_cons r)) old (old + n)%u32 = (true, h) ->
  timely (RSys r pcs inn log tk) -> mt_inv PT (RSys r pcs inn log tk) ->
  mt_inv PT (RSys (set_cons_head h r) (<[i := DCopy (Z.to_nat n) old [] st]> pcs) inn log
    (tk + Z.to_nat n)).
Proof.
  intros Hi Hcas Ht H. pose proof (mi_pcs _ _ H i _ Hi) as (-> & Hst & Hn & Hroom).
  specialize (Ht i _ Hi). cbn in Hst, Hn, Hroom, Ht.
  destruct (cas_in_time _ _ _ _ _ (mi_chead _ _ H) Hst Ht Hcas) as [-> ->]. specialize (Hroom eq_refl).
  destruct H as [H1 H2 H3 H4 H5 H6 H7 H8 H9 H10 H11 H12]. cbn in *.
  set (CT := length (concat log)) in *.
  split; cbn; fold CT; try done.
  - f_equal. lia.
  - lia.
  - by rewrite (owned_same e_owned pcs i _ _ Hi).
  - destruct (owned_split d_owned pcs i _ Hi) as (rest & Hs & Hins & _). rewrite Hins. cbn.
    cbn in Hs. rewrite Hs in H9. rewrite H9.
    replace (tk + Z.to_nat n - CT)%nat with ((tk - CT) + Z.to_nat n)%nat by lia.
    rewrite seq_app. replace (CT + (tk - CT))%nat with tk by lia.
    apply Permutation_app_comm.
  - eapply pcs_insert; [| |exact H12].
    + cbn. split; [done|]. split; [lia|]. split; [lia|done].
    + intros j q _ _ Hok. rewrite <- (app_nil_r inn). eapply pc_ok_mono; [..|exact Hok]; (done || lia).
Qed.

Lemma d_copy_inv PT r pcs inn log tk i n old got st v :
  pcs !! i = Some (DCopy n old got st) -> (length got < n)%nat ->
  rd (r_mem r) (slot_idx r old (length got)) = Ret v -> mt_inv PT (RSys r pcs inn log tk) ->
  mt_inv PT (RSys r (<[i := DCopy n old (got ++ [v]) st]> pcs) inn log tk).
Proof.
  intros Hi Hlt Hrd H. pose proof (mi_pcs _ _ H i _ Hi) as (Hold & Hpos & Hl & Hgot).
  apply (local_inv _ _ _ _ _ _ _ _ _ Hi H); try done. cbn. rewrite length_app. cbn.
  do 2 (split; [done|]). split; [lia|]. rewrite Nat.add_1_r.
  destruct H as [H1 H2 H3 H4 H5 H6 H7 H8 H9 H10 H11 H12]. cbn in *.
  destruct H2 as (Hmask & _).
  rewrite (slot_idx_of r old st _ H1 Hmask Hold) in Hrd. apply rd_inv in Hrd as [_ Hrd].
  rewrite Nat2Z.id in Hrd. change (at_pos (r_mem r) (st + length got) = Some v) in Hrd.
  pose proof (owned_range _ _ _ _ _ _ (st + length got)%nat H9 Hi) as Hr. cbn in Hr.
  rewrite H11 in Hrd by (specialize (Hr (elem_seq (st + length got) st n ltac:(lia))); lia).
  rewrite (take_S_r _ _ v) by (by rewrite lookup_drop). by rewrite <- Hgot.
Qed.

Lemma d_done_inv PT r pcs inn log tk i n old got st :
  pcs !! i = Some (DCopy n old got st) -> length got = n -> ht_tail (r_cons r) = old ->
  mt_inv PT (RSys r pcs inn log tk) ->
  mt_inv PT (RSys (set_cons_tail (old + Z.of_nat n)%u32 r) (<[i := Idle]> pcs) inn (log ++ [got]) tk).
Proof.
  intros Hi Hgl Htl H. pose proof (mi_pcs _ _ H i _ Hi) as (Hold & Hpos & _ & Hgot).
  destruct H as [H1 H2 H3 H4 H5 H6 H7 H8 H9 H10 H11 H12]. cbn in *.
  assert (Hk2 : 2 ^ k <= 2 ^ 31) by (apply Z.pow_le_mono_r; lia).
  assert (Hcl : concat (log ++ [got]) = concat log ++ got) by (by rewrite concat_app; cbn; rewrite app_nil_r).
  set (CT := length (concat log)) in *.
  assert (Hr : (CT <= st < CT + (tk - CT))%nat)
    by (apply (owned_range _ _ _ _ _ _ st H9 Hi); apply elem_seq; lia).
  assert (st = CT) as -> by (apply u32_pos_eq; [congruence|lia]).
  destruct (turn d_owned pcs i _ _ _ n H9 Hi) as [Hn Hrest]; [done|done|].
  split; cbn; rewrite ?Hcl, ?length_app, ?Hgl; fold CT; try done.
  - rewrite Hold, u32_add_l. f_equal. lia.
  - lia.
  - by rewrite (owned_same e_owned pcs i _ _ Hi).
  - rewrite Hrest. by replace (tk - CT - n)%nat with (tk - (CT + n))%nat by lia.
  - rewrite H10, Hgot, Hgl. apply take_take_drop.
  - intros q Hq. apply H11. lia.
  - eapply pcs_insert; [done| |exact H12]. intros j q _ _ Hok. rewrite <- (app_nil_r inn).
    eapply pc_ok_mono; [..|exact Hok]; (done || lia).
Qed.

Lemma mt_step_inv s s' : mt_step s s' -> (exists PT, mt_inv PT s) -> exists PT, mt_inv PT s'.
Proof.
  intros [Ht [Hst|Hst]] (PT & H); destruct Hst.
  - exists PT. by apply (local_inv _ _ _ _ _ _ _ _ _ H0 H).
  - exists PT. apply (local_inv _ _ _ _ _ _ _ _ _ H0 H); try done. split; [apply (mi_phead _ _ H)|done].
  - exists PT. subst n. by apply e_tail_inv.
  - exists PT. by eapply e_cas_inv.
  - exists PT. by apply (local_inv _ _ _ _ _ _ _ _ _ H0 H).
  - exists PT. by eapply e_copy_inv.
  - by exists PT.
  - exists (PT + length objs)%nat. by eapply e_done_inv.
  - exists PT. by apply (local_inv _ _ _ _ _ _ _ _ _ H0 H).
  - exists PT. apply (local_inv _ _ _ _ _ _ _ _ _ H0 H); try done.
    pose proof (mi_pcs _ _ H i _ H0). split; [apply (mi_chead _ _ H)|done].
  - exists PT. subst n. by apply d_tail_inv.
  - exists PT. by eapply d_cas_inv.
  - exists PT. apply (local_inv _ _ _ _ _ _ _ _ _ H0 H); try done.
    pose proof (mi_pcs _ _ H i _ H0) as (_ & _ & Hn & _). cbn. lia.
  - exists PT. by eapply d_copy_inv.
  - by exists PT.
  - exists PT. by eapply d_done_inv.
Qed.
End Invariant.

(** ** From a ring at rest *)

Definition start (r : rte_ring) (n : nat) : rsys := RSys r (repeat Idle n) (contents 4 r) [] 0.

Lemma contents_at r k q :
  r_size r = 2 ^ k -> Z.of_nat (length (r_mem r)) = 2 ^ k -> 0 <= k ->
  Z.of_nat q < used r -> contents 4 r !! q = at_pos k (ht_tail (r_cons r)) (r_mem r) q.
Proof.
  intros Hs Hl Hk Hq. unfold contents, ring_load, at_pos, slot_of. change (4 / 4) with 1.
  rewrite !Z.mul_1_r, Hl, list_lookup_fmap, lookup_seqZ_lt by lia. cbn.
  symmetry. apply list_lookup_lookup_total_lt.
  pose proof (Z.mod_pos_bound (ht_tail (r_cons r) + Z.of_nat q) (2 ^ k)). lia.
Qed.

(** The elements between the tails are the history from the consumers' position on. *)
Lemma contents_window k p0 r inn CT :
  0 <= k <= 31 -> r_size r = 2 ^ k -> Z.of_nat (length (r_mem r)) = 2 ^ k -> 0 <= r_capacity r < 2 ^ k ->
  ht_tail (r_prod r) = u32 (p0 + Z.of_nat (length inn)) -> ht_tail (r_cons r) = u32 (p0 + Z.of_nat CT) ->
  (CT <= length inn)%nat -> Z.of_nat (length inn) <= Z.of_nat CT + r_capacity r ->
  (forall q, (CT <= q < length inn)%nat -> at_pos k p0 (r_mem r) q = inn !! q) ->
  contents 4 r = drop CT inn.
Proof.
  intros Hk Hsize Hlen Hcap Hp Hc HCT Hroom Hslots. assert (Hk2 : 2 ^ k <= 2 ^ 31) by (apply Z.pow_le_mono_r; lia).
  assert (Hu : used r = Z.of_nat (length inn - CT)) by (unfold used; rewrite Hp, Hc; wrap_lia).
  apply (list_eq_same_length _ _ (length inn - CT)).
  - by rewrite length_drop.
  - unfold contents. rewrite ring_load_length, Hu. change (4 / 4) with 1. lia.
  - intros q x y Hq Hx Hy. rewrite (contents_at _ k) in Hx by (done || lia).
    rewrite lookup_drop, <- Hslots in Hy by lia. unfold at_pos, slot_of in Hx, Hy. rewrite Hc in Hx.
    assert (E : (u32 (p0 + Z.of_nat CT) + Z.of_nat q) mod 2 ^ k = (p0 + Z.of_nat (CT + q)) mod 2 ^ k).
    { rewrite <- (u32_mod_pow2 (_ + Z.of_nat q)), u32_add_l, u32_mod_pow2 by lia. f_equal. lia. }
    rewrite E in Hx. congruence.
Qed.

Lemma start_inv r n :
  ring_wf 4 r -> ht_sync_type (r_prod r) = RTE_RING_SYNC_MT -> ht_sync_type (r_cons r) = RTE_RING_SYNC_MT ->
  exists k, r_size r = 2 ^ k /\
    mt_inv k (ht_tail (r_cons r)) (length (contents 4 r)) (start r n).
Proof.
  intros Hwf Hp Hc. pose proof (contents_length 4 r Hwf) as Hcl. change (4 / 4) with 1 in Hcl.
  destruct Hwf as [[_ (k & Hk & Hsz) Hmask Hcap _ Hmem] [Hpt Hpq] [Hct Hcq] Hu].
  rewrite Hp in Hpq. rewrite Hc in Hcq. unfold plain_quiet in *. change (4 / 4) with 1 in Hmem.
  assert (Hidle : forall f : rpc -> list nat, f Idle = [] -> all_owned f (repeat Idle n) = []).
  { intros f Hf. unfold all_owned. induction n as [|n IH]; [done|]. cbn. by rewrite Hf. }
  assert (Hall : forall i p, repeat Idle n !! i = Some p -> p = Idle).
  { intros i p Hi. apply list_elem_of_lookup_2, list_elem_of_In in Hi. by eapply repeat_spec. }
  exists k. split; [done|]. assert (Hused : used r = u32 (ht_tail (r_prod r) - ht_tail (r_cons r))) by done.
  split; cbn; try done.
  - rewrite <- Hsz. lia.
  - rewrite Hpq. wrap_lia.
  - wrap_lia.
  - rewrite Hcq. wrap_lia.
  - wrap_lia.
  - lia.
  - by rewrite Hidle, Nat.sub_diag.
  - by rewrite Hidle.
  - intros q Hq. symmetry. apply contents_at; (done || lia).
  - by intros i p ->%Hall.
Qed.

Lemma mt_run_inv r n s k :
  mt_inv k (ht_tail (r_cons r)) (length (contents 4 r)) (start r n) ->
  rtc mt_step (start r n) s -> exists PT, mt_inv k (ht_tail (r_cons r)) PT s.
Proof.
  intros H Hs. apply (rtc_invariant _ (fun s => exists PT, mt_inv k (ht_tail (r_cons r)) PT s) _ _
    (mt_step_inv k _) Hs). by eexists.
Qed.

(** C1: the multi-producer multi-consumer ring is a FIFO queue under any interleaving: from
    a well-formed ring of 4-byte elements, whatever its counters (they wrap around at 2^32), for any number of
    threads that enqueue and dequeue in bulk or burst, the results of the completed
    dequeues, in the order of their tail updates, concatenate to a prefix of the elements
    in the order in which their producers reserved room: nothing is lost, duplicated,
    reordered, overwritten before it is read, or read before it is written; and never more
    than [capacity] elements are reserved and not yet released. The threads' loads and
    stores are sequentially consistent, the compare-and-set is atomic, and no thread sleeps
    through 2^32 reservations between a load of the head and its compare-and-set. *)
Theorem mt_ring_fifo r n s :
  ring_wf 4 r -> ht_sync_type (r_prod r) = RTE_RING_SYNC_MT ->
  ht_sync_type (r_cons r) = RTE_RING_SYNC_MT -> rtc mt_step (start r n) s ->
  concat (s_log s) `prefix_of` s_in s /\
  Z.of_nat (length (s_in s)) <= Z.of_nat (length (concat (s_log s))) + r_capacity (s_ring s).
Proof.
  intros Hwf Hp Hc Hs. destruct (start_inv r n Hwf Hp Hc) as (k & _ & H0).
  destruct (mt_run_inv r n s k H0 Hs) as (PT & H). split; [|apply (mi_order _ _ _ _ H)].
  rewrite (mi_log _ _ _ _ H). apply prefix_take.
Qed.

(** The synchronisation of the two sides never changes. *)
Definition same_sync (r r' : rte_ring) : Prop :=
  ht_sync_type (r_prod r') = ht_sync_type (r_prod r) /\ ht_sync_type (r_cons r') = ht_sync_type (r_cons r).

Lemma mt_run_sync s s' : rtc mt_step s s' -> same_sync (s_ring s) (s_ring s').
Proof.
  induction 1 as [s|s s1 s2 [_ Hst] _ [IH1 IH2]]; [done|].
  unfold same_sync. rewrite IH1, IH2. by destruct Hst as [[]|[]].
Qed.

(** A ring whose heads meet its tails. *)
Lemma ring_at_rest k r :
  0 <= k <= 31 -> r_mask r = 2 ^ k - 1 /\ 0 <= r_capacity r < 2 ^ k /\ Z.of_nat (length (r_mem r)) = 2 ^ k /\ r_size r = 2 ^ k ->
  ht_sync_type (r_prod r) = RTE_RING_SYNC_MT -> ht_sync_type (r_cons r) = RTE_RING_SYNC_MT ->
  is_u32 (ht_tail (r_prod r)) -> is_u32 (ht_tail (r_cons r)) ->
  ht_w0 (r_prod r) = ht_tail (r_prod r) -> ht_w0 (r_cons r) = ht_tail (r_cons r) -> used r <= r_capacity r -> ring_wf 4 r.
Proof.
  intros Hk (Hm & Hcap & Hlen & Hs) Hp Hc Htp Htc Hqp Hqc Hu. pose proof (Z.pow_le_mono_r 2 k 31).
  split; [split|..]; change (4 / 4) with 1; rewrite ?Z.mul_1_r; try done; try lia.
  - by exists k.
  - split; [done|]. by rewrite Hp.
  - split; [done|]. by rewrite Hc.
Qed.

(** C13: when every thread has returned, the ring - of 4-byte elements - is again a well-formed
    ring at rest of the sequential model, synchronised as before: its heads meet its tails, and it
    holds exactly the elements that were enqueued and not dequeued, in order. *)
Theorem mt_ring_quiescent r n s :
  ring_wf 4 r -> ht_sync_type (r_prod r) = RTE_RING_SYNC_MT ->
  ht_sync_type (r_cons r) = RTE_RING_SYNC_MT -> rtc mt_step (start r n) s ->
  Forall (fun p => p = Idle) (s_pcs s) ->
  ring_wf 4 (s_ring s) /\ same_sync r (s_ring s) /\
  contents 4 (s_ring s) = drop (length (concat (s_log s))) (s_in s) /\
  s_in s = concat (s_log s) ++ contents 4 (s_ring s) /\
  ht_w0 (r_prod (s_ring s)) = ht_tail (r_prod (s_ring s)) /\
  ht_w0 (r_cons (s_ring s)) = ht_tail (r_cons (s_ring s)).
Proof.
  intros Hwf Hp Hc Hs Hidle. destruct (start_inv r n Hwf Hp Hc) as (k & _ & H0).
  pose proof (mt_run_sync _ _ Hs) as Hsync. cbn [start s_ring] in Hsync.
  destruct (mt_run_inv r n s k H0 Hs) as (PT & [H1 H2 H3 H4 H5 H6 H7 H8 H9 H10 H11 _]).
  assert (Ho : forall f : rpc -> list nat, f Idle = [] -> all_owned f (s_pcs s) = []).
  { intros f Hf. clear -Hidle Hf. unfold all_owned. induction Hidle as [|p l -> _ IH]; [done|].
    cbn. by rewrite Hf. }
  rewrite Ho in H8, H9 by done. apply Permutation_length in H8, H9. rewrite length_seq in H8, H9. cbn in H8, H9.
  set (CT := length (concat (s_log s))) in *. set (p0 := ht_tail (r_cons r)) in *.
  assert (EP : PT = length (s_in s)) by lia. assert (EC : s_taken s = CT) by lia. subst PT. rewrite EC in H5.
  assert (Hrest : ring_wf 4 (s_ring s)).
  { apply (ring_at_rest k); try done; try (rewrite ?H4, ?H6; apply u32_range); try (destruct Hsync; congruence); try congruence.
    unfold used. rewrite H4, H6. pose proof (Z.pow_le_mono_r 2 k 31). wrap_lia. }
  destruct H2 as (_ & Hcap & Hlen & Hsize).
  assert (Hcon : contents 4 (s_ring s) = drop CT (s_in s)) by (eapply (contents_window k p0); (done || lia)).
  split; [done|]. split; [done|]. split; [done|]. split; [by rewrite Hcon, H10, take_drop|]. split; congruence.
Qed.

(** C20: nobody waits for a thread that waits, in a ring of 4-byte elements: whenever a producer (a consumer) has reserved
    elements, some producer (consumer) that has is still copying or finds the tail at its
    own head, so that its next access is not a wait. *)
Theorem mt_ring_progress r n s :
  ring_wf 4 r -> ht_sync_type (r_prod r) = RTE_RING_SYNC_MT ->
  ht_sync_type (r_cons r) = RTE_RING_SYNC_MT -> rtc mt_step (start r n) s ->
  ((exists i p, s_pcs s !! i = Some p /\ e_owned p <> []) ->
   exists j objs old c st, s_pcs s !! j = Some (ECopy objs old c st) /\
     ((c < length objs)%nat \/ ht_tail (r_prod (s_ring s)) = old)) /\
  ((exists i p, s_pcs s !! i = Some p /\ d_owned p <> []) ->
   exists j c old got st, s_pcs s !! j = Some (DCopy c old got st) /\
     ((length got < c)%nat \/ ht_tail (r_cons (s_ring s)) = old)).
Proof.
  intros Hwf Hp Hc Hs. destruct (start_inv r n Hwf Hp Hc) as (k & _ & H0).
  destruct (mt_run_inv r n s k H0 Hs) as (PT & [_ _ _ H4 _ H6 H7 H8 H9 _ _ H12]).
  assert (Hfirst : forall f a b, all_owned f (s_pcs s) ≡ₚ seq a b ->
    (exists i p, s_pcs s !! i = Some p /\ f p <> []) ->
    exists j p, s_pcs s !! j = Some p /\ a ∈ f p /\ forall q, q ∈ f p -> (a <= q)%nat).
  { intros f a b Hperm (i & p & Hi & Hne). destruct (f p) as [|x l] eqn:E; [done|].
    assert (Hx : (a <= x < a + b)%nat) by (apply (owned_range f _ _ _ _ _ x Hperm Hi); rewrite E; left).
    assert (Ha : a ∈ all_owned f (s_pcs s))  by (rewrite Hperm; apply elem_seq; lia).
    unfold all_owned in Ha. apply list_elem_of_In, in_concat in Ha as (l' & Hl' & Ha).
    apply in_map_iff in Hl' as (p' & <- & Hp'). apply list_elem_of_In, list_elem_of_lookup in Hp' as [j Hj].
    exists j, p'. split; [done|]. split; [by apply list_elem_of_In|].
    intros q Hq. apply (owned_range f _ _ _ _ _ q Hperm Hj Hq). }
  split; intros Hex.
  - destruct (Hfirst _ _ _ H8 Hex) as (j & p & Hj & Ha & Hmin). pose proof (H12 j p Hj) as Hok.
    destruct p as [| | | |objs old c st| | | | |]; cbn in Ha; try (by apply elem_of_nil in Ha).
    destruct Hok as (-> & Hpos & _). apply elem_of_seq in Ha.
    assert (PT <= st)%nat by (apply Hmin; cbn; apply elem_seq; lia). assert (st = PT) as -> by lia.
    eexists j, objs, _, c, PT. split; [exact Hj|]. right. exact H4.
  - destruct (Hfirst _ _ _ H9 Hex) as (j & p & Hj & Ha & Hmin). pose proof (H12 j p Hj) as Hok.
    destruct p as [| | | | | | | |c old got st|]; cbn in Ha; try (by apply elem_of_nil in Ha).
    destruct Hok as (-> & Hpos & _). apply elem_of_seq in Ha.
    assert (length (concat (s_log s)) <= st)%nat by (apply Hmin; cbn; apply elem_seq; lia).
    assert (st = length (concat (s_log s))) as -> by lia.
    eexists j, c, _, got, _. split; [exact Hj|]. right. exact H6.
Qed.

(** ** A compare-and-set that is not atomic

    The inline assembly of [rte_atomic32_cmpset] has no [lock] prefix: on a
    multiprocessor it is a load and comparison, then a store. *)
(* rte_lib/include/generic/rte_atomic.h:431-447 rte_atomic32_cmpset *)
Inductive unlocked_cmpset : rsys -> rsys -> Prop :=
  | u_compare r pcs inn log tk i beh objs old n st :
      pcs !! i = Some (ECas beh objs old n st) -> ht_w0 (r_prod r) = old ->
      unlocked_cmpset (RSys r pcs inn log tk) (RSys r (<[i := EStore objs old n st]> pcs) inn log tk)
  | u_store r pcs inn log tk i objs old n st :
      pcs !! i = Some (EStore objs old n st) ->
      unlocked_cmpset (RSys r pcs inn log tk)
        (RSys (set_prod_head (old + n)%u32 r) (<[i := ECopy (take (Z.to_nat n) objs) old 0 st]> pcs)
           (inn ++ take (Z.to_nat n) objs) log tk).

Definition racy_step (s s' : rsys) : Prop := prod_step s s' \/ unlocked_cmpset s s'.

(** A ring of four slots and capacity three, with its counters at [p]. *)
Definition mt_ring (p : Z) : rte_ring :=
  Ring "mt" 0 None 4 3 3 (HT p p RTE_RING_SYNC_MT 0 0 0) (HT p p RTE_RING_SYNC_MT 0 0 0) [0; 0; 0; 0].

(** One step of a concrete run, to the computed value of the next state. *)
Lemma rtc_to {S : Type} (R : S -> S -> Prop) (s s1 s2 s' : S) :
  R s s1 -> s1 = s2 -> rtc R s2 s' -> rtc R s s'.
Proof. intros H <-. by apply rtc_l. Qed.

Ltac next_step c :=
  eapply rtc_to;
  [first [left; eapply c | right; eapply c]; reflexivity
  |match goal with |- ?a = _ => let v := eval vm_compute in a in exact (eq_refl v <: a = v) end|].

(** C38: with the unlocked compare-and-set two producers reserve the same slot: from an empty
    ring, both enqueue one element, both compare the head with 0 before either stores, and
    both are told that they succeeded in reserving; one element overwrites the other, one
    tail update publishes one element, and the second producer waits for a tail value that
    has passed. Two elements were accepted, the ring holds only the second. *)
Theorem unlocked_cmpset_loses_element :
  exists s, rtc racy_step (RSys (mt_ring 0) [Idle; Idle] [] [] 0) s /\
    s_in s = [1; 2] /\ s_pcs s = [Idle; ECopy [2] 0 1 0] /\
    contents 4 (s_ring s) = [2] /\ ht_tail (r_prod (s_ring s)) = 1.
Proof.
  eexists. split.
  - next_step (e_call (mt_ring 0) [Idle; Idle] [] [] 0 0 RTE_RING_QUEUE_FIXED [1]).
    next_step (fun r pcs inn log tk => e_call r pcs inn log tk 1 RTE_RING_QUEUE_FIXED [2]).
    next_step (fun r pcs inn log tk => e_head r pcs inn log tk 0).
    next_step (fun r pcs inn log tk => e_head r pcs inn log tk 1).
    next_step (fun r pcs inn log tk => e_tail r pcs inn log tk 0).
    next_step (fun r pcs inn log tk => e_tail r pcs inn log tk 1).
    next_step (fun r pcs inn log tk => u_compare r pcs inn log tk 0).
    next_step (fun r pcs inn log tk => u_compare r pcs inn log tk 1).
    next_step (fun r pcs inn log tk => u_store r pcs inn log tk 0).
    next_step (fun r pcs inn log tk => u_store r pcs inn log tk 1).
    next_step (fun r pcs inn log tk => e_copy r pcs inn log tk 0).
    next_step (fun r pcs inn log tk => e_copy r pcs inn log tk 1).
    next_step (fun r pcs inn log tk => e_done r pcs inn log tk 0 [1]).
    apply rtc_refl.
  - by vm_compute.
Qed.

(** ** Witnesses: two threads on a ring whose counters are about to wrap around *)

(** One element of two is dequeued, and a third thread's room is reserved. *)
Definition demo_final : rsys :=
  RSys (Ring "mt" 0 None 4 3 3 (HT 1 1 RTE_RING_SYNC_MT 0 0 0) (HT 0 0 RTE_RING_SYNC_MT 0 0 0) [8; 0; 0; 7])
    [Idle; Idle] [7; 8] [[7]] 1.
Definition demo_middle : rsys :=
  RSys (Ring "mt" 0 None 4 3 3 (HT 1 4294967295 RTE_RING_SYNC_MT 0 0 0)
      (HT 4294967295 4294967295 RTE_RING_SYNC_MT 0 0 0) [0; 0; 0; 0])
    [ECopy [7; 8] 4294967295 0 0; Idle] [7; 8] [] 0.

Ltac timely_now :=
  intros [|[|i]] p Hi; cbn in Hi; try discriminate; injection Hi as <-; cbn; lia || exact I.
Ltac next_mt c :=
  eapply rtc_to;
  [split; [timely_now|first [left; eapply c | right; eapply c]; (reflexivity || (cbn; lia))]
  |match goal with |- ?a = _ => let v := eval vm_compute in a in exact (eq_refl v <: a = v) end|].

(** One thread enqueues two elements, the other dequeues one. *)
Lemma demo_run_middle : rtc mt_step (start (mt_ring 4294967295) 2) demo_middle.
Proof.
  change (start (mt_ring 4294967295) 2) with (RSys (mt_ring 4294967295) [Idle; Idle] [] [] 0).
  next_mt (fun r pcs inn log tk => e_call r pcs inn log tk 0 RTE_RING_QUEUE_FIXED [7; 8]).
  next_mt (fun r pcs inn log tk => e_head r pcs inn log tk 0).
  next_mt (fun r pcs inn log tk => e_tail r pcs inn log tk 0).
  next_mt (fun r pcs inn log tk => e_cas r pcs inn log tk 0).
  apply rtc_refl.
Qed.

Lemma demo_run : rtc mt_step (start (mt_ring 4294967295) 2) demo_final.
Proof.
  eapply rtc_trans; [exact demo_run_middle|].
  next_mt (fun r pcs inn log tk => e_copy r pcs inn log tk 0).
  next_mt (fun r pcs inn log tk => e_copy r pcs inn log tk 0).
  next_mt (fun r pcs inn log tk => e_done r pcs inn log tk 0 [7; 8]).
  next_mt (fun r pcs inn log tk => d_call r pcs inn log tk 1 RTE_RING_QUEUE_VARIABLE 1).
  next_mt (fun r pcs inn log tk => d_head r pcs inn log tk 1).
  next_mt (fun r pcs inn log tk => d_tail r pcs inn log tk 1).
  next_mt (fun r pcs inn log tk => d_cas r pcs inn log tk 1).
  next_mt (fun r pcs inn log tk => d_copy r pcs inn log tk 1).
  next_mt (fun r pcs inn log tk => d_done r pcs inn log tk 1 1).
  apply rtc_refl.
Qed.

Lemma mt_ring_wf : ring_wf 4 (mt_ring 4294967295).
Proof.
  split; [split|..]; try (by vm_compute); try (vm_compute; intuition congruence).
  exists 2. split; [lia|reflexivity].
Qed.

Lemma mt_ring_fifo_witness : concat (s_log demo_final) `prefix_of` s_in demo_final.
Proof.
  apply (mt_ring_fifo (mt_ring 4294967295) 2 demo_final mt_ring_wf eq_refl eq_refl demo_run).
Defined.

Lemma mt_ring_quiescent_witness : contents 4 (s_ring demo_final) = [8].
Proof.
  destruct (mt_ring_quiescent (mt_ring 4294967295) 2 demo_final mt_ring_wf eq_refl eq_refl demo_run)
    as (_ & _ & E & _); [by repeat constructor|exact E].
Defined.

Lemma mt_ring_progress_witness :
  exists (j : nat) objs old c st, s_pcs demo_middle !! j = Some (ECopy objs old c st) /\
    ((c < length objs)%nat \/ ht_tail (r_prod (s_ring demo_middle)) = old).
Proof.
  apply (mt_ring_progress (mt_ring 4294967295) 2 demo_middle mt_ring_wf eq_refl eq_refl demo_run_middle).
  exists 0%nat, (ECopy [7; 8] 4294967295 0 0). split; [reflexivity|discriminate].
Defined.
