(* ===== verification/RingModes.v ===== *)
(** * The head-tail-sync and relaxed-tail-sync rings under any number of threads

    The accesses of the two newer synchronisation modes, one side of the ring in either,
    as steps of threads that interleave in any way over sequentially consistent memory,
    for elements of one word. Both reserve with a compare-and-set of 64 bits. The
    head-tail-sync mode waits before it reserves until nobody else has; the relaxed mode
    waits only while its head is too far ahead, and leaves the tail to the thread that
    finishes last. The theorems for a ring that starts at rest are in [RingModesSpec]. *)

From S2P Require Import Prelude Common Atomic RingCore RingCopy RingElem RingConc.

Open Scope Z_scope.

(** ** The system *)

(** A call, and the part of it that is left once its room is reserved. *)
Inductive side := Prod | Cons.
Inductive job := Enq (objs : list Z) | Deq (max : Z).
Inductive part := PEnq (objs : list Z) (i : nat) | PDeq (n : nat) (got : list Z).

#[export] Instance side_eq_dec : EqDecision side.
Proof. solve_decision. Defined.

Definition job_side (j : job) : side := match j with Enq _ => Prod | Deq _ => Cons end.
Definition asked (j : job) : Z := match j with Enq objs => Z.of_nat (length objs) | Deq max => max end.
Definition begin (j : job) (n : Z) : part :=
  match j with Enq objs => PEnq (take (Z.to_nat n) objs) 0 | Deq _ => PDeq (Z.to_nat n) [] end.
Definition part_side (c : part) : side := match c with PEnq _ _ => Prod | PDeq _ _ => Cons end.
Definition part_size (c : part) : nat := match c with PEnq objs _ => length objs | PDeq n _ => n end.
Definition part_done (c : part) : nat := match c with PEnq _ i => i | PDeq _ got => length got end.

(** Where a thread is: [w], [ot] and [hw] are the 64-bit words it loaded; the other
    numbers are what the code does not keep - how many operations had reserved and how
    many elements had been reserved when it loaded a head, how many operations had
    finished when it loaded a tail, and the position in history of its first element. *)
Inductive mpc :=
  | MIdle
  | MLoad (beh : rte_ring_queue_behavior) (j : job)
  | MWait (beh : rte_ring_queue_behavior) (j : job) (w : Z * Z) (h : nat * nat)
  | MRoom (beh : rte_ring_queue_behavior) (j : job) (w : Z * Z) (h : nat * nat)
  | MCas (beh : rte_ring_queue_behavior) (j : job) (w : Z * Z) (n : Z) (h : nat * nat)
  | MCopy (c : part) (pos : Z) (st : nat)
  | MHead (c : part) (pos : Z) (st : nat) (ot : Z * Z) (fs : nat)
  | MSwap (c : part) (pos : Z) (st : nat) (ot : Z * Z) (fs : nat) (hw : Z * Z) (h : nat * nat).

(** The ring and the threads; and the histories: the elements in the order in which
    producers reserved room for them, the number that consumers have reserved, the
    finished dequeues with their position in history, and for each side the number of
    operations that have reserved and that have finished. *)
Record msys := MSys {
  m_ring : rte_ring; m_pcs : list mpc; m_in : list Z; m_taken : nat; m_log : list (nat * list Z);
  m_pcount : nat * nat; m_ccount : nat * nat }.

Definition goto (i : nat) (p : mpc) (s : msys) : msys :=
  MSys (m_ring s) (<[i := p]> (m_pcs s)) (m_in s) (m_taken s) (m_log s) (m_pcount s) (m_ccount s).
Definition with_ring (r : rte_ring) (s : msys) : msys :=
  MSys r (m_pcs s) (m_in s) (m_taken s) (m_log s) (m_pcount s) (m_ccount s).
Definition counts (sd : side) (s : msys) : nat * nat := match sd with Prod => m_pcount s | Cons => m_ccount s end.
Definition reserved (sd : side) (s : msys) : nat := match sd with Prod => length (m_in s) | Cons => m_taken s end.
Definition stamp (sd : side) (s : msys) : nat * nat := (fst (counts sd s), reserved sd s).
Definition record_reserve (j : job) (n : Z) (s : msys) : msys :=
  match j with
  | Enq objs => MSys (m_ring s) (m_pcs s) (m_in s ++ take (Z.to_nat n) objs) (m_taken s) (m_log s)
                  (S (fst (m_pcount s)), snd (m_pcount s)) (m_ccount s)
  | Deq _ => MSys (m_ring s) (m_pcs s) (m_in s) (m_taken s + Z.to_nat n) (m_log s)
               (m_pcount s) (S (fst (m_ccount s)), snd (m_ccount s))
  end.
Definition record_finish (c : part) (st : nat) (s : msys) : msys :=
  match c with
  | PEnq _ _ => MSys (m_ring s) (m_pcs s) (m_in s) (m_taken s) (m_log s)
                  (fst (m_pcount s), S (snd (m_pcount s))) (m_ccount s)
  | PDeq _ got => MSys (m_ring s) (m_pcs s) (m_in s) (m_taken s) (m_log s ++ [(st, got)])
                    (m_pcount s) (fst (m_ccount s), S (snd (m_ccount s)))
  end.

Definition ht_of (sd : side) (r : rte_ring) : rte_ring_headtail := match sd with Prod => r_prod r | Cons => r_cons r end.
Definition set_ht (sd : side) (ht : rte_ring_headtail) (r : rte_ring) : rte_ring :=
  match sd with Prod => set_prod ht r | Cons => set_cons ht r end.

(** The 64-bit word that holds the head, the head in it, and the word for [n] more. *)
Definition head_word (ht : rte_ring_headtail) : Z * Z :=
  match ht_sync_type ht with RTE_RING_SYNC_MT_RTS => rts_head ht | _ => hts_pos ht end.
Definition set_head_word (w : Z * Z) (ht : rte_ring_headtail) : rte_ring_headtail :=
  match ht_sync_type ht with RTE_RING_SYNC_MT_RTS => set_rts_head (fst w) (snd w) ht | _ => set_hts_pos w ht end.
Definition word_pos (ht : rte_ring_headtail) (w : Z * Z) : Z :=
  match ht_sync_type ht with RTE_RING_SYNC_MT_RTS => snd w | _ => fst w end.
Definition next_word (ht : rte_ring_headtail) (w : Z * Z) (n : Z) : Z * Z :=
  match ht_sync_type ht with
  | RTE_RING_SYNC_MT_RTS => ((fst w + 1)%u32, (snd w + n)%u32)
  | _ => ((fst w + n)%u32, snd w)
  end.
(** The conditions of the two waiting loops. *)
(* rte_lib/ring/rte_ring_rts_elem_pvt.h:52-64 __rte_ring_rts_head_wait *)
Definition must_wait (ht : rte_ring_headtail) (w : Z * Z) : bool :=
  match ht_sync_type ht with
  | RTE_RING_SYNC_MT_RTS => (snd w - ht_tail ht)%u32 >? ht_htd_max ht
  | _ => negb (fst w =? snd w)
  end.
(** [free_entries] and [entries]. *)
Definition room (sd : side) (r : rte_ring) (pos : Z) : Z :=
  match sd with
  | Prod => ((r_capacity r + ht_tail (r_cons r)) - pos)%u32
  | Cons => (ht_tail (r_prod r) - pos)%u32
  end.

(** Reserving: load the word; wait; load the other side's tail and clip; compare-and-set. *)
(* rte_lib/ring/rte_ring_rts_elem_pvt.h:69-122 __rte_ring_rts_move_prod_head *)
Inductive reserve_step (s : msys) (i : nat) : msys -> Prop :=
  | m_call beh j :
      m_pcs s !! i = Some MIdle -> 0 <= asked j -> reserve_step s i (goto i (MLoad beh j) s)
  | m_load beh j :
      m_pcs s !! i = Some (MLoad beh j) ->
      reserve_step s i (goto i (MWait beh j (head_word (ht_of (job_side j) (m_ring s))) (stamp (job_side j) s)) s)
  | m_wait beh j w h :
      m_pcs s !! i = Some (MWait beh j w h) -> must_wait (ht_of (job_side j) (m_ring s)) w = true ->
      reserve_step s i (goto i (MLoad beh j) s)
  | m_pass beh j w h :
      m_pcs s !! i = Some (MWait beh j w h) -> must_wait (ht_of (job_side j) (m_ring s)) w = false ->
      reserve_step s i (goto i (MRoom beh j w h) s)
  | m_room beh j w h n :
      m_pcs s !! i = Some (MRoom beh j w h) ->
      n = clip beh (asked j) (room (job_side j) (m_ring s) (word_pos (ht_of (job_side j) (m_ring s)) w)) ->
      reserve_step s i (goto i (if n =? 0 then MIdle else MCas beh j w n h) s)
  | m_cas beh j w n h ht m w' :
      m_pcs s !! i = Some (MCas beh j w n h) -> ht = ht_of (job_side j) (m_ring s) ->
      cas_pair (head_word ht) w (next_word ht w n) = (true, m, w') ->
      reserve_step s i (goto i (MCopy (begin j n) (word_pos ht w) (snd h))
        (record_reserve j n (with_ring (set_ht (job_side j) (set_head_word m ht) (m_ring s)) s)))
  | m_cas_fail beh j w n h ht m w' :
      m_pcs s !! i = Some (MCas beh j w n h) -> ht = ht_of (job_side j) (m_ring s) ->
      cas_pair (head_word ht) w (next_word ht w n) = (false, m, w') ->
      reserve_step s i (goto i (MWait beh j w' (stamp (job_side j) s)) s).

(** Copying, element by element. *)
(* rte_lib/ring/rte_ring_rts_elem_pvt.h:201-218 __rte_ring_do_rts_enqueue_elem *)
Inductive copy_step (s : msys) (i : nat) : msys -> Prop :=
  | m_write objs k pos st v m :
      m_pcs s !! i = Some (MCopy (PEnq objs k) pos st) -> objs !! k = Some v ->
      wr (r_mem (m_ring s)) (slot_idx (m_ring s) pos k) v = Ret m ->
      copy_step s i (goto i (MCopy (PEnq objs (S k)) pos st) (with_ring (set_mem m (m_ring s)) s))
  | m_read n got pos st v :
      m_pcs s !! i = Some (MCopy (PDeq n got) pos st) -> (length got < n)%nat ->
      rd (r_mem (m_ring s)) (slot_idx (m_ring s) pos (length got)) = Ret v ->
      copy_step s i (goto i (MCopy (PDeq n (got ++ [v])) pos st) s).

(** Releasing, head-tail-sync: one store. *)
(* rte_lib/ring/rte_ring_hts_elem_pvt.h:24-34 __rte_ring_hts_update_tail *)
Inductive hts_release (s : msys) (i : nat) : msys -> Prop :=
  | m_store c pos st ht :
      m_pcs s !! i = Some (MCopy c pos st) -> part_done c = part_size c ->
      ht = ht_of (part_side c) (m_ring s) -> ht_sync_type ht = RTE_RING_SYNC_MT_HTS ->
      hts_release s i (goto i MIdle (record_finish c st
        (with_ring (set_ht (part_side c) (__rte_ring_hts_update_tail ht pos (Z.of_nat (part_size c))) (m_ring s)) s))).

(** Releasing, relaxed: count oneself out, and move the tail to the head if that was
    everybody who had reserved when the head was loaded. *)
(* rte_lib/ring/rte_ring_rts_elem_pvt.h:40-42 __rte_ring_rts_update_tail *)
Definition swapped_word (ot hw : Z * Z) : Z * Z :=
  let cnt := (fst ot + 1)%u32 in (cnt, if cnt =? fst hw then snd hw else snd ot).
(* rte_lib/ring/rte_ring_rts_elem_pvt.h:24-46 __rte_ring_rts_update_tail *)
Inductive rts_release (s : msys) (i : nat) : msys -> Prop :=
  | m_tail c pos st ht :
      m_pcs s !! i = Some (MCopy c pos st) -> part_done c = part_size c ->
      ht = ht_of (part_side c) (m_ring s) -> ht_sync_type ht = RTE_RING_SYNC_MT_RTS ->
      rts_release s i (goto i (MHead c pos st (rts_tail ht) (snd (counts (part_side c) s))) s)
  | m_head c pos st ot fs :
      m_pcs s !! i = Some (MHead c pos st ot fs) ->
      rts_release s i (goto i (MSwap c pos st ot fs (rts_head (ht_of (part_side c) (m_ring s))) (stamp (part_side c) s)) s)
  | m_swap c pos st ot fs hw h ht m ot' :
      m_pcs s !! i = Some (MSwap c pos st ot fs hw h) -> ht = ht_of (part_side c) (m_ring s) ->
      cas_pair (rts_tail ht) ot (swapped_word ot hw) = (true, m, ot') ->
      rts_release s i (goto i MIdle (record_finish c st
        (with_ring (set_ht (part_side c) (set_hts_pos m ht) (m_ring s)) s)))
  | m_swap_fail c pos st ot fs hw h ht m ot' :
      m_pcs s !! i = Some (MSwap c pos st ot fs hw h) -> ht = ht_of (part_side c) (m_ring s) ->
      cas_pair (rts_tail ht) ot (swapped_word ot hw) = (false, m, ot') ->
      rts_release s i (goto i (MHead c pos st ot' (snd (counts (part_side c) s))) s).

(** No thread sleeps before a compare-and-set for so long that the word comes round again. *)
Definition in_time (s : msys) : Prop :=
  forall i p, m_pcs s !! i = Some p ->
    match p with
    | MCas _ j _ _ h => Z.of_nat (reserved (job_side j) s) - Z.of_nat (snd h) < 2 ^ 32
    | MSwap c _ _ _ fs _ _ => Z.of_nat (snd (counts (part_side c) s)) - Z.of_nat fs < 2 ^ 32
    | _ => True
    end.

Definition mode_step (s s' : msys) : Prop :=
  in_time s /\ exists i, reserve_step s i s' \/ copy_step s i s' \/ hts_release s i s' \/ rts_release s i s'.

(** ** One side of the ring *)

(** The operations in flight: first position and number of elements. *)
Definition flight (sd : side) (p : mpc) : list (nat * nat) :=
  match p with
  | MCopy c _ st | MHead c _ st _ _ | MSwap c _ st _ _ _ _ =>
      if decide (part_side c = sd) then [(st, part_size c)] else []
  | _ => []
  end.
Definition positions (fl : list (nat * nat)) : list nat := flat_map (fun x => seq x.1 x.2) fl.
(** Those that begin before position [b]. *)
Definition older (b : nat) (fl : list (nat * nat)) : nat := length (filter (fun x => (x.1 < b)%nat) fl).

Arguments positions : simpl never.
Arguments older : simpl never.

(** What has happened on a side: elements reserved, operations that have reserved and that
    have finished, elements released, operations in flight. *)
Record view := View { v_len : nat; v_res : nat; v_fin : nat; v_tail : nat; v_fl : list (nat * nat) }.

Lemma positions_app a b : positions (a ++ b) = positions a ++ positions b.
Proof. apply flat_map_app. Qed.
#[export] Instance positions_perm : Proper (Permutation ==> Permutation) positions.
Proof. intros a b. apply Permutation_flat_map. Qed.
#[export] Instance older_perm b : Proper (Permutation ==> eq) (older b).
Proof. intros x y E. unfold older. by rewrite E. Qed.

Lemma in_positions q fl : q ∈ positions fl <-> exists st n, (st, n) ∈ fl /\ (st <= q < st + n)%nat.
Proof.
  unfold positions. rewrite list_elem_of_In, in_flat_map. split.
  - intros ([st n] & Hx & Hq). apply in_seq in Hq. exists st, n. split; [by apply list_elem_of_In|done].
  - intros (st & n & Hx & Hq). exists (st, n). split; [by apply list_elem_of_In|]. by apply in_seq.
Qed.

Lemma nodup_positions st n fl :
  NoDup (positions ((st, n) :: fl)) <->
  NoDup (positions fl) /\ forall q, (st <= q < st + n)%nat -> q ∉ positions fl.
Proof.
  change (positions ((st, n) :: fl)) with (seq st n ++ positions fl). rewrite NoDup_app. split.
  - intros (_ & Hd & Hn). split; [done|]. intros q Hq. apply Hd. by apply elem_of_seq.
  - intros [Hn Hd]. split; [apply NoDup_seq|]. split; [|done]. intros q Hq. apply elem_of_seq in Hq. by apply Hd.
Qed.

(** Distinct positions in a window: no more operations than elements. *)
Lemma flights_bound fl a b :
  NoDup (positions fl) -> (forall st n, (st, n) ∈ fl -> (a <= st /\ 0 < n /\ st + n <= b)%nat) -> (length fl <= b - a)%nat.
Proof.
  intros Hnd Hin. transitivity (length (positions fl)).
  - clear Hnd. induction fl as [|[st n] fl IH]; [done|]. cbn [length]. change (positions ((st, n) :: fl)) with (seq st n ++ positions fl). rewrite length_app, length_seq.
    specialize (Hin st n) as Hn. pose proof (Hn ltac:(left)). 
    assert (length fl <= length (positions fl))%nat by (apply IH; intros; apply Hin; by right). lia.
  - rewrite <- (length_seq (b - a) a). apply NoDup_incl_length; [by apply NoDup_ListNoDup|].
    intros q Hq. apply list_elem_of_In, in_positions in Hq as (st & n & Hx & Hq). apply Hin in Hx. apply in_seq. lia.
Qed.

Section Sides.
(** The positions start at the 32-bit value [p0], the operation counts at [c0]. *)
Context (p0 : Z).

Definition is_mode (ht : rte_ring_headtail) : Prop :=
  ht_sync_type ht = RTE_RING_SYNC_MT_HTS \/ ht_sync_type ht = RTE_RING_SYNC_MT_RTS.

Record side_ok (c0 : Z) (ht : rte_ring_headtail) (v : view) : Prop := {
  so_tail : ht_tail ht = u32 (p0 + Z.of_nat (v_tail v));
  so_head : match ht_sync_type ht with
    | RTE_RING_SYNC_MT_HTS => ht_w0 ht = u32 (p0 + Z.of_nat (v_len v)) /\
        forall st n, (st, n) ∈ v_fl v -> st = v_tail v /\ (st + n = v_len v)%nat
    | RTE_RING_SYNC_MT_RTS => rts_head ht = (u32 (c0 + Z.of_nat (v_res v)), u32 (p0 + Z.of_nat (v_len v))) /\
        ht_w0 ht = u32 (c0 + Z.of_nat (v_fin v))
    | _ => False
    end;
  so_count : v_res v = (v_fin v + length (v_fl v))%nat;
  so_done : v_fl v = [] -> v_tail v = v_len v;
  so_span : (v_tail v <= v_len v)%nat /\ Z.of_nat (v_len v) < Z.of_nat (v_tail v) + 2 ^ 31 /\
    forall st n, (st, n) ∈ v_fl v -> (v_tail v <= st /\ 0 < n /\ st + n <= v_len v)%nat;
  so_nodup : NoDup (positions (v_fl v));
}.

(** The order of the operations in flight does not matter. *)
Lemma side_ok_perm c0 ht len res fin T fl fl' : fl ≡ₚ fl' ->
  side_ok c0 ht (View len res fin T fl) -> side_ok c0 ht (View len res fin T fl').
Proof.
  intros E [H1 H2 H3 H4 H5 H6]. cbn in *.
  assert (He : forall x, x ∈ fl' <-> x ∈ fl) by (intros x; by rewrite E).
  split; cbn; try done.
  - destruct (ht_sync_type ht); try done. split; [apply H2|]. intros st n ?%He. by apply H2.
  - by rewrite <- E.
  - intros ->. apply H4. by apply Permutation_nil.
  - destruct H5 as (? & ? & H5). split; [done|]. split; [done|]. intros st n ?%He. by apply H5.
  - by rewrite <- E.
Qed.

(** What a thread remembers of a load: it was true once, and either nothing has been
    reserved since or every reservation since took at least one element. *)
Definition stamp_ok (v : view) (h : nat * nat) : Prop :=
  (h.1 <= v_res v)%nat /\ (h.2 <= v_len v)%nat /\ (v_res v + h.2 <= v_len v + h.1)%nat /\
  (h.1 = v_res v -> h.2 = v_len v).
Definition word_ok (c0 : Z) (ty : rte_ring_sync_type) (w : Z * Z) (h : nat * nat) : Prop :=
  match ty with
  | RTE_RING_SYNC_MT_RTS => w = (u32 (c0 + Z.of_nat h.1), u32 (p0 + Z.of_nat h.2))
  | _ => w.1 = u32 (p0 + Z.of_nat h.2)
  end.
(** In the head-tail-sync mode a thread has passed the wait. *)
Definition passed (ty : rte_ring_sync_type) (w : Z * Z) : Prop :=
  match ty with RTE_RING_SYNC_MT_RTS => True | _ => w.1 = w.2 end.

Lemma stamp_now v : stamp_ok v (v_res v, v_len v).
Proof. unfold stamp_ok. cbn. lia. Qed.

(** A load of the head word is of the present. *)
Lemma head_word_now c0 ht v : side_ok c0 ht v -> word_ok c0 (ht_sync_type ht) (head_word ht) (v_res v, v_len v).
Proof.
  intros [_ Hh _ _ _ _]. unfold word_ok, head_word. destruct (ht_sync_type ht); try done; apply Hh.
Qed.

(** Reserving: the compare-and-set found the head where it was loaded. *)
Lemma side_reserve c0 ht v w h n m w' :
  side_ok c0 ht v -> word_ok c0 (ht_sync_type ht) w h -> stamp_ok v h -> passed (ht_sync_type ht) w ->
  Z.of_nat (v_len v) - Z.of_nat h.2 < 2 ^ 32 -> cas_pair (head_word ht) w (next_word ht w (Z.of_nat n)) = (true, m, w') ->
  (0 < n)%nat -> (h.2 = v_len v -> Z.of_nat (v_len v + n) < Z.of_nat (v_tail v) + 2 ^ 31) ->
  h.2 = v_len v /\ side_ok c0 (set_head_word m ht) (View (v_len v + n) (S (v_res v)) (v_fin v) (v_tail v) ((v_len v, n) :: v_fl v)).
Proof.
  intros [H1 H2 H3 H4 H5 H6] Hw (Hs1 & Hs2 & Hs3 & Hs4) Hp Ht Hcas Hn Hroom.
  unfold cas_pair in Hcas. destruct (decide _) as [E|]; [|done]. injection Hcas as <- _.
  destruct H5 as (H5 & H5' & H7).
  assert (Hnd : NoDup (positions ((v_len v, n) :: v_fl v))).
  { apply nodup_positions. split; [done|]. intros q Hq (st & n' & Hx & Hq')%in_positions. apply H7 in Hx. lia. }
  assert (Hspan : forall st n', (st, n') ∈ (v_len v, n) :: v_fl v -> (v_tail v <= st /\ 0 < n' /\ st + n' <= v_len v + n)%nat).
  { intros st n' [[= -> ->]|Hx%H7]%elem_of_cons; lia. }
  destruct h as [R0 l0]. cbn [fst snd] in *.
  unfold head_word, set_head_word, next_word in *. unfold word_ok, passed in *. destruct (ht_sync_type ht) eqn:Ety; try done.
  - destruct H2 as [Hhd Hcnt]. rewrite Hw, Hhd in E. injection E as Ec Ep.
    assert (R0 = v_res v) as -> by (symmetry; apply (u32_pos_eq 0 c0); [done|lia]). specialize (Hs4 eq_refl) as ->. specialize (Hroom eq_refl).
    split; [done|]. split; cbn; rewrite ?Ety; try done; try lia.
    + split; [|done]. rewrite Hw. cbn. unfold rts_head. cbn. rewrite !u32_add_l. do 2 f_equal; lia.
    + split; [lia|]. by split.
  - destruct H2 as [Hhd Hfl]. unfold hts_pos in E. rewrite <- E in Hw, Hp. cbn in Hw, Hp. rewrite Hhd in Hw, Hp. rewrite H1 in Hp.
    assert (l0 = v_len v) as -> by (symmetry; apply (u32_pos_eq 0 p0); [done|lia]).
    specialize (Hroom eq_refl). assert (ETl : v_len v = v_tail v) by (apply (u32_pos_eq 0 p0); [done|lia]).
    split; [done|]. split; cbn; rewrite ?Ety; try done; try lia.
    + by rewrite <- E.
    + split.
      * rewrite <- E. cbn. rewrite Hhd, u32_add_l. f_equal. lia.
      * intros st n' [[= -> ->]|Hx]%elem_of_cons; [done|]. pose proof (H7 _ _ Hx). lia.
    + split; [lia|]. by split.
Qed.

(** Releasing in the head-tail-sync mode: whoever is in flight is alone. *)
Lemma side_store c0 ht v st n rest :
  side_ok c0 ht v -> ht_sync_type ht = RTE_RING_SYNC_MT_HTS -> v_fl v ≡ₚ (st, n) :: rest ->
  side_ok c0 (set_tail (u32 (p0 + Z.of_nat st) + Z.of_nat n)%u32 ht) (View (v_len v) (v_res v) (S (v_fin v)) (v_len v) rest) /\
  rest = [].
Proof.
  intros [H1 H2 H3 H4 H5 H6] Ety Hfl. rewrite Ety in H2. destruct H2 as [Hw0 Hall].
  assert (He : forall x, x ∈ v_fl v <-> x ∈ (st, n) :: rest) by (intros x; by rewrite Hfl).
  destruct (Hall st n) as [Est En]; [apply He; left|]. destruct H5 as (H5 & H5' & H7).
  rewrite Hfl in H6. apply nodup_positions in H6 as (Hnd & Hdis). rewrite Hfl in H3. cbn in H3.
  assert (rest = []) as ->.
  { destruct rest as [|[st' n'] rest]; [done|]. exfalso.
    destruct (Hall st' n') as [Est' En']; [apply He; right; left|]. destruct (H7 st' n') as (_ & Hn' & _); [apply He; right; left|].
    apply (Hdis st'); [lia|]. apply in_positions. exists st', n'. split; [left|lia]. }
  cbn in H3. split; [|done]. split; cbn; rewrite ?Ety; try done; try lia.
  - rewrite u32_add_l. f_equal. lia.
  - split; [done|]. by intros ? ? ?%elem_of_nil.
  - split; [done|]. split; [lia|]. by intros ? ? ?%elem_of_nil.
Qed.

(** Releasing in the relaxed mode. The thread loaded the tail when [fs] operations had
    finished and then the head; at most [h.1 - fs] of those before that head are in flight. *)
Lemma side_swap c0 ht v st n rest ot fs h m ot' :
  side_ok c0 ht v -> ht_sync_type ht = RTE_RING_SYNC_MT_RTS -> v_fl v ≡ₚ (st, n) :: rest ->
  ot.1 = u32 (c0 + Z.of_nat fs) -> (fs <= v_fin v)%nat -> Z.of_nat (v_fin v) - Z.of_nat fs < 2 ^ 32 ->
  stamp_ok v h -> (st + n <= h.2)%nat -> (older h.2 (v_fl v) + fs <= h.1)%nat ->
  cas_pair (rts_tail ht) ot (swapped_word ot (u32 (c0 + Z.of_nat h.1), u32 (p0 + Z.of_nat h.2))) = (true, m, ot') ->
  exists T, (v_tail v <= T <= v_len v)%nat /\
    side_ok c0 (set_hts_pos m ht) (View (v_len v) (v_res v) (S (v_fin v)) T rest).
Proof.
  intros [H1 H2 H3 H4 H5 H6] Ety Hfl Hot Hfs Ht (Hs1 & Hs2 & Hs3 & Hs4) Hend Hold Hcas. rewrite Ety in H2.
  destruct H2 as [Hhd Hw0]. unfold cas_pair in Hcas. destruct (decide _) as [E|]; [|done]. injection Hcas as <- _.
  assert (He : forall x, x ∈ v_fl v <-> x ∈ (st, n) :: rest) by (intros x; by rewrite Hfl).
  destruct H5 as (H5 & H5' & H7). destruct (H7 st n) as (Hst & Hn & Hstn); [apply He; left|].
  pose proof (flights_bound _ _ _ H6 H7) as Hbound.
  rewrite Hfl in H6. apply nodup_positions in H6 as (Hnd & _). rewrite Hfl in H3, Hold, Hbound. cbn [length] in H3, Hbound.
  destruct h as [Rh lh]. cbn [fst snd] in *.
  assert (Ec : u32 (c0 + Z.of_nat (v_fin v)) = u32 (c0 + Z.of_nat fs)) by (rewrite <- Hw0, <- Hot, <- E; done).
  assert (fs = v_fin v) as -> by (symmetry; apply (u32_pos_eq 0 c0); [done|lia]).
  assert (Hold' : (S (older lh rest) + v_fin v <= Rh)%nat).
  { unfold older in Hold |- *. rewrite filter_cons_True in Hold by (cbn; lia). exact Hold. }
  assert (Hall : forall st' n', (st', n') ∈ rest -> (v_tail v <= st' /\ 0 < n' /\ st' + n' <= v_len v)%nat) by (intros; apply H7, He; by right).
  assert (Hcnt : (fst ot + 1)%u32 = u32 (c0 + Z.of_nat (S (v_fin v)))) by (rewrite Hot, u32_add_l; f_equal; lia).
  unfold swapped_word. cbn [fst snd]. rewrite Hcnt.
  destruct (Z.eqb_spec (u32 (c0 + Z.of_nat (S (v_fin v)))) (u32 (c0 + Z.of_nat Rh))) as [Eh|Eh].
  - (* everybody who had reserved before the head was loaded has finished *)
    assert (Rh = S (v_fin v)) as -> by (symmetry; apply (u32_pos_eq 0 c0); [done|lia]).
    exists lh. split; [lia|]. split; cbn; rewrite ?Ety; try done; try lia.
    + intros ->. apply Hs4. cbn in H3. lia.
    + split; [lia|]. split; [lia|]. intros st' n' Hx. pose proof (Hall _ _ Hx). split; [|lia].
      destruct (decide (st' < lh)%nat) as [Hlt|]; [|lia]. exfalso.
      assert (Hin : (st', n') ∈ filter (fun x : nat * nat => (x.1 < lh)%nat) rest) by (apply list_elem_of_filter; split; done).
      unfold older in Hold'. destruct (filter _ rest); [by apply elem_of_nil in Hin|cbn in Hold'; lia].
  - exists (v_tail v). split; [lia|]. split; cbn; rewrite ?Ety; try done; try lia.
    + rewrite <- E. exact H1.
    + intros ->. exfalso. apply Eh. cbn in H3. do 3 f_equal. lia.
Qed.
End Sides.

(** ** The invariant *)

(** What the steps of others do to the knowledge of a thread: nothing gets less, and no
    operation from before a position known joins those in flight. *)
Record view_le (v v' : view) : Prop := {
  vl_len : (v_len v <= v_len v')%nat;
  vl_res : (v_res v <= v_res v')%nat;
  vl_each : (v_res v' + v_len v <= v_len v' + v_res v)%nat;
  vl_same : v_res v' = v_res v -> v_len v' = v_len v;
  vl_fin : (v_fin v <= v_fin v')%nat;
  vl_tail : (v_tail v <= v_tail v')%nat;
  vl_still : v_fin v' = v_fin v -> v_tail v' = v_tail v;
  vl_old : forall b, (b <= v_len v)%nat -> (older b (v_fl v') <= older b (v_fl v))%nat;
}.

Lemma stamp_mono v v' h : view_le v v' -> stamp_ok v h -> stamp_ok v' h.
Proof.
  intros [H1 H2 H3 H4 _ _ _ _] (S1 & S2 & S3 & S4). split; [lia|]. split; [lia|]. split; [lia|]. intros E.
  rewrite H4 by lia. apply S4. lia.
Qed.

Section Invariant.
Context (k p0 : Z) (c0 : side -> Z).

Definition part_ok (m inn : list Z) (c : part) (pos : Z) (st : nat) : Prop :=
  pos = u32 (p0 + Z.of_nat st) /\ (0 < part_size c)%nat /\ (part_done c <= part_size c)%nat /\
  match c with
  | PEnq objs i => (forall j v, objs !! j = Some v -> inn !! (st + j)%nat = Some v) /\
      forall j, (j < i)%nat -> at_pos k p0 m (st + j) = objs !! j
  | PDeq _ got => got = take (length got) (drop st inn)
  end.

(** [ty] the modes of the sides, [vw] their views, [lim] how far they may reserve. *)
Definition mpc_ok (ty : side -> rte_ring_sync_type) (vw : side -> view) (lim : side -> Z) (m inn : list Z) (p : mpc) : Prop :=
  match p with
  | MIdle => True
  | MLoad _ j => 0 <= asked j
  | MWait _ j w h => 0 <= asked j /\ word_ok p0 (c0 (job_side j)) (ty (job_side j)) w h /\ stamp_ok (vw (job_side j)) h
  | MRoom _ j w h => 0 <= asked j /\ word_ok p0 (c0 (job_side j)) (ty (job_side j)) w h /\ stamp_ok (vw (job_side j)) h /\
      passed (ty (job_side j)) w
  | MCas _ j w n h => word_ok p0 (c0 (job_side j)) (ty (job_side j)) w h /\ stamp_ok (vw (job_side j)) h /\
      passed (ty (job_side j)) w /\ 0 < n <= asked j /\
      (h.2 = v_len (vw (job_side j)) -> Z.of_nat h.2 + n <= lim (job_side j))
  | MCopy c pos st => part_ok m inn c pos st
  | MHead c pos st ot fs => part_ok m inn c pos st /\ part_done c = part_size c /\ ty (part_side c) = RTE_RING_SYNC_MT_RTS /\
      ot.1 = u32 (c0 (part_side c) + Z.of_nat fs) /\ (fs <= v_fin (vw (part_side c)))%nat /\
      (fs = v_fin (vw (part_side c)) -> ot.2 = u32 (p0 + Z.of_nat (v_tail (vw (part_side c)))))
  | MSwap c pos st ot fs hw h => part_ok m inn c pos st /\ part_done c = part_size c /\ ty (part_side c) = RTE_RING_SYNC_MT_RTS /\
      ot.1 = u32 (c0 (part_side c) + Z.of_nat fs) /\ (fs <= v_fin (vw (part_side c)))%nat /\
      (fs = v_fin (vw (part_side c)) -> ot.2 = u32 (p0 + Z.of_nat (v_tail (vw (part_side c))))) /\
      hw = (u32 (c0 (part_side c) + Z.of_nat h.1), u32 (p0 + Z.of_nat h.2)) /\ stamp_ok (vw (part_side c)) h /\
      (st + part_size c <= h.2)%nat /\ (older h.2 (v_fl (vw (part_side c))) + fs <= h.1)%nat
  end.

Definition flights (sd : side) (s : msys) : list (nat * nat) := all_owned (flight sd) (m_pcs s).
Definition view_of (T : side -> nat) (s : msys) (sd : side) : view :=
  View (reserved sd s) (counts sd s).1 (counts sd s).2 (T sd) (flights sd s).
Definition mode_of (s : msys) (sd : side) : rte_ring_sync_type := ht_sync_type (ht_of sd (m_ring s)).
Definition limit (T : side -> nat) (s : msys) (sd : side) : Z :=
  match sd with Prod => Z.of_nat (T Cons) + r_capacity (m_ring s) | Cons => Z.of_nat (T Prod) end.
Definition served (log : list (nat * list Z)) : list (nat * nat) := map (fun x => (x.1, length x.2)) log.

Record mode_inv (T : side -> nat) (s : msys) : Prop := {
  mv_k : 0 <= k <= 31;
  mv_size : r_mask (m_ring s) = 2 ^ k - 1 /\ 0 <= r_capacity (m_ring s) < 2 ^ k /\
    Z.of_nat (length (r_mem (m_ring s))) = 2 ^ k /\ r_size (m_ring s) = 2 ^ k;
  mv_order : (T Cons <= m_taken s <= T Prod)%nat /\ (T Prod <= length (m_in s))%nat /\
    Z.of_nat (length (m_in s)) <= Z.of_nat (T Cons) + r_capacity (m_ring s);
  mv_sides : forall sd, side_ok p0 (c0 sd) (ht_of sd (m_ring s)) (view_of T s sd);
  mv_slots : forall q, (T Cons <= q < length (m_in s))%nat -> q ∉ positions (flights Prod s) ->
    at_pos k p0 (r_mem (m_ring s)) q = m_in s !! q;
  mv_log : forall st got, (st, got) ∈ m_log s -> got = take (length got) (drop st (m_in s));
  mv_served : positions (served (m_log s)) ++ positions (flights Cons s) ≡ₚ seq 0 (m_taken s);
  mv_pcs : forall i p, m_pcs s !! i = Some p ->
    mpc_ok (mode_of s) (view_of T s) (limit T s) (r_mem (m_ring s)) (m_in s) p;
}.

Lemma take_drop_app (st : nat) (got inn ext : list Z) :
  got = take (length got) (drop st inn) -> got = take (length got) (drop st (inn ++ ext)).
Proof.
  intros E. rewrite drop_app, take_app_le; [done|]. apply (f_equal length) in E. rewrite length_take in E. lia.
Qed.

Lemma part_ok_mono m m' inn ext c pos st :
  (part_side c = Prod -> forall q, q ∈ seq st (part_size c) -> at_pos k p0 m' q = at_pos k p0 m q) ->
  part_ok m inn c pos st -> part_ok m' (inn ++ ext) c pos st.
Proof.
  intros Hm (-> & H1 & H2 & H3). do 3 (split; [done|]). destruct c as [objs i|n got]; cbn in *.
  - destruct H3 as [H3 H4]. split.
    + intros j v Hj. by apply lookup_app_l_Some, H3.
    + intros j Hj. rewrite Hm by (try done; apply elem_of_seq; lia). by apply H4.
  - by apply take_drop_app.
Qed.

Lemma mpc_ok_mono ty ty' vw vw' lim lim' m m' inn ext p :
  (forall sd, ty' sd = ty sd) -> (forall sd, view_le (vw sd) (vw' sd)) -> (forall sd, lim sd <= lim' sd) ->
  (forall q, q ∈ positions (flight Prod p) -> at_pos k p0 m' q = at_pos k p0 m q) ->
  mpc_ok ty vw lim m inn p -> mpc_ok ty' vw' lim' m' (inn ++ ext) p.
Proof.
  intros Hty Hvw Hlim Hm.
  assert (Hpart : forall c pos st, flight Prod p = (if decide (part_side c = Prod) then [(st, part_size c)] else []) ->
    part_ok m inn c pos st -> part_ok m' (inn ++ ext) c pos st).
  { intros c pos st E. apply part_ok_mono. intros Hc q Hq. apply Hm. rewrite E. destruct (decide _); [|done].
    unfold positions. cbn. by rewrite app_nil_r. }
  destruct p as [|beh j|beh j w h|beh j w h|beh j w n h|c pos st|c pos st ot fs|c pos st ot fs hw h]; cbn; rewrite ?Hty; try done.
  - intros (? & ? & ?). split; [done|]. split; [done|]. by eapply stamp_mono.
  - intros (? & ? & ? & ?). split; [done|]. split; [done|]. split; [by eapply stamp_mono|done].
  - intros (? & Hs & ? & ? & Hl). split; [done|]. split; [by eapply stamp_mono|]. split; [done|]. split; [done|].
    intros E. specialize (Hlim (job_side j)). pose proof (vl_len _ _ (Hvw (job_side j))).
    destruct Hs as (_ & Hs & _). lia.
  - by apply Hpart.
  - intros (? & ? & ? & ? & Hf & Hot). split; [by apply Hpart|]. do 3 (split; [done|]).
    pose proof (vl_fin _ _ (Hvw (part_side c))). split; [lia|]. intros E. rewrite (vl_still _ _ (Hvw (part_side c))) by lia. apply Hot. lia.
  - intros (? & ? & ? & ? & Hf & Hot & ? & Hs & ? & Ho). split; [by apply Hpart|]. do 3 (split; [done|]).
    pose proof (vl_fin _ _ (Hvw (part_side c))). split; [lia|].
    split; [intros E; rewrite (vl_still _ _ (Hvw (part_side c))) by lia; apply Hot; lia|]. split; [done|]. split; [by eapply stamp_mono|].
    split; [done|]. pose proof (vl_old _ _ (Hvw (part_side c)) h.2 ltac:(apply Hs)). lia.
Qed.

(** *** Steps that move nothing shared *)

Lemma view_le_perm len res fin T fl fl' : fl' ≡ₚ fl -> view_le (View len res fin T fl) (View len res fin T fl').
Proof. intros E. split; cbn; try done; try lia. intros b _. by rewrite E. Qed.

Lemma goto_inv T s i p p' :
  mode_inv T s -> m_pcs s !! i = Some p -> (forall sd, flight sd p' = flight sd p) ->
  mpc_ok (mode_of s) (view_of T s) (limit T s) (r_mem (m_ring s)) (m_in s) p' -> mode_inv T (goto i p' s).
Proof.
  intros [H1 H2 H3 H4 H5 H6 H7 H8] Hi Hf Hp.
  assert (Hfl : forall sd, flights sd (goto i p' s) ≡ₚ flights sd s) by (intros sd; by apply (owned_same _ _ _ p)).
  assert (Hmono : forall q, mpc_ok (mode_of s) (view_of T s) (limit T s) (r_mem (m_ring s)) (m_in s) q ->
    mpc_ok (mode_of s) (view_of T (goto i p' s)) (limit T s) (r_mem (m_ring s)) (m_in s) q).
  { intros q Hq. rewrite <- (app_nil_r (m_in s)). eapply mpc_ok_mono; [done| |done|done|exact Hq].
    intros sd. apply view_le_perm, Hfl. }
  split; try done.
  - intros sd. eapply side_ok_perm; [symmetry; apply Hfl|]. apply H4.
  - intros q Hq Hq'. apply H5; [done|]. by rewrite <- (Hfl Prod).
  - by rewrite (Hfl Cons).
  - eapply pcs_insert; [by apply Hmono|intros ? ? _ _; apply Hmono|exact H8].
Qed.

Lemma word_pos_ok sd s w h : is_mode (ht_of sd (m_ring s)) -> word_ok p0 (c0 sd) (mode_of s sd) w h ->
  word_pos (ht_of sd (m_ring s)) w = u32 (p0 + Z.of_nat h.2).
Proof. unfold word_ok, word_pos, mode_of. intros [-> | ->]; [done|]. by intros ->. Qed.

Lemma side_is_mode c ht v : side_ok p0 c ht v -> is_mode ht.
Proof. intros [_ H _ _ _ _]. unfold is_mode. destruct (ht_sync_type ht); tauto. Qed.

Lemma must_wait_passed ht v c w h : side_ok p0 c ht v -> word_ok p0 c (ht_sync_type ht) w h ->
  must_wait ht w = false -> passed (ht_sync_type ht) w.
Proof.
  intros Hs%side_is_mode _ Hm. unfold passed, must_wait in *. destruct Hs as [E|E]; rewrite E in *; [|done].
  apply negb_false_iff, Z.eqb_eq in Hm. done.
Qed.

(** The room that a side sees, if the head has not moved since it was loaded. *)
Lemma room_ok T s sd : mode_inv T s ->
  room sd (m_ring s) (u32 (p0 + Z.of_nat (reserved sd s))) = limit T s sd - Z.of_nat (reserved sd s).
Proof.
  intros H. pose proof (mv_order _ _ H) as (? & ? & ?). pose proof (mv_size _ _ H) as (_ & ? & _).
  pose proof (mv_k _ _ H). assert (2 ^ k <= 2 ^ 31) by (apply Z.pow_le_mono_r; lia).
  pose proof (so_tail _ _ _ _ (mv_sides _ _ H Prod)) as Hp. pose proof (so_tail _ _ _ _ (mv_sides _ _ H Cons)) as Hc.
  destruct sd; cbn in *; rewrite ?Hp, ?Hc; wrap_lia.
Qed.

Lemma room_inv T s i beh j w h :
  mode_inv T s -> m_pcs s !! i = Some (MRoom beh j w h) ->
  let n := clip beh (asked j) (room (job_side j) (m_ring s) (word_pos (ht_of (job_side j) (m_ring s)) w)) in
  mode_inv T (goto i (if n =? 0 then MIdle else MCas beh j w n h) s).
Proof.
  intros H Hi n. pose proof (mv_pcs _ _ H i _ Hi) as (Ha & Hw & Hs & Hp).
  pose proof (side_is_mode _ _ _ (mv_sides _ _ H (job_side j))) as Hmode.
  pose proof (word_pos_ok _ _ _ _ Hmode Hw) as Epos.
  assert (Hr : 0 <= room (job_side j) (m_ring s) (word_pos (ht_of (job_side j) (m_ring s)) w)) by (destruct (job_side j); apply u32_range).
  destruct (clip_bounds k beh (asked j) _ Ha Hr) as [Hn1 Hn2]. fold n in Hn1, Hn2.
  apply (goto_inv _ _ _ _ _ H Hi); [by destruct (n =? 0)|].
  destruct (Z.eqb_spec n 0); [done|]. cbn. do 3 (split; [done|]). split; [lia|]. intros E.
  rewrite Epos, E, (room_ok T) in Hn2 by done. lia.
Qed.

(** *** Reserving *)

Lemma begin_side j n : part_side (begin j n) = job_side j.
Proof. by destruct j. Qed.
Lemma begin_size j n : 0 <= n <= asked j -> part_size (begin j n) = Z.to_nat n.
Proof. destruct j; cbn; [rewrite length_take|]; lia. Qed.
Lemma flight_copy sd c pos st : flight sd (MCopy c pos st) = if decide (part_side c = sd) then [(st, part_size c)] else [].
Proof. done. Qed.

(** The flights when one thread moves on. *)
Lemma flights_goto s s' i p p' :
  m_pcs s !! i = Some p -> m_pcs s' = <[i := p']> (m_pcs s) -> forall sd,
  exists rest, flights sd s ≡ₚ flight sd p ++ rest /\ flights sd s' ≡ₚ flight sd p' ++ rest.
Proof.
  intros Hi E sd. destruct (owned_split (flight sd) _ _ _ Hi) as (rest & Hs & Hins & _). exists rest.
  split; [done|]. unfold flights. by rewrite E.
Qed.

Lemma limit_bound T s sd : mode_inv T s -> limit T s sd < Z.of_nat (T sd) + 2 ^ 31.
Proof.
  intros H. pose proof (mv_order _ _ H) as (? & ? & ?). pose proof (mv_size _ _ H) as (_ & ? & _).
  pose proof (mv_k _ _ H). assert (2 ^ k <= 2 ^ 31) by (apply Z.pow_le_mono_r; lia). destruct sd; cbn; lia.
Qed.

Lemma older_cons_ge b st n fl : (b <= st)%nat -> older b ((st, n) :: fl) = older b fl.
Proof. intros. unfold older. by rewrite filter_cons_False by (cbn; lia). Qed.

Lemma head_word_sync m ht : ht_sync_type (set_head_word m ht) = ht_sync_type ht.
Proof. unfold set_head_word. by destruct (ht_sync_type ht) eqn:E; cbn. Qed.
Lemma ht_of_set sd sd' ht r : ht_of sd' (set_ht sd ht r) = if decide (sd = sd') then ht else ht_of sd' r.
Proof. by destruct sd, sd'. Qed.

(** The state after reserving, seen from both sides. *)
Lemma reserve_views T s i beh j w n h ht m w' s' :
  mode_inv T s -> in_time s -> m_pcs s !! i = Some (MCas beh j w n h) -> ht = ht_of (job_side j) (m_ring s) ->
  cas_pair (head_word ht) w (next_word ht w n) = (true, m, w') ->
  s' = goto i (MCopy (begin j n) (word_pos ht w) (snd h))
         (record_reserve j n (with_ring (set_ht (job_side j) (set_head_word m ht) (m_ring s)) s)) ->
  h.2 = reserved (job_side j) s /\ 0 < n <= asked j /\ Z.of_nat (reserved (job_side j) s) + n <= limit T s (job_side j) /\
  word_pos ht w = u32 (p0 + Z.of_nat h.2) /\
  (forall sd, reserved sd s' = (reserved sd s + if decide (job_side j = sd) then Z.to_nat n else 0)%nat) /\
  (forall sd, flights sd s' ≡ₚ (if decide (job_side j = sd) then [(reserved sd s, Z.to_nat n)] else []) ++ flights sd s) /\
  (forall sd, side_ok p0 (c0 sd) (ht_of sd (m_ring s')) (view_of T s' sd)) /\
  (forall sd, view_le (view_of T s sd) (view_of T s' sd)) /\ (forall sd, mode_of s' sd = mode_of s sd).
Proof.
  intros H Ht Hi Eht Hcas Es'. pose proof (mv_pcs _ _ H i _ Hi) as (Hw & Hs & Hp & Hn & Hlim). specialize (Ht i _ Hi). cbn in Ht.
  pose proof (mv_sides _ _ H (job_side j)) as Hside. rewrite <- Eht in Hside.
  assert (Hpos : word_pos ht w = u32 (p0 + Z.of_nat h.2)) by (subst ht; apply word_pos_ok; [by eapply side_is_mode|done]).
  pose proof (limit_bound T s (job_side j) H) as Hb. unfold mode_of in Hw, Hp. rewrite <- Eht in Hw, Hp.
  rewrite <- (Z2Nat.id n) in Hcas by lia.
  destruct (side_reserve p0 (c0 (job_side j)) ht (view_of T s (job_side j)) w h (Z.to_nat n) m w') as [El Hside']; try done; [lia|cbn in *; lia|].
  specialize (Hlim El). cbn in El. split; [done|]. split; [done|]. split; [lia|]. split; [done|].
  assert (Hres : forall sd, reserved sd s' = (reserved sd s + if decide (job_side j = sd) then Z.to_nat n else 0)%nat).
  { intros sd. subst s'. destruct (decide _), j, sd; try done; cbn in *; rewrite ?length_app, ?length_take; lia. }
  assert (Hcnt : forall sd, counts sd s' = ((counts sd s).1 + (if decide (job_side j = sd) then 1 else 0), (counts sd s).2)%nat).
  { intros sd. subst s'. destruct (decide _), j, sd; try done; cbn; try (destruct (m_pcount s)); try (destruct (m_ccount s)); cbn; f_equal; lia. }
  assert (Hfl : forall sd, flights sd s' ≡ₚ (if decide (job_side j = sd) then [(reserved sd s, Z.to_nat n)] else []) ++ flights sd s).
  { intros sd. destruct (flights_goto s s' i _ (MCopy (begin j n) (word_pos ht w) (snd h)) Hi ltac:(subst s'; by destruct j) sd) as (rest & -> & ->).
    cbn [flight app]. rewrite begin_side, begin_size, El by lia. by destruct (decide _) as [->|]. }
  assert (Hht : forall sd, ht_of sd (m_ring s') = if decide (job_side j = sd) then set_head_word m ht else ht_of sd (m_ring s)).
  { intros sd. rewrite <- ht_of_set. subst s'. by destruct j. }
  split; [done|]. split; [done|]. split; [|split].
  - intros sd. unfold view_of. rewrite Hres, Hcnt, Hht. destruct (decide (job_side j = sd)) as [<-|Hne].
    + eapply side_ok_perm; [symmetry; rewrite Hfl, decide_True by done; reflexivity|].
      cbn. rewrite Nat.add_1_r. exact Hside'.
    + eapply side_ok_perm; [symmetry; rewrite Hfl, decide_False by done; reflexivity|].
      cbn. rewrite !Nat.add_0_r. apply (mv_sides _ _ H).
  - intros sd. split; cbn; rewrite ?Hres, ?Hcnt; try (destruct (decide (job_side j = sd)); cbn; lia).
    intros b Hb'. rewrite Hfl. destruct (decide (job_side j = sd)); cbn [app]; [|done]. by rewrite older_cons_ge.
  - intros sd. unfold mode_of. rewrite Hht. destruct (decide (job_side j = sd)) as [<-|]; [|done].
    by rewrite head_word_sync, Eht.
Qed.

Lemma positions_cons st n fl : positions ((st, n) :: fl) = seq st n ++ positions fl.
Proof. done. Qed.

Lemma begin_part_ok m inn j n st : 0 < n <= asked j -> (job_side j = Prod -> st = length inn) ->
  part_ok m (inn ++ match j with Enq objs => take (Z.to_nat n) objs | Deq _ => [] end) (begin j n) (u32 (p0 + Z.of_nat st)) st.
Proof.
  intros Hn Hst. split; [done|]. rewrite begin_size by lia. split; [lia|]. split; [destruct j; cbn; lia|].
  destruct j as [objs|max]; cbn; [|by rewrite take_0]. rewrite Hst by done. split; [|lia].
  intros j v Hj. rewrite lookup_app_r by lia. by replace (length inn + j - length inn)%nat with j by lia.
Qed.

Lemma reserve_inv T s i beh j w n h ht m w' :
  mode_inv T s -> in_time s -> m_pcs s !! i = Some (MCas beh j w n h) -> ht = ht_of (job_side j) (m_ring s) ->
  cas_pair (head_word ht) w (next_word ht w n) = (true, m, w') ->
  mode_inv T (goto i (MCopy (begin j n) (word_pos ht w) (snd h))
    (record_reserve j n (with_ring (set_ht (job_side j) (set_head_word m ht) (m_ring s)) s))).
Proof.
  intros H Ht Hi Eht Hcas.
  destruct (reserve_views _ _ _ _ _ _ _ _ _ _ _ _ H Ht Hi Eht Hcas eq_refl) as (El & Hn & Hlim & Hpos & Hres & Hfl & Hso & Hvw & Hty).
  set (s' := goto _ _ _) in *.
  assert (Ein : m_in s' = m_in s ++ match j with Enq objs => take (Z.to_nat n) objs | Deq _ => [] end)
    by (unfold s'; destruct j; cbn; by rewrite ?app_nil_r).
  assert (Er : r_mask (m_ring s') = r_mask (m_ring s) /\ r_capacity (m_ring s') = r_capacity (m_ring s) /\
    r_mem (m_ring s') = r_mem (m_ring s) /\ r_size (m_ring s') = r_size (m_ring s)) by (unfold s'; by destruct j).
  destruct Er as (Er1 & Er2 & Er3 & Er4).
  assert (Elog : m_log s' = m_log s) by (unfold s'; by destruct j).
  assert (Epcs : m_pcs s' = <[i := MCopy (begin j n) (word_pos ht w) h.2]> (m_pcs s)) by (unfold s'; by destruct j).
  assert (HresP : length (m_in s') = (length (m_in s) + if decide (job_side j = Prod) then Z.to_nat n else 0)%nat) by exact (Hres Prod).
  assert (HresC : m_taken s' = (m_taken s + if decide (job_side j = Cons) then Z.to_nat n else 0)%nat) by exact (Hres Cons).
  clearbody s'. destruct H as [H1 H2 H3 H4 H5 H6 H7 H8].
  split; rewrite ?Er1, ?Er2, ?Er3, ?Er4, ?Ein, ?Elog; try done.
  - rewrite HresC, <- Ein, HresP. destruct j; cbn in *; repeat ((destruct (decide _); [|congruence]) || (destruct (decide _); [congruence|])); lia.
  - intros q Hq Hnq. rewrite <- Ein, HresP in Hq. rewrite (Hfl Prod) in Hnq.
    destruct (decide (job_side j = Prod)) as [Ej|Ej]; cbn [app] in Hnq.
    + rewrite positions_cons, not_elem_of_app in Hnq. destruct Hnq as [Hn1 Hn2]. rewrite elem_of_seq in Hn1. cbn in Hn1.
      rewrite lookup_app_l by lia. apply H5; [lia|done].
    + rewrite lookup_app_l by lia. apply H5; [lia|done].
  - intros st got Hl. by apply take_drop_app, H6.
  - rewrite (Hfl Cons), HresC. cbn [reserved]. destruct (decide (job_side j = Cons)); cbn [app]; [|by rewrite Nat.add_0_r].
    rewrite positions_cons, seq_app, <- H7. cbn [Nat.add]. rewrite <- app_assoc. apply Permutation_app_head, Permutation_app_comm.
  - rewrite Epcs. eapply pcs_insert; [| |exact H8].
    + cbn. rewrite Hpos. apply begin_part_ok; [done|]. intros Ej. rewrite El, Ej. done.
    + intros i' q _ _ Hq. eapply mpc_ok_mono; [exact Hty|exact Hvw| |done|exact Hq].
      intros sd. unfold limit. by rewrite Er2.
Qed.

(** *** Copying *)

(** The positions of a thread are its own. *)
Lemma own_positions T s i p q : mode_inv T s -> m_pcs s !! i = Some p -> q ∈ positions (flight Prod p) ->
  (T Prod <= q < length (m_in s))%nat /\ q ∈ positions (flights Prod s) /\
  forall i' p', i' <> i -> m_pcs s !! i' = Some p' -> q ∉ positions (flight Prod p').
Proof.
  intros H Hi Hq. destruct (owned_split (flight Prod) _ _ _ Hi) as (rest & Hs & _ & Hoth).
  pose proof (mv_sides _ _ H Prod) as [_ _ _ _ (_ & _ & Hspan) Hnd]. cbn in Hspan, Hnd.
  assert (Hin : q ∈ positions (flights Prod s)).
  { unfold flights. rewrite Hs, positions_app. apply elem_of_app. by left. }
  pose proof Hin as (st & n & Hx & Hr)%in_positions. apply Hspan in Hx. split; [lia|]. split; [done|].
  intros i' p' Hne Hi' (st' & n' & Hx' & Hr')%in_positions.
  unfold flights in Hnd. rewrite Hs, positions_app in Hnd. apply NoDup_app in Hnd as (_ & Hdis & _).
  apply (Hdis q Hq). apply in_positions. exists st', n'. split; [|done]. by eapply Hoth.
Qed.

Lemma write_inv T s i objs j pos st v m :
  mode_inv T s -> m_pcs s !! i = Some (MCopy (PEnq objs j) pos st) -> objs !! j = Some v ->
  wr (r_mem (m_ring s)) (slot_idx (m_ring s) pos j) v = Ret m ->
  mode_inv T (goto i (MCopy (PEnq objs (S j)) pos st) (with_ring (set_mem m (m_ring s)) s)).
Proof.
  intros H Hi Hv Hw. pose proof (lookup_lt_Some _ _ _ Hv) as Hlt.
  pose proof (mv_pcs _ _ H i _ Hi) as (Hpos & Hp1 & Hp2 & Hp3 & Hp4). cbn in Hp1, Hp2.
  assert (Hown : forall q, (st <= q < st + length objs)%nat -> q ∈ positions (flight Prod (MCopy (PEnq objs j) pos st))).
  { intros q Hq. apply in_positions. exists st, (length objs). split; [left|done]. }
  pose proof (own_positions _ _ _ _ (st + j)%nat H Hi ltac:(apply Hown; lia)) as (Hr & Hin & Hoth).
  pose proof H as [H1 H2 H3 H4 H5 H6 H7 H8]. destruct H2 as (Hmask & Hcap & Hlen & Hsize).
  rewrite (slot_idx_of k p0 _ pos st j H1 Hmask Hpos) in Hw. apply wr_inv in Hw as [_ ->]. rewrite Nat2Z.id in *.
  destruct (at_pos_write k p0 (r_mem (m_ring s)) (st + j) v ltac:(lia) Hlen) as [Ws Wo].
  set (mem' := <[slot_of k p0 (st + j):=v]> (r_mem (m_ring s))) in *.
  assert (Hfl : forall sd, flights sd (goto i (MCopy (PEnq objs (S j)) pos st) (with_ring (set_mem mem' (m_ring s)) s)) ≡ₚ flights sd s)
    by (intros sd; by apply (owned_same _ _ _ (MCopy (PEnq objs j) pos st))).
  split; cbn; try done.
  - split; [done|]. split; [done|]. split; [|done]. unfold mem'. by rewrite length_insert.
  - intros sd. eapply side_ok_perm; [symmetry; apply Hfl|]. cbn. specialize (H4 sd). by destruct sd.
  - intros q Hq Hnq. rewrite (Hfl Prod) in Hnq. rewrite Wo; [by apply H5|intros ->; done|lia].
  - by rewrite (Hfl Cons).
  - eapply pcs_insert; [| |exact H8].
    + split; [done|]. cbn. split; [done|]. split; [lia|]. split; [done|]. intros j' Hj'.
      destruct (Nat.eq_dec j' j) as [->|Hne]; [by rewrite Ws|]. rewrite <- Hp4 by lia. apply Wo; [lia|].
      pose proof (own_positions _ _ _ _ (st + j')%nat H Hi ltac:(apply Hown; lia)). lia.
    + intros i' q Hne Hi' Hq. rewrite <- (app_nil_r (m_in s)). eapply mpc_ok_mono; [| | | |exact Hq].
      * intros []; done.
      * intros sd. apply view_le_perm, Hfl.
      * intros []; done.
      * intros q' Hq'. apply Wo; [intros ->; by apply (Hoth i' q)|].
        pose proof (own_positions _ _ _ _ q' H Hi' Hq'). lia.
Qed.

Lemma read_inv T s i n got pos st v :
  mode_inv T s -> m_pcs s !! i = Some (MCopy (PDeq n got) pos st) -> (length got < n)%nat ->
  rd (r_mem (m_ring s)) (slot_idx (m_ring s) pos (length got)) = Ret v ->
  mode_inv T (goto i (MCopy (PDeq n (got ++ [v])) pos st) s).
Proof.
  intros H Hi Hlt Hr. pose proof (mv_pcs _ _ H i _ Hi) as (Hpos & Hp1 & Hp2 & Hgot). cbn in Hp1, Hp2.
  apply (goto_inv _ _ _ _ _ H Hi); [done|]. cbn. split; [done|]. cbn. rewrite length_app. cbn [length].
  split; [done|]. split; [lia|]. rewrite Nat.add_1_r.
  destruct (mv_size _ _ H) as (Hmask & _). rewrite (slot_idx_of k p0 _ pos st _ (mv_k _ _ H) Hmask Hpos) in Hr.
  apply rd_inv in Hr as [_ Hr]. rewrite Nat2Z.id in Hr. change (at_pos k p0 (r_mem (m_ring s)) (st + length got) = Some v) in Hr.
  (* the element is between the released and the published ones, so no producer is at it *)
  assert (Hin : (st, n) ∈ flights Cons s).
  { destruct (owned_split (flight Cons) _ _ _ Hi) as (rest & Hs & _). unfold flights. rewrite Hs. left. }
  destruct (mv_sides _ _ H Cons) as [_ _ _ _ (_ & _ & Hc) _]. apply Hc in Hin. cbn in Hin.
  destruct (mv_sides _ _ H Prod) as [_ _ _ _ (_ & _ & Hp) _]. cbn in Hp. pose proof (mv_order _ _ H).
  rewrite (mv_slots _ _ H) in Hr.
  - rewrite (take_S_r _ _ v) by (by rewrite lookup_drop). by rewrite <- Hgot.
  - lia.
  - intros (st' & n' & Hx & Hq)%in_positions. apply Hp in Hx. lia.
Qed.

(** *** Releasing *)

Lemma older_cons_le b x fl : (older b fl <= older b (x :: fl))%nat.
Proof. unfold older. destruct (decide (x.1 < b)%nat); [rewrite filter_cons_True by done; cbn; lia | by rewrite filter_cons_False by done]. Qed.

(** The state after one operation has left and the tail of its side is at [T1]. *)
Lemma finish_views T s i p c st rest ht1 T1 s' T' :
  mode_inv T s -> m_pcs s !! i = Some p ->
  (forall sd, flight sd p = if decide (part_side c = sd) then [(st, part_size c)] else []) ->
  flights (part_side c) s ≡ₚ (st, part_size c) :: rest -> (T (part_side c) <= T1)%nat ->
  side_ok p0 (c0 (part_side c)) ht1 (View (reserved (part_side c) s) (counts (part_side c) s).1 (S (counts (part_side c) s).2) T1 rest) ->
  ht_sync_type ht1 = mode_of s (part_side c) ->
  s' = goto i MIdle (record_finish c st (with_ring (set_ht (part_side c) ht1 (m_ring s)) s)) ->
  T' = (fun sd => if decide (part_side c = sd) then T1 else T sd) ->
  (forall sd, reserved sd s' = reserved sd s) /\
  (forall sd, flights sd s ≡ₚ (if decide (part_side c = sd) then [(st, part_size c)] else []) ++ flights sd s') /\
  (forall sd, side_ok p0 (c0 sd) (ht_of sd (m_ring s')) (view_of T' s' sd)) /\
  (forall sd, view_le (view_of T s sd) (view_of T' s' sd)) /\ (forall sd, mode_of s' sd = mode_of s sd).
Proof.
  intros H Hi Hp Hrest HT Hside Hty Es' ET'.
  assert (Hres : forall sd, reserved sd s' = reserved sd s) by (intros sd; subst s'; by destruct c, sd).
  assert (Hcnt : forall sd, counts sd s' = ((counts sd s).1, ((counts sd s).2 + if decide (part_side c = sd) then 1 else 0)%nat)).
  { intros sd. subst s'. destruct (decide _), c, sd; try done; cbn; try (destruct (m_pcount s)); try (destruct (m_ccount s)); cbn; f_equal; lia. }
  assert (Hfl : forall sd, flights sd s ≡ₚ (if decide (part_side c = sd) then [(st, part_size c)] else []) ++ flights sd s').
  { intros sd. destruct (flights_goto s s' i p MIdle Hi ltac:(subst s'; by destruct c) sd) as (r & -> & ->). by rewrite Hp. }
  assert (Hht : forall sd, ht_of sd (m_ring s') = if decide (part_side c = sd) then ht1 else ht_of sd (m_ring s)).
  { intros sd. rewrite <- ht_of_set. subst s'. by destruct c. }
  split; [done|]. split; [done|]. split; [|split].
  - intros sd. unfold view_of. rewrite Hres, Hcnt, Hht, ET'. specialize (Hfl sd). destruct (decide (part_side c = sd)) as [<-|Hne].
    + eapply side_ok_perm; [|rewrite <- (Nat.add_1_r (counts _ s).2) in Hside; exact Hside].
      cbn [app] in Hfl. rewrite Hrest in Hfl. by apply Permutation_cons_inv in Hfl.
    + eapply side_ok_perm; [exact Hfl|]. cbn. rewrite Nat.add_0_r. apply (mv_sides _ _ H).
  - intros sd. specialize (Hfl sd). split; cbn; rewrite ?Hres, ?Hcnt, ?ET'; cbn; try lia.
    + destruct (decide _) as [<-|]; lia.
    + destruct (decide _); [lia|done].
    + intros b _. rewrite Hfl. destruct (decide _); cbn [app]; [apply older_cons_le|done].
  - intros sd. unfold mode_of. rewrite Hht. by destruct (decide (part_side c = sd)) as [<-|].
Qed.

Lemma served_app l1 l2 : served (l1 ++ l2) = served l1 ++ served l2.
Proof. apply map_app. Qed.

Lemma finish_inv T s i p c pos st rest ht1 T1 :
  mode_inv T s -> m_pcs s !! i = Some p ->
  (forall sd, flight sd p = if decide (part_side c = sd) then [(st, part_size c)] else []) ->
  part_ok (r_mem (m_ring s)) (m_in s) c pos st -> part_done c = part_size c ->
  flights (part_side c) s ≡ₚ (st, part_size c) :: rest -> (T (part_side c) <= T1 <= reserved (part_side c) s)%nat ->
  side_ok p0 (c0 (part_side c)) ht1 (View (reserved (part_side c) s) (counts (part_side c) s).1 (S (counts (part_side c) s).2) T1 rest) ->
  ht_sync_type ht1 = mode_of s (part_side c) ->
  exists T', mode_inv T' (goto i MIdle (record_finish c st (with_ring (set_ht (part_side c) ht1 (m_ring s)) s))).
Proof.
  intros H Hi Hp Hpart Hdone Hrest HT Hside Hty. exists (fun sd => if decide (part_side c = sd) then T1 else T sd).
  destruct (finish_views _ _ _ _ _ _ _ _ _ _ _ H Hi Hp Hrest (proj1 HT) Hside Hty eq_refl eq_refl) as (Hres & Hfl & Hso & Hvw & Hmo).
  set (s' := goto _ _ _) in *. set (T' := fun sd => _) in *.
  assert (Er : r_mask (m_ring s') = r_mask (m_ring s) /\ r_capacity (m_ring s') = r_capacity (m_ring s) /\
    r_mem (m_ring s') = r_mem (m_ring s) /\ r_size (m_ring s') = r_size (m_ring s)) by (unfold s'; by destruct c).
  destruct Er as (Er1 & Er2 & Er3 & Er4).
  assert (Ein : m_in s' = m_in s) by (unfold s'; by destruct c).
  assert (Etk : m_taken s' = m_taken s) by (unfold s'; by destruct c).
  assert (Epcs : m_pcs s' = <[i := MIdle]> (m_pcs s)) by (unfold s'; by destruct c).
  assert (Elog : m_log s' = m_log s ++ match c with PDeq _ got => [(st, got)] | _ => [] end)
    by (unfold s'; destruct c; cbn; by rewrite ?app_nil_r).
  assert (HTc : (T Cons <= T' Cons)%nat /\ (T Prod <= T' Prod)%nat /\ (T' Cons <= m_taken s)%nat /\ (T' Prod <= length (m_in s))%nat).
  { pose proof (mv_order _ _ H). unfold T'. destruct c; cbn in *; repeat ((destruct (decide _); [|congruence]) || (destruct (decide _); [congruence|])); lia. }
  clearbody s' T'. destruct Hpart as (Hpos & Hsz & _ & Hc). destruct H as [H1 H2 H3 H4 H5 H6 H7 H8].
  split; rewrite ?Er1, ?Er2, ?Er3, ?Er4, ?Ein, ?Elog, ?Etk; try done.
  - lia.
  - intros q Hq Hnq. destruct (decide (q ∈ positions (flights Prod s))) as [Hq'|]; [|apply H5; [lia|done]].
    rewrite (Hfl Prod), positions_app, elem_of_app in Hq'. destruct Hq' as [Hq'|]; [|done].
    destruct c as [objs j|n got]; [|by apply elem_of_nil in Hq']. rewrite decide_True in Hq' by done.
    apply in_positions in Hq' as (st' & n' & [= -> ->]%list_elem_of_singleton & Hr). cbn in *. destruct Hc as [Hc1 Hc2].
    replace q with (st + (q - st))%nat by lia. rewrite Hc2 by lia.
    destruct (lookup_lt_is_Some_2 objs (q - st)) as [v Hv]; [lia|]. by rewrite Hv, (Hc1 _ _ Hv).
  - intros st' got' [Hl|Hl]%elem_of_app; [by apply H6|]. destruct c as [|n got]; [by apply elem_of_nil in Hl|].
    apply list_elem_of_singleton in Hl as [= -> ->]. exact Hc.
  - rewrite <- H7. rewrite (Hfl Cons), !served_app, !positions_app, <- app_assoc. apply Permutation_app_head, Permutation_app_tail.
    destruct c as [|n got]; [by rewrite decide_False by done|]. rewrite decide_True by done. cbn in Hdone |- *. by rewrite Hdone.
  - rewrite Epcs. eapply pcs_insert; [done| |exact H8]. intros i' q _ _ Hq. rewrite <- (app_nil_r (m_in s)).
    eapply mpc_ok_mono; [exact Hmo|exact Hvw| |done|exact Hq]. intros []; cbn; rewrite ?Er2; lia.
Qed.

(** The thread that is done copying is one of those in flight. *)
Lemma in_flight s i p c st : m_pcs s !! i = Some p ->
  (forall sd, flight sd p = if decide (part_side c = sd) then [(st, part_size c)] else []) ->
  exists rest, flights (part_side c) s ≡ₚ (st, part_size c) :: rest.
Proof.
  intros Hi Hp. destruct (owned_split (flight (part_side c)) _ _ _ Hi) as (rest & Hs & _). exists rest.
  rewrite Hp, decide_True in Hs by done. exact Hs.
Qed.

Lemma hts_release_inv T s i s' : mode_inv T s -> hts_release s i s' -> exists T', mode_inv T' s'.
Proof.
  intros H Hst. destruct Hst as [c pos st ht Hi Hdone Eht Ety].
  pose proof (mv_pcs _ _ H i _ Hi) as Hpart. pose proof (mv_sides _ _ H (part_side c)) as Hs. rewrite <- Eht in Hs.
  destruct (in_flight _ _ _ c st Hi (fun _ => eq_refl)) as [rest Hrest].
  destruct (side_store _ _ _ (view_of T s (part_side c)) st (part_size c) rest Hs Ety Hrest) as [Hs' ->].
  destruct Hs as [_ _ _ _ (HTl & _) _]. cbn in Hs', HTl.
  eapply (finish_inv T s i _ c pos st); [done|exact Hi|done|done|done|exact Hrest| |unfold __rte_ring_hts_update_tail; rewrite (proj1 Hpart); exact Hs'|].
  - lia.
  - unfold mode_of. by rewrite <- Eht.
Qed.

Lemma rts_release_inv T s i s' : mode_inv T s -> in_time s -> rts_release s i s' -> exists T', mode_inv T' s'.
Proof.
  intros H Ht Hst. destruct Hst as [c pos st ht Hi Hdone Eht Ety|c pos st ot fs Hi|c pos st ot fs hw h ht m ot' Hi Eht Hcas|c pos st ot fs hw h ht m ot' Hi Eht Hcas];
    pose proof (mv_pcs _ _ H i _ Hi) as Hpc; pose proof (mv_sides _ _ H (part_side c)) as Hs; try rewrite <- Eht in Hs.
  - exists T. apply (goto_inv _ _ _ _ _ H Hi); [done|]. split; [done|]. split; [done|].
    unfold mode_of. rewrite <- Eht. split; [done|]. destruct Hs as [Htl Hh _ _ _ _]. rewrite Ety in Hh. split; [apply Hh|].
    split; [done|]. intros _. exact Htl.
  - exists T. destruct Hpc as (Hpart & Hdone & Ety & Hot & Hfs & Hot2). apply (goto_inv _ _ _ _ _ H Hi); [done|].
    do 6 (split; [done|]). destruct Hs as [_ Hh Hcnt _ (_ & _ & Hsp) _]. unfold mode_of in Ety. rewrite Ety in Hh.
    split; [apply Hh|]. split; [apply (stamp_now (view_of T s (part_side c)))|].
    destruct (in_flight _ _ _ c st Hi (fun _ => eq_refl)) as [rest Hrest]. split.
    + destruct (Hsp st (part_size c)) as (_ & _ & ?); [cbn; rewrite Hrest; left|done].
    + cbn in *. unfold older. pose proof (length_filter (fun x : nat * nat => (x.1 < reserved (part_side c) s)%nat) (flights (part_side c) s)). lia.
  - destruct Hpc as (Hpart & Hdone & Ety & Hot & Hfs & _ & -> & Hstamp & Hend & Hold). specialize (Ht i _ Hi). cbn in Ht.
    unfold mode_of in Ety. rewrite <- Eht in Ety.
    destruct (in_flight _ _ _ c st Hi (fun _ => eq_refl)) as [rest Hrest].
    destruct (side_swap _ _ _ (view_of T s (part_side c)) st (part_size c) rest ot fs h m ot' Hs Ety Hrest Hot Hfs Ht Hstamp Hend Hold Hcas) as (T1 & HT1 & Hs').
    eapply (finish_inv T s i _ c pos st); [done|exact Hi|done|done|done|exact Hrest|exact HT1|exact Hs'|].
    unfold mode_of. by rewrite <- Eht.
  - exists T. destruct Hpc as (Hpart & Hdone & Ety & _). apply (goto_inv _ _ _ _ _ H Hi); [done|].
    split; [done|]. split; [done|]. split; [done|].
    unfold cas_pair in Hcas. destruct (decide _); [done|]. injection Hcas as <- <-.
    destruct Hs as [Htl Hh _ _ _ _]. unfold mode_of in Ety. rewrite <- Eht in Ety. rewrite Ety in Hh.
    split; [apply Hh|]. split; [done|]. intros _. exact Htl.
Qed.

Lemma reserve_step_inv T s i s' : mode_inv T s -> in_time s -> reserve_step s i s' -> mode_inv T s'.
Proof.
  intros H Ht Hst. destruct Hst as [beh j Hi Ha|beh j Hi|beh j w h Hi Hw|beh j w h Hi Hw|beh j w h n Hi ->|beh j w n h ht m w' Hi Eht Hcas|beh j w n h ht m w' Hi Eht Hcas];
    pose proof (mv_pcs _ _ H i _ Hi) as Hpc.
  - by apply (goto_inv _ _ _ _ _ H Hi).
  - apply (goto_inv _ _ _ _ _ H Hi); [done|]. split; [done|]. split; [|apply (stamp_now (view_of T s (job_side j)))].
    apply (head_word_now _ _ _ (view_of T s (job_side j))), (mv_sides _ _ H).
  - apply (goto_inv _ _ _ _ _ H Hi); [done|apply Hpc].
  - destruct Hpc as (? & Hword & ?). apply (goto_inv _ _ _ _ _ H Hi); [done|]. do 3 (split; [done|]).
    eapply must_wait_passed; [apply (mv_sides _ _ H)|exact Hword|done].
  - by apply room_inv.
  - by eapply reserve_inv.
  - unfold cas_pair in Hcas. destruct (decide _); [done|]. injection Hcas as <- <-. subst ht.
    destruct Hpc as (? & ? & ? & ? & ?). apply (goto_inv _ _ _ _ _ H Hi); [done|]. split; [lia|].
    split; [|apply (stamp_now (view_of T s (job_side j)))]. apply (head_word_now _ _ _ (view_of T s (job_side j))), (mv_sides _ _ H).
Qed.

Lemma mode_step_inv s s' : mode_step s s' -> (exists T, mode_inv T s) -> exists T, mode_inv T s'.
Proof.
  intros (Ht & i & [Hst|[Hst|[Hst|Hst]]]) [T H].
  - exists T. by eapply reserve_step_inv.
  - exists T. destruct Hst; [by eapply write_inv | by eapply read_inv].
  - by eapply hts_release_inv.
  - by eapply rts_release_inv.
Qed.
End Invariant.
