(* ===== verification/RingModesSpec.v ===== *)
(** * Rings in the head-tail-sync and relaxed modes, from rest to rest

    The theorems of [RingModes] for a well-formed ring whose sides are each in one of the two
    modes: every dequeue gets a contiguous part of the history, the parts do not overlap
    ([mode_fifo]); when all have returned the ring is a well-formed ring of the sequential
    model that holds what is left ([mode_quiescent]); and no wait is for a thread that waits
    ([mode_progress]). *)

From S2P Require Import Prelude Common Atomic RingCore RingCopy RingElem RingConc RingModes.

Open Scope Z_scope.

Definition mode_start (r : rte_ring) (n : nat) : msys := MSys r (repeat MIdle n) (contents 4 r) 0 [] (0, 0)%nat (0, 0)%nat.

(** The rings the theorems are about. *)
Definition mode_ring (r : rte_ring) : Prop := ring_wf 4 r /\ is_mode (r_prod r) /\ is_mode (r_cons r).

Lemma idle_owned {X : Type} (f : mpc -> list X) n : f MIdle = [] -> all_owned f (repeat MIdle n) = [].
Proof. intros Hf. unfold all_owned. induction n as [|n IH]; [done|]. cbn. by rewrite Hf. Qed.
Lemma idle_only (pcs : list mpc) : Forall (fun p => p = MIdle) pcs -> pcs = repeat MIdle (length pcs).
Proof. induction 1 as [|p l -> _ IH]; [done|]. cbn. by rewrite <- IH. Qed.

Lemma quiet_side p0 ht len : quiet ht -> is_mode ht -> ht_tail ht = u32 (p0 + Z.of_nat len) ->
  side_ok p0 (ht_w0 ht) ht (View len 0 0 len []).
Proof.
  intros [Ht Hq] Hm Hp. split; cbn; try done.
  - destruct Hm as [E|E]; rewrite E in *.
    + split; [by rewrite Hq|]. by intros ? ? ?%elem_of_nil.
    + destruct Hq as (Hw & Hc & Hh & _). unfold rts_head. rewrite Hc, Hh, Hp, Z.add_0_r, (u32_small (ht_w0 ht)) by done. done.
  - split; [done|]. split; [lia|]. by intros ? ? ?%elem_of_nil.
  - constructor.
Qed.

Lemma mode_start_inv r n : mode_ring r ->
  exists k, r_size r = 2 ^ k /\
    exists T, mode_inv k (ht_tail (r_cons r)) (fun sd => ht_w0 (ht_of sd r)) T (mode_start r n).
Proof.
  intros (Hwf & Hmp & Hmc). pose proof (contents_length 4 r Hwf) as Hcl. change (4 / 4) with 1 in Hcl.
  destruct Hwf as [[_ (k & Hk & Hsz) Hmask Hcap _ Hmem] Hp Hc Hu]. change (4 / 4) with 1 in Hmem.
  exists k. split; [done|]. exists (fun sd => match sd with Prod => length (contents 4 r) | Cons => 0%nat end).
  assert (Hused : used r = u32 (ht_tail (r_prod r) - ht_tail (r_cons r))) by done.
  assert (Hf : forall sd, flights sd (mode_start r n) = []) by (intros sd; by apply idle_owned).
  pose proof (proj1 Hp) as Hpt. pose proof (proj1 Hc) as Hct.
  split; cbn; try done.
  - rewrite <- Hsz. lia.
  - lia.
  - intros sd. unfold view_of. rewrite Hf. destruct sd; cbn; apply quiet_side; (done || wrap_lia).
  - intros q Hq _. symmetry. apply contents_at; (done || lia).
  - by intros ? ? ?%elem_of_nil.
  - by rewrite Hf.
  - intros i p Hi. apply list_elem_of_lookup_2, list_elem_of_In in Hi. by rewrite (repeat_spec _ _ _ Hi).
Qed.

Lemma mode_run_inv r n s k c0 T : mode_inv k (ht_tail (r_cons r)) c0 T (mode_start r n) ->
  rtc mode_step (mode_start r n) s -> exists T, mode_inv k (ht_tail (r_cons r)) c0 T s.
Proof.
  intros H Hs. apply (rtc_invariant _ (fun s => exists T, mode_inv k (ht_tail (r_cons r)) c0 T s) _ _
    (mode_step_inv k _ c0) Hs). by eexists.
Qed.

(** Everything released is in the log. *)
Lemma released_served k p0 c0 T s : mode_inv k p0 c0 T s -> (T Cons <= length (positions (served (m_log s))))%nat.
Proof.
  intros H. rewrite <- (length_seq (T Cons) 0). apply NoDup_incl_length; [apply NoDup_ListNoDup, NoDup_seq|].
  intros q Hq. apply in_seq in Hq. apply list_elem_of_In. pose proof (mv_order _ _ _ _ _ H).
  assert (Hin : q ∈ positions (served (m_log s)) ++ positions (flights Cons s)).
  { rewrite (mv_served _ _ _ _ _ H). apply elem_of_seq. lia. }
  apply elem_of_app in Hin as [|Hin]; [done|]. exfalso. apply in_positions in Hin as (st & n & Hx & Hr).
  destruct (mv_sides _ _ _ _ _ H Cons) as [_ _ _ _ (_ & _ & Hsp) _]. apply Hsp in Hx. cbn in Hx. lia.
Qed.

(** C3: the multi-producer multi-consumer ring is a FIFO queue under any interleaving also when
    each of its sides is in the head-tail-sync or in the relaxed-tail-sync mode: from a
    well-formed ring of 4-byte elements, whatever its counters, for any number of threads that enqueue and dequeue
    in bulk or burst, every finished dequeue returned consecutive elements of the sequence in
    which producers reserved room, no position was returned twice, and none that is not yet
    reserved by a consumer; and never more than [capacity] elements are reserved and not yet
    dequeued. The loads and stores are sequentially consistent, the 64-bit compare-and-sets are
    atomic, and no thread sleeps before one of them until the word has come round again. *)
Theorem mode_fifo r n s : mode_ring r -> rtc mode_step (mode_start r n) s ->
  (forall st got, (st, got) ∈ m_log s -> got = take (length got) (drop st (m_in s))) /\
  NoDup (positions (served (m_log s))) /\
  (forall q, q ∈ positions (served (m_log s)) -> (q < m_taken s <= length (m_in s))%nat) /\
  Z.of_nat (length (m_in s)) <= Z.of_nat (length (positions (served (m_log s)))) + r_capacity (m_ring s).
Proof.
  intros Hr Hs. destruct (mode_start_inv r n Hr) as (k & _ & T0 & H0).
  destruct (mode_run_inv _ _ _ _ _ _ H0 Hs) as [T H]. pose proof (mv_served _ _ _ _ _ H) as Hserved.
  pose proof (mv_order _ _ _ _ _ H) as (? & ? & ?). split; [apply (mv_log _ _ _ _ _ H)|].
  assert (Hnd : NoDup (positions (served (m_log s)) ++ positions (flights Cons s))) by (rewrite Hserved; apply NoDup_seq).
  apply NoDup_app in Hnd as (Hnd & _ & _). split; [done|]. split.
  - intros q Hq. assert (Hin : q ∈ seq 0 (m_taken s)) by (rewrite <- Hserved; apply elem_of_app; by left).
    apply elem_of_seq in Hin. lia.
  - pose proof (released_served _ _ _ _ _ H). lia.
Qed.

(** ** Rest *)

(** The modes and the limits of the relaxed mode never change. *)
Definition same_modes (r r' : rte_ring) : Prop := forall sd,
  ht_sync_type (ht_of sd r') = ht_sync_type (ht_of sd r) /\ ht_htd_max (ht_of sd r') = ht_htd_max (ht_of sd r).

Lemma same_modes_set sd ht r :
  ht_sync_type ht = ht_sync_type (ht_of sd r) -> ht_htd_max ht = ht_htd_max (ht_of sd r) -> same_modes r (set_ht sd ht r).
Proof. intros E1 E2 sd'. rewrite ht_of_set. by destruct (decide (sd = sd')) as [<-|]. Qed.
Lemma set_head_word_max w ht : ht_htd_max (set_head_word w ht) = ht_htd_max ht.
Proof. unfold set_head_word. by destruct (ht_sync_type ht). Qed.
Lemma finish_ring c st s : m_ring (record_finish c st s) = m_ring s.
Proof. by destruct c. Qed.
Lemma reserve_ring j n s : m_ring (record_reserve j n s) = m_ring s.
Proof. by destruct j. Qed.

Lemma mode_step_modes s s' : mode_step s s' -> same_modes (m_ring s) (m_ring s').
Proof.
  intros (_ & i & Hst). assert (Hid : forall r, same_modes r r) by done.
  destruct Hst as [[]|[[]|[[]|[]]]]; cbn; rewrite ?finish_ring, ?reserve_ring; try apply Hid; cbn.
  - apply same_modes_set; subst; [apply head_word_sync|apply set_head_word_max].
  - by intros [].
  - apply same_modes_set; by subst.
  - apply same_modes_set; by subst.
Qed.
Lemma mode_run_modes s s' : rtc mode_step s s' -> same_modes (m_ring s) (m_ring s').
Proof.
  induction 1 as [s|s s1 s2 Hst _ IH]; [done|]. intros sd. destruct (IH sd) as [-> ->]. by apply mode_step_modes.
Qed.

(** Parts of a list that make up an interval, put in order. *)
Lemma order_parts (inn : list Z) (log : list (nat * list Z)) a n :
  (forall st got, (st, got) ∈ log -> got = take (length got) (drop st inn)) ->
  positions (served log) ≡ₚ seq a n ->
  exists log', log' ≡ₚ log /\ concat (map snd log') = take n (drop a inn).
Proof.
  remember (length log) as m eqn:Em. revert log a n Em.
  induction m as [|m IH]; intros log a n Em Hlog Hpos.
  - destruct log; [|done]. assert (n = 0%nat) as -> by (apply Permutation_length in Hpos; by rewrite length_seq in Hpos).
    by exists [].
  - destruct n as [|n].
    + exists log. split; [done|]. rewrite take_0. cbn in Hpos. apply Permutation_length in Hpos. clear -Hpos.
      induction log as [|[st got] log IH]; [done|]. cbn [served map] in Hpos. rewrite positions_cons, length_app, length_seq in Hpos.
      cbn in *. destruct got; [|cbn in Hpos; lia]. cbn. apply IH. unfold served. lia.
    + assert (Ha : a ∈ positions (served log)) by (rewrite Hpos; left).
      apply in_positions in Ha as (st & l & Hx & Hr). unfold served in Hx. apply list_elem_of_In, in_map_iff in Hx as ([st' got] & [= -> <-] & Hx).
      apply list_elem_of_In in Hx. pose proof (Hlog _ _ Hx) as Hgot. apply elem_of_Permutation in Hx as [log1 Hx].
      assert (Hs : served log ≡ₚ (st, length got) :: served log1) by (unfold served; by rewrite Hx).
      rewrite Hs, positions_cons in Hpos.
      assert (st = a) as -> by (assert (Hin : st ∈ seq a (S n)) by (rewrite <- Hpos; apply elem_of_app; left; apply elem_of_seq; lia);
        apply elem_of_seq in Hin; lia).
      assert (Hln : (length got <= S n)%nat) by (apply Permutation_length in Hpos; rewrite length_app, !length_seq in Hpos; lia).
      replace (S n) with (length got + (S n - length got))%nat in Hpos by lia. rewrite seq_app in Hpos. apply Permutation_app_inv_l in Hpos.
      destruct (IH log1 _ _ ltac:(apply Permutation_length in Hx; cbn in Hx; lia) ltac:(intros st' got' Hi; apply Hlog; rewrite Hx; by right) Hpos) as (log' & Hp & Hc).
      exists ((a, got) :: log'). split; [by rewrite Hp, Hx|]. cbn [map concat snd]. rewrite Hc.
      rewrite Hgot at 1. rewrite <- drop_drop, take_take_drop. do 2 f_equal. lia.
Qed.

(** C14: when every thread has returned, the ring, of 4-byte elements, is again a well-formed ring at rest of the
    sequential model, in the same modes, and the sequence of all the elements enqueued is the
    results of the dequeues, in the order of their reservations, followed by the contents:
    nothing is lost, duplicated or reordered. *)
Theorem mode_quiescent r n s : mode_ring r -> rtc mode_step (mode_start r n) s ->
  Forall (fun p => p = MIdle) (m_pcs s) ->
  ring_wf 4 (m_ring s) /\ same_modes r (m_ring s) /\
  exists log', log' ≡ₚ m_log s /\ m_in s = concat (map snd log') ++ contents 4 (m_ring s).
Proof.
  intros Hr Hs Hidle. destruct (mode_start_inv r n Hr) as (k & _ & T0 & H0).
  destruct (mode_run_inv _ _ _ _ _ _ H0 Hs) as [T H]. pose proof (mode_run_modes _ _ Hs) as Hmodes. cbn in Hmodes.
  destruct Hr as ([_ Hqp Hqc _] & Hmp & Hmc).
  assert (Hf : forall sd, flights sd s = []) by (intros sd; unfold flights; rewrite (idle_only _ Hidle); by apply idle_owned).
  assert (Htail : forall sd, T sd = reserved sd s) by (intros sd; apply (so_done _ _ _ _ (mv_sides _ _ _ _ _ H sd)), Hf).
  assert (Hq : forall sd, quiet (ht_of sd r) -> is_mode (ht_of sd r) -> is_mode (ht_of sd (m_ring s)) /\ quiet (ht_of sd (m_ring s))).
  { intros sd [_ Hq] Hm. destruct (Hmodes sd) as [E1 E2]. split; [unfold is_mode; by rewrite E1|].
    pose proof (mv_sides _ _ _ _ _ H sd) as Hside. split; [rewrite (so_tail _ _ _ _ Hside); apply u32_range|].
    destruct Hm as [E|E]; rewrite E in Hq, E1; rewrite E1; destruct Hside as [H1 H2 H3 H4 _ _]; rewrite E1 in H2; specialize (H4 (Hf sd)); cbn in *.
    - unfold plain_quiet. destruct H2 as [-> _]. by rewrite H1, H4.
    - destruct H2 as [[= Hc Hh] Hw]. rewrite Hf in H3. cbn in H3. split; [rewrite Hw; apply u32_range|].
      split; [rewrite Hc, Hw; do 3 f_equal; lia|]. split; [by rewrite Hh, H1, H4|]. rewrite E2. apply Hq. }
  destruct (Hq Prod Hqp Hmp) as [_ Hp'], (Hq Cons Hqc Hmc) as [_ Hc'].
  destruct H as [H1 (H2 & H3 & H4 & H5) (H6 & H7 & H8) H9 H10 H11 H12 _]. rewrite !Htail in *. cbn [reserved] in *.
  pose proof (so_tail _ _ _ _ (H9 Prod)) as Etp. pose proof (so_tail _ _ _ _ (H9 Cons)) as Etc. cbn in Etp, Etc. rewrite Htail in Etp, Etc.
  assert (Hk2 : 2 ^ k <= 2 ^ 31) by (apply Z.pow_le_mono_r; lia).
  split; [|split; [done|]].
  - split; [split| | |]; rewrite ?H5; change (4 / 4) with 1; rewrite ?Z.mul_1_r; try done; try lia.
    + by exists k.
    + cbn in *. unfold used. rewrite Etp, Etc. wrap_lia.
  - rewrite (Hf Cons), app_nil_r in H12. destruct (order_parts (m_in s) (m_log s) 0 _ H11 H12) as (log' & Hlog & Hcat).
    exists log'. split; [done|]. rewrite Hcat, drop_0.
    rewrite (contents_window k (ht_tail (r_cons r)) (m_ring s) (m_in s) (m_taken s)); try done; try lia.
    + by rewrite take_drop.
    + intros q Hq'. apply H10; [lia|]. rewrite (Hf Prod). apply not_elem_of_nil.
Qed.

(** ** Progress *)

Lemma in_flight_part sd p : flight sd p <> [] ->
  exists c pos st, part_side c = sd /\
    (p = MCopy c pos st \/ (exists ot fs, p = MHead c pos st ot fs) \/ (exists ot fs hw h, p = MSwap c pos st ot fs hw h)).
Proof.
  destruct p as [| | | | |c pos st|c pos st ot fs|c pos st ot fs hw h]; cbn; try done; (destruct (decide _); [|done]); intros _;
    exists c, pos, st; (split; [done|]); eauto 10.
Qed.

Lemma copy_enabled k p0 c0 T s i c pos st : mode_inv k p0 c0 T s -> m_pcs s !! i = Some (MCopy c pos st) ->
  part_done c <> part_size c -> exists s', copy_step s i s'.
Proof.
  intros H Hi Hne. pose proof (mv_pcs _ _ _ _ _ H i _ Hi) as (Hpos & _ & Hle & _).
  pose proof (mv_size _ _ _ _ _ H) as (Hmask & _ & Hlen & _). pose proof (mv_k _ _ _ _ _ H) as Hk.
  pose proof (slot_idx_of k p0 (m_ring s) pos st (part_done c) Hk Hmask Hpos) as Eslot.
  pose proof (slot_lt k p0 (st + part_done c) ltac:(lia)) as Hlt. destruct c as [objs j|n got]; cbn in *.
  - destruct (lookup_lt_is_Some_2 objs j ltac:(lia)) as [v Hv].
    eexists. eapply (m_write s i objs j pos st v); [done|done|]. rewrite Eslot. apply wr_Ret. lia.
  - destruct (rd_ex (r_mem (m_ring s)) (slot_idx (m_ring s) pos (length got)) ltac:(lia)) as [v Hv].
    eexists. eapply (m_read s i n got pos st v); [done|lia|done].
Qed.

(** The present head word makes a thread wait only for an operation in flight. *)
Lemma wait_for_flight r n s sd : mode_ring r -> rtc mode_step (mode_start r n) s ->
  must_wait (ht_of sd (m_ring s)) (head_word (ht_of sd (m_ring s))) = true ->
  exists i p, m_pcs s !! i = Some p /\ flight sd p <> [].
Proof.
  intros Hr Hs Hw. destruct (mode_start_inv r n Hr) as (k & _ & T0 & H0).
  destruct (mode_run_inv _ _ _ _ _ _ H0 Hs) as [T H]. pose proof (mode_run_modes _ _ Hs) as Hmodes. cbn in Hmodes.
  pose proof (mv_sides _ _ _ _ _ H sd) as Hside. assert (Hne : flights sd s <> []).
  { intros E. pose proof (so_done _ _ _ _ Hside E) as Et. destruct Hside as [H1 H2 _ _ _ _]. destruct (Hmodes sd) as [Ety' Emax].
    cbn in H1, H2, Et. unfold must_wait, head_word in Hw.
    destruct (ht_sync_type (ht_of sd (m_ring s))) eqn:Ety; try done.
    - assert (Hq : quiet (ht_of sd r)) by (destruct Hr as ([_ Hqp Hqc _] & _); by destruct sd).
      destruct Hq as [_ Hq]. rewrite <- Ety' in Hq. destruct Hq as (_ & _ & _ & Hmax).
      destruct H2 as [H2 _]. rewrite H2, H1, Et, Z.sub_diag, Emax in Hw. apply Z.gtb_lt in Hw. change (u32 0) with 0 in Hw. lia.
    - destruct H2 as [H2 _]. unfold hts_pos in Hw. cbn in Hw. rewrite H1, H2, Et, Z.eqb_refl in Hw. done. }
  destruct (flights sd s) as [|x l] eqn:E; [done|]. assert (Hx : x ∈ flights sd s) by (rewrite E; left).
  unfold flights, all_owned in Hx. apply list_elem_of_In, in_concat in Hx as (l' & Hl' & Hx).
  apply in_map_iff in Hl' as (p & <- & Hp). apply list_elem_of_In, list_elem_of_lookup in Hp as [i Hi].
  exists i, p. split; [done|]. by intros E'; rewrite E' in Hx.
Qed.

(** C21: no wait is for a thread that waits, in a ring of 4-byte elements. A thread that has
    reserved can always take a step, and none of its steps is a wait. The present word of a head
    makes a thread wait only while some thread that has reserved has not finished; a thread that
    waits for the word it has loaded either does so while there is such a thread, or its word is
    out of date and the present one, which it loads next, lets it pass. And a compare-and-set of a
    tail fails only if another operation of that side has finished since the tail was loaded. *)
Theorem mode_progress r n s : mode_ring r -> rtc mode_step (mode_start r n) s ->
  (forall i p sd, m_pcs s !! i = Some p -> flight sd p <> [] ->
     exists s', copy_step s i s' \/ hts_release s i s' \/ rts_release s i s') /\
  (forall sd, must_wait (ht_of sd (m_ring s)) (head_word (ht_of sd (m_ring s))) = true ->
     exists i p, m_pcs s !! i = Some p /\ flight sd p <> []) /\
  (forall i beh j w h, m_pcs s !! i = Some (MWait beh j w h) ->
     must_wait (ht_of (job_side j) (m_ring s)) w = true ->
     (exists i' p, m_pcs s !! i' = Some p /\ flight (job_side j) p <> []) \/
     w <> head_word (ht_of (job_side j) (m_ring s)) /\
     must_wait (ht_of (job_side j) (m_ring s)) (head_word (ht_of (job_side j) (m_ring s))) = false) /\
  (forall i c pos st ot fs hw h, m_pcs s !! i = Some (MSwap c pos st ot fs hw h) ->
     rts_tail (ht_of (part_side c) (m_ring s)) <> ot -> (fs < snd (counts (part_side c) s))%nat).
Proof.
  intros Hr Hs. destruct (mode_start_inv r n Hr) as (k & _ & T0 & H0).
  destruct (mode_run_inv _ _ _ _ _ _ H0 Hs) as [T H]. split; [|split; [|split]].
  - intros i p sd Hi Hp. destruct (in_flight_part sd p Hp) as (c & pos & st & <- & [->|[(ot & fs & ->)|(ot & fs & hw & h & ->)]]).
    + destruct (decide (part_done c = part_size c)) as [Hd|Hd].
      * destruct (side_is_mode _ _ _ _ (mv_sides _ _ _ _ _ H (part_side c))) as [E|E]; eexists; right.
        -- left. by eapply m_store.
        -- right. by eapply m_tail.
      * destruct (copy_enabled _ _ _ _ _ _ _ _ _ H Hi Hd) as [s' Hs']. exists s'. by left.
    + eexists. do 2 right. by eapply m_head.
    + destruct (cas_pair (rts_tail (ht_of (part_side c) (m_ring s))) ot (swapped_word ot hw)) as [[[] m] ot'] eqn:E;
        eexists; do 2 right; [by eapply m_swap | by eapply m_swap_fail].
  - intros sd. by apply (wait_for_flight r n).
  - intros i beh j w h _ Hw. destruct (must_wait _ (head_word _)) eqn:E; [left; by apply (wait_for_flight r n)|].
    right. split; [|done]. intros ->. congruence.
  - intros i c pos st ot fs hw h Hi Hne. pose proof (mv_pcs _ _ _ _ _ H i _ Hi) as (_ & _ & Ety & Hot & Hfs & Hstill & _).
    destruct (mv_sides _ _ _ _ _ H (part_side c)) as [H1 H2 _ _ _ _]. unfold mode_of in Ety. rewrite Ety in H2. destruct H2 as [_ H2].
    cbn in *. destruct (decide (fs = (counts (part_side c) s).2)) as [->|]; [|lia]. exfalso. apply Hne.
    unfold rts_tail. rewrite H1, H2, <- Hot, <- Hstill by done. by destruct ot.
Qed.

(** ** Witnesses: relaxed producers and a head-tail-sync consumer, at the end of the counters *)

Definition demo_modes : rte_ring :=
  Ring "rts" 0 None 4 3 3 (HT 4294967295 4294967295 RTE_RING_SYNC_MT_RTS 1 4294967295 4294967295)
    (HT 4294967295 4294967295 RTE_RING_SYNC_MT_HTS 0 0 0) [0; 0; 0; 0].

Lemma demo_modes_ok : mode_ring demo_modes.
Proof.
  split; [|split; [by right|by left]]. split; [split|..]; try (by vm_compute); try (vm_compute; intuition congruence).
  exists 2. split; [lia|reflexivity].
Qed.

(** Two producers have reserved; the younger has copied and finished, and has left the
    tail to the older, which has only loaded it. *)
Definition demo_young : msys :=
  MSys (Ring "rts" 0 None 4 3 3 (HT 0 4294967295 RTE_RING_SYNC_MT_RTS 1 1 1)
      (HT 4294967295 4294967295 RTE_RING_SYNC_MT_HTS 0 0 0) [8; 0; 0; 7])
    [MHead (PEnq [7] 1) 4294967295 0 (4294967295, 4294967295) 0; MIdle] [7; 8] 0 [] (2, 1)%nat (0, 0)%nat.
(** Everybody has returned. *)
Definition demo_rest : msys :=
  MSys (Ring "rts" 0 None 4 3 3 (HT 1 1 RTE_RING_SYNC_MT_RTS 1 1 1)
      (HT 0 0 RTE_RING_SYNC_MT_HTS 0 0 0) [8; 0; 0; 7])
    [MIdle; MIdle] [7; 8] 1 [(0%nat, [7])] (2, 2)%nat (1, 1)%nat.

Ltac in_time_now :=
  intros [|[|i]] p Hi; cbn in Hi; try discriminate; injection Hi as <-; cbn; lia || exact I.
Ltac next_mode i c :=
  eapply rtc_to;
  [split; [in_time_now | exists i; c; (reflexivity || (cbn; lia))]
  |match goal with |- ?a = _ => let v := eval vm_compute in a in exact (eq_refl v <: a = v) end|].
Ltac reserves i :=
  next_mode i ltac:(left; eapply m_load); next_mode i ltac:(left; eapply m_pass);
  next_mode i ltac:(left; eapply m_room); next_mode i ltac:(left; eapply m_cas).

Lemma demo_run_young : rtc mode_step (mode_start demo_modes 2) demo_young.
Proof.
  change (mode_start demo_modes 2) with (MSys demo_modes [MIdle; MIdle] [] 0 [] (0, 0)%nat (0, 0)%nat).
  next_mode 0%nat ltac:(left; eapply (m_call _ _ RTE_RING_QUEUE_FIXED (Enq [7]))). reserves 0%nat.
  next_mode 1%nat ltac:(left; eapply (m_call _ _ RTE_RING_QUEUE_FIXED (Enq [8]))). reserves 1%nat.
  next_mode 0%nat ltac:(right; left; eapply m_write). next_mode 0%nat ltac:(right; right; right; eapply m_tail).
  next_mode 1%nat ltac:(right; left; eapply m_write). next_mode 1%nat ltac:(right; right; right; eapply m_tail).
  next_mode 1%nat ltac:(right; right; right; eapply m_head). next_mode 1%nat ltac:(right; right; right; eapply m_swap).
  apply rtc_refl.
Qed.

Lemma demo_run_rest : rtc mode_step (mode_start demo_modes 2) demo_rest.
Proof.
  eapply rtc_trans; [exact demo_run_young|].
  next_mode 0%nat ltac:(right; right; right; eapply m_head). next_mode 0%nat ltac:(right; right; right; eapply m_swap_fail).
  next_mode 0%nat ltac:(right; right; right; eapply m_head). next_mode 0%nat ltac:(right; right; right; eapply m_swap).
  next_mode 1%nat ltac:(left; eapply (m_call _ _ RTE_RING_QUEUE_VARIABLE (Deq 1))). reserves 1%nat.
  next_mode 1%nat ltac:(right; left; eapply m_read). next_mode 1%nat ltac:(right; right; left; eapply m_store).
  apply rtc_refl.
Qed.

Lemma mode_fifo_witness : NoDup (positions (served (m_log demo_rest))) /\ [7] = take 1 (m_in demo_rest).
Proof.
  destruct (mode_fifo demo_modes 2 demo_rest demo_modes_ok demo_run_rest) as (H & Hn & _).
  split; [exact Hn|]. apply (H 0%nat [7]). left.
Defined.

Lemma mode_quiescent_witness : ring_wf 4 (m_ring demo_rest).
Proof. exact (proj1 (mode_quiescent demo_modes 2 demo_rest demo_modes_ok demo_run_rest ltac:(by repeat constructor))). Defined.

Lemma mode_progress_witness : exists s', copy_step demo_young 0 s' \/ hts_release demo_young 0 s' \/ rts_release demo_young 0 s'.
Proof.
  apply (proj1 (mode_progress demo_modes 2 demo_young demo_modes_ok demo_run_young) 0%nat _ Prod eq_refl). by vm_compute.
Defined.
