(* ===== verification/Jhash.v ===== *)
(** * [rte_lib/rte_jhash.h]: Jenkins' hash

    The key is a range of addresses of a byte memory, so that the two branches
    of the code - word loads on an aligned key, shifted pairs of aligned words
    otherwise - read what they read in the source. Both are proved equal to a
    hash of the list of the key's bytes. *)

From S2P Require Import Prelude.

Open Scope Z_scope.

(** ** Definitions *)

(** A memory gives the byte at each address (its low eight bits); [ld32] is a
    little-endian 32-bit load. *)
Definition memory := Z -> Z.
Definition ld8 (m : memory) (p : Z) : Z := u8 (m p).
Definition ld32 (m : memory) (p : Z) : Z :=
  ld8 m p + 256 * ld8 m (p + 1) + 65536 * ld8 m (p + 2) + 16777216 * ld8 m (p + 3).

(* rte_lib/rte_jhash.h:45-45 rot *)
Definition rot (x k : Z) : Z := Z.lor (u32 (Z.shiftl x k)) (Z.shiftr x (32 - k)).

(* rte_lib/rte_jhash.h:48-55 __rte_jhash_mix *)
Definition __rte_jhash_mix (abc : Z * Z * Z) : Z * Z * Z :=
  let '(a, b, c) := abc in
  let a := (a - c)%u32 in let a := Z.lxor a (rot c 4) in let c := (c + b)%u32 in
  let b := (b - a)%u32 in let b := Z.lxor b (rot a 6) in let a := (a + c)%u32 in
  let c := (c - b)%u32 in let c := Z.lxor c (rot b 8) in let b := (b + a)%u32 in
  let a := (a - c)%u32 in let a := Z.lxor a (rot c 16) in let c := (c + b)%u32 in
  let b := (b - a)%u32 in let b := Z.lxor b (rot a 19) in let a := (a + c)%u32 in
  let c := (c - b)%u32 in let c := Z.lxor c (rot b 4) in let b := (b + a)%u32 in
  (a, b, c).

(* rte_lib/rte_jhash.h:57-65 __rte_jhash_final *)
Definition __rte_jhash_final (abc : Z * Z * Z) : Z * Z * Z :=
  let '(a, b, c) := abc in
  let c := Z.lxor c b in let c := (c - rot b 14)%u32 in
  let a := Z.lxor a c in let a := (a - rot c 11)%u32 in
  let b := Z.lxor b a in let b := (b - rot a 25)%u32 in
  let c := Z.lxor c b in let c := (c - rot b 16)%u32 in
  let a := Z.lxor a c in let a := (a - rot c 4)%u32 in
  let b := Z.lxor b a in let b := (b - rot a 14)%u32 in
  let c := Z.lxor c b in let c := (c - rot b 24)%u32 in
  (a, b, c).

(* rte_lib/rte_jhash.h:68-68 RTE_JHASH_GOLDEN_RATIO *)
Definition RTE_JHASH_GOLDEN_RATIO : Z := 3735928559.

(** The little-endian form; [y] is widened to 64 bits before the shift. *)
(* rte_lib/rte_jhash.h:71-71 BIT_SHIFT *)
Definition BIT_SHIFT (x y k : Z) : Z := Z.lor (Z.shiftr x k) (u64 (Z.shiftl y (32 - k))).

Definition LOWER8b_MASK : Z := 255.
Definition LOWER16b_MASK : Z := 65535.
Definition LOWER24b_MASK : Z := 16777215.

(** [a += k[0]; b += k[1]; c += k[2]], where a [k[i]] may be masked or absent (0). *)
(* rte_lib/rte_jhash.h:115-117 __rte_jhash_2hashes *)
Definition add3 (abc : Z * Z * Z) (x y z : Z) : Z * Z * Z :=
  let '(a, b, c) := abc in ((a + x)%u32, (b + y)%u32, (c + z)%u32).

(** The two branches of the function have one loop and one switch over the words
    they load: [w k i] is [k[i]] or [BIT_SHIFT(k[i], k[i + 1], s)]. *)
(* rte_lib/rte_jhash.h:114-123 __rte_jhash_2hashes *)
Definition jhash_blocks (w : Z -> Z -> Z) (length : Z) (abc : Z * Z * Z) (k : Z)
    : outcome (Z * Z * Z * Z * Z) :=
  while (Z.to_nat length)
    (fun st : Z * Z * Z * Z * Z => let '(_, _, length) := st in length >? 12)
    (fun st : Z * Z * Z * Z * Z =>
       let '(abc, k, length) := st in
       Ret (__rte_jhash_mix (add3 abc (w k 0) (w k 1) (w k 2)), k + 12, length - 12))
    (abc, k, length).

(* rte_lib/rte_jhash.h:125-155 __rte_jhash_2hashes *)
Definition jhash_tail (w : Z -> Z -> Z) (length : Z) (abc : Z * Z * Z) (k : Z) : Z * Z * Z :=
  match length with
  | 12 => add3 abc (w k 0) (w k 1) (w k 2)
  | 11 => add3 abc (w k 0) (w k 1) (Z.land (w k 2) LOWER24b_MASK)
  | 10 => add3 abc (w k 0) (w k 1) (Z.land (w k 2) LOWER16b_MASK)
  | 9 => add3 abc (w k 0) (w k 1) (Z.land (w k 2) LOWER8b_MASK)
  | 8 => add3 abc (w k 0) (w k 1) 0
  | 7 => add3 abc (w k 0) (Z.land (w k 1) LOWER24b_MASK) 0
  | 6 => add3 abc (w k 0) (Z.land (w k 1) LOWER16b_MASK) 0
  | 5 => add3 abc (w k 0) (Z.land (w k 1) LOWER8b_MASK) 0
  | 4 => add3 abc (w k 0) 0 0
  | 3 => add3 abc (Z.land (w k 0) LOWER24b_MASK) 0 0
  | 2 => add3 abc (Z.land (w k 0) LOWER16b_MASK) 0 0
  | 1 => add3 abc (Z.land (w k 0) LOWER8b_MASK) 0 0
  | _ => abc
  end.

(** [*pc] and [*pb]. *)
(* rte_lib/rte_jhash.h:92-230 __rte_jhash_2hashes *)
Definition __rte_jhash_2hashes (m : memory) (key length pc pb : Z) (check_align : bool)
    : outcome (Z * Z) :=
  let a := ((RTE_JHASH_GOLDEN_RATIO + length) + pc)%u32 in
  let b := a in
  let c := (a + pb)%u32 in
  let k := Z.land key (Z.lnot 3) in
  let s := Z.land key 3 * 8 in
  let aligned := negb check_align || (s =? 0) in
  let w := if aligned then fun k i => ld32 m (k + 4 * i)
           else fun k i => BIT_SHIFT (ld32 m (k + 4 * i)) (ld32 m (k + 4 * (i + 1))) s in
  '(abc, k, length) ← jhash_blocks w length (a, b, c) k;
  let '(a, b, c) := jhash_tail w length abc k in
  if length =? 0 then Ret (c, b)
  else let '(a, b, c) := __rte_jhash_final (a, b, c) in Ret (c, b).

(* rte_lib/rte_jhash.h:247-251 rte_jhash_2hashes *)
Definition rte_jhash_2hashes (m : memory) (key length pc pb : Z) : outcome (Z * Z) :=
  __rte_jhash_2hashes m key length pc pb true.

(* rte_lib/rte_jhash.h:268-272 rte_jhash_32b_2hashes *)
Definition rte_jhash_32b_2hashes (m : memory) (k length pc pb : Z) : outcome (Z * Z) :=
  __rte_jhash_2hashes m k (u32 (Z.shiftl length 2)) pc pb false.

(* rte_lib/rte_jhash.h:291-299 rte_jhash *)
Definition rte_jhash (m : memory) (key length initval : Z) : outcome Z :=
  let initval2 := 0 in
  '(initval, initval2) ← rte_jhash_2hashes m key length initval initval2;
  Ret initval.

(* rte_lib/rte_jhash.h:314-322 rte_jhash_32b *)
Definition rte_jhash_32b (m : memory) (k length initval : Z) : outcome Z :=
  let initval2 := 0 in
  '(initval, initval2) ← rte_jhash_32b_2hashes m k length initval initval2;
  Ret initval.

(* rte_lib/rte_jhash.h:324-334 __rte_jhash_3words *)
Definition __rte_jhash_3words (a b c initval : Z) : Z :=
  let a := (a + (RTE_JHASH_GOLDEN_RATIO + initval))%u32 in
  let b := (b + (RTE_JHASH_GOLDEN_RATIO + initval))%u32 in
  let c := (c + (RTE_JHASH_GOLDEN_RATIO + initval))%u32 in
  let '(a, b, c) := __rte_jhash_final (a, b, c) in c.

(* rte_lib/rte_jhash.h:351-355 rte_jhash_3words *)
Definition rte_jhash_3words (a b c initval : Z) : Z :=
  __rte_jhash_3words (a + 12)%u32 (b + 12)%u32 (c + 12)%u32 initval.

(* rte_lib/rte_jhash.h:370-374 rte_jhash_2words *)
Definition rte_jhash_2words (a b initval : Z) : Z :=
  __rte_jhash_3words (a + 8)%u32 (b + 8)%u32 8 initval.

(* rte_lib/rte_jhash.h:387-391 rte_jhash_1word *)
Definition rte_jhash_1word (a initval : Z) : Z :=
  __rte_jhash_3words (a + 4)%u32 4 4 initval.

(** ** The reference: a hash of a list of bytes *)

(** The little-endian word of the first four bytes, absent bytes counting 0. *)
Definition word_of (l : list Z) : Z :=
  nth 0 l 0 + 256 * nth 1 l 0 + 65536 * nth 2 l 0 + 16777216 * nth 3 l 0.

Definition add_block (abc : Z * Z * Z) (l : list Z) : Z * Z * Z :=
  add3 abc (word_of l) (word_of (drop 4 l)) (word_of (drop 8 l)).

(** Blocks of twelve bytes are mixed in while more than twelve remain; a last,
    non-empty block is added, zero-padded, and finalised. *)
Fixpoint jhash_ref (fuel : nat) (l : list Z) (abc : Z * Z * Z) : Z * Z :=
  let fin '(a, b, c) := (c, b) in
  match fuel with
  | S fuel =>
      if (12 <? length l)%nat
      then jhash_ref fuel (drop 12 l) (__rte_jhash_mix (add_block abc (take 12 l)))
      else match l with
           | [] => fin abc
           | _ => fin (__rte_jhash_final (add_block abc l))
           end
  | O => fin abc
  end.

Definition jhash_bytes (l : list Z) (pc pb : Z) : Z * Z :=
  let a := u32 (RTE_JHASH_GOLDEN_RATIO + Z.of_nat (length l) + pc) in
  jhash_ref (S (length l)) l (a, a, (a + pb)%u32).

(** The bytes of a key in memory. *)
Definition key_bytes (m : memory) (key len : Z) : list Z := ld8 m <$> seqZ key len.

(** ** Lemmas *)

Lemma key_bytes_length m p n : length (key_bytes m p n) = Z.to_nat n.
Proof. unfold key_bytes. by rewrite length_fmap, length_seqZ. Qed.

Lemma nth_key_bytes m p n i :
  nth i (key_bytes m p n) 0 = if Z.of_nat i <? n then ld8 m (p + Z.of_nat i) else 0.
Proof.
  unfold key_bytes. rewrite nth_lookup, list_lookup_fmap.
  destruct (Z.ltb_spec (Z.of_nat i) n).
  - by rewrite lookup_seqZ_lt by lia.
  - by rewrite lookup_seqZ_ge by lia.
Qed.

Lemma drop_key_bytes m p n k :
  drop k (key_bytes m p n) = key_bytes m (p + Z.of_nat k) (n - Z.of_nat k).
Proof.
  apply list_eq. intros i. rewrite lookup_drop. unfold key_bytes.
  rewrite !list_lookup_fmap.
  destruct (decide (Z.of_nat (k + i) < n)).
  - rewrite !lookup_seqZ_lt by lia. cbn. do 2 f_equal. lia.
  - rewrite !lookup_seqZ_ge by lia. done.
Qed.

Lemma take_key_bytes m p n k :
  Z.of_nat k <= n -> take k (key_bytes m p n) = key_bytes m p (Z.of_nat k).
Proof.
  intros Hk. apply list_eq. intros i. unfold key_bytes.
  destruct (decide (i < k)%nat).
  - rewrite lookup_take_lt, !list_lookup_fmap, !lookup_seqZ_lt by lia. done.
  - rewrite lookup_take_ge, list_lookup_fmap, lookup_seqZ_ge by lia. done.
Qed.

Lemma ld8_range m p : 0 <= ld8 m p < 256.
Proof. apply Z.mod_pos_bound. lia. Qed.

(** A partial word is the loaded word with the missing high bytes masked off. *)
Lemma word_of_key m p n :
  word_of (key_bytes m p n) =
  if 4 <=? n then ld32 m p
  else if n =? 3 then ld32 m p mod 2 ^ 24
  else if n =? 2 then ld32 m p mod 2 ^ 16
  else if n =? 1 then ld32 m p mod 2 ^ 8 else 0.
Proof.
  unfold word_of, ld32. rewrite !nth_key_bytes.
  pose proof (ld8_range m p). pose proof (ld8_range m (p + 1)).
  pose proof (ld8_range m (p + 2)). pose proof (ld8_range m (p + 3)).
  change (Z.of_nat 0) with 0. change (Z.of_nat 1) with 1.
  change (Z.of_nat 2) with 2. change (Z.of_nat 3) with 3. rewrite Z.add_0_r.
  destruct (Z.ltb_spec 0 n), (Z.ltb_spec 1 n), (Z.ltb_spec 2 n), (Z.ltb_spec 3 n),
    (Z.leb_spec 4 n), (Z.eqb_spec n 3), (Z.eqb_spec n 2), (Z.eqb_spec n 1); try lia;
    Z.div_mod_to_equations; lia.
Qed.

(** Disjoint words: the shifted pair of aligned words is the word between them. *)
Lemma lor_disjoint x y k :
  0 <= k -> 0 <= x < 2 ^ k -> Z.lor x (y * 2 ^ k) = x + y * 2 ^ k.
Proof.
  intros Hk Hx. rewrite <- Z.shiftl_mul_pow2 by done.
  rewrite Z.add_nocarry_lxor.
  - apply Z.bits_inj'. intros i Hi. rewrite Z.lor_spec, Z.lxor_spec.
    destruct (Z.ltb_spec i k).
    + rewrite Z.shiftl_spec_low by lia. by destruct (Z.testbit x i).
    + assert (Z.testbit x i = false) as ->; [|by destruct (Z.testbit _ i)].
      rewrite <- (Z.mod_small x (2 ^ k)) by done. apply Z.mod_pow2_bits_high. lia.
  - apply Z.bits_inj'. intros i Hi. rewrite Z.land_spec, Z.bits_0.
    destruct (Z.ltb_spec i k).
    + rewrite Z.shiftl_spec_low by lia. apply andb_false_r.
    + assert (Z.testbit x i = false) as ->; [|done].
      rewrite <- (Z.mod_small x (2 ^ k)) by done. apply Z.mod_pow2_bits_high. lia.
Qed.

Lemma ld32_range m p : is_u32 (ld32 m p).
Proof.
  unfold ld32. pose proof (ld8_range m p). pose proof (ld8_range m (p + 1)).
  pose proof (ld8_range m (p + 2)). pose proof (ld8_range m (p + 3)). lia.
Qed.

(** Eight bytes as two words, shifted by one, two or three bytes. *)
Lemma shifted_bytes b0 b1 b2 b3 b4 b5 b6 b7 :
  0 <= b0 < 256 -> 0 <= b1 < 256 -> 0 <= b2 < 256 -> 0 <= b3 < 256 ->
  0 <= b4 < 256 -> 0 <= b5 < 256 -> 0 <= b6 < 256 -> 0 <= b7 < 256 ->
  let x := b0 + 256 * b1 + 65536 * b2 + 16777216 * b3 in
  let y := b4 + 256 * b5 + 65536 * b6 + 16777216 * b7 in
  u32 (x / 256 + y * 16777216) = b1 + 256 * b2 + 65536 * b3 + 16777216 * b4 /\
  u32 (x / 65536 + y * 65536) = b2 + 256 * b3 + 65536 * b4 + 16777216 * b5 /\
  u32 (x / 16777216 + y * 256) = b3 + 256 * b4 + 65536 * b5 + 16777216 * b6.
Proof.
  intros. unfold x, y, u32.
  split; [|split]; symmetry.
  - apply (Z.mod_unique_pos _ _ (b5 + 256 * b6 + 65536 * b7)); [lia|].
    rewrite <- (Z.div_unique_pos _ 256 (b1 + 256 * b2 + 65536 * b3) b0) by lia. lia.
  - apply (Z.mod_unique_pos _ _ (b6 + 256 * b7)); [lia|].
    rewrite <- (Z.div_unique_pos _ 65536 (b2 + 256 * b3) (b0 + 256 * b1)) by lia. lia.
  - apply (Z.mod_unique_pos _ _ b7); [lia|].
    rewrite <- (Z.div_unique_pos _ 16777216 b3 (b0 + 256 * b1 + 65536 * b2)) by lia. lia.
Qed.

Lemma BIT_SHIFT_word m p d :
  0 < d < 4 -> u32 (BIT_SHIFT (ld32 m p) (ld32 m (p + 4)) (d * 8)) = ld32 m (p + d).
Proof.
  intros Hd. pose proof (ld32_range m p). pose proof (ld32_range m (p + 4)).
  unfold BIT_SHIFT. rewrite Z.shiftr_div_pow2, Z.shiftl_mul_pow2 by lia.
  assert (Hp : 2 ^ (32 - d * 8) <= 2 ^ 24) by (apply Z.pow_le_mono_r; lia).
  rewrite u64_small by nia. rewrite lor_disjoint; [|lia|].
  - unfold ld32. replace (p + 4 + 1) with (p + 5) by lia.
    replace (p + 4 + 2) with (p + 6) by lia. replace (p + 4 + 3) with (p + 7) by lia.
    destruct (shifted_bytes (ld8 m p) (ld8 m (p + 1)) (ld8 m (p + 2)) (ld8 m (p + 3))
      (ld8 m (p + 4)) (ld8 m (p + 5)) (ld8 m (p + 6)) (ld8 m (p + 7)))
      as (E1 & E2 & E3); try apply ld8_range.
    assert (d = 1 \/ d = 2 \/ d = 3) as [->|[->| ->]] by lia.
    + replace (p + 1 + 1) with (p + 2) by lia. replace (p + 1 + 2) with (p + 3) by lia.
      replace (p + 1 + 3) with (p + 4) by lia. exact E1.
    + replace (p + 2 + 1) with (p + 3) by lia. replace (p + 2 + 2) with (p + 4) by lia.
      replace (p + 2 + 3) with (p + 5) by lia. exact E2.
    + replace (p + 3 + 1) with (p + 4) by lia. replace (p + 3 + 2) with (p + 5) by lia.
      replace (p + 3 + 3) with (p + 6) by lia. exact E3.
  - split; [apply Z.div_pos; lia|].
    apply Z.div_lt_upper_bound; [lia|]. rewrite <- Z.pow_add_r by lia.
    replace (d * 8 + (32 - d * 8)) with 32 by lia. lia.
Qed.

Lemma add3_u32 abc x y z x' y' z' :
  u32 x = u32 x' -> u32 y = u32 y' -> u32 z = u32 z' -> add3 abc x y z = add3 abc x' y' z'.
Proof.
  intros Hx Hy Hz. destruct abc as [[a b] c]. unfold add3.
  rewrite <- (u32_add_r a x), <- (u32_add_r b y), <- (u32_add_r c z), Hx, Hy, Hz.
  by rewrite !u32_add_r.
Qed.

Lemma land_mask_u32 x k v :
  0 <= k <= 32 -> u32 x = v -> u32 (Z.land x (2 ^ k - 1)) = v mod 2 ^ k.
Proof.
  intros Hk <-. rewrite land_ones_mod by lia. rewrite u32_mod_pow2 by lia.
  apply u32_small. pose proof (Z.mod_pos_bound x (2 ^ k)).
  assert (2 ^ k <= 2 ^ 32) by (apply Z.pow_le_mono_r; lia). lia.
Qed.

Lemma jhash_ref_big fuel l abc :
  (12 < length l)%nat ->
  jhash_ref (S fuel) l abc =
  jhash_ref fuel (drop 12 l) (__rte_jhash_mix (add_block abc (take 12 l))).
Proof. intros Hl. cbn [jhash_ref]. by rewrite (proj2 (Nat.ltb_lt _ _) Hl). Qed.

Lemma jhash_ref_small fuel l abc :
  (0 < length l <= 12)%nat ->
  jhash_ref (S fuel) l abc =
  let '(a, b, c) := __rte_jhash_final (add_block abc l) in (c, b).
Proof.
  intros [Hl1 Hl2]. cbn [jhash_ref]. rewrite (proj2 (Nat.ltb_ge _ _) Hl2).
  destruct l; [cbn in Hl1; lia|done].
Qed.

Section Branch.
(** A branch: its word reader, and the distance [d] of the key from [k]. *)
Context (m : memory) (w : Z -> Z -> Z) (d : Z).
Hypothesis Hw : forall k i, 0 <= i <= 2 -> u32 (w k i) = ld32 m (k + d + 4 * i).

Lemma reader_word k i v :
  0 <= i <= 2 -> v = ld32 m (k + d + 4 * i) -> u32 (w k i) = u32 v.
Proof. intros Hi ->. rewrite Hw by done. symmetry. apply u32_small, ld32_range. Qed.

Lemma reader_masked k i j v :
  0 <= i <= 2 -> 0 <= j <= 32 -> v = ld32 m (k + d + 4 * i) mod 2 ^ j ->
  u32 (Z.land (w k i) (2 ^ j - 1)) = u32 v.
Proof.
  intros Hi Hj ->. rewrite (land_mask_u32 _ _ _ Hj (Hw k i Hi)). symmetry.
  apply u32_small. pose proof (Z.mod_pos_bound (ld32 m (k + d + 4 * i)) (2 ^ j)).
  assert (2 ^ j <= 2 ^ 32) by (apply Z.pow_le_mono_r; lia). lia.
Qed.

(** One zero-padded block, as the switch adds it. *)
Lemma add_block_key abc p n :
  add_block abc (key_bytes m p n) =
  add3 abc (word_of (key_bytes m p n)) (word_of (key_bytes m (p + 4) (n - 4)))
    (word_of (key_bytes m (p + 8) (n - 8))).
Proof. unfold add_block. by rewrite !drop_key_bytes. Qed.

(** Decide the comparisons of literals. *)
Ltac eval_ifs :=
  repeat match goal with |- context [if ?b then _ else _] =>
    let b' := eval vm_compute in b in change b with b'; cbv iota end.

Lemma jhash_tail_ref n abc k :
  0 < n <= 12 -> jhash_tail w n abc k = add_block abc (key_bytes m (k + d) n).
Proof.
  intros Hn. rewrite add_block_key, !word_of_key.
  assert (n = 12 \/ n = 11 \/ n = 10 \/ n = 9 \/ n = 8 \/ n = 7 \/ n = 6 \/ n = 5 \/
          n = 4 \/ n = 3 \/ n = 2 \/ n = 1)
    as [->|[->|[->|[->|[->|[->|[->|[->|[->|[->|[->| ->]]]]]]]]]]] by lia;
    cbn [jhash_tail]; eval_ifs;
    apply add3_u32; try done;
    first [ apply reader_word; [lia|f_equal; lia]
          | apply (reader_masked _ _ 24); [lia|lia|do 2 f_equal; lia]
          | apply (reader_masked _ _ 16); [lia|lia|do 2 f_equal; lia]
          | apply (reader_masked _ _ 8); [lia|lia|do 2 f_equal; lia] ].
Qed.
(** What follows the loop. *)
Definition jhash_end (st : Z * Z * Z * Z * Z) : outcome (Z * Z) :=
  let '(abc, k, length) := st in
  let '(a, b, c) := jhash_tail w length abc k in
  if length =? 0 then Ret (c, b)
  else let '(a, b, c) := __rte_jhash_final (a, b, c) in Ret (c, b).

Lemma jhash_end_ref fuel n abc k :
  0 <= n <= 12 -> jhash_end (abc, k, n) = Ret (jhash_ref (S fuel) (key_bytes m (k + d) n) abc).
Proof.
  intros Hn. unfold jhash_end. cbn [jhash_ref]. rewrite key_bytes_length.
  rewrite (proj2 (Nat.ltb_ge _ _)) by lia.
  destruct (Z.eqb_spec n 0) as [->|Hne].
  - cbn. by destruct abc as [[a b] c].
  - rewrite jhash_tail_ref by lia.
    destruct (key_bytes m (k + d) n) as [|x l] eqn:E.
    + apply (f_equal length) in E. rewrite key_bytes_length in E. cbn in E. lia.
    + destruct (add_block abc (x :: l)) as [[a b] c].
      by destruct (__rte_jhash_final (a, b, c)) as [[a' b'] c'].
Qed.

Lemma jhash_branch_ref fuel n abc k :
  0 <= n <= Z.of_nat fuel ->
  while fuel (fun st : Z * Z * Z * Z * Z => let '(_, _, length) := st in length >? 12)
    (fun st : Z * Z * Z * Z * Z =>
       let '(abc, k, length) := st in
       Ret (__rte_jhash_mix (add3 abc (w k 0) (w k 1) (w k 2)), k + 12, length - 12))
    (abc, k, n) ≫= jhash_end =
  Ret (jhash_ref (S fuel) (key_bytes m (k + d) n) abc).
Proof.
  revert n abc k; induction fuel as [|fuel IH]; intros n abc k Hn.
  - assert (n = 0) as -> by lia. apply (jhash_end_ref 0). lia.
  - cbn [while]. destruct (Z.gtb_spec n 12).
    + cbn [mbind outcome_bind]. rewrite IH by lia. f_equal.
      rewrite (jhash_ref_big (S fuel)) by (rewrite key_bytes_length; lia).
      rewrite drop_key_bytes, take_key_bytes by lia.
      change (Z.of_nat 12) with 12. replace (k + 12 + d) with (k + d + 12) by lia.
      rewrite <- (jhash_tail_ref 12 abc k) by lia. done.
    + apply jhash_end_ref. lia.
Qed.
End Branch.

(** The word readers of the two branches. *)
Lemma aligned_reader m k i : u32 (ld32 m (k + 4 * i)) = ld32 m (k + 0 + 4 * i).
Proof. rewrite Z.add_0_r. apply u32_small, ld32_range. Qed.

Lemma unaligned_reader m d k i :
  0 < d < 4 ->
  u32 (BIT_SHIFT (ld32 m (k + 4 * i)) (ld32 m (k + 4 * (i + 1))) (d * 8)) =
  ld32 m (k + d + 4 * i).
Proof.
  intros Hd. replace (k + 4 * (i + 1)) with (k + 4 * i + 4) by lia.
  rewrite BIT_SHIFT_word by done. f_equal. lia.
Qed.

Lemma jhash_2hashes_bytes m key n pc pb ca :
  0 <= n -> (ca = false -> key mod 4 = 0) ->
  __rte_jhash_2hashes m key n pc pb ca = Ret (jhash_bytes (key_bytes m key n) pc pb).
Proof.
  intros Hn Hca. unfold __rte_jhash_2hashes, jhash_bytes, jhash_blocks.
  rewrite key_bytes_length, Z2Nat.id by done.
  change (Z.lnot 3) with (Z.lnot (2 ^ 2 - 1)). change (Z.land key 3) with (Z.land key (2 ^ 2 - 1)).
  rewrite land_lnot_ones, land_ones_mod by lia. change (2 ^ 2) with 4.
  pose proof (Z.mod_pos_bound key 4 ltac:(lia)) as Hd.
  set (a := u32 (RTE_JHASH_GOLDEN_RATIO + n + pc)).
  destruct (Z.eq_dec (key mod 4) 0) as [E|E].
  - rewrite E, Z.sub_0_r. change (0 * 8 =? 0) with true. rewrite orb_true_r.
    rewrite <- (Z.add_0_r key) at 2.
    apply (jhash_branch_ref m (fun k i => ld32 m (k + 4 * i)) 0);
      [intros; apply aligned_reader|lia].
  - destruct ca; [|by destruct E; apply Hca]. cbn [negb orb].
    rewrite (proj2 (Z.eqb_neq _ _)) by lia.
    replace (key_bytes m key n) with (key_bytes m (key - key mod 4 + key mod 4) n)
      by (f_equal; lia).
    apply (jhash_branch_ref m (fun k i => BIT_SHIFT (ld32 m (k + 4 * i)) (ld32 m (k + 4 * (i + 1)))
      (key mod 4 * 8)) (key mod 4)); [intros; apply unaligned_reader; lia|lia].
Qed.

(** ** Properties *)

(** The hash terminates on every key length and depends only on the bytes of
    the key: two keys with the same bytes, wherever they lie and however they
    are aligned, get the same two hashes - those of the byte-list reference. *)
Theorem jhash_depends_on_key_bytes m m' key key' n pc pb :
  0 <= n -> (forall i, 0 <= i < n -> u8 (m (key + i)) = u8 (m' (key' + i))) ->
  rte_jhash_2hashes m key n pc pb = Ret (jhash_bytes (key_bytes m key n) pc pb) /\
  rte_jhash_2hashes m' key' n pc pb = rte_jhash_2hashes m key n pc pb /\
  rte_jhash m' key' n pc = rte_jhash m key n pc.
Proof.
  intros Hn Hb.
  assert (Hk : key_bytes m key n = key_bytes m' key' n).
  { apply list_eq. intros i. unfold key_bytes. rewrite !list_lookup_fmap.
    destruct (decide (Z.of_nat i < n)).
    - rewrite !lookup_seqZ_lt by lia. cbn. f_equal. apply Hb. lia.
    - by rewrite !lookup_seqZ_ge by lia. }
  unfold rte_jhash, rte_jhash_2hashes. rewrite !jhash_2hashes_bytes, Hk by done. done.
Qed.

Lemma jhash_depends_on_key_bytes_witness :
  rte_jhash (fun p => p - 1) 4 13 7 = rte_jhash (fun p => p) 3 13 7.
Proof.
  apply (jhash_depends_on_key_bytes (fun p => p) (fun p => p - 1) 3 4 13 7 0); [lia|].
  intros i Hi. f_equal. lia.
Defined.

(** The hash of an array of words is the hash of its bytes, as long as the
    length in bytes fits in 32 bits. *)
Theorem jhash_32b_is_jhash m k n initval :
  k mod 4 = 0 -> 0 <= n < 2 ^ 30 ->
  rte_jhash_32b m k n initval = rte_jhash m k (4 * n) initval.
Proof.
  intros Hk Hn. unfold rte_jhash_32b, rte_jhash, rte_jhash_32b_2hashes, rte_jhash_2hashes.
  rewrite Z.shiftl_mul_pow2 by lia. change (2 ^ 2) with 4. rewrite u32_small by lia.
  rewrite (Z.mul_comm n 4), !jhash_2hashes_bytes by (done || lia). done.
Qed.

Lemma jhash_32b_is_jhash_witness :
  rte_jhash_32b (fun p => p) 8 5 1 = rte_jhash (fun p => p) 8 20 1.
Proof. apply (jhash_32b_is_jhash (fun p => p) 8 5 1); [reflexivity|lia]. Defined.

(** Past that bound it is not: the byte length [4 * n] is computed in 32 bits,
    so an array of [2^30] words hashes as the empty key. *)
Theorem jhash_32b_length_wraps m k initval :
  k mod 4 = 0 -> rte_jhash_32b m k (2 ^ 30) initval = rte_jhash m k 0 initval.
Proof.
  intros Hk. unfold rte_jhash_32b, rte_jhash, rte_jhash_32b_2hashes, rte_jhash_2hashes.
  change (u32 (Z.shiftl (2 ^ 30) 2)) with 0. by rewrite !jhash_2hashes_bytes by done.
Qed.

Lemma jhash_32b_length_wraps_witness :
  rte_jhash_32b (fun p => p) 16 (2 ^ 30) 3 = rte_jhash (fun p => p) 16 0 3.
Proof. apply (jhash_32b_length_wraps (fun p => p) 16 3). reflexivity. Defined.

(** C36: the one-, two- and three-word shortcuts equal the hash of the same words
    in memory with the same initial value. *)
Theorem jhash_words_are_jhash m key initval :
  let x := ld32 m key in let y := ld32 m (key + 4) in let z := ld32 m (key + 8) in
  rte_jhash m key 4 initval = Ret (rte_jhash_1word x initval) /\
  rte_jhash m key 8 initval = Ret (rte_jhash_2words x y initval) /\
  rte_jhash m key 12 initval = Ret (rte_jhash_3words x y z initval).
Proof.
  intros x y z.
  assert (Hadd : forall v n, ((v + n)%u32 + (RTE_JHASH_GOLDEN_RATIO + initval))%u32 =
                             (u32 (RTE_JHASH_GOLDEN_RATIO + n + initval) + v)%u32).
  { intros v n. rewrite !u32_add_l. f_equal. lia. }
  assert (Hn : forall n, (n + (RTE_JHASH_GOLDEN_RATIO + initval))%u32 =
                         u32 (RTE_JHASH_GOLDEN_RATIO + n + initval)).
  { intros n. f_equal. lia. }
  unfold rte_jhash, rte_jhash_2hashes, rte_jhash_1word, rte_jhash_2words, rte_jhash_3words,
    __rte_jhash_3words, jhash_bytes.
  rewrite !jhash_2hashes_bytes by (done || lia). unfold jhash_bytes.
  assert (Hw : forall n p, 4 <= n -> word_of (key_bytes m p n) = ld32 m p).
  { intros n p H4. rewrite word_of_key. by rewrite (proj2 (Z.leb_le 4 n)). }
  assert (Hz : forall n p, n <= 0 -> word_of (key_bytes m p n) = 0).
  { intros n p Hn0. unfold key_bytes. by rewrite seqZ_nil by done. }
  cbn [mbind outcome_bind]. rewrite !jhash_ref_small by (rewrite key_bytes_length; lia).
  rewrite !add_block_key, !key_bytes_length, !Z2Nat.id by lia. unfold add3.
  rewrite !(Z.add_0_r (u32 _)), !u32_idemp.
  split; [|split].
  - rewrite (Hw 4 key), Hadd, Hn by lia. fold x.
    by destruct (__rte_jhash_final _) as [[? ?] ?].
  - rewrite (Hw _ key), (Hw _ (key + 4)), !Hadd, Hn by lia. fold x y.
    by destruct (__rte_jhash_final _) as [[? ?] ?].
  - rewrite (Hw _ key), (Hw _ (key + 4)), (Hw _ (key + 8)), !Hadd by lia. fold x y z.
    by destruct (__rte_jhash_final _) as [[? ?] ?].
Qed.
