(* ===== verification/Locks.v ===== *)
(** * [generic/rte_rwlock.h], [rte_spinlock.h], [rte_ticketlock.h]

    Each lock as functions of its memory word, as one thread executes them while
    no other thread touches the word; [fuel] bounds a waiting loop, and [Spin] means
    that the thread would wait for somebody else. The accesses of several threads
    are interleaved in [LockConc]. *)

From S2P Require Import Prelude Atomic RingCore.

Open Scope Z_scope.

(** ** Definitions: one thread *)

(** *** Read-write lock: [cnt] is -1 with a writer, else the number of readers *)

(** [__atomic_compare_exchange_n] on one word: success and the new word. *)
Definition cas_word (mem expected desired : Z) : bool * Z :=
  if mem =? expected then (true, desired) else (false, mem).

Section OneThread.
Variable fuel : nat.

(* rte_lib/include/generic/rte_rwlock.h:48-52 rte_rwlock_init *)
Definition rte_rwlock_init (cnt : Z) : Z := 0.

(** The loop state is [success] and the word. *)
(* rte_lib/include/generic/rte_rwlock.h:60-76 rte_rwlock_read_lock *)
Definition rte_rwlock_read_lock (cnt : Z) : outcome Z :=
  '(_, cnt) ← while fuel (fun st => negb (fst st))
    (fun st : bool * Z =>
       let '(success, cnt) := st in
       let x := cnt in
       if x <? 0 then Ret (success, cnt) else Ret (cas_word cnt x (i32 (x + 1))))
    (false, cnt);
  Ret cnt.

(** The returned [int], then the word. *)
(* rte_lib/include/generic/rte_rwlock.h:91-108 rte_rwlock_read_trylock *)
Definition rte_rwlock_read_trylock (cnt : Z) : outcome (Z * Z) :=
  '(_, ret, cnt) ← while fuel (fun st => negb (fst (fst st)))
    (fun st : bool * Z * Z =>
       let '(_, ret, cnt) := st in
       let x := cnt in
       if x <? 0 then Ret (true, - EBUSY, cnt)
       else let '(success, cnt) := cas_word cnt x (i32 (x + 1)) in Ret (success, 0, cnt))
    (false, 0, cnt);
  Ret (ret, cnt).

(* rte_lib/include/generic/rte_rwlock.h:116-120 rte_rwlock_read_unlock *)
Definition rte_rwlock_read_unlock (cnt : Z) : Z := i32 (cnt - 1).

(* rte_lib/include/generic/rte_rwlock.h:135-147 rte_rwlock_write_trylock *)
Definition rte_rwlock_write_trylock (cnt : Z) : Z * Z :=
  let x := cnt in
  if negb (x =? 0) then (- EBUSY, cnt)
  else let '(ok, cnt) := cas_word cnt x (-1) in
       if ok then (0, cnt) else (- EBUSY, cnt).

(* rte_lib/include/generic/rte_rwlock.h:155-171 rte_rwlock_write_lock *)
Definition rte_rwlock_write_lock (cnt : Z) : outcome Z :=
  '(_, cnt) ← while fuel (fun st => negb (fst st))
    (fun st : bool * Z =>
       let '(success, cnt) := st in
       let x := cnt in
       if negb (x =? 0) then Ret (success, cnt) else Ret (cas_word cnt x (-1)))
    (false, cnt);
  Ret cnt.

(* rte_lib/include/generic/rte_rwlock.h:179-183 rte_rwlock_write_unlock *)
Definition rte_rwlock_write_unlock (cnt : Z) : Z := 0.

(** *** Spinlock: [locked] *)

(* rte_lib/include/generic/rte_spinlock.h:45-49 rte_spinlock_init *)
Definition rte_spinlock_init (locked : Z) : Z := 0.

(* rte_lib/include/generic/rte_spinlock.h:61-72 rte_spinlock_lock *)
Definition rte_spinlock_lock (locked : Z) : outcome Z :=
  '(_, locked) ← while fuel (fun st => negb (fst st))
    (fun st : bool * Z =>
       let '(_, locked) := st in
       _ ← rte_wait_until_equal_32 fuel (fun _ => u32 locked) 0;
       Ret (cas_word locked 0 1))
    (cas_word locked 0 1);
  Ret locked.

(* rte_lib/include/generic/rte_spinlock.h:85-89 rte_spinlock_unlock *)
Definition rte_spinlock_unlock (locked : Z) : Z := 0.

(* rte_lib/include/generic/rte_spinlock.h:104-111 rte_spinlock_trylock *)
Definition rte_spinlock_trylock (locked : Z) : bool * Z := cas_word locked 0 1.

(* rte_lib/include/generic/rte_spinlock.h:122-125 rte_spinlock_is_locked *)
Definition rte_spinlock_is_locked (locked : Z) : Z := locked.

(** The recursive lock; [id] is the caller's [rte_gettid()]. *)
(* rte_lib/include/generic/rte_spinlock.h:183-187 rte_spinlock_recursive_t *)
Record rte_spinlock_recursive_t := SLR { slr_sl : Z; slr_user : Z; slr_count : Z }.

(* rte_lib/include/generic/rte_spinlock.h:200-205 rte_spinlock_recursive_init *)
Definition rte_spinlock_recursive_init (slr : rte_spinlock_recursive_t) :=
  SLR (rte_spinlock_init (slr_sl slr)) (-1) 0.

(* rte_lib/include/generic/rte_spinlock.h:213-222 rte_spinlock_recursive_lock *)
Definition rte_spinlock_recursive_lock (id : Z) (slr : rte_spinlock_recursive_t)
    : outcome rte_spinlock_recursive_t :=
  slr ← if negb (slr_user slr =? id)
        then sl ← rte_spinlock_lock (slr_sl slr); Ret (SLR sl id (slr_count slr))
        else Ret slr;
  Ret (SLR (slr_sl slr) (slr_user slr) (i32 (slr_count slr + 1))).

(* rte_lib/include/generic/rte_spinlock.h:229-236 rte_spinlock_recursive_unlock *)
Definition rte_spinlock_recursive_unlock (slr : rte_spinlock_recursive_t)
    : rte_spinlock_recursive_t :=
  let slr := SLR (slr_sl slr) (slr_user slr) (i32 (slr_count slr - 1)) in
  if slr_count slr =? 0
  then SLR (rte_spinlock_unlock (slr_sl slr)) (-1) (slr_count slr)
  else slr.

(* rte_lib/include/generic/rte_spinlock.h:246-257 rte_spinlock_recursive_trylock *)
Definition rte_spinlock_recursive_trylock (id : Z) (slr : rte_spinlock_recursive_t)
    : Z * rte_spinlock_recursive_t :=
  if negb (slr_user slr =? id) then
    let '(ok, sl) := rte_spinlock_trylock (slr_sl slr) in
    if negb ok then (0, SLR sl (slr_user slr) (slr_count slr))
    else (1, SLR sl id (i32 (slr_count slr + 1)))
  else (1, SLR (slr_sl slr) (slr_user slr) (i32 (slr_count slr + 1))).

(** *** Ticket lock: two 16-bit counters in one word *)

(* rte_lib/include/generic/rte_ticketlock.h:32-38 rte_ticketlock_t *)
Record rte_ticketlock_t := TL { tl_current : Z; tl_next : Z }.

(* rte_lib/include/generic/rte_ticketlock.h:51-55 rte_ticketlock_init *)
Definition rte_ticketlock_init (tl : rte_ticketlock_t) : rte_ticketlock_t := TL 0 0.

(* rte_lib/include/generic/rte_ticketlock.h:63-68 rte_ticketlock_lock *)
Definition rte_ticketlock_lock (tl : rte_ticketlock_t) : outcome rte_ticketlock_t :=
  let me := tl_next tl in
  let tl := TL (tl_current tl) (u16 (tl_next tl + 1)) in
  _ ← rte_wait_until_equal_16 fuel (fun _ => tl_current tl) me;
  Ret tl.

(* rte_lib/include/generic/rte_ticketlock.h:76-81 rte_ticketlock_unlock *)
Definition rte_ticketlock_unlock (tl : rte_ticketlock_t) : rte_ticketlock_t :=
  let i := tl_current tl in TL (u16 (i + 1)) (tl_next tl).

(* rte_lib/include/generic/rte_ticketlock.h:91-105 rte_ticketlock_trylock *)
Definition rte_ticketlock_trylock (tl : rte_ticketlock_t) : Z * rte_ticketlock_t :=
  let old := tl in
  let new := TL (tl_current old) (u16 (tl_next old + 1)) in
  if tl_next old =? tl_current old then (1, new) else (0, tl).

(* rte_lib/include/generic/rte_ticketlock.h:115-121 rte_ticketlock_is_locked *)
Definition rte_ticketlock_is_locked (tl : rte_ticketlock_t) : bool :=
  negb (tl_current tl =? tl_next tl).

(* rte_lib/include/generic/rte_ticketlock.h:126-126 TICKET_LOCK_INVALID_ID *)
Definition TICKET_LOCK_INVALID_ID : Z := -1.

(* rte_lib/include/generic/rte_ticketlock.h:128-132 rte_ticketlock_recursive_t *)
Record rte_ticketlock_recursive_t := TLR {
  tlr_tl : rte_ticketlock_t; tlr_user : Z; tlr_count : Z }.

(* rte_lib/include/generic/rte_ticketlock.h:146-152 rte_ticketlock_recursive_init *)
Definition rte_ticketlock_recursive_init (tlr : rte_ticketlock_recursive_t) :=
  TLR (rte_ticketlock_init (tlr_tl tlr)) TICKET_LOCK_INVALID_ID 0.

(* rte_lib/include/generic/rte_ticketlock.h:160-170 rte_ticketlock_recursive_lock *)
Definition rte_ticketlock_recursive_lock (id : Z) (tlr : rte_ticketlock_recursive_t)
    : outcome rte_ticketlock_recursive_t :=
  tlr ← if negb (tlr_user tlr =? id)
        then tl ← rte_ticketlock_lock (tlr_tl tlr); Ret (TLR tl id (tlr_count tlr))
        else Ret tlr;
  Ret (TLR (tlr_tl tlr) (tlr_user tlr) (u32 (tlr_count tlr + 1))).

(* rte_lib/include/generic/rte_ticketlock.h:178-186 rte_ticketlock_recursive_unlock *)
Definition rte_ticketlock_recursive_unlock (tlr : rte_ticketlock_recursive_t)
    : rte_ticketlock_recursive_t :=
  let tlr := TLR (tlr_tl tlr) (tlr_user tlr) (u32 (tlr_count tlr - 1)) in
  if tlr_count tlr =? 0
  then TLR (rte_ticketlock_unlock (tlr_tl tlr)) TICKET_LOCK_INVALID_ID (tlr_count tlr)
  else tlr.

(* rte_lib/include/generic/rte_ticketlock.h:196-208 rte_ticketlock_recursive_trylock *)
Definition rte_ticketlock_recursive_trylock (id : Z) (tlr : rte_ticketlock_recursive_t)
    : Z * rte_ticketlock_recursive_t :=
  if negb (tlr_user tlr =? id) then
    let '(ok, tl) := rte_ticketlock_trylock (tlr_tl tlr) in
    if ok =? 0 then (0, TLR tl (tlr_user tlr) (tlr_count tlr))
    else (1, TLR tl id (u32 (tlr_count tlr + 1)))
  else (1, TLR (tlr_tl tlr) (tlr_user tlr) (u32 (tlr_count tlr + 1))).
End OneThread.

(** ** One thread *)

(** A writer lock taken when the word is free, at any fuel that allows one pass. *)
Lemma write_lock_free fuel : rte_rwlock_write_lock (S fuel) 0 = Ret (-1).
Proof. unfold rte_rwlock_write_lock. cbn. by destruct fuel. Qed.
Lemma read_lock_free fuel x :
  0 <= x -> rte_rwlock_read_lock (S fuel) x = Ret (i32 (x + 1)).
Proof.
  intros Hx. unfold rte_rwlock_read_lock. cbn [while negb fst].
  rewrite (proj2 (Z.ltb_ge x 0) Hx). cbn. unfold cas_word. rewrite Z.eqb_refl.
  by destruct fuel.
Qed.
