(* ===== verification/LockIface.v ===== *)
(** * What a lock promises to its users, and the recursive locks built on it

    [LockOk] states the promise of a lock to one thread; the writer side of the
    read-write lock, the spinlock and the ticket lock keep it. [RecursiveOk] states
    how a recursive lock uses a lock; both recursive locks of the source are
    instances, and their nesting is proved once, from the interfaces. *)

From S2P Require Import Prelude Atomic RingCore Locks.

Open Scope Z_scope.

(** ** The interface of a lock *)

(** Acquiring a free lock takes it at the first pass; acquiring a held one waits as
    long as there is fuel; releasing a held lock frees it. *)
Class LockOk {L : Type} (acquire : nat -> L -> outcome L) (release : L -> L)
    (free held : L -> Prop) : Prop := {
  lk_acquire_free fuel l : free l -> exists l', acquire (S fuel) l = Ret l' /\ held l';
  lk_acquire_held fuel l : held l -> acquire fuel l = Spin;
  lk_release_held l : held l -> free (release l);
}.

(** A waiting loop whose condition never fails spins. *)
Lemma while_stuck {S : Type} (fuel : nat) (cond : S -> bool) (body : S -> outcome S) (s : S) :
  (forall s, cond s = true) -> (forall s, exists s', body s = Ret s') -> while fuel cond body s = Spin.
Proof.
  intros Hc Hb. revert s. induction fuel as [|fuel IH]; intros s; cbn; rewrite Hc; [done|].
  destruct (Hb s) as [s' ->]. apply IH.
Qed.

#[export] Instance rwlock_writer_ok :
  LockOk rte_rwlock_write_lock rte_rwlock_write_unlock (fun cnt => cnt = 0) (fun cnt => cnt = -1).
Proof.
  split; [intros fuel l ->; exists (-1); split; [apply write_lock_free|done]| |done].
  intros fuel l ->. unfold rte_rwlock_write_lock. cbn [negb fst].
  assert (H : forall n b, b = false -> while n (fun st : bool * Z => negb (fst st))
    (fun st : bool * Z => let '(success, cnt) := st in
       if negb (cnt =? 0) then Ret (success, cnt) else Ret (cas_word cnt cnt (-1))) (b, -1) = Spin).
  { intros n b ->. induction n as [|n IH]; [done|exact IH]. }
  by rewrite H.
Qed.

#[export] Instance spinlock_ok :
  LockOk rte_spinlock_lock rte_spinlock_unlock (fun l => l = 0) (fun l => l = 1).
Proof.
  split; [intros fuel l ->; exists 1; by destruct fuel| |done].
  intros fuel l ->. unfold rte_spinlock_lock. cbn [cas_word Z.eqb].
  destruct fuel as [|fuel]; [done|]. cbn [while negb fst].
  unfold rte_wait_until_equal_32. by rewrite while_stuck by eauto.
Qed.

#[export] Instance ticketlock_ok :
  LockOk rte_ticketlock_lock rte_ticketlock_unlock
    (fun tl => is_u16 (tl_next tl) /\ tl_current tl = tl_next tl)
    (fun tl => is_u16 (tl_next tl) /\ u16 (tl_current tl + 1) = tl_next tl).
Proof.
  split.
  - intros fuel [c n] [Hn Hc]. cbn in *. subst c. exists (TL n (u16 (n + 1))). split.
    + unfold rte_ticketlock_lock, rte_wait_until_equal_16. cbn. by rewrite Z.eqb_refl.
    + split; [apply u16_range|done].
  - intros fuel [c n] [Hn Hc]. cbn in *. unfold rte_ticketlock_lock, rte_wait_until_equal_16. cbn.
    rewrite while_stuck; [done| |eauto]. intros _. apply negb_true_iff, Z.eqb_neq. wrap_lia.
  - intros [c n] [Hn Hc]. cbn in *. done.
Qed.

(** ** Recursive locks *)

(** [mk base user count]: the lock, the owner (-1 for nobody) and the depth, kept in
    the width [wrap]. *)
Class RecursiveOk {L R : Type} (acquire : nat -> L -> outcome L) (release : L -> L)
    (mk : L -> Z -> Z -> R) (wrap : Z -> Z)
    (lock : nat -> Z -> R -> outcome R) (unlock : R -> R) : Prop := {
  rec_wrap x : 0 <= x < 2 ^ 31 -> wrap x = x;
  rec_lock_owner fuel l id n : lock fuel id (mk l id n) = Ret (mk l id (wrap (n + 1)));
  rec_lock_other fuel l u id n :
    u <> id -> lock fuel id (mk l u n) = (l ← acquire fuel l; Ret (mk l id (wrap (n + 1))));
  rec_unlock l u n : unlock (mk l u n) =
    if wrap (n - 1) =? 0 then mk (release l) (-1) (wrap (n - 1)) else mk l u (wrap (n - 1));
}.

#[export] Instance recursive_spinlock_ok :
  RecursiveOk rte_spinlock_lock rte_spinlock_unlock SLR i32
    rte_spinlock_recursive_lock rte_spinlock_recursive_unlock.
Proof.
  split.
  - intros x Hx. unfold i32. rewrite u32_small by lia. by rewrite (proj2 (Z.ltb_lt _ _)) by lia.
  - intros. unfold rte_spinlock_recursive_lock. cbn. by rewrite Z.eqb_refl.
  - intros fuel l u id n Hu. unfold rte_spinlock_recursive_lock. cbn [slr_user slr_sl slr_count].
    rewrite (proj2 (Z.eqb_neq _ _) Hu). cbn [negb]. by rewrite bind_assoc.
  - done.
Qed.

#[export] Instance recursive_ticketlock_ok :
  RecursiveOk rte_ticketlock_lock rte_ticketlock_unlock TLR u32
    rte_ticketlock_recursive_lock rte_ticketlock_recursive_unlock.
Proof.
  split.
  - intros x Hx. apply u32_small. lia.
  - intros. unfold rte_ticketlock_recursive_lock. cbn. by rewrite Z.eqb_refl.
  - intros fuel l u id n Hu. unfold rte_ticketlock_recursive_lock. cbn [tlr_user tlr_tl tlr_count].
    rewrite (proj2 (Z.eqb_neq _ _) Hu). cbn [negb]. by rewrite bind_assoc.
  - done.
Qed.

(** [k] nested acquisitions by one thread, and [k] releases. *)
Fixpoint lock_times {R} (lock : R -> outcome R) (k : nat) (r : R) : outcome R :=
  match k with O => Ret r | S k => r ← lock r; lock_times lock k r end.
Fixpoint unlock_times {R} (unlock : R -> R) (k : nat) (r : R) : R :=
  match k with O => r | S k => unlock_times unlock k (unlock r) end.

Section Nesting.
Context {L R : Type} {acquire : nat -> L -> outcome L} {release : L -> L} {free held : L -> Prop}.
Context {mk : L -> Z -> Z -> R} {wrap : Z -> Z} {lock : nat -> Z -> R -> outcome R} {unlock : R -> R}.
Context (HL : LockOk acquire release free held).
Context (HR : RecursiveOk acquire release mk wrap lock unlock).

Lemma lock_more fuel id l k n :
  0 <= n -> n + Z.of_nat k < 2 ^ 31 ->
  lock_times (lock fuel id) k (mk l id n) = Ret (mk l id (n + Z.of_nat k)).
Proof.
  revert n. induction k as [|k IH]; intros n Hn Hk; cbn [lock_times].
  - by rewrite Z.add_0_r.
  - rewrite rec_lock_owner. cbn [mbind outcome_bind]. rewrite rec_wrap by lia.
    rewrite IH by lia. do 2 f_equal. lia.
Qed.

Lemma unlock_some id l n j :
  (j <= n)%nat -> Z.of_nat (S n) < 2 ^ 31 ->
  unlock_times unlock j (mk l id (Z.of_nat (S n))) = mk l id (Z.of_nat (S n) - Z.of_nat j).
Proof.
  revert n. induction j as [|j IH]; intros n Hj Hn; cbn [unlock_times]; [by rewrite Z.sub_0_r|].
  rewrite rec_unlock, rec_wrap by lia. rewrite (proj2 (Z.eqb_neq _ _)) by lia.
  replace (Z.of_nat (S n) - 1) with (Z.of_nat (S (n - 1))) by lia.
  rewrite IH by lia. f_equal. lia.
Qed.

Lemma unlock_times_S k r : unlock_times unlock (S k) r = unlock (unlock_times unlock k r).
Proof. revert r. induction k as [|k IH]; intros r; [done|]. apply IH. Qed.

Lemma unlock_all id l k :
  Z.of_nat (S k) < 2 ^ 31 -> unlock_times unlock (S k) (mk l id (Z.of_nat (S k))) = mk (release l) (-1) 0.
Proof.
  intros Hk. rewrite unlock_times_S, unlock_some by lia.
  rewrite rec_unlock, rec_wrap by lia. rewrite (proj2 (Z.eqb_eq _ _)) by lia. f_equal. lia.
Qed.

(** A thread takes the lock [S k] times: it does not wait for itself, every other thread
    waits, the first [k] releases keep the lock and its owner, and the last frees it. *)
Lemma recursive_nests fuel id l k :
  free l -> id <> -1 -> Z.of_nat (S k) < 2 ^ 31 ->
  exists l', held l' /\ free (release l') /\
    lock_times (lock (S fuel) id) (S k) (mk l (-1) 0) = Ret (mk l' id (Z.of_nat (S k))) /\
    (forall id' fuel', id' <> id -> lock fuel' id' (mk l' id (Z.of_nat (S k))) = Spin) /\
    (forall j, (j <= k)%nat -> unlock_times unlock j (mk l' id (Z.of_nat (S k))) =
                               mk l' id (Z.of_nat (S k) - Z.of_nat j)) /\
    unlock_times unlock (S k) (mk l' id (Z.of_nat (S k))) = mk (release l') (-1) 0.
Proof.
  intros Hl Hid Hk. destruct (lk_acquire_free fuel l Hl) as (l' & E & Hh). exists l'.
  split; [done|]. split; [by apply lk_release_held|]. split; [|split; [|split]].
  - cbn [lock_times]. rewrite rec_lock_other by done. rewrite E. cbn [mbind outcome_bind].
    rewrite rec_wrap by lia. rewrite lock_more by lia. do 2 f_equal. lia.
  - intros id' fuel' Hne. rewrite rec_lock_other by congruence. by rewrite lk_acquire_held.
  - intros j Hj. by apply unlock_some.
  - by apply unlock_all.
Qed.
End Nesting.

(** The recursive spinlock and the recursive ticket lock nest: a thread that takes a
    free lock [S k] times never waits and owns it [S k] deep, every other thread waits
    however long it runs, the lock stays taken through [k] releases, and the last one
    frees it with no owner and depth 0. *)
Theorem recursive_locks_nest fuel id k sl tl :
  id <> -1 -> Z.of_nat (S k) < 2 ^ 31 ->
  (let slr := rte_spinlock_recursive_init sl in
   let full := SLR 1 id (Z.of_nat (S k)) in
   lock_times (rte_spinlock_recursive_lock (S fuel) id) (S k) slr = Ret full /\
    (forall id' fuel', id' <> id -> rte_spinlock_recursive_lock fuel' id' full = Spin) /\
    (forall j, (j <= k)%nat -> rte_spinlock_is_locked
      (slr_sl (unlock_times rte_spinlock_recursive_unlock j full)) = 1) /\
    unlock_times rte_spinlock_recursive_unlock (S k) full = slr) /\
    (let tlr := rte_ticketlock_recursive_init tl in
   exists full, tlr_user full = id /\ tlr_count full = Z.of_nat (S k) /\
    lock_times (rte_ticketlock_recursive_lock (S fuel) id) (S k) tlr = Ret full /\
    (forall id' fuel', id' <> id -> rte_ticketlock_recursive_lock fuel' id' full = Spin) /\
    (forall j, (j <= k)%nat -> rte_ticketlock_is_locked
      (tlr_tl (unlock_times rte_ticketlock_recursive_unlock j full)) = true) /\
    let after := unlock_times rte_ticketlock_recursive_unlock (S k) full in
   rte_ticketlock_is_locked (tlr_tl after) = false /\ tlr_user after = -1 /\ tlr_count after = 0).
Proof.
  intros Hid Hk. split.
  - destruct (recursive_nests spinlock_ok recursive_spinlock_ok fuel id 0 k eq_refl Hid Hk)
      as (l & -> & _ & H1 & H2 & H3 & H4).
    repeat split; [exact H1|exact H2| |exact H4]. intros j Hj. by rewrite H3.
  - assert (Hf : is_u16 (tl_next (TL 0 0)) /\ tl_current (TL 0 0) = tl_next (TL 0 0)) by done.
    destruct (recursive_nests ticketlock_ok recursive_ticketlock_ok fuel id _ k Hf Hid Hk)
      as (l & [Hn Hc] & [_ Hr] & H1 & H2 & H3 & H4).
    exists (TLR l id (Z.of_nat (S k))). repeat split; [exact H1|exact H2| | | |].
    + intros j Hj. rewrite H3 by done. cbn [tlr_tl]. unfold rte_ticketlock_is_locked.
      apply negb_true_iff, Z.eqb_neq. destruct l as [c n]. cbn in *. wrap_lia.
    + rewrite H4. cbn [tlr_tl]. unfold rte_ticketlock_is_locked.
      by rewrite (proj2 (Z.eqb_eq _ _) Hr).
    + by rewrite H4.
    + by rewrite H4.
Qed.

Lemma recursive_locks_nest_witness :
  lock_times (rte_spinlock_recursive_lock 1 7) 3 (SLR 0 (-1) 0) = Ret (SLR 1 7 3).
Proof.
  destruct (recursive_locks_nest 0 7 2 (SLR 0 0 0) (TLR (TL 0 0) 0 0)) as [(H & _) _]; [lia|lia|].
  exact H.
Defined.
