(* ===== verification/LockConc.v ===== *)
(** * The read-write lock and the ticket lock under any number of threads

    Each atomic access of the lock functions is one step of one thread; any thread
    may move next. A compare-and-exchange that the source declares weak may fail
    for no reason. The words change only by the functions of [Locks]. *)

From S2P Require Import Prelude Atomic RingCore Locks.

Open Scope Z_scope.

(** ** Counting the threads at a point of the program *)

Section Count.
Context {A : Type} (P : A -> bool).

Fixpoint count (l : list A) : Z :=
  match l with [] => 0 | x :: l => Z.b2z (P x) + count l end.

Lemma count_range l : 0 <= count l <= Z.of_nat (length l).
Proof. induction l as [|x l IH]; cbn; [lia|]. destruct (P x); cbn; lia. Qed.

Lemma count_insert l i x y :
  l !! i = Some x -> count (<[i := y]> l) = count l - Z.b2z (P x) + Z.b2z (P y).
Proof.
  revert i; induction l as [|z l IH]; intros [|i] Hi; cbn in *; try discriminate.
  - injection Hi as ->. lia.
  - rewrite IH by done. lia.
Qed.

Lemma count_pos l i x : l !! i = Some x -> P x = true -> 1 <= count l.
Proof.
  revert i; induction l as [|z l IH]; intros [|i] Hi Hx; cbn in *; try discriminate.
  - injection Hi as ->. rewrite Hx. pose proof (count_range l). cbn. lia.
  - pose proof (IH i Hi Hx). destruct (P z); cbn; lia.
Qed.

Lemma count_two l i j x y :
  l !! i = Some x -> P x = true -> l !! j = Some y -> P y = true -> i <> j -> 2 <= count l.
Proof.
  revert i j; induction l as [|z l IH]; intros [|i] [|j] Hi Hx Hj Hy Hne; cbn in *; try done.
  - injection Hi as ->. rewrite Hx. pose proof (count_pos l j y Hj Hy). cbn. lia.
  - injection Hj as ->. rewrite Hy. pose proof (count_pos l i x Hi Hx). cbn. lia.
  - pose proof (IH i j Hi Hx Hj Hy ltac:(lia)). destruct (P z); cbn; lia.
Qed.

Lemma count_zero l : (forall x, x ∈ l -> P x = false) -> count l = 0.
Proof.
  induction l as [|x l IH]; intros H; [done|]. cbn. rewrite H by left. rewrite IH; [done|].
  intros y Hy. apply H. by right.
Qed.
End Count.

(** ** Read-write lock *)

(** Where a thread is: the value it loaded, before its compare-and-exchange. *)
Inductive rw_pc :=
  | RwIdle
  | RdLoop | RdCas (x : Z) | RdTry | RdTryCas (x : Z) | RdHold
  | WrLoop | WrCas (x : Z) | WrTry | WrTryCas (x : Z) | WrHold.

Definition rd_holds (p : rw_pc) : bool := match p with RdHold => true | _ => false end.
Definition wr_holds (p : rw_pc) : bool := match p with WrHold => true | _ => false end.

(** One access by one thread: the word and the thread before and after. *)
(* rte_lib/include/generic/rte_rwlock.h:60-183 rte_rwlock_t *)
Inductive rw_access : Z -> rw_pc -> Z -> rw_pc -> Prop :=
  | rw_call cnt p : p ∈ [RdLoop; RdTry; WrLoop; WrTry] -> rw_access cnt RwIdle cnt p
  | rd_load cnt : rw_access cnt RdLoop cnt (if cnt <? 0 then RdLoop else RdCas cnt)
  | rd_cas_ok cnt x cnt' : cas_word cnt x (i32 (x + 1)) = (true, cnt') ->
      rw_access cnt (RdCas x) cnt' RdHold
  | rd_cas_fail cnt x : rw_access cnt (RdCas x) cnt RdLoop
  | rd_try_load cnt : rw_access cnt RdTry cnt (if cnt <? 0 then RwIdle else RdTryCas cnt)
  | rd_try_cas_ok cnt x cnt' : cas_word cnt x (i32 (x + 1)) = (true, cnt') ->
      rw_access cnt (RdTryCas x) cnt' RdHold
  | rd_try_cas_fail cnt x : rw_access cnt (RdTryCas x) cnt RdTry
  | rd_unlock cnt : rw_access cnt RdHold (rte_rwlock_read_unlock cnt) RwIdle
  | wr_load cnt : rw_access cnt WrLoop cnt (if negb (cnt =? 0) then WrLoop else WrCas cnt)
  | wr_cas_ok cnt x cnt' : cas_word cnt x (-1) = (true, cnt') -> rw_access cnt (WrCas x) cnt' WrHold
  | wr_cas_fail cnt x : rw_access cnt (WrCas x) cnt WrLoop
  | wr_try_load cnt : rw_access cnt WrTry cnt (if negb (cnt =? 0) then RwIdle else WrTryCas cnt)
  | wr_try_cas_ok cnt x cnt' : cas_word cnt x (-1) = (true, cnt') ->
      rw_access cnt (WrTryCas x) cnt' WrHold
  | wr_try_cas_fail cnt x : rw_access cnt (WrTryCas x) cnt RwIdle
  | wr_unlock cnt : rw_access cnt WrHold (rte_rwlock_write_unlock cnt) RwIdle.

Inductive rw_step : Z * list rw_pc -> Z * list rw_pc -> Prop :=
  | rw_thread cnt pcs i p cnt' p' :
      pcs !! i = Some p -> rw_access cnt p cnt' p' -> rw_step (cnt, pcs) (cnt', <[i := p']> pcs).

(** A word with no writer counts the readers; with one, it is -1 and nobody reads. *)
Definition rw_inv (s : Z * list rw_pc) : Prop :=
  let '(cnt, pcs) := s in
  Z.of_nat (length pcs) < 2 ^ 31 /\
  (forall p, p ∈ pcs -> match p with
     | RdCas x | RdTryCas x => 0 <= x | WrCas x | WrTryCas x => x = 0 | _ => True end) /\
  (count wr_holds pcs = 0 /\ cnt = count rd_holds pcs \/
   count wr_holds pcs = 1 /\ count rd_holds pcs = 0 /\ cnt = -1).

Lemma cas_word_true mem x d m' : cas_word mem x d = (true, m') -> mem = x /\ m' = d.
Proof. unfold cas_word. destruct (Z.eqb_spec mem x); by intros [= <-]. Qed.

Lemma rw_init_inv n : Z.of_nat n < 2 ^ 31 -> rw_inv (rte_rwlock_init 0, repeat RwIdle n).
Proof.
  intros Hn. assert (Hall : forall p, p ∈ repeat RwIdle n -> p = RwIdle).
  { intros p Hp. apply list_elem_of_In in Hp. by eapply repeat_spec. }
  split; [by rewrite repeat_length|]. split; [by intros p ->%Hall|]. left.
  rewrite !count_zero; [done|..]; by intros p ->%Hall.
Qed.

Lemma rw_step_inv s s' : rw_step s s' -> rw_inv s -> rw_inv s'.
Proof.
  intros [cnt pcs i p cnt' p' Hi Ha] (Hl & Hp & Hc).
  pose proof (count_range rd_holds pcs) as Hr.
  pose proof (count_range rd_holds (<[i := p']> pcs)) as Hr'. rewrite length_insert in Hr'.
  pose proof (count_insert rd_holds _ _ _ p' Hi) as Cr.
  pose proof (count_insert wr_holds _ _ _ p' Hi) as Cw.
  assert (Hpp := Hp p ltac:(by eapply list_elem_of_lookup_2)).
  assert (Hnew : forall P : rw_pc -> Prop, P p' -> (forall p, p ∈ pcs -> P p) ->
    forall p, p ∈ <[i := p']> pcs -> P p).
  { intros P Hp' Hall x Hx. apply list_elem_of_lookup in Hx as [j Hj].
    apply list_lookup_insert_Some in Hj as [(_ & <- & _)|[_ Hj]]; [done|].
    apply Hall. by eapply list_elem_of_lookup_2. }
  split; [by rewrite length_insert|]. rewrite Cr, Cw.
  pose proof (count_pos rd_holds _ _ _ Hi) as Pr. pose proof (count_pos wr_holds _ _ _ Hi) as Pw.
  clear Hi. split.
  - apply Hnew; [|done]. destruct Ha; try done; rewrite ?elem_of_cons, ?elem_of_nil in *;
      try (by destruct_or!; subst); try (destruct (Z.ltb_spec cnt 0); done);
      destruct (Z.eqb_spec cnt 0); done.
  - destruct Ha as [cnt q Hq|cnt|cnt x c' E|cnt x|cnt|cnt x c' E|cnt x|cnt|cnt|cnt x c' E|cnt x
      |cnt|cnt x c' E|cnt x|cnt];
      try (apply cas_word_true in E as [-> ->]); cbn [rd_holds wr_holds Z.b2z] in *; try lia.
    + rewrite !elem_of_cons, elem_of_nil in Hq. destruct_or! Hq; subst q; cbn; lia || done.
    + destruct (cnt <? 0); cbn; lia.
    + unfold i32, u32. rewrite Z.mod_small by lia. rewrite (proj2 (Z.ltb_lt _ _)) by lia. lia.
    + destruct (cnt <? 0); cbn; lia.
    + unfold i32, u32. rewrite Z.mod_small by lia. rewrite (proj2 (Z.ltb_lt _ _)) by lia. lia.
    + specialize (Pr eq_refl). unfold rte_rwlock_read_unlock, i32, u32.
      rewrite Z.mod_small by lia. rewrite (proj2 (Z.ltb_lt _ _)) by lia. lia.
    + destruct (negb _); cbn; lia.
    + destruct (negb _); cbn; lia.
    + specialize (Pw eq_refl). unfold rte_rwlock_write_unlock. lia.
Qed.

(** C19: the read-write lock excludes: in every state that [n] threads can reach from the
    initialised lock, in any interleaving of their loads, compare-and-exchanges (which may
    fail spuriously), subtractions and stores, a thread that holds the write lock is the
    only holder, and the word is -1 exactly when there is a writer and otherwise the number
    of readers; with everyone out of the lock the word is 0 again. *)
Theorem rwlock_mutual_exclusion n cnt pcs :
  Z.of_nat n < 2 ^ 31 -> rtc rw_step (rte_rwlock_init 0, repeat RwIdle n) (cnt, pcs) ->
  (forall i j p, pcs !! i = Some WrHold -> pcs !! j = Some p ->
     wr_holds p = true \/ rd_holds p = true -> i = j) /\
  (cnt = -1 <-> exists i, pcs !! i = Some WrHold) /\
  ((forall i, pcs !! i <> Some WrHold) -> cnt = count rd_holds pcs).
Proof.
  intros Hn Hs.
  destruct (rtc_invariant _ _ _ _ rw_step_inv Hs (rw_init_inv n Hn)) as (_ & _ & Hc).
  pose proof (count_range rd_holds pcs) as Hr.
  split; [|split].
  - intros i j p Hi Hj Hp. destruct (decide (i = j)) as [->|Hne]; [done|].
    pose proof (count_pos wr_holds _ _ _ Hi eq_refl). destruct Hp as [Hp|Hp].
    + pose proof (count_two wr_holds _ _ _ _ _ Hi eq_refl Hj Hp Hne). lia.
    + pose proof (count_pos rd_holds _ _ _ Hj Hp). lia.
  - split.
    + intros ->. destruct Hc as [[_ Hc]|[Hc _]]; [lia|].
      destruct (decide (Exists (fun p => wr_holds p = true) pcs)) as [He|Hno].
      * apply Exists_exists in He as (p & Hin & Hp). apply list_elem_of_lookup in Hin as [i Hi].
        exists i. by destruct p.
      * rewrite (count_zero wr_holds) in Hc; [lia|]. intros p Hp.
        destruct (wr_holds p) eqn:E; [|done]. destruct Hno. apply Exists_exists. by exists p.
    + intros [i Hi]. pose proof (count_pos wr_holds _ _ _ Hi eq_refl). lia.
  - intros Hno. rewrite (count_zero wr_holds) in Hc; [lia|]. intros p Hp.
    apply list_elem_of_lookup in Hp as [i Hi]. destruct p; try done. by destruct (Hno i).
Qed.

(** ** Ticket lock *)

(** Where a thread is; [TUnl i]: in the unlock, with [i] loaded. *)
Inductive tk_pc :=
  | TIdle | TWait (me : Z) | THold | TUnl (i : Z) | TTry (old : rte_ticketlock_t).

Definition tk_holds (p : tk_pc) : bool := match p with THold | TUnl _ => true | _ => false end.
Definition tk_active (p : tk_pc) : bool :=
  match p with THold | TUnl _ | TWait _ => true | _ => false end.

(** The lock word, the threads, and two histories that the code does not keep: the
    threads in the order in which they drew a ticket, and in the order of entry. *)
Record tk_sys := Tk {
  tk_lock : rte_ticketlock_t; tk_pcs : list tk_pc; tk_arrivals : list nat; tk_entries : list nat }.

Definition try_new (old : rte_ticketlock_t) : rte_ticketlock_t :=
  TL (tl_current old) (u16 (tl_next old + 1)).

(* rte_lib/include/generic/rte_ticketlock.h:63-105 rte_ticketlock_t *)
Inductive tk_step : tk_sys -> tk_sys -> Prop :=
  | tk_draw tl pcs ar en i :
      pcs !! i = Some TIdle ->
      tk_step (Tk tl pcs ar en)
        (Tk (TL (tl_current tl) (u16 (tl_next tl + 1))) (<[i := TWait (tl_next tl)]> pcs) (ar ++ [i]) en)
  | tk_spin tl pcs ar en i me :
      pcs !! i = Some (TWait me) -> tl_current tl <> me -> tk_step (Tk tl pcs ar en) (Tk tl pcs ar en)
  | tk_enter tl pcs ar en i me :
      pcs !! i = Some (TWait me) -> tl_current tl = me ->
      tk_step (Tk tl pcs ar en) (Tk tl (<[i := THold]> pcs) ar (en ++ [i]))
  | tk_unlock_load tl pcs ar en i :
      pcs !! i = Some THold ->
      tk_step (Tk tl pcs ar en) (Tk tl (<[i := TUnl (tl_current tl)]> pcs) ar en)
  | tk_unlock_store tl pcs ar en i x :
      pcs !! i = Some (TUnl x) ->
      tk_step (Tk tl pcs ar en) (Tk (TL (u16 (x + 1)) (tl_next tl)) (<[i := TIdle]> pcs) ar en)
  | tk_try_load tl pcs ar en i :
      pcs !! i = Some TIdle ->
      tk_step (Tk tl pcs ar en)
        (Tk tl (<[i := if tl_next tl =? tl_current tl then TTry tl else TIdle]> pcs) ar en)
  | tk_try_cas_ok tl pcs ar en i old :
      pcs !! i = Some (TTry old) -> tl = old ->
      tk_step (Tk tl pcs ar en) (Tk (try_new old) (<[i := THold]> pcs) (ar ++ [i]) (en ++ [i]))
  | tk_try_cas_fail tl pcs ar en i old :
      pcs !! i = Some (TTry old) -> tl <> old ->
      tk_step (Tk tl pcs ar en) (Tk tl (<[i := TIdle]> pcs) ar en).

(** [C] tickets have been given back; [t i] is the ticket of the active thread [i], an
    index into the arrivals. *)
Record tk_inv_at (s : tk_sys) (C : nat) (t : nat -> nat) : Prop := {
  ti_threads : Z.of_nat (length (tk_pcs s)) < 65536;
  ti_current : tl_current (tk_lock s) = u16 (Z.of_nat C);
  ti_next : tl_next (tk_lock s) = u16 (Z.of_nat (length (tk_arrivals s)));
  ti_ticket : forall i p, tk_pcs s !! i = Some p -> tk_active p = true ->
    (C <= t i)%nat /\ tk_arrivals s !! t i = Some i /\
    match p with
    | TWait me => me = u16 (Z.of_nat (t i))
    | TUnl x => t i = C /\ x = u16 (Z.of_nat C)
    | _ => t i = C
    end;
  ti_served : forall c, (C <= c < length (tk_arrivals s))%nat ->
    exists i p, tk_pcs s !! i = Some p /\ tk_active p = true /\ t i = c;
  ti_count : Z.of_nat (length (tk_arrivals s)) - Z.of_nat C = count tk_active (tk_pcs s);
  ti_entries : tk_entries s = take (C + Z.to_nat (count tk_holds (tk_pcs s))) (tk_arrivals s);
  ti_try : forall i old, tk_pcs s !! i = Some (TTry old) -> tl_next old = tl_current old;
}.
Definition tk_inv (s : tk_sys) : Prop := exists C t, tk_inv_at s C t.

Lemma count_le {A} (P Q : A -> bool) l :
  (forall x, P x = true -> Q x = true) -> count P l <= count Q l.
Proof.
  intros H. induction l as [|x l IH]; cbn; [lia|]. specialize (H x).
  destruct (P x); [rewrite H by done; cbn; lia|destruct (Q x); cbn; lia].
Qed.

Lemma holds_le_active pcs : 0 <= count tk_holds pcs <= count tk_active pcs.
Proof. split; [apply count_range|]. apply count_le. by intros []. Qed.

Section TicketInv.
Context (s : tk_sys) (C : nat) (t : nat -> nat).
Hypothesis H : tk_inv_at s C t.
Let N := length (tk_arrivals s).

(** Two active threads do not share a ticket; a ticket congruent to [C] is [C]. *)
Lemma ticket_unique i j p q :
  tk_pcs s !! i = Some p -> tk_active p = true -> tk_pcs s !! j = Some q -> tk_active q = true ->
  t i = t j -> i = j.
Proof.
  intros Hi Pi Hj Pj E. destruct (ti_ticket _ _ _ H _ _ Hi Pi) as (_ & A1 & _).
  destruct (ti_ticket _ _ _ H _ _ Hj Pj) as (_ & A2 & _). rewrite E in A1. congruence.
Qed.

Lemma served_range : (C <= N)%nat /\ Z.of_nat N - Z.of_nat C < 65536.
Proof.
  pose proof (count_range tk_active (tk_pcs s)). pose proof (ti_count _ _ _ H) as E. fold N in E.
  pose proof (ti_threads _ _ _ H). lia.
Qed.

Lemma u16_served n : (C <= n <= N)%nat -> u16 (Z.of_nat n) = u16 (Z.of_nat C) -> n = C.
Proof. intros Hn E. pose proof served_range. wrap_lia. Qed.

(** A holder has ticket [C], so a thread with that ticket excludes all others. *)
Lemma holder_ticket i p : tk_pcs s !! i = Some p -> tk_holds p = true -> t i = C.
Proof.
  intros Hi Hp. assert (Ha : tk_active p = true) by by destruct p.
  destruct (ti_ticket _ _ _ H _ _ Hi Ha) as (_ & _ & E). destruct p; try done. apply E.
Qed.

Lemma sole_holder i p pcs' :
  tk_pcs s !! i = Some p -> tk_active p = true -> t i = C ->
  (forall j q, pcs' !! j = Some q -> tk_holds q = true -> j <> i /\ tk_pcs s !! j = Some q) ->
  count tk_holds pcs' = 0.
Proof.
  intros Hi Hp Ht Hpcs. apply count_zero. intros q Hq. apply list_elem_of_lookup in Hq as [j Hj].
  destruct (tk_holds q) eqn:E; [|done]. destruct (Hpcs j q Hj E) as [Hne Hjs].
  destruct Hne. apply (ticket_unique j i q p); try done; [by destruct q|].
  rewrite Ht. by eapply holder_ticket.
Qed.

Lemma take_room : (C + Z.to_nat (count tk_holds (tk_pcs s)) <= N)%nat.
Proof. pose proof (holds_le_active (tk_pcs s)). pose proof (ti_count _ _ _ H) as E. fold N in E. lia. Qed.
End TicketInv.

Lemma tk_draw_inv tl pcs ar en i C t :
  pcs !! i = Some TIdle -> tk_inv_at (Tk tl pcs ar en) C t ->
  tk_inv_at (Tk (TL (tl_current tl) (u16 (tl_next tl + 1))) (<[i := TWait (tl_next tl)]> pcs) (ar ++ [i]) en)
    C (fun j => if decide (j = i) then length ar else t j).
Proof.
  intros Hi H. pose proof (served_range _ _ _ H) as [Hr _]. pose proof (take_room _ _ _ H) as Hroom.
  destruct H as [H1 H2 H3 H4 H5 H6 H7 H8]. cbn in *.
  split; cbn; rewrite ?length_insert, ?length_app; cbn; try done.
  - rewrite H3. wrap_lia.
  - intros j p Hj Hp. apply list_lookup_insert_Some in Hj as [(-> & <- & _)|[Hne Hj]].
    + rewrite decide_True by done. split; [done|]. split; [|done].
      by rewrite lookup_app_r, Nat.sub_diag by lia.
    + rewrite decide_False by done. destruct (H4 j p Hj Hp) as (? & ? & ?).
      split; [done|]. split; [by apply lookup_app_l_Some|done].
  - intros c Hc. destruct (Nat.eq_dec c (length ar)) as [->|Hne].
    + exists i, (TWait (tl_next tl)). rewrite list_lookup_insert_eq by (by eapply lookup_lt_Some).
      by rewrite decide_True by done.
    + destruct (H5 c ltac:(lia)) as (j & p & Hj & Hp & <-). exists j, p.
      assert (j <> i) by (intros ->; rewrite Hi in Hj; by injection Hj as <-).
      by rewrite list_lookup_insert_ne, decide_False by done.
  - rewrite (count_insert _ _ _ _ _ Hi). cbn. lia.
  - rewrite (count_insert _ _ _ _ _ Hi). cbn [tk_holds Z.b2z].
    replace (count tk_holds pcs - 0 + 0) with (count tk_holds pcs) by lia.
    by rewrite take_app_le by lia.
  - intros j old Hj. apply list_lookup_insert_Some in Hj as [(_ & [=] & _)|[_ Hj]]. by eapply H8.
Qed.

Lemma tk_enter_inv tl pcs ar en i C t :
  pcs !! i = Some (TWait (tl_current tl)) -> tk_inv_at (Tk tl pcs ar en) C t ->
  tk_inv_at (Tk tl (<[i := THold]> pcs) ar (en ++ [i])) C t.
Proof.
  intros Hi H. destruct (ti_ticket _ _ _ H _ _ Hi eq_refl) as (T1 & T2 & T3). cbn in T1, T2, T3.
  pose proof (lookup_lt_Some _ _ _ T2) as T4.
  assert (Ht : t i = C).
  { apply (u16_served _ _ _ H); [cbn; lia|]. rewrite <- T3. apply (ti_current _ _ _ H). }
  assert (Hh : count tk_holds pcs = 0).
  { apply (sole_holder _ _ _ H i (TWait (tl_current tl))); try done.
    intros j q Hj Hq. split; [|done]. intros ->. cbn in Hi. rewrite Hi in Hj. by injection Hj as <-. }
  destruct H as [H1 H2 H3 H4 H5 H6 H7 H8]. cbn in *.
  split; cbn; rewrite ?length_insert; try done.
  - intros j p Hj Hp. apply list_lookup_insert_Some in Hj as [(-> & <- & _)|[Hne Hj]]; [done|by apply H4].
  - intros c Hc. destruct (H5 c Hc) as (j & p & Hj & Hp & <-).
    destruct (decide (j = i)) as [->|Hne].
    + exists i, THold. by rewrite list_lookup_insert_eq by (by eapply lookup_lt_Some).
    + exists j, p. by rewrite list_lookup_insert_ne by done.
  - rewrite (count_insert _ _ _ _ _ Hi). cbn. lia.
  - rewrite (count_insert _ _ _ _ _ Hi), Hh. rewrite Hh in H7. cbn [tk_holds Z.b2z].
    change (Z.to_nat 0) with 0%nat in H7. rewrite Nat.add_0_r in H7.
    change (Z.to_nat (0 - 0 + 1)) with 1%nat. rewrite Nat.add_1_r, H7.
    symmetry. apply take_S_r. by rewrite <- Ht.
  - intros j old Hj. apply list_lookup_insert_Some in Hj as [(_ & [=] & _)|[_ Hj]]. by eapply H8.
Qed.

(** A thread whose activity, ticket and claim stay the same. *)
Lemma tk_local_inv tl pcs ar en i p p' C t :
  pcs !! i = Some p -> tk_inv_at (Tk tl pcs ar en) C t ->
  tk_active p' = tk_active p -> tk_holds p' = tk_holds p ->
  (tk_active p = true -> t i = C /\ match p' with
     | TUnl x => x = u16 (Z.of_nat C) | TWait _ => False | _ => True end) ->
  (forall old, p' = TTry old -> tl_next old = tl_current old) ->
  tk_inv_at (Tk tl (<[i := p']> pcs) ar en) C t.
Proof.
  intros Hi [H1 H2 H3 H4 H5 H6 H7 H8] Ea Eh Hact Htry. cbn in *.
  split; cbn; rewrite ?length_insert; try done.
  - intros j q Hj Hq. apply list_lookup_insert_Some in Hj as [(-> & <- & _)|[Hne Hj]]; [|by apply H4].
    rewrite Ea in Hq. destruct (H4 j p Hi Hq) as (? & ? & _). destruct (Hact Hq) as [? ?].
    split; [done|]. split; [done|]. by destruct p'.
  - intros c Hc. destruct (H5 c Hc) as (j & q & Hj & Hq & <-).
    destruct (decide (j = i)) as [->|Hne].
    + exists i, p'. rewrite list_lookup_insert_eq by (by eapply lookup_lt_Some). split; [done|].
      rewrite Ea. split; [|done]. congruence.
    + exists j, q. by rewrite list_lookup_insert_ne by done.
  - rewrite (count_insert _ _ _ _ _ Hi), Ea. lia.
  - rewrite (count_insert _ _ _ _ _ Hi), Eh.
    by replace (_ - _ + _) with (count tk_holds pcs) by lia.
  - intros j old Hj. apply list_lookup_insert_Some in Hj as [(-> & -> & _)|[_ Hj]]; [by apply Htry|].
    by eapply H8.
Qed.

Lemma tk_unlock_inv tl pcs ar en i x C t :
  pcs !! i = Some (TUnl x) -> tk_inv_at (Tk tl pcs ar en) C t ->
  tk_inv_at (Tk (TL (u16 (x + 1)) (tl_next tl)) (<[i := TIdle]> pcs) ar en) (S C) t.
Proof.
  intros Hi H. destruct (ti_ticket _ _ _ H _ _ Hi eq_refl) as (T1 & T2 & T3 & T4).
  pose proof (ticket_unique _ _ _ H) as Hun. pose proof (holder_ticket _ _ _ H) as Hht.
  assert (Hh : count tk_holds (<[i := TIdle]> pcs) = 0).
  { apply (sole_holder _ _ _ H i (TUnl x)); try done.
    intros j q Hj Hq. apply list_lookup_insert_Some in Hj as [(-> & <- & _)|[Hne Hj]]; done. }
  assert (Hh1 : count tk_holds pcs = 1).
  { rewrite (count_insert _ _ _ _ _ Hi) in Hh. cbn in Hh. lia. }
  destruct H as [H1 H2 H3 H4 H5 H6 H7 H8]. cbn in *.
  split; cbn; rewrite ?length_insert; try done.
  - rewrite T4. wrap_lia.
  - intros j p Hj Hp. apply list_lookup_insert_Some in Hj as [(-> & <- & _)|[Hne Hj]]; [done|].
    destruct (H4 j p Hj Hp) as (A1 & A2 & A3).
    assert (HnC : t j <> C).
    { intros E. apply Hne, (Hun i j (TUnl x) p); (done || congruence). }
    split; [lia|]. split; [done|]. destruct p; try done; exfalso; apply HnC; by eapply Hht.
  - intros c Hc. destruct (H5 c ltac:(lia)) as (j & p & Hj & Hp & <-). exists j, p.
    assert (j <> i) by (intros ->; lia). by rewrite list_lookup_insert_ne by done.
  - rewrite (count_insert _ _ _ _ _ Hi). cbn. lia.
  - rewrite Hh, H7, Hh1. f_equal. change (Z.to_nat 1) with 1%nat. change (Z.to_nat 0) with 0%nat. lia.
  - intros j old Hj. apply list_lookup_insert_Some in Hj as [(_ & [=] & _)|[_ Hj]]. by eapply H8.
Qed.

Lemma tk_try_inv tl pcs ar en i C t :
  pcs !! i = Some (TTry tl) -> tk_inv_at (Tk tl pcs ar en) C t ->
  tk_inv_at (Tk (try_new tl) (<[i := THold]> pcs) (ar ++ [i]) (en ++ [i])) C
    (fun j => if decide (j = i) then length ar else t j).
Proof.
  intros Hi H. pose proof (served_range _ _ _ H) as [Hr _]. pose proof (ti_try _ _ _ H i tl Hi) as Ht.
  assert (HNC : length ar = C).
  { apply (u16_served _ _ _ H); [cbn in *; lia|]. rewrite <- (ti_current _ _ _ H). cbn. rewrite <- Ht.
    symmetry. apply (ti_next _ _ _ H). }
  pose proof (holds_le_active pcs) as Hha.
  destruct H as [H1 H2 H3 H4 H5 H6 H7 H8]. cbn in *.
  assert (Hh : count tk_holds pcs = 0) by lia.
  assert (Hno : forall j p, pcs !! j = Some p -> tk_active p = true -> False).
  { intros j p Hj Hp. pose proof (count_pos tk_active _ _ _ Hj Hp). lia. }
  split; cbn; rewrite ?length_insert, ?length_app; cbn; try done.
  - rewrite H3. wrap_lia.
  - intros j p Hj Hp. apply list_lookup_insert_Some in Hj as [(-> & <- & _)|[Hne Hj]];
      [|by destruct (Hno j p)].
    rewrite decide_True by done. split; [lia|]. split; [|done].
    by rewrite lookup_app_r, Nat.sub_diag by lia.
  - intros c Hc. exists i, THold. rewrite list_lookup_insert_eq by (by eapply lookup_lt_Some).
    rewrite decide_True by done. split; [done|]. split; [done|lia].
  - rewrite (count_insert _ _ _ _ _ Hi). cbn. lia.
  - rewrite (count_insert _ _ _ _ _ Hi), Hh, H7, Hh. cbn [tk_holds Z.b2z].
    change (Z.to_nat (0 - 0 + 1)) with 1%nat. change (Z.to_nat 0) with 0%nat.
    rewrite !take_ge by (rewrite ?length_app; cbn; lia). done.
  - intros j old Hj. apply list_lookup_insert_Some in Hj as [(_ & [=] & _)|[_ Hj]]. by eapply H8.
Qed.

Lemma tk_step_inv s s' : tk_step s s' -> tk_inv s -> tk_inv s'.
Proof.
  intros Hst (C & t & H).
  destruct Hst as [tl pcs ar en i Hi|tl pcs ar en i me Hi Hme|tl pcs ar en i me Hi Hme|tl pcs ar en i Hi
    |tl pcs ar en i x Hi|tl pcs ar en i Hi|tl pcs ar en i old Hi ->|tl pcs ar en i old Hi Hne].
  - eexists C, _. by apply tk_draw_inv.
  - by exists C, t.
  - subst me. exists C, t. by apply tk_enter_inv.
  - exists C, t. apply (tk_local_inv _ _ _ _ _ THold); try done. intros _.
    destruct (ti_ticket _ _ _ H _ _ Hi eq_refl) as (_ & _ & E). split; [done|].
    apply (ti_current _ _ _ H).
  - exists (S C), t. by apply tk_unlock_inv.
  - exists C, t. destruct (Z.eqb_spec (tl_next tl) (tl_current tl)) as [E|E].
    + apply (tk_local_inv _ _ _ _ _ TIdle); try done. by intros old [= <-].
    + by apply (tk_local_inv _ _ _ _ _ TIdle).
  - eexists C, _. by apply tk_try_inv.
  - exists C, t. by apply (tk_local_inv _ _ _ _ _ (TTry old)).
Qed.

Definition tk_start (tl : rte_ticketlock_t) (n : nat) : tk_sys :=
  Tk (rte_ticketlock_init tl) (repeat TIdle n) [] [].

Lemma tk_start_inv tl n : Z.of_nat n < 65536 -> tk_inv (tk_start tl n).
Proof.
  intros Hn. exists 0%nat, (fun _ => 0%nat).
  assert (Hall : forall p, p ∈ repeat TIdle n -> p = TIdle).
  { intros p Hp. apply list_elem_of_In in Hp. by eapply repeat_spec. }
  assert (Hat : forall i p, repeat TIdle n !! i = Some p -> p = TIdle)
    by (intros i p Hi; by eapply Hall, list_elem_of_lookup_2).
  split; cbn; try done.
  - by rewrite repeat_length.
  - by intros i p ->%Hat.
  - intros c Hc. lia.
  - rewrite count_zero; [done|]. by intros p ->%Hall.
  - by rewrite take_nil.
  - by intros i old [=]%Hat.
Qed.

(** C18: the ticket lock excludes and is fair: for fewer than [2^16] threads and any
    interleaving of their draws, spins, entries, unlocks and trylocks, from any initial
    content of the lock, at most one thread is between its entry and the end of its
    unlock, in spite of the wrap-around of the 16-bit counters; and the threads enter
    exactly in the order in which they drew their tickets. *)
Theorem ticketlock_exclusion_fifo tl n s :
  Z.of_nat n < 65536 -> rtc tk_step (tk_start tl n) s ->
  (forall i j p q, tk_pcs s !! i = Some p -> tk_holds p = true ->
     tk_pcs s !! j = Some q -> tk_holds q = true -> i = j) /\
  tk_entries s `prefix_of` tk_arrivals s.
Proof.
  intros Hn Hs. destruct (rtc_invariant _ _ _ _ tk_step_inv Hs (tk_start_inv tl n Hn)) as (C & t & H).
  split.
  - intros i j p q Hi Hp Hj Hq. apply (ticket_unique _ _ _ H i j p q); try done; [by destruct p|by destruct q|].
    by rewrite (holder_ticket _ _ _ H i p Hi Hp), (holder_ticket _ _ _ H j q Hj Hq).
  - rewrite (ti_entries _ _ _ H). apply prefix_take.
Qed.

(** C23: the ticket lock never gets stuck: whenever a thread waits or holds the lock, some
    thread is either inside, or waits with the ticket that is being served and enters at
    its next access. *)
Theorem ticketlock_progress tl n s i p :
  Z.of_nat n < 65536 -> rtc tk_step (tk_start tl n) s ->
  tk_pcs s !! i = Some p -> tk_active p = true ->
  exists j q, tk_pcs s !! j = Some q /\ (tk_holds q = true \/ q = TWait (tl_current (tk_lock s))).
Proof.
  intros Hn Hs Hi Hp. destruct (rtc_invariant _ _ _ _ tk_step_inv Hs (tk_start_inv tl n Hn)) as (C & t & H).
  destruct (ti_ticket _ _ _ H i p Hi Hp) as (HC & Har & _). apply lookup_lt_Some in Har.
  destruct (ti_served _ _ _ H C ltac:(lia)) as (j & q & Hj & Hq & Ht). exists j, q. split; [done|].
  destruct (ti_ticket _ _ _ H j q Hj Hq) as (_ & _ & E). rewrite (ti_current _ _ _ H).
  destruct q; try done; [right|by left|by left]. by rewrite E, Ht.
Qed.

(** ** Witnesses: two threads *)

(** The first takes the write lock while the second is refused. *)
Lemma rw_demo_run : rtc rw_step (rte_rwlock_init 0, repeat RwIdle 2) (-1, [WrHold; RwIdle]).
Proof.
  eapply rtc_l; [apply (rw_thread 0 _ 0 RwIdle 0 WrLoop); [done|apply rw_call; rewrite !elem_of_cons; auto]|].
  eapply rtc_l; [apply (rw_thread 0 _ 0 WrLoop 0 (WrCas 0)); [done|apply (wr_load 0)]|].
  eapply rtc_l; [apply (rw_thread 0 _ 0 (WrCas 0) (-1) WrHold); [done|by apply wr_cas_ok]|].
  eapply rtc_l; [apply (rw_thread (-1) _ 1 RwIdle (-1) RdTry); [done|apply rw_call; rewrite !elem_of_cons; auto]|].
  apply rtc_once. apply (rw_thread (-1) [WrHold; RdTry] 1 RdTry (-1) RwIdle); [done|apply (rd_try_load (-1))].
Qed.

Lemma rwlock_mutual_exclusion_witness :
  exists i, [WrHold; RwIdle] !! i = Some WrHold.
Proof.
  destruct (rwlock_mutual_exclusion 2 (-1) [WrHold; RwIdle]) as (_ & [H _] & _).
  - lia.
  - exact rw_demo_run.
  - exact (H eq_refl).
Defined.

(** Both draw, the first enters. *)
Definition tk_demo : tk_sys := Tk (TL 0 2) [THold; TWait 1] [0; 1]%nat [0%nat].

Lemma tk_demo_run : rtc tk_step (tk_start (TL 5 7) 2) tk_demo.
Proof.
  eapply rtc_l; [by apply (tk_draw (TL 0 0) _ _ _ 0)|].
  eapply rtc_l; [by apply (tk_draw (TL 0 1) _ _ _ 1)|].
  apply rtc_once. by apply (tk_enter (TL 0 2) [TWait 0; TWait 1] [0; 1]%nat [] 0 0).
Qed.

Lemma ticketlock_exclusion_fifo_witness : tk_entries tk_demo `prefix_of` tk_arrivals tk_demo.
Proof. apply (ticketlock_exclusion_fifo (TL 5 7) 2 tk_demo); [lia|exact tk_demo_run]. Defined.

Lemma ticketlock_progress_witness :
  exists j q, tk_pcs tk_demo !! j = Some q /\ (tk_holds q = true \/ q = TWait 0).
Proof.
  apply (ticketlock_progress (TL 5 7) 2 tk_demo 1 (TWait 1)); [lia|exact tk_demo_run|reflexivity|reflexivity].
Defined.
