(* ===== verification/SpinConc.v ===== *)
(** * The recursive spinlock under any number of threads

    Every access to the three words of the lock - the compare-and-exchange and the store of the
    spinlock in it, and the loads and stores of the plain members [user] and [count] - is one step
    of one thread. Nothing but the spinlock protects the two members, and [user] is read without
    it; that this is safe is the theorem. The plain spinlock is the case of depth one. *)

From S2P Require Import Prelude Atomic RingCore Locks.

Open Scope Z_scope.

(** ** Threads *)

(** Where a thread is, with the number of times it holds the lock; [x] is a loaded count. *)
Inductive sp_pc :=
  | SOut (d : nat)                                    (* between calls *)
  | SCas (d : nat) | SWait (d : nat)                  (* rte_spinlock_lock *)
  | STry (d : nat)                                    (* rte_spinlock_trylock *)
  | SUser (d : nat)                                   (* acquired: about to store user *)
  | SInc (d : nat) | SIncSt (d : nat) (x : Z)         (* count++ *)
  | SDec (d : nat) | SDecSt (d : nat) (x : Z)         (* --count *)
  | SClear | SRelease.                                (* user = -1; rte_spinlock_unlock *)

Section Threads.
(** The operating system's identity of each thread. *)
Variable rte_gettid : nat -> Z.

(** One access by the thread with identity [id]: the lock and the thread before and after. A
    thread unlocks what it holds, and does not nest deeper than the type of the count allows. *)
(* rte_lib/include/generic/rte_spinlock.h:213-257 rte_spinlock_recursive_lock *)
Inductive sp_access (id : Z) : rte_spinlock_recursive_t -> sp_pc -> rte_spinlock_recursive_t -> sp_pc -> Prop :=
  | sp_lock l d : Z.of_nat d < 2 ^ 31 - 1 ->
      sp_access id l (SOut d) l (if negb (slr_user l =? id) then SCas d else SInc d)
  | sp_cas_ok sl u c d sl' : cas_word sl 0 1 = (true, sl') ->
      sp_access id (SLR sl u c) (SCas d) (SLR sl' u c) (SUser d)
  | sp_cas_fail sl u c d sl' : cas_word sl 0 1 = (false, sl') ->
      sp_access id (SLR sl u c) (SCas d) (SLR sl' u c) (SWait d)
  | sp_wait l d : sp_access id l (SWait d) l (if slr_sl l =? 0 then SCas d else SWait d)
  | sp_user sl u c d : sp_access id (SLR sl u c) (SUser d) (SLR sl id c) (SInc d)
  | sp_inc_load l d : sp_access id l (SInc d) l (SIncSt d (slr_count l))
  | sp_inc_store sl u c d x : sp_access id (SLR sl u c) (SIncSt d x) (SLR sl u (i32 (x + 1))) (SOut (S d))
  | sp_try l d : Z.of_nat d < 2 ^ 31 - 1 ->
      sp_access id l (SOut d) l (if negb (slr_user l =? id) then STry d else SInc d)
  | sp_try_ok sl u c d sl' : rte_spinlock_trylock sl = (true, sl') ->
      sp_access id (SLR sl u c) (STry d) (SLR sl' u c) (SUser d)
  | sp_try_fail sl u c d sl' : rte_spinlock_trylock sl = (false, sl') ->
      sp_access id (SLR sl u c) (STry d) (SLR sl' u c) (SOut d)
  | sp_unlock l d : sp_access id l (SOut (S d)) l (SDec (S d))
  | sp_dec_load l d : sp_access id l (SDec d) l (SDecSt d (slr_count l))
  | sp_dec_store sl u c d x :
      sp_access id (SLR sl u c) (SDecSt d x) (SLR sl u (i32 (x - 1))) (if i32 (x - 1) =? 0 then SClear else SOut (pred d))
  | sp_clear sl u c : sp_access id (SLR sl u c) SClear (SLR sl (-1) c) SRelease
  | sp_release sl u c : sp_access id (SLR sl u c) SRelease (SLR (rte_spinlock_unlock sl) u c) (SOut 0).

Inductive sp_step : rte_spinlock_recursive_t * list sp_pc -> rte_spinlock_recursive_t * list sp_pc -> Prop :=
  | sp_thread l pcs i p l' p' :
      pcs !! i = Some p -> sp_access (rte_gettid i) l p l' p' -> sp_step (l, pcs) (l', <[i := p']> pcs).

(** ** Invariant *)

(** A thread that does not have the lock. *)
Definition outside (p : sp_pc) : Prop :=
  match p with SOut d | SCas d | SWait d | STry d => d = O | _ => False end.

(** The lock while the thread with identity [id] has it and is at [p]. *)
Definition inside (id : Z) (l : rte_spinlock_recursive_t) (p : sp_pc) : Prop :=
  slr_sl l = 1 /\
  match p with
  | SUser d => d = O /\ slr_user l = -1 /\ slr_count l = 0
  | SInc d => slr_user l = id /\ slr_count l = Z.of_nat d /\ Z.of_nat d < 2 ^ 31 - 1
  | SIncSt d x => slr_user l = id /\ slr_count l = Z.of_nat d /\ x = Z.of_nat d /\ Z.of_nat d < 2 ^ 31 - 1
  | SOut d | SDec d => slr_user l = id /\ slr_count l = Z.of_nat d /\ 0 < Z.of_nat d < 2 ^ 31
  | SDecSt d x => slr_user l = id /\ slr_count l = Z.of_nat d /\ x = Z.of_nat d /\ 0 < Z.of_nat d < 2 ^ 31
  | SClear => slr_user l = id /\ slr_count l = 0
  | SRelease => slr_user l = -1 /\ slr_count l = 0
  | _ => False
  end.

Definition free_lock (l : rte_spinlock_recursive_t) : Prop := l = SLR 0 (-1) 0.

Definition sp_inv_at (s : rte_spinlock_recursive_t * list sp_pc) (own : option nat) : Prop :=
  (forall j q, s.2 !! j = Some q -> own <> Some j -> outside q) /\
  match own with
  | None => free_lock s.1
  | Some i => exists p, s.2 !! i = Some p /\ inside (rte_gettid i) s.1 p
  end.
Definition sp_inv (s : rte_spinlock_recursive_t * list sp_pc) : Prop := exists own, sp_inv_at s own.

Hypothesis tid_inj : forall i j, rte_gettid i = rte_gettid j -> i = j.
Hypothesis tid_used : forall i, rte_gettid i <> -1.

Lemma i32_id x : - 2 ^ 31 <= x < 2 ^ 31 -> i32 x = x.
Proof. intros. unfold i32. destruct (Z.ltb_spec (u32 x) 2147483648); wrap_lia. Qed.

(** A step of the owner. *)
Lemma owner_step id l p l' p' :
  id <> -1 -> inside id l p -> sp_access id l p l' p' -> inside id l' p' \/ free_lock l' /\ p' = SOut 0.
Proof.
  intros Hid [Hl Hp] Ha. destruct Ha; cbn [slr_sl slr_user slr_count] in *; try done.
  all: try (destruct Hp as (Hu & Hc & Hd)).
  - rewrite Hu, Z.eqb_refl. cbn. left. split; [done|]. split; [done|]. split; [done|lia].
  - left. split; [done|]. cbn. lia.
  - left. split; [done|]. cbn. lia.
  - destruct Hd as (-> & Hd). left. split; [done|]. cbn [slr_user slr_count].
    rewrite i32_id by lia. split; [done|]. lia.
  - rewrite Hu, Z.eqb_refl. cbn. left. split; [done|]. split; [done|]. split; [done|lia].
  - left. split; [done|]. cbn. lia.
  - left. split; [done|]. cbn. lia.
  - destruct Hd as (-> & Hd). left. rewrite i32_id by lia. split; [done|].
    destruct (Z.eqb_spec (Z.of_nat d - 1) 0); cbn [slr_user slr_count]; (split; [done|]); [done|lia].
  - destruct Hp as (_ & ->). left. done.
  - destruct Hp as (-> & ->). by right.
Qed.

(** A step of another thread. *)
Lemma other_step id l p l' p' :
  outside p -> slr_user l <> id -> sp_access id l p l' p' ->
  l' = l /\ outside p' \/ slr_sl l = 0 /\ l' = SLR 1 (slr_user l) (slr_count l) /\ p' = SUser 0.
Proof.
  intros Ho Hu Ha. destruct Ha; cbn [outside slr_sl slr_user slr_count] in *; try done; subst.
  - rewrite (proj2 (Z.eqb_neq _ _)) by done. by left.
  - unfold cas_word in *. destruct (Z.eqb_spec sl 0); simplify_eq. by right.
  - unfold cas_word in *. destruct (Z.eqb_spec sl 0); simplify_eq. by left.
  - left. by destruct (_ =? 0).
  - rewrite (proj2 (Z.eqb_neq _ _)) by done. by left.
  - unfold rte_spinlock_trylock, cas_word in *. destruct (Z.eqb_spec sl 0); simplify_eq. by right.
  - unfold rte_spinlock_trylock, cas_word in *. destruct (Z.eqb_spec sl 0); simplify_eq. by left.
Qed.

Lemma sp_step_inv s s' : sp_step s s' -> sp_inv s -> sp_inv s'.
Proof.
  intros [l pcs i p l' p' Hi Ha] (own & Ho & Hown). cbn [fst snd] in *.
  assert (Hrest : forall own', (own' = Some i \/ outside p') -> (forall j, j <> i -> own = Some j -> own' = Some j) ->
    forall j q, <[i := p']> pcs !! j = Some q -> own' <> Some j -> outside q).
  { intros own' Hp' Hsame j q Hj Hne. apply list_lookup_insert_Some in Hj as [(-> & <- & _)|[Hji Hj]].
    - by destruct Hp'.
    - apply (Ho j q Hj). intros Hoj. apply Hne. by apply Hsame. }
  assert (Hset : <[i := p']> pcs !! i = Some p') by (apply list_lookup_insert_eq; by eapply lookup_lt_Some).
  destruct (decide (own = Some i)) as [->|Hne].
  - destruct Hown as (p0 & Hp0 & Hin). rewrite Hi in Hp0. injection Hp0 as <-.
    destruct (owner_step _ l p l' p' (tid_used i) Hin Ha) as [Hin'|[Hfree ->]].
    + exists (Some i). split; [apply Hrest; [by left|congruence]|]. by exists p'.
    + exists None. split; [apply Hrest; [by right|congruence]|done].
  - assert (Hu : slr_user l <> rte_gettid i).
    { destruct own as [k|]; [|rewrite Hown; cbn; intros E; symmetry in E; by apply tid_used in E].
      destruct Hown as (q & Hq & _ & Hin). intros E.
      assert (slr_user l = rte_gettid k \/ slr_user l = -1) as [E'|E'] by (destruct q; tauto).
      - apply Hne. f_equal. apply tid_inj. congruence.
      - rewrite E in E'. by apply tid_used in E'. }
    destruct (other_step _ l p l' p' (Ho i p Hi Hne) Hu Ha) as [[-> Hp']|(H0 & -> & ->)].
    + exists own. split; [apply Hrest; [by right|done]|]. destruct own as [k|]; [|done].
      destruct Hown as (q & Hq & Hin). exists q. split; [|done]. cbn. rewrite list_lookup_insert_ne; congruence.
    + destruct own as [k|]; [destruct Hown as (q & _ & Hl & _); congruence|].
      exists (Some i). split; [apply Hrest; [by left|done]|]. eexists. split; [done|]. rewrite Hown. done.
Qed.

Lemma sp_init_inv l n : sp_inv (rte_spinlock_recursive_init l, repeat (SOut 0) n).
Proof.
  exists None. split; [|done]. cbn. intros j q Hj _. apply list_elem_of_lookup_2, list_elem_of_In, repeat_spec in Hj.
  by rewrite Hj.
Qed.

(** C25: the recursive spinlock excludes and nests: for any number of threads with identities of
    their own and any interleaving of the accesses to its three words, at most one thread has
    the lock; a thread that holds it [S d] times finds its identity in [user] and [S d] in [count],
    so that its next lock or trylock does not wait; and when no thread has it the lock is free,
    as after its initialisation. *)
Theorem recursive_spinlock_excludes slr n l pcs :
  rtc sp_step (rte_spinlock_recursive_init slr, repeat (SOut 0) n) (l, pcs) ->
  (forall i j p q, pcs !! i = Some p -> pcs !! j = Some q -> ~ outside p -> ~ outside q -> i = j) /\
  (forall i d, pcs !! i = Some (SOut (S d)) ->
     slr_sl l = 1 /\ slr_user l = rte_gettid i /\ slr_count l = Z.of_nat (S d) /\
     forall l' p', sp_access (rte_gettid i) l (SOut (S d)) l' p' -> p' = SInc (S d) \/ p' = SDec (S d)) /\
  ((forall i p, pcs !! i = Some p -> outside p) -> free_lock l).
Proof.
  intros Hs. destruct (rtc_invariant _ _ _ _ sp_step_inv Hs (sp_init_inv slr n)) as (own & Ho & Hown).
  cbn [fst snd] in *.
  assert (Hin : forall i p, pcs !! i = Some p -> ~ outside p -> own = Some i).
  { intros i p Hi Hp. destruct (decide (own = Some i)) as [|Hne]; [done|]. destruct Hp. by eapply Ho. }
  split; [intros i j p q Hi Hj Hp Hq; pose proof (Hin i p Hi Hp); pose proof (Hin j q Hj Hq); congruence|]. split.
  - intros i d Hi. rewrite (Hin i _ Hi) in Hown by (cbn; lia). destruct Hown as (p & Hp & Hl & Hb).
    rewrite Hi in Hp. injection Hp as <-. destruct Hb as (Hu & Hc & _). split; [done|]. split; [done|]. split; [done|].
    intros l' p' Ha. inversion Ha; subst; rewrite ?Hu, ?Z.eqb_refl; cbn; auto.
  - intros Hall. destruct own as [i|]; [|done]. destruct Hown as (p & Hp & Hl & Hb). specialize (Hall i p Hp).
    destruct p; cbn in *; try done; subst. lia.
Qed.

(** Nobody waits for a thread that waits: when the spinlock is taken, its owner can move, and not
    by waiting. *)
Theorem recursive_spinlock_progress slr n l pcs :
  rtc sp_step (rte_spinlock_recursive_init slr, repeat (SOut 0) n) (l, pcs) ->
  slr_sl l = 0 \/ exists i p, pcs !! i = Some p /\ ~ outside p /\
    exists l' p', sp_access (rte_gettid i) l p l' p' /\ (l', p') <> (l, p).
Proof.
  intros Hs. destruct (rtc_invariant _ _ _ _ sp_step_inv Hs (sp_init_inv slr n)) as (own & _ & Hown).
  cbn [fst snd] in *. destruct own as [i|]; [|left; by rewrite Hown].
  destruct Hown as (p & Hp & Hin). right. exists i, p. split; [done|]. split.
  - destruct Hin as [_ Hin]. destruct p; cbn in *; intros Hout; try contradiction; subst; lia.
  - destruct Hin as [_ Hin], l as [sl u c]. destruct p as [[|d]|d|d|d|d|d|d x|[|d]|d x| |]; cbn in Hin; try done; try lia.
    all: eexists; eexists; split; [first [eapply sp_unlock|econstructor]|];
      intros E; apply (f_equal snd) in E; cbn [snd] in E; try destruct (_ =? 0); discriminate.
Qed.
End Threads.

(** A run: the first thread takes the lock twice, the second waits. *)
Definition demo_tid (i : nat) : Z := 100 + Z.of_nat i.
Definition demo_end : rte_spinlock_recursive_t * list sp_pc := (SLR 1 100 2, [SOut 2; SWait 0]).

Ltac sp_go i c :=
  eapply rtc_l; [eapply (sp_thread _ _ _ i); [reflexivity|eapply c; first [reflexivity|lia|idtac]]|cbn [insert list_insert]].

Lemma spin_run : rtc (sp_step demo_tid) (rte_spinlock_recursive_init (SLR 7 7 7), repeat (SOut 0) 2) demo_end.
Proof.
  sp_go 0%nat sp_lock. sp_go 0%nat sp_cas_ok. sp_go 0%nat sp_user. sp_go 0%nat sp_inc_load.
  sp_go 1%nat sp_lock. sp_go 1%nat sp_cas_fail. sp_go 0%nat sp_inc_store.
  sp_go 0%nat sp_lock. sp_go 0%nat sp_inc_load. sp_go 0%nat sp_inc_store. reflexivity.
Qed.

Lemma recursive_spinlock_excludes_witness :
  slr_user (fst demo_end) = demo_tid 0 /\ slr_count (fst demo_end) = 2 /\
  forall i j p q, snd demo_end !! i = Some p -> snd demo_end !! j = Some q -> ~ outside p -> ~ outside q -> i = j.
Proof.
  destruct (recursive_spinlock_excludes demo_tid ltac:(unfold demo_tid; lia) ltac:(unfold demo_tid; lia)
    (SLR 7 7 7) 2 _ _ spin_run) as (H1 & H2 & _).
  destruct (H2 0%nat 1%nat eq_refl) as (_ & Hu & Hc & _). split; [exact Hu|]. split; [exact Hc|exact H1].
Defined.
