(* ===== verification/Nic.v ===== *)
(** * [libzsim]: the work queue and the completion queue of the network interface

    A thread posts requests into the work queue of its queue pair ([rmc_hw_send],
    [rmc_hw_recv]) and polls the completion queue ([rmc_check_cq]). Both are rings of 128
    entries; a sense-reverse bit that flips with every lap of the ring tells an entry of
    this lap from a stale one. The interface itself is the simulator, which is not part of
    the repository: it is the parameter [nic], applied once per pass of a polling loop. *)

From S2P Require Import Prelude.

Open Scope Z_scope.

(** ** Constants and data *)

(* libzsim/zsim_nic_defines.hpp:17-17 MAX_NUM_WQ *)
Definition MAX_NUM_WQ : Z := 128.
(* libzsim/zsim_nic_defines.hpp:24-24 RMC_SABRE *)
Definition RMC_SABRE : Z := 4.
(* libzsim/zsim_nic_defines.hpp:25-25 RMC_RECV *)
Definition RMC_RECV : Z := 5.
(* libzsim/zsim_nic_defines.hpp:32-32 SEND_OP_SHIFT *)
Definition SEND_OP_SHIFT : Z := 4.
(* libzsim/zsim_nic_defines.hpp:34-34 INCOMING_SEND_SHIFT *)
Definition INCOMING_SEND_SHIFT : Z := 1.
(* libzsim/zsim_nic_defines.hpp:35-35 INCOMING_RESP_SHIFT *)
Definition INCOMING_RESP_SHIFT : Z := 2.
(* libzsim/zsim_nic_defines.hpp:36-36 RMC_SEND *)
Definition RMC_SEND : Z := Z.shiftl 1 SEND_OP_SHIFT.
(* libzsim/zsim_nic_defines.hpp:38-38 RMC_INCOMING_SEND *)
Definition RMC_INCOMING_SEND : Z := Z.lor (Z.shiftl 1 SEND_OP_SHIFT) (Z.shiftl 1 INCOMING_SEND_SHIFT).
(* libzsim/zsim_nic_defines.hpp:39-39 RMC_INCOMING_RESP *)
Definition RMC_INCOMING_RESP : Z := Z.lor (Z.shiftl 1 SEND_OP_SHIFT) (Z.shiftl 1 INCOMING_RESP_SHIFT).
(* libzsim/zsim_nic_defines.hpp:40-40 RMC_INVAL *)
Definition RMC_INVAL : Z := 42.
(* libzsim/zsim_nic_defines.hpp:50-50 SR_CTX_ID *)
Definition SR_CTX_ID : Z := 7.
(* libzsim/zsim_nic_defines.hpp:104-104 CACHE_BLOCK_BITS *)
Definition CACHE_BLOCK_BITS : Z := 6.
(* libzsim/zsim_nic_defines.hpp:143-143 CACHE_BLOCK_SIZE *)
Definition CACHE_BLOCK_SIZE : Z := 64.

(* libzsim/zsim_nic_defines.hpp:157-168 wq_entry *)
Record wq_entry := WqEntry {
  we_op : Z;
  we_SR : bool;
  we_valid : bool;
  we_buf_addr : Z;
  we_cid : Z;
  we_nid : Z;
  we_offset : Z;
  we_length : Z;
}.

(* libzsim/zsim_nic_defines.hpp:170-177 cq_entry *)
Record cq_entry := CqEntry {
  ce_SR : bool;
  ce_valid : bool;
  ce_success : Z;
  ce_tid : Z;
  ce_recv_buf_addr : Z;
}.

(* libzsim/zsim_nic_defines.hpp:179-183 rmc_wq *)
Record rmc_wq := Wq { wq_q : list wq_entry; wq_head : Z; wq_SR : bool }.

(* libzsim/zsim_nic_defines.hpp:185-190 rmc_cq *)
Record rmc_cq := Cq { cq_q : list cq_entry; cq_tail : Z; cq_SR : bool }.

(* libzsim/zsim_nic_defines.hpp:192-196 successStruct *)
Record successStruct := Success {
  ss_success : Z;
  ss_op : Z;
  ss_tid : Z;
  ss_recv_buf_addr : Z;
}.

(** ** Posting *)

(** The entry that is stored; the store itself is in the callers. The instruction that
    notifies the simulator changes no memory of the thread. *)
(* libzsim/zsim_nic_defines.cpp:165-182 create_wq_entry *)
Definition create_wq_entry (op : Z) (SR : bool) (cid nid buf_addr offset length : Z) : wq_entry :=
  WqEntry op SR true buf_addr cid nid offset length.

(** [wq->head = wq->head + 1], with the flip of the sense bit at the end of a lap. *)
(* libzsim/zsim_nic_defines.cpp:155-161 rmc_hw_send *)
Definition wq_advance (wq : rmc_wq) : rmc_wq :=
  let head := (wq_head wq + 1)%u32 in
  if head >=? MAX_NUM_WQ then Wq (wq_q wq) 0 (negb (wq_SR wq)) else Wq (wq_q wq) head (wq_SR wq).

(* libzsim/zsim_nic_defines.cpp:139-163 rmc_hw_send *)
Definition rmc_hw_send (wq : rmc_wq) (ctx_id data_address length nid : Z) : outcome (rmc_wq * Z) :=
  e ← rd (wq_q wq) (wq_head wq);
  if we_valid e then Ret (wq, -1)
  else
    let length := u64 (length + (CACHE_BLOCK_SIZE - 1)) in
    let length := Z.shiftr length CACHE_BLOCK_BITS in
    q ← wr (wq_q wq) (wq_head wq)
          (create_wq_entry RMC_SEND (wq_SR wq) (u32 ctx_id) nid data_address 0 length);
    Ret (wq_advance (Wq q (wq_head wq) (wq_SR wq)), 0).

(* libzsim/zsim_nic_defines.cpp:184-204 rmc_hw_recv *)
Definition rmc_hw_recv (wq : rmc_wq) (ctx_id recv_buf length : Z) : outcome (rmc_wq * Z) :=
  e ← rd (wq_q wq) (wq_head wq);
  if we_valid e then Ret (wq, -1)
  else
    q ← wr (wq_q wq) (wq_head wq) (create_wq_entry RMC_RECV (wq_SR wq) ctx_id 0 recv_buf 0 length);
    Ret (wq_advance (Wq q (wq_head wq) (wq_SR wq)), 0).

(** ** Polling *)

(** The two writes at the head of the inner loop: the slot is released and the tail moves
    on, flipping the sense bit at the end of a lap. *)
(* libzsim/zsim_nic_defines.cpp:77-84 rmc_check_cq *)
Definition cq_consume (cq : rmc_cq) (slot : Z) : outcome rmc_cq :=
  e ← rd (cq_q cq) slot;
  q ← wr (cq_q cq) slot (CqEntry (ce_SR e) false (ce_success e) (ce_tid e) (ce_recv_buf_addr e));
  let tail := (cq_tail cq + 1)%u32 in
  if tail >=? MAX_NUM_WQ then Ret (Cq q 0 (negb (cq_SR cq))) else Ret (Cq q tail (cq_SR cq)).

(** The inner loop, [n] passes at most: the entries of this lap, from slot [tail] on. The
    boolean says that the function returns from inside the loop. *)
(* libzsim/zsim_nic_defines.cpp:63-126 rmc_check_cq *)
Fixpoint check_entries (n : nat) (wq : rmc_wq) (cq : rmc_cq) (tail : Z) (raw_cqe : cq_entry)
    (ret : successStruct) : outcome (rmc_cq * Z * successStruct * bool) :=
  if Bool.eqb (ce_SR raw_cqe) (cq_SR cq) && negb (ss_success ret =? 0) then
    match n with
    | O => Spin
    | S n =>
        cq ← cq_consume cq tail;
        if ce_success raw_cqe =? 127 then
          Ret (cq, tail, Success (ss_success ret) RMC_INCOMING_SEND (ce_tid raw_cqe) (ce_recv_buf_addr raw_cqe), true)
        else if ce_success raw_cqe =? 1 then
          Ret (cq, tail, Success (ss_success ret) RMC_INCOMING_RESP (ce_tid raw_cqe) (ce_recv_buf_addr raw_cqe), true)
        else
          let tid := ce_tid raw_cqe in
          w ← rd (wq_q wq) tid;
          ret ← (if we_op w =? RMC_SABRE then
                   e ← rd (cq_q cq) tail;
                   Ret (Success (ce_success e) RMC_SABRE
                          (if ce_success e =? 0 then tid else ss_tid ret) (ss_recv_buf_addr ret))
                 else Ret (Success (ss_success ret) 0 (ss_tid ret) (ss_recv_buf_addr ret)));
          let tail := cq_tail cq in
          raw_cqe ← rd (cq_q cq) tail;
          check_entries n wq cq tail raw_cqe ret
    end
  else Ret (cq, tail, ret, false).

Section Poll.
Context {N : Type}.
(** The interface: its own state, and what it does to the queue pair between two passes. *)
Variable nic : N -> rmc_wq -> rmc_cq -> N * rmc_wq * rmc_cq.
Variable fuel : nat.

(** The outer loop; [tail] is the local copy of the tail. *)
(* libzsim/zsim_nic_defines.cpp:52-129 rmc_check_cq *)
Fixpoint check_passes (n : nat) (s : N) (wq : rmc_wq) (cq : rmc_cq) (tail : Z) (ret : successStruct)
    : outcome (N * rmc_wq * rmc_cq * successStruct) :=
  let '(s, wq, cq) := nic s wq cq in
  raw_wqe ← rd (wq_q wq) (wq_head wq);
  raw_cqe ← rd (cq_q cq) tail;
  '(cq, tail, ret, returns) ← check_entries fuel wq cq tail raw_cqe ret;
  if (returns : bool) then Ret (s, wq, cq, ret)
  else if we_valid raw_wqe && negb (ss_success ret =? 0) then
    match n with
    | O => Spin
    | S n => check_passes n s wq cq tail ret
    end
  else Ret (s, wq, cq, ret).

(** [junk] holds the fields of the result that are not initialised. *)
(* libzsim/zsim_nic_defines.cpp:39-136 rmc_check_cq *)
Definition rmc_check_cq (junk : successStruct) (s : N) (wq : rmc_wq) (cq : rmc_cq)
    : outcome (N * rmc_wq * rmc_cq * successStruct) :=
  check_passes fuel s wq cq (cq_tail cq) (Success 1 RMC_INVAL (ss_tid junk) (ss_recv_buf_addr junk)).
End Poll.
