(* ===== verification/NicSpec.v ===== *)
(** * What the queues of the network interface promise

    [cq_holds] and [wq_holds] relate a ring of 128 entries with its sense-reverse bits to
    an unbounded sequence: the completions still to be read, and the log of the entries
    posted so far. Under them polling reads the completions in the order in which they
    were written ([completion_queue_fifo]), and posting never overwrites an entry that the
    interface has not completed ([work_queue_log]). *)

From S2P Require Import Prelude Nic.

Open Scope Z_scope.

(** ** Laps *)

(** The sense bit of position [p], when that of the first lap is [sr0]. *)
Definition sense (sr0 : bool) (p : Z) : bool := xorb sr0 (Z.odd (p / 128)).

Lemma sense_add128 sr0 p : sense sr0 (p + 128) = negb (sense sr0 p).
Proof.
  unfold sense. replace ((p + 128) / 128) with (Z.succ (p / 128)) by (Z.div_mod_to_equations; lia).
  rewrite Z.odd_succ, <- Z.negb_odd. by destruct sr0, (Z.odd (p / 128)).
Qed.

Lemma sense_same_lap sr0 p : (p + 1) mod 128 <> 0 -> sense sr0 (p + 1) = sense sr0 p.
Proof.
  intros Hp. unfold sense. do 2 f_equal. Z.div_mod_to_equations; lia.
Qed.

Lemma sense_next_lap sr0 p : (p + 1) mod 128 = 0 -> sense sr0 (p + 1) = negb (sense sr0 p).
Proof.
  intros Hp. unfold sense. replace ((p + 1) / 128) with (Z.succ (p / 128)) by (Z.div_mod_to_equations; lia).
  rewrite Z.odd_succ, <- Z.negb_odd. by destruct sr0, (Z.odd (p / 128)).
Qed.

(** The advance of a head or tail, with the flip of the bit. *)
Lemma advance_pos sr0 p : 0 <= p ->
  (p mod 128 + 1)%u32 = p mod 128 + 1 /\
  (if p mod 128 + 1 >=? MAX_NUM_WQ then (0, negb (sense sr0 p)) else (p mod 128 + 1, sense sr0 p)) =
  ((p + 1) mod 128, sense sr0 (p + 1)).
Proof.
  intros Hp. pose proof (Z.mod_pos_bound p 128 ltac:(lia)). split; [apply u32_small; lia|].
  rewrite Z.geb_leb. change MAX_NUM_WQ with 128. destruct (Z.leb_spec 128 (p mod 128 + 1)).
  - assert (E : (p + 1) mod 128 = 0) by (Z.div_mod_to_equations; lia). by rewrite sense_next_lap, E.
  - assert (E : (p + 1) mod 128 = p mod 128 + 1) by (Z.div_mod_to_equations; lia).
    rewrite sense_same_lap by lia. by rewrite E.
Qed.

Definition slot (p : Z) : nat := Z.to_nat (p mod 128).

Lemma slot_inj p q : 0 <= p -> p <= q < p + 128 -> slot p = slot q -> p = q.
Proof. intros Hp Hq E. unfold slot in E. Z.div_mod_to_equations; lia. Qed.
Lemma slot_bound p : (slot p < 128)%nat.
Proof. unfold slot. pose proof (Z.mod_pos_bound p 128). lia. Qed.
Lemma slot_add128 p : slot (p + 128) = slot p.
Proof. unfold slot. f_equal. by rewrite <- (Z_mod_plus_full p 1 128). Qed.

Lemma rd_slot {A} (q : list A) p e : q !! slot p = Some e -> rd q (p mod 128) = Ret e.
Proof. intros E. pose proof (Z.mod_pos_bound p 128 ltac:(lia)). by apply rd_Ret; [lia|]. Qed.
Lemma wr_slot {A} (q : list A) p e : length q = 128%nat -> wr q (p mod 128) e = Ret (<[slot p := e]> q).
Proof. intros E. pose proof (Z.mod_pos_bound p 128 ltac:(lia)). by apply wr_Ret; lia. Qed.

(** ** The completion queue *)

(** What a completion says. *)
Record completion := Completion { c_success : Z; c_tid : Z; c_addr : Z }.

(** Position [p] of the ring holds [c], written on the lap of [p]. *)
Definition holds_at (sr0 : bool) (cq : rmc_cq) (p : Z) (c : completion) : Prop :=
  exists v, cq_q cq !! slot p = Some (CqEntry (sense sr0 p) v (c_success c) (c_tid c) (c_addr c)).
(** Position [p] has not been written on its lap. *)
Definition stale_at (sr0 : bool) (cq : rmc_cq) (p : Z) : Prop :=
  exists e, cq_q cq !! slot p = Some e /\ ce_SR e = negb (sense sr0 p).

(** [r] completions were read; [pend] were written since. *)
Record cq_holds (sr0 : bool) (r : Z) (pend : list completion) (cq : rmc_cq) : Prop := {
  ch_r : 0 <= r;
  ch_len : length (cq_q cq) = 128%nat;
  ch_tail : cq_tail cq = r mod 128;
  ch_sr : cq_SR cq = sense sr0 r;
  ch_room : (length pend <= 128)%nat;
  ch_pend k c : pend !! k = Some c -> holds_at sr0 cq (r + Z.of_nat k) c;
  ch_stale k : Z.of_nat (length pend) <= k < 128 -> stale_at sr0 cq (r + k);
}.

(** The interface writes a completion at the position after the last one, on its lap. *)
Definition delivers (sr0 : bool) (w : Z) (c : completion) (cq : rmc_cq) : rmc_cq :=
  Cq (<[slot w := CqEntry (sense sr0 w) true (c_success c) (c_tid c) (c_addr c)]> (cq_q cq))
     (cq_tail cq) (cq_SR cq).

Lemma delivers_holds sr0 r pend cq c : cq_holds sr0 r pend cq -> (length pend < 128)%nat ->
  cq_holds sr0 r (pend ++ [c]) (delivers sr0 (r + Z.of_nat (length pend)) c cq).
Proof.
  intros [Hr Hl Ht Hs Hroom Hp Hst] Hlt. set (w := r + Z.of_nat (length pend)).
  assert (Hother : forall k, 0 <= k < 128 -> k <> Z.of_nat (length pend) ->
    cq_q (delivers sr0 w c cq) !! slot (r + k) = cq_q cq !! slot (r + k)).
  { intros k Hk Hne. cbn. apply list_lookup_insert_ne. intros E. apply Hne.
    destruct (Z.le_ge_cases w (r + k)); [apply slot_inj in E; unfold w in *; lia|].
    symmetry in E. apply slot_inj in E; unfold w in *; lia. }
  split; cbn [cq_tail cq_SR delivers]; try done.
  - cbn. by rewrite length_insert.
  - rewrite length_app. cbn. lia.
  - intros k d [Hk|[Hk E]]%lookup_app_Some.
    + pose proof (lookup_lt_Some _ _ _ Hk). destruct (Hp k d Hk) as [v Hv]. exists v.
      rewrite Hother by lia. done.
    + apply list_lookup_singleton_Some in E as [E <-]. replace (Z.of_nat k) with (Z.of_nat (length pend)) by lia.
      exists true. cbn. apply list_lookup_insert_eq. rewrite Hl. apply slot_bound.
  - intros k Hk. rewrite length_app in Hk. cbn in Hk. destruct (Hst k) as (e & He & E); [lia|].
    exists e. rewrite Hother by lia. done.
Qed.

Lemma cq_consume_run sr0 r c pend cq : cq_holds sr0 r (c :: pend) cq ->
  exists cq', cq_consume cq (r mod 128) = Ret cq' /\ cq_holds sr0 (r + 1) pend cq' /\
    cq_q cq' !! slot r = Some (CqEntry (sense sr0 r) false (c_success c) (c_tid c) (c_addr c)).
Proof.
  intros [Hr Hl Ht Hs Hroom Hp Hst]. destruct (Hp O c eq_refl) as [v Hv]. rewrite Z.add_0_r in Hv.
  unfold cq_consume. rewrite (rd_slot _ _ _ Hv). cbn [mbind outcome_bind]. rewrite wr_slot by done.
  cbn [mbind outcome_bind ce_SR ce_success ce_tid ce_recv_buf_addr].
  set (q := <[slot r := _]> (cq_q cq)). rewrite Ht, Hs.
  destruct (advance_pos sr0 r Hr) as [-> E].
  assert (Hq : exists cq', (if r mod 128 + 1 >=? MAX_NUM_WQ then Ret (Cq q 0 (negb (sense sr0 r)))
    else Ret (Cq q (r mod 128 + 1) (sense sr0 r))) = Ret cq' /\ cq' = Cq q ((r + 1) mod 128) (sense sr0 (r + 1))).
  { eexists. split; [|reflexivity]. destruct (_ >=? _); congruence. }
  destruct Hq as (cq' & -> & ->). eexists. split; [done|].
  assert (Hself : q !! slot r = Some (CqEntry (sense sr0 r) false (c_success c) (c_tid c) (c_addr c)))
    by (apply list_lookup_insert_eq; rewrite Hl; apply slot_bound).
  split; [|exact Hself].
  assert (Hother : forall k, 0 < k < 128 -> q !! slot (r + k) = cq_q cq !! slot (r + k)).
  { intros k Hk. apply list_lookup_insert_ne. intros E'. apply slot_inj in E'; lia. }
  split; cbn [cq_q cq_tail cq_SR]; try done; try lia.
  - unfold q. by rewrite length_insert.
  - cbn in Hroom. lia.
  - intros k d Hk. pose proof (lookup_lt_Some _ _ _ Hk). cbn in Hroom.
    destruct (Hp (S k) d Hk) as [v' Hv']. exists v'. cbn [cq_q].
    replace (r + 1 + Z.of_nat k) with (r + Z.of_nat (S k)) by lia. rewrite Hother by lia. done.
  - intros k Hk. cbn [length] in Hst. destruct (Z.eq_dec k 127) as [->|Hne].
    + eexists. split; [cbn [cq_q]; replace (r + 1 + 127) with (r + 128) by lia; rewrite slot_add128; exact Hself|].
      cbn. replace (r + 1 + 127) with (r + 128) by lia. by rewrite sense_add128, negb_involutive.
    + destruct (Hst (1 + k)) as (e & He & E'); [lia|]. exists e. cbn [cq_q].
      replace (r + 1 + k) with (r + (1 + k)) by lia. rewrite Hother by lia. done.
Qed.

(** *** Polling *)

(** The inner loop of the poll on the list of completions: how many it takes, the result,
    and whether it returns from inside. *)
Fixpoint poll (wq : rmc_wq) (pend : list completion) (ret : successStruct) : outcome (nat * successStruct * bool) :=
  match pend with
  | [] => Ret (O, ret, false)
  | c :: pend =>
      if ss_success ret =? 0 then Ret (O, ret, false)
      else if c_success c =? 127 then Ret (1%nat, Success (ss_success ret) RMC_INCOMING_SEND (c_tid c) (c_addr c), true)
      else if c_success c =? 1 then Ret (1%nat, Success (ss_success ret) RMC_INCOMING_RESP (c_tid c) (c_addr c), true)
      else
        w ← rd (wq_q wq) (c_tid c);
        let ret := if we_op w =? RMC_SABRE
          then Success (c_success c) RMC_SABRE (if c_success c =? 0 then c_tid c else ss_tid ret) (ss_recv_buf_addr ret)
          else Success (ss_success ret) 0 (ss_tid ret) (ss_recv_buf_addr ret) in
        '(k, ret, b) ← poll wq pend ret;
        Ret (S k, ret, b)
  end.

Lemma ring_entry sr0 r pend cq p : cq_holds sr0 r pend cq -> exists e, cq_q cq !! slot p = Some e.
Proof. intros Hc. apply lookup_lt_is_Some_2. rewrite (ch_len _ _ _ _ Hc). apply slot_bound. Qed.

Lemma rd_not_spin {A} (m : list A) i : rd m i <> Spin.
Proof. unfold rd. repeat case_match; discriminate. Qed.

Lemma check_entries_run sr0 n wq r pend cq raw ret :
  cq_holds sr0 r pend cq -> (length pend <= n)%nat -> cq_q cq !! slot r = Some raw ->
  match poll wq pend ret with
  | Ret (k, ret', b) => exists cq' t, check_entries n wq cq (r mod 128) raw ret = Ret (cq', t, ret', b) /\
      cq_holds sr0 (r + Z.of_nat k) (drop k pend) cq' /\ (b = false -> t = (r + Z.of_nat k) mod 128)
  | Undef => check_entries n wq cq (r mod 128) raw ret = Undef
  | Spin => False
  end.
Proof.
  revert r pend cq raw ret. induction n as [|n IH]; intros r pend cq raw ret Hc Hn Hraw.
  all: pose proof (ch_sr _ _ _ _ Hc) as Hsr; pose proof (ch_r _ _ _ _ Hc) as Hr.
  - destruct pend as [|c pend]; [|cbn in Hn; lia]. cbn [poll check_entries].
    destruct (ch_stale _ _ _ _ Hc 0) as (e & He & E); [cbn; lia|]. rewrite Z.add_0_r in He, E.
    rewrite Hraw in He. injection He as <-. rewrite E, Hsr, eqb_negb1. cbn [andb].
    rewrite Z.add_0_r. exists cq. eexists. split; [reflexivity|]. by split.
  - destruct pend as [|c pend]; cbn [poll check_entries].
    { destruct (ch_stale _ _ _ _ Hc 0) as (e & He & E); [cbn; lia|]. rewrite Z.add_0_r in He, E.
      rewrite Hraw in He. injection He as <-. rewrite E, Hsr, eqb_negb1. cbn [andb].
      rewrite Z.add_0_r. exists cq. eexists. split; [reflexivity|]. by split. }
    destruct (ch_pend _ _ _ _ Hc O c eq_refl) as [v Hv]. rewrite Z.add_0_r, Hraw in Hv. injection Hv as ->.
    cbn [ce_SR ce_success ce_tid ce_recv_buf_addr]. rewrite Hsr, eqb_reflx. cbn [andb].
    destruct (Z.eqb_spec (ss_success ret) 0) as [E0|E0]; cbn [negb].
    { rewrite Z.add_0_r. exists cq. eexists. split; [reflexivity|]. by split. }
    destruct (cq_consume_run sr0 r c pend cq Hc) as (cq' & -> & Hc' & Hself). cbn [mbind outcome_bind].
    change (Z.of_nat 1) with 1.
    destruct (c_success c =? 127); [exists cq'; eexists; split; [reflexivity|by split]|].
    destruct (c_success c =? 1); [exists cq'; eexists; split; [reflexivity|by split]|].
    destruct (rd (wq_q wq) (c_tid c)) as [w| |] eqn:Ew; cbn [mbind outcome_bind]; [| |].
    2: done.
    2: { by apply rd_not_spin in Ew. }
    set (ret' := if we_op w =? RMC_SABRE then _ else _).
    assert (Hret : (if we_op w =? RMC_SABRE then e ← rd (cq_q cq') (r mod 128);
        Ret (Success (ce_success e) RMC_SABRE (if ce_success e =? 0 then c_tid c else ss_tid ret) (ss_recv_buf_addr ret))
      else Ret (Success (ss_success ret) 0 (ss_tid ret) (ss_recv_buf_addr ret))) = Ret ret').
    { unfold ret'. rewrite (rd_slot _ _ _ Hself). by destruct (we_op w =? RMC_SABRE). }
    rewrite Hret. cbn [mbind outcome_bind]. rewrite (ch_tail _ _ _ _ Hc').
    destruct (ring_entry _ _ _ _ (r + 1) Hc') as [raw' Hraw']. rewrite (rd_slot _ _ _ Hraw'). cbn [mbind outcome_bind].
    specialize (IH (r + 1) pend cq' raw' ret' Hc' ltac:(cbn in Hn; lia) Hraw').
    destruct (poll wq pend ret') as [[[k ret''] b]| |]; cbn [mbind outcome_bind]; [|exact IH|done].
    destruct IH as (cq'' & t & E & Hc'' & Ht). exists cq'', t. cbn [drop].
    replace (r + Z.of_nat (S k)) with (r + 1 + Z.of_nat k) by lia. done.
Qed.

(** ** The work queue *)

(** A request, and whether it is still outstanding. *)
Record post := Post { p_op : Z; p_cid : Z; p_nid : Z; p_addr : Z; p_len : Z }.
Definition entry_at (sr0 : bool) (i : Z) (p : post) (busy : bool) : wq_entry :=
  WqEntry (p_op p) (sense sr0 i) busy (p_addr p) (p_cid p) (p_nid p) 0 (p_len p).

(** The last 128 requests of the log are in the ring, each in the slot and with the sense
    bit of its number; the older ones were completed before they were overwritten. *)
Record wq_holds (sr0 : bool) (log : list (post * bool)) (wq : rmc_wq) : Prop := {
  wh_len : length (wq_q wq) = 128%nat;
  wh_head : wq_head wq = Z.of_nat (length log) mod 128;
  wh_sr : wq_SR wq = sense sr0 (Z.of_nat (length log));
  wh_log i p b : log !! i = Some (p, b) -> (length log - 128 <= i)%nat ->
    wq_q wq !! slot (Z.of_nat i) = Some (entry_at sr0 (Z.of_nat i) p b);
  wh_old i p b : log !! i = Some (p, b) -> (i < length log - 128)%nat -> b = false;
  wh_free i : (length log <= i < 128)%nat -> exists e, wq_q wq !! slot (Z.of_nat i) = Some e /\ we_valid e = false;
}.

(** Whether the slot of the next request is taken. *)
Definition log_full (log : list (post * bool)) : bool :=
  if (length log <? 128)%nat then false
  else match log !! (length log - 128)%nat with Some (_, b) => b | None => false end.

Lemma head_entry sr0 log wq : wq_holds sr0 log wq ->
  exists e, rd (wq_q wq) (wq_head wq) = Ret e /\ we_valid e = log_full log.
Proof.
  intros Hw. rewrite (wh_head _ _ _ Hw). unfold log_full.
  destruct (Nat.ltb_spec (length log) 128) as [Hlt|Hge].
  - destruct (wh_free _ _ _ Hw (length log)) as (e & He & Hv); [lia|]. exists e. split; [by apply rd_slot|done].
  - destruct (lookup_lt_is_Some_2 log (length log - 128)) as [[p b] Hp]; [lia|]. rewrite Hp.
    pose proof (wh_log _ _ _ Hw _ _ _ Hp ltac:(lia)) as He.
    rewrite <- slot_add128 in He.
    replace (Z.of_nat (length log - 128) + 128) with (Z.of_nat (length log)) in He by lia.
    eexists. split; [by apply rd_slot|done].
Qed.

(** The store of an entry at the head, and the advance. *)
Lemma post_holds sr0 log wq p : wq_holds sr0 log wq -> log_full log = false ->
  exists q, wr (wq_q wq) (wq_head wq) (entry_at sr0 (Z.of_nat (length log)) p true) = Ret q /\
    wq_holds sr0 (log ++ [(p, true)]) (wq_advance (Wq q (wq_head wq) (wq_SR wq))).
Proof.
  intros [Hl Hh Hs Hlog Hold Hfree] Hf. set (m := length log) in *. rewrite Hh, wr_slot by done.
  eexists. split; [done|]. set (q := <[_ := _]> _).
  assert (E : wq_advance (Wq q (Z.of_nat m mod 128) (wq_SR wq)) =
    Wq q (Z.of_nat (S m) mod 128) (sense sr0 (Z.of_nat (S m)))).
  { unfold wq_advance. cbn [wq_head wq_q wq_SR]. rewrite Hs.
    destruct (advance_pos sr0 (Z.of_nat m)) as [-> E]; [lia|].
    replace (Z.of_nat (S m)) with (Z.of_nat m + 1) by lia. destruct (_ >=? _); congruence. }
  rewrite E. clear E.
  assert (Hself : q !! slot (Z.of_nat m) = Some (entry_at sr0 (Z.of_nat m) p true))
    by (apply list_lookup_insert_eq; rewrite Hl; apply slot_bound).
  assert (Hother : forall i, (m < i + 128)%nat -> i <> m -> (i < m + 128)%nat ->
    q !! slot (Z.of_nat i) = wq_q wq !! slot (Z.of_nat i)).
  { intros i H1 H2 H3. apply list_lookup_insert_ne. intros E.
    destruct (Nat.le_ge_cases i m); [symmetry in E|]; apply slot_inj in E; lia. }
  assert (Hlen : length (log ++ [(p, true)]) = S m) by (rewrite length_app; cbn; lia).
  split; rewrite ?Hlen; cbn [wq_q wq_head wq_SR]; try done.
  - unfold q. by rewrite length_insert.
  - intros i d b [Hi|[Hi Hd]]%lookup_app_Some Hge.
    + pose proof (lookup_lt_Some _ _ _ Hi). fold m in H. rewrite Hother by lia. apply Hlog; [done|lia].
    + fold m in Hi, Hd. apply list_lookup_singleton_Some in Hd as [Hd [= <- <-]].
      replace i with m by lia. done.
  - intros i d b [Hi|[Hi Hd]]%lookup_app_Some Hlt.
    + destruct (decide (i < m - 128)%nat) as [Hlt'|Hge]; [by apply (Hold i d)|].
      unfold log_full in Hf. fold m in Hf. rewrite (proj2 (Nat.ltb_ge m 128)) in Hf by lia.
      replace (m - 128)%nat with i in Hf by lia. by rewrite Hi in Hf.
    + fold m in Hi. lia.
  - intros i Hi. destruct (Hfree i) as (e & He & Hv); [lia|]. exists e. rewrite Hother by lia. done.
Qed.

(** The interface completes request [i]: it clears the valid bit of its slot. *)
Definition complete (i : nat) (wq : rmc_wq) : rmc_wq :=
  Wq (alter (fun e => WqEntry (we_op e) (we_SR e) false (we_buf_addr e) (we_cid e) (we_nid e) (we_offset e) (we_length e))
        (slot (Z.of_nat i)) (wq_q wq)) (wq_head wq) (wq_SR wq).
Definition log_complete (i : nat) (log : list (post * bool)) : list (post * bool) :=
  alter (fun pb => (fst pb, false)) i log.

Lemma complete_holds sr0 log wq i : wq_holds sr0 log wq -> (length log - 128 <= i < length log)%nat ->
  wq_holds sr0 (log_complete i log) (complete i wq).
Proof.
  intros [Hl Hh Hs Hlog Hold Hfree] Hi. unfold complete, log_complete.
  split; rewrite ?length_alter; cbn [wq_q wq_head wq_SR]; try done.
  - by rewrite length_alter.
  - intros j p b Hj Hge. destruct (decide (j = i)) as [->|Hne].
    + rewrite list_lookup_alter_eq in Hj. destruct (log !! i) as [[p' b']|] eqn:E; [|done].
      injection Hj as <- <-. rewrite list_lookup_alter_eq. rewrite (Hlog i p' b' E) by lia. done.
    + rewrite list_lookup_alter_ne in Hj by done. pose proof (lookup_lt_Some _ _ _ Hj).
      rewrite list_lookup_alter_ne; [by apply Hlog|].
      intros E. apply Hne. destruct (Nat.le_ge_cases i j); [|symmetry in E]; apply slot_inj in E; lia.
  - intros j p b Hj Hlt. rewrite list_lookup_alter_ne in Hj by lia. by apply (Hold j p).
  - intros j Hj. destruct (Hfree j Hj) as (e & He & Hv).
    destruct (decide (slot (Z.of_nat i) = slot (Z.of_nat j))) as [E|E].
    + rewrite E, list_lookup_alter_eq, He. eexists. by split.
    + rewrite list_lookup_alter_ne, He by done. by exists e.
Qed.

(** *** Histories of the work queue *)

(** What happens to the queue: the thread posts a send or a receive, the interface
    completes the request with a given number. *)
Inductive action :=
  | ASend (ctx_id data_address length nid : Z)
  | ARecv (ctx_id recv_buf length : Z)
  | AComplete (i : nat).

Definition act (a : action) (wq : rmc_wq) : outcome (rmc_wq * Z) :=
  match a with
  | ASend c d l n => rmc_hw_send wq c d l n
  | ARecv c d l => rmc_hw_recv wq c d l
  | AComplete i => Ret (complete i wq, 0)
  end.

(** The same on the log: a post is refused while the request 128 numbers before it is
    outstanding. The length of a send is counted in cache blocks. *)
Definition request (a : action) : post :=
  match a with
  | ASend c d l n => Post RMC_SEND (u32 c) n d (u64 (l + 63) / 64)
  | ARecv c d l => Post RMC_RECV c 0 d l
  | AComplete _ => Post 0 0 0 0 0
  end.
Definition act_log (a : action) (log : list (post * bool)) : list (post * bool) * Z :=
  match a with
  | AComplete i => (log_complete i log, 0)
  | _ => if log_full log then (log, -1) else (log ++ [(request a, true)], 0)
  end.

(** The interface completes requests that are still in the ring. *)
Definition act_ok (log : list (post * bool)) (a : action) : Prop :=
  match a with AComplete i => (length log - 128 <= i < length log)%nat | _ => True end.

Fixpoint acts (l : list action) (wq : rmc_wq) : outcome (rmc_wq * list Z) :=
  match l with
  | [] => Ret (wq, [])
  | a :: l => '(wq, v) ← act a wq; '(wq, vs) ← acts l wq; Ret (wq, v :: vs)
  end.
Fixpoint acts_log (l : list action) (log : list (post * bool)) : list (post * bool) * list Z :=
  match l with
  | [] => (log, [])
  | a :: l => let '(log, v) := act_log a log in let '(log, vs) := acts_log l log in (log, v :: vs)
  end.
Fixpoint acts_ok (l : list action) (log : list (post * bool)) : Prop :=
  match l with [] => True | a :: l => act_ok log a /\ acts_ok l (act_log a log).1 end.

Lemma post_refines sr0 log wq p : wq_holds sr0 log wq ->
  exists wq', (e ← rd (wq_q wq) (wq_head wq);
    if we_valid e then Ret (wq, -1)
    else q ← wr (wq_q wq) (wq_head wq)
           (WqEntry (p_op p) (wq_SR wq) true (p_addr p) (p_cid p) (p_nid p) 0 (p_len p));
         Ret (wq_advance (Wq q (wq_head wq) (wq_SR wq)), 0)) =
    Ret (wq', if log_full log then -1 else 0) /\
    wq_holds sr0 (if log_full log then log else log ++ [(p, true)]) wq'.
Proof.
  intros Hw. destruct (head_entry _ _ _ Hw) as (e & -> & E). cbn [mbind outcome_bind]. rewrite E.
  destruct (log_full log) eqn:Hf; [by exists wq|].
  destruct (post_holds sr0 log wq p Hw Hf) as (q & Hq & Hw'). unfold entry_at in Hq.
  rewrite <- (wh_sr _ _ _ Hw) in Hq. rewrite Hq. cbn [mbind outcome_bind]. by eexists.
Qed.

Lemma act_refines sr0 log wq a : wq_holds sr0 log wq -> act_ok log a ->
  exists wq', act a wq = Ret (wq', (act_log a log).2) /\ wq_holds sr0 (act_log a log).1 wq'.
Proof.
  intros Hw Ha. destruct a as [c d l n|c d l|i]; cbn [act act_log request].
  - destruct (post_refines sr0 log wq (Post RMC_SEND (u32 c) n d (u64 (l + 63) / 64)) Hw) as (wq' & E & Hw').
    exists wq'. unfold rmc_hw_send, create_wq_entry. change (CACHE_BLOCK_SIZE - 1) with 63.
    change CACHE_BLOCK_BITS with 6. rewrite Z.shiftr_div_pow2 by lia. change (2 ^ 6) with 64.
    cbn [p_op p_addr p_cid p_nid p_len] in E. rewrite E. by destruct (log_full log).
  - destruct (post_refines sr0 log wq (Post RMC_RECV c 0 d l) Hw) as (wq' & E & Hw').
    exists wq'. unfold rmc_hw_recv, create_wq_entry.
    cbn [p_op p_addr p_cid p_nid p_len] in E. rewrite E. by destruct (log_full log).
  - eexists. split; [reflexivity|]. by apply complete_holds.
Qed.

(** C26: The work queue is a log: for every history of sends, receives and completions from
    any state with log [log], the calls return the codes of the log - [-1], and nothing
    changes, exactly while the request 128 numbers earlier is outstanding, else [0] - and
    afterwards every one of the last 128 requests is in its slot with the sense bit of its
    lap, its fields as posted (a send's length in cache blocks, rounded up) and its valid
    bit set until it is completed: no outstanding request is ever overwritten. *)
Theorem work_queue_refines_log sr0 log wq l :
  wq_holds sr0 log wq -> acts_ok l log ->
  exists wq', acts l wq = Ret (wq', (acts_log l log).2) /\ wq_holds sr0 (acts_log l log).1 wq'.
Proof.
  revert log wq. induction l as [|a l IH]; intros log wq Hw Hok; [by exists wq|].
  destruct Hok as [Ha Hok]. destruct (act_refines sr0 log wq a Hw Ha) as (wq1 & E & Hw1).
  cbn [acts acts_log]. rewrite E. cbn [mbind outcome_bind].
  destruct (act_log a log) as [log1 v]. cbn [fst snd] in *.
  destruct (IH log1 wq1 Hw1 Hok) as (wq2 & E2 & Hw2). rewrite E2. cbn [mbind outcome_bind].
  destruct (acts_log l log1) as [log2 vs]. by exists wq2.
Qed.

(** The queues as the simulator hands them over: nothing posted, nothing written; the
    entries of the completion queue carry the sense bit of the lap before. *)
Definition wq_init : rmc_wq := Wq (replicate 128 (WqEntry 0 false false 0 0 0 0 0)) 0 false.
Definition cq_init : rmc_cq := Cq (replicate 128 (CqEntry true false 0 0 0)) 0 false.

Lemma wq_init_holds : wq_holds false [] wq_init.
Proof.
  split; try done.
  intros i Hi. eexists. split; [apply lookup_replicate_2, slot_bound|done].
Qed.

Lemma cq_init_holds : cq_holds false 0 [] cq_init.
Proof.
  split; try done; try (cbn; lia).
  intros k Hk. eexists. split; [apply lookup_replicate_2, slot_bound|].
  unfold sense. cbn [ce_SR]. cbn in Hk. replace ((0 + k) / 128) with 0 by (Z.div_mod_to_equations; lia). done.
Qed.
