(* ===== verification/NicDevice.v ===== *)
(** * What the program relies on of the network interface

    The interface is outside the repository; [Device] states what the polling loop needs
    of it: before a pass of a loop it may clear valid bits of requests that are outstanding and
    write completions behind those it wrote before, of any kind, the queue being large enough for
    what is unread. Under it [rmc_check_cq] hands out the messages in the order of their arrival
    ([completion_queue_fifo]); it returns if the interface completes a request within a bounded
    number of passes ([Responsive]), for instance in every pass ([Eager]). *)

From S2P Require Import Prelude Nic NicSpec.

Open Scope Z_scope.

(** Requests may be completed, nothing else changes. *)
Definition completes : relation (list (post * bool)) :=
  Forall2 (fun x y => x.1 = y.1 /\ (y.2 = true -> x.2 = true)).

#[export] Instance completes_preorder : PreOrder completes.
Proof.
  split.
  - intros l. apply Forall2_same_length_lookup_2; [done|]. intros i x y Hx Hy.
    rewrite Hx in Hy. by injection Hy as ->.
  - intros l1 l2 l3 H12. revert l3. induction H12 as [|x y l1 l2 [E1 H1] _ IH]; intros l3 H23;
      inversion H23 as [|? z ? ? [E2 H2] H]; subst; constructor; [split; [congruence|auto]|by apply IH].
Qed.

Lemma log_complete_completes i log : completes log (log_complete i log).
Proof.
  apply Forall2_same_length_lookup_2; [by unfold log_complete; rewrite length_alter|].
  intros j x y Hx Hy. unfold log_complete in Hy. destruct (decide (i = j)) as [->|Hne].
  - rewrite list_lookup_alter_eq, Hx in Hy. by injection Hy as <-.
  - rewrite list_lookup_alter_ne, Hx in Hy by done. by injection Hy as <-.
Qed.

(** A completion that carries a message: an incoming send or an incoming response. Any other names
    an entry of the work queue. *)
Definition is_send (c : completion) : bool := c_success c =? 127.
Definition message (c : completion) : Prop := c_success c = 127 \/ c_success c = 1.
Definition accepted (c : completion) : Prop := message c \/ 0 <= c_tid c < 128.

(** A result that hands out [c], and one that hands out nothing. *)
Record carries (c : completion) (ret : successStruct) : Prop := {
  cr_op : ss_op ret = if is_send c then RMC_INCOMING_SEND else RMC_INCOMING_RESP;
  cr_tid : ss_tid ret = c_tid c;
  cr_addr : ss_recv_buf_addr ret = c_addr c;
}.
Definition empty_handed (ret : successStruct) : Prop := ss_op ret <> RMC_INCOMING_SEND /\ ss_op ret <> RMC_INCOMING_RESP.

(** What a call that takes the completions [got] returns: the message that is the last of them, or
    nothing if there is none among them. *)
Inductive hands (got : list completion) (ret : successStruct) : Prop :=
  | hands_message sk c : got = sk ++ [c] -> Forall (fun d => ~ message d) sk -> message c -> carries c ret -> hands got ret
  | hands_nothing : Forall (fun d => ~ message d) got -> empty_handed ret -> hands got ret.

Lemma hands_app sk got ret : Forall (fun d => ~ message d) sk -> hands got ret -> hands (sk ++ got) ret.
Proof.
  intros Hsk [sk' c -> Hsk' Hm Hc|Hg He].
  - eapply (hands_message _ _ (sk ++ sk') c); [by rewrite app_assoc|by apply Forall_app|done|done].
  - apply hands_nothing; [by apply Forall_app|done].
Qed.

Lemma carries_not_empty c ret : carries c ret -> ~ empty_handed ret.
Proof. intros [E _ _] [H1 H2]. destruct (is_send c); congruence. Qed.

Definition iface (N : Type) : Type := N -> rmc_wq -> rmc_cq -> N * rmc_wq * rmc_cq.

(** The state of the queue pair: the log of requests and the messages read so far;
    [arrived s] are all completions the interface has ever written. *)
Record pair_holds {N} (arrived : N -> list completion) (srw src : bool)
    (s : N) (wq : rmc_wq) (cq : rmc_cq) (log : list (post * bool)) (read : list completion) : Prop := {
  ph_wq : wq_holds srw log wq;
  ph_cq : exists pend, arrived s = read ++ pend /\ cq_holds src (Z.of_nat (length read)) pend cq;
}.

Class Device {N} (nic : iface N) (arrived : N -> list completion) (srw src : bool) : Prop := {
  device_accepted s : Forall accepted (arrived s);
  device_step s wq cq log read : pair_holds arrived srw src s wq cq log read ->
    exists s' wq' cq' log' new, nic s wq cq = (s', wq', cq') /\ arrived s' = arrived s ++ new /\
      completes log log' /\ pair_holds arrived srw src s' wq' cq' log' read;
}.

Definition slot_free (wq : rmc_wq) : Prop := exists e, rd (wq_q wq) (wq_head wq) = Ret e /\ we_valid e = false.

(** The slot of the next request gets free within [wait] further passes. *)
Class Responsive {N} (nic : iface N) (arrived : N -> list completion) (srw src : bool)
    (patience : N -> rmc_wq -> nat) (wait : nat) : Prop := {
  responsive_device :: Device nic arrived srw src;
  responsive_bound s wq cq log read : pair_holds arrived srw src s wq cq log read -> (patience s wq <= wait)%nat;
  responsive_step s wq cq log read s' wq' cq' : pair_holds arrived srw src s wq cq log read ->
    nic s wq cq = (s', wq', cq') -> slot_free wq' \/ (patience s' wq' < patience s wq)%nat;
}.

(** It is free after every pass. *)
Class Eager {N} (nic : iface N) (arrived : N -> list completion) (srw src : bool) : Prop := {
  eager_device :: Device nic arrived srw src;
  eager_step s wq cq log read s' wq' cq' : pair_holds arrived srw src s wq cq log read ->
    nic s wq cq = (s', wq', cq') -> slot_free wq';
}.

Lemma eager_responsive {N} (nic : iface N) arrived srw src : Eager nic arrived srw src ->
  Responsive nic arrived srw src (fun _ _ => O) 0.
Proof. intros He. split; [apply He|lia|]. intros. left. by eapply eager_step. Qed.

(** The state of the interface after one pass. *)
Definition pass {N} (nic : iface N) (s s' : N) : Prop := exists wq cq wq' cq', nic s wq cq = (s', wq', cq').

Section Poll.
Context {N : Type} (nic : iface N) (arrived : N -> list completion) (srw src : bool).
Abbreviation holds := (pair_holds arrived srw src).

(** The inner loop on a list of completions: it returns with the first message; else it leaves with
    all of them taken, or after an entry that reports a failure. *)
Lemma poll_run wq pend ret : length (wq_q wq) = 128%nat -> Forall accepted pend -> empty_handed ret ->
  exists k ret' b, poll wq pend ret = Ret (k, ret', b) /\ (k <= length pend)%nat /\ hands (take k pend) ret' /\
    (b = true -> ~ empty_handed ret') /\
    (b = false -> empty_handed ret' /\ (k = O -> ret' = ret) /\ (k = length pend \/ ss_success ret' = 0)).
Proof.
  intros Hl Hp. revert ret. induction Hp as [|c pend Hc _ IH]; intros ret He; cbn [poll].
  { exists O, ret, false. split; [done|]. split; [done|]. split; [by apply hands_nothing|]. split; [done|]. by auto. }
  destruct (Z.eqb_spec (ss_success ret) 0) as [E0|_].
  { exists O, ret, false. split; [done|]. split; [lia|]. split; [by apply hands_nothing|]. split; [done|]. by auto. }
  assert (Hmsg : forall op, message c -> op = (if is_send c then RMC_INCOMING_SEND else RMC_INCOMING_RESP) ->
    let ret' := Success (ss_success ret) op (c_tid c) (c_addr c) in hands (take 1 (c :: pend)) ret' /\ ~ empty_handed ret').
  { intros op Hm ->. assert (Hcr : carries c (Success (ss_success ret) (if is_send c then RMC_INCOMING_SEND else RMC_INCOMING_RESP)
      (c_tid c) (c_addr c))) by done.
    split; [by apply (hands_message _ _ [] c)|by eapply carries_not_empty]. }
  destruct (Z.eqb_spec (c_success c) 127) as [E|Hn1].
  { destruct (Hmsg RMC_INCOMING_SEND) as [H1 H2]; [by left|unfold is_send; by rewrite E|].
    eexists 1%nat, _, true. split; [done|]. split; [cbn; lia|]. by split. }
  destruct (Z.eqb_spec (c_success c) 1) as [E|Hn2].
  { destruct (Hmsg RMC_INCOMING_RESP) as [H1 H2]; [by right|unfold is_send; by rewrite E|].
    eexists 1%nat, _, true. split; [done|]. split; [cbn; lia|]. by split. }
  assert (Hnm : ~ message c) by (intros [|]; done). destruct Hc as [|Ht]; [done|].
  destruct (rd_ex (wq_q wq) (c_tid c) ltac:(lia)) as [w ->]. cbn [mbind outcome_bind].
  set (ret1 := if we_op w =? RMC_SABRE then _ else _).
  assert (He1 : empty_handed ret1) by (unfold ret1; destruct (_ =? _); split; done).
  destruct (IH ret1 He1) as (k & ret' & b & -> & Hk & Hh & Ht' & Hf). cbn [mbind outcome_bind].
  exists (S k), ret', b. split; [done|]. split; [cbn; lia|].
  split; [apply (hands_app [c]); [by constructor|done]|]. split; [done|].
  intros Eb. destruct (Hf Eb) as (H1 & _ & H3). split; [done|]. split; [done|]. destruct H3 as [->|]; [left|right]; done.
Qed.

(** The inner loop on the queues. *)
Lemma check_entries_messages `{!Device nic arrived srw src} n s wq cq log read raw ret :
  holds s wq cq log read -> (128 <= n)%nat -> rd (cq_q cq) (cq_tail cq) = Ret raw -> empty_handed ret ->
  exists got cq' t ret' b, check_entries n wq cq (cq_tail cq) raw ret = Ret (cq', t, ret', b) /\
    holds s wq cq' log (read ++ got) /\ hands got ret' /\ (b = true -> ~ empty_handed ret') /\
    (b = false -> t = cq_tail cq' /\ empty_handed ret' /\ (got = [] -> ret' = ret) /\
       (arrived s = read ++ got \/ ss_success ret' = 0)).
Proof.
  intros [Hwq (pend & Ha & Hcq)] Hn Hraw He. pose proof (ch_tail _ _ _ _ Hcq) as Ht. pose proof (ch_room _ _ _ _ Hcq) as Hroom.
  destruct (ring_entry _ _ _ _ (Z.of_nat (length read)) Hcq) as [raw' Hraw'].
  rewrite Ht, (rd_slot _ _ _ Hraw') in Hraw. injection Hraw as ->.
  pose proof (check_entries_run src n wq _ pend cq raw ret Hcq ltac:(lia) Hraw') as Hrun.
  assert (Hacc : Forall accepted pend).
  { pose proof (device_accepted (nic := nic) s) as H. rewrite Ha in H. by apply Forall_app in H as [_ H]. }
  destruct (poll_run wq pend ret (wh_len _ _ _ Hwq) Hacc He) as (k & ret' & b & E & Hk & Hh & Hb1 & Hb2).
  rewrite E in Hrun. destruct Hrun as (cq' & t & E' & Hc' & Et). rewrite Ht.
  assert (Hlen : length (take k pend) = k) by (rewrite length_take; lia).
  exists (take k pend), cq', t, ret', b. split; [exact E'|]. split.
  { split; [done|]. exists (drop k pend). rewrite <- app_assoc, take_drop. split; [done|].
    by rewrite length_app, Hlen, Nat2Z.inj_add. }
  split; [done|]. split; [done|]. intros Eb. destruct (Hb2 Eb) as (H1 & H2 & H3).
  split; [by rewrite (ch_tail _ _ _ _ Hc'), Et|]. split; [done|]. split.
  - intros Hg. apply H2. by rewrite Hg in Hlen.
  - destruct H3 as [->|]; [left|by right]. by rewrite Ha, firstn_all.
Qed.

(** One call: what it takes, what it returns; with nothing in hand it has taken all there was. *)
Definition call_result (s : N) (log : list (post * bool)) (read : list completion) (ret : successStruct)
    (out : N * rmc_wq * rmc_cq * successStruct) : Prop :=
  let '(s', wq', cq', ret') := out in
  tc (pass nic) s s' /\
  exists log' got, completes log log' /\ holds s' wq' cq' log' (read ++ got) /\ hands got ret' /\
    (got = [] -> ret' = ret) /\ (empty_handed ret' -> arrived s' = read ++ got \/ ss_success ret' = 0).

(** What one pass of the outer loop sees. *)
Lemma pass_run `{!Device nic arrived srw src} s wq cq log read : holds s wq cq log read ->
  exists s1 wq1 cq1 log1 e raw, nic s wq cq = (s1, wq1, cq1) /\ completes log log1 /\
    holds s1 wq1 cq1 log1 read /\ cq_tail cq1 = cq_tail cq /\
    rd (wq_q wq1) (wq_head wq1) = Ret e /\ we_valid e = log_full log1 /\
    rd (cq_q cq1) (cq_tail cq1) = Ret raw.
Proof.
  intros Hh. destruct (device_step s wq cq log read Hh) as (s1 & wq1 & cq1 & log1 & new & E & _ & Hc & Hh1).
  destruct Hh as [_ (p0 & _ & Hcq)]. pose proof Hh1 as [Hwq1 (pend & Ha & Hcq1)].
  destruct (head_entry _ _ _ Hwq1) as (e & He & Ev).
  destruct (ring_entry _ _ _ _ (Z.of_nat (length read)) Hcq1) as [raw Hraw].
  exists s1, wq1, cq1, log1, e, raw. rewrite (ch_tail _ _ _ _ Hcq1), (ch_tail _ _ _ _ Hcq).
  by rewrite (rd_slot _ _ _ Hraw).
Qed.

(** The outer loop, pass by pass: the call returns after this one, or goes on behind the completions
    it has passed over, the next request having no slot. *)
Lemma check_pass `{!Device nic arrived srw src} fuel n s wq cq log read ret :
  (128 <= fuel)%nat -> holds s wq cq log read -> empty_handed ret ->
  exists s1 wq1 cq1, nic s wq cq = (s1, wq1, cq1) /\
    ((exists cq2 ret', check_passes nic fuel n s wq cq (cq_tail cq) ret = Ret (s1, wq1, cq2, ret') /\
        call_result s log read ret (s1, wq1, cq2, ret')) \/
     (exists log1 cq2 sk ret1, completes log log1 /\ holds s1 wq1 cq2 log1 (read ++ sk) /\ log_full log1 = true /\
        Forall (fun d => ~ message d) sk /\ empty_handed ret1 /\ (sk = [] -> ret1 = ret) /\
        check_passes nic fuel n s wq cq (cq_tail cq) ret =
        match n with O => Spin | S n => check_passes nic fuel n s1 wq1 cq2 (cq_tail cq2) ret1 end)).
Proof.
  intros Hf Hh He. destruct (pass_run s wq cq log read Hh) as (s1 & wq1 & cq1 & log1 & e & raw & E & Hc & Hh1 & Et & Ew & Ev & Hraw).
  exists s1, wq1, cq1. split; [done|].
  destruct (check_entries_messages fuel s1 wq1 cq1 log1 read raw ret Hh1 Hf Hraw He) as
    (got & cq2 & t & ret' & b & Ec & Hh2 & Hg & Hb1 & Hb2).
  assert (Hpass : tc (pass nic) s s1) by (constructor; by exists wq, cq, wq1, cq1).
  assert (Heq : check_passes nic fuel n s wq cq (cq_tail cq) ret =
    if b then Ret (s1, wq1, cq2, ret') else if log_full log1 && negb (ss_success ret' =? 0) then
      match n with O => Spin | S n => check_passes nic fuel n s1 wq1 cq2 t ret' end else Ret (s1, wq1, cq2, ret')).
  { destruct n; cbn [check_passes]; rewrite E, <- Et, Ew; cbn [mbind outcome_bind]; rewrite Hraw; cbn [mbind outcome_bind];
      rewrite Ec; cbn [mbind outcome_bind]; by rewrite Ev. }
  rewrite Heq. destruct b.
  { left. exists cq2, ret'. split; [done|]. split; [done|]. exists log1, got. split_and!; try done.
    - intros ->. destruct Hg as [sk c Hsk _ _ _|_ H]; [by destruct sk|by destruct (Hb1 eq_refl)].
    - intros H. by destruct (Hb1 eq_refl). }
  destruct (Hb2 eq_refl) as (-> & He' & Hr & Ha). destruct (log_full log1) eqn:Hfull; cbn [andb].
  2: { left. exists cq2, ret'. split; [done|]. split; [done|]. by exists log1, got. }
  destruct (Z.eqb_spec (ss_success ret') 0) as [E0|E0]; cbn [negb].
  { left. exists cq2, ret'. split; [done|]. split; [done|]. by exists log1, got. }
  right. exists log1, cq2, got, ret'. split_and!; try done.
  destruct Hg as [sk c _ _ _ Hcr|H _]; [by destruct (carries_not_empty _ _ Hcr)|done].
Qed.

Lemma check_passes_run `{!Device nic arrived srw src} fuel n s wq cq log read ret :
  (128 <= fuel)%nat -> holds s wq cq log read -> empty_handed ret ->
  match check_passes nic fuel n s wq cq (cq_tail cq) ret with
  | Ret out => call_result s log read ret out
  | Undef => False
  | Spin => True
  end.
Proof.
  intros Hf. revert s wq cq log read ret. induction n as [|n IH]; intros s wq cq log read ret Hh He;
    match goal with |- context [check_passes _ _ ?n _ _ _ _ _] =>
      destruct (check_pass fuel n s wq cq log read ret Hf Hh He) as (s1 & wq1 & cq1 & E &
        [(cq2 & ret' & -> & Hr)|(log1 & cq2 & sk & ret1 & Hc & Hh1 & _ & Hsk & He1 & Hsame & ->)]) end; try done.
  specialize (IH s1 wq1 cq2 log1 _ ret1 Hh1 He1).
  destruct (check_passes _ _ _ _ _ _ _ _) as [[[[s2 wq2] cq3] ret2]| |]; [|done|done].
  destruct IH as (Hp & log2 & got & Hc2 & Hh2 & Hg & Hr & Ha).
  split; [eapply tc_l; [by exists wq, cq, wq1, cq1|done]|].
  exists log2, (sk ++ got). rewrite <- app_assoc in Hh2, Ha. split_and!; [by trans log1|done|by apply hands_app| |done].
  intros [-> ->]%app_nil. by rewrite Hr, Hsame.
Qed.

(** With a responsive interface the call returns. *)
Lemma check_passes_returns `{!Responsive nic arrived srw src patience wait} fuel n s wq cq log read ret :
  (128 <= fuel)%nat -> (patience s wq <= n)%nat -> holds s wq cq log read -> empty_handed ret ->
  exists out, check_passes nic fuel n s wq cq (cq_tail cq) ret = Ret out /\ call_result s log read ret out.
Proof.
  intros Hf Hn Hh He. enough (exists out, check_passes nic fuel n s wq cq (cq_tail cq) ret = Ret out) as [out E].
  { exists out. split; [done|]. pose proof (check_passes_run fuel n s wq cq log read ret Hf Hh He) as H. by rewrite E in H. }
  revert s wq cq log read ret Hn Hh He. induction n as [|n IH]; intros s wq cq log read ret Hn Hh He;
    match goal with |- context [check_passes _ _ ?n _ _ _ _ _] =>
      destruct (check_pass fuel n s wq cq log read ret Hf Hh He) as (s1 & wq1 & cq1 & E &
        [(cq2 & ret' & -> & _)|(log1 & cq2 & sk & ret1 & _ & Hh1 & Hfull & _ & He1 & _ & ->)]) end; try by eexists.
  all: destruct (head_entry _ _ _ (ph_wq _ _ _ _ _ _ _ _ Hh1)) as (e & Ee & Ev);
    destruct (responsive_step s wq cq log read s1 wq1 cq1 Hh E) as [(e' & Ee' & Ev')|Hlt]; [congruence|].
  - lia.
  - apply (IH s1 wq1 cq2 log1 (read ++ sk) ret1); [lia|done|done].
Qed.

(** *** Histories of calls *)

(** [n] calls one after the other, with their results. *)
Fixpoint checks (fuel n : nat) (junk : successStruct) (s : N) (wq : rmc_wq) (cq : rmc_cq)
    : outcome (N * rmc_wq * rmc_cq * list successStruct) :=
  match n with
  | O => Ret (s, wq, cq, [])
  | S n =>
      '(s, wq, cq, ret) ← rmc_check_cq nic fuel junk s wq cq;
      '(s, wq, cq, rets) ← checks fuel n junk s wq cq;
      Ret (s, wq, cq, ret :: rets)
  end.

(** C24: The completion queue is a FIFO channel. The interface may act before every pass of a polling
    loop, and then write, behind what it has written and while fewer than 128 completions are unread,
    completions of any kind, those that carry no message naming an entry of the work queue. Then
    any number of calls of [rmc_check_cq] take the completions in the order of their arrival, each
    once: a call returns the first message, with its own node and buffer address, and passes over
    what comes before it; a call that returns none took no message, returns [RMC_INVAL] unless it
    passed over something, and left nothing unread unless an entry reported a failure. The calls never
    leave their arrays, and every call returns if the interface completes requests within as many
    passes as there is fuel, which is at least the 128 entries of the ring. *)
Theorem completion_queue_fifo fuel n junk s wq cq log read :
  Device nic arrived srw src -> (128 <= fuel)%nat -> holds s wq cq log read ->
  match checks fuel n junk s wq cq with
  | Ret (s', wq', cq', rets) => length rets = n /\ exists log' gots, completes log log' /\
      holds s' wq' cq' log' (read ++ concat gots) /\ Forall2 hands gots rets /\
      Forall2 (fun got ret => got = [] -> ss_op ret = RMC_INVAL) gots rets /\
      (forall ret, last rets = Some ret -> empty_handed ret -> arrived s' = read ++ concat gots \/ ss_success ret = 0)
  | Undef => False
  | Spin => forall patience wait, Responsive nic arrived srw src patience wait -> (fuel < wait)%nat
  end.
Proof.
  intros Hd Hf. revert s wq cq log read. induction n as [|n IH]; intros s wq cq log read Hh; cbn [checks].
  { split; [done|]. exists log, []. rewrite app_nil_r. done. }
  unfold rmc_check_cq at 1. set (ret0 := Success 1 RMC_INVAL _ _). assert (He : empty_handed ret0) by done.
  pose proof (check_passes_run fuel fuel s wq cq log read ret0 Hf Hh He) as Hrun.
  destruct (check_passes _ _ _ _ _ _ _ _) as [[[[s1 wq1] cq1] ret]| |] eqn:E; cbn [mbind outcome_bind]; [|done|].
  2: { intros patience wait Hr. destruct (decide (fuel < wait)%nat) as [|Hge]; [done|]. pose proof (responsive_bound _ _ _ _ _ Hh).
       destruct (check_passes_returns fuel fuel s wq cq log read ret0 Hf ltac:(lia) Hh He) as (out & E' & _). congruence. }
  destruct Hrun as (_ & log1 & got & Hc1 & Hh1 & Hg & Hsame & Hall). specialize (IH s1 wq1 cq1 log1 _ Hh1).
  destruct (checks fuel n junk s1 wq1 cq1) as [[[[s2 wq2] cq2] rets]| |] eqn:Ek; cbn [mbind outcome_bind]; try done.
  destruct IH as (Hlen & log2 & gots & Hc2 & Hh2 & Hg2 & Hi2 & Hl2).
  split; [cbn; lia|]. exists log2, (got :: gots). cbn [concat]. rewrite <- app_assoc in Hh2, Hl2.
  split; [by trans log1|]. split; [done|]. split; [by constructor|].
  split; [constructor; [intros Eg; by rewrite (Hsame Eg)|done]|].
  destruct rets as [|r rets]; [|exact Hl2]. intros r [= <-] Hr. apply Forall2_nil_inv_r in Hg2 as ->.
  destruct n; [|done]. cbn [checks] in Ek. injection Ek as -> _ _. cbn [concat]. rewrite app_nil_r. by apply Hall.
Qed.

End Poll.

(** ** A concrete interface

    In every pass it completes the outstanding requests and delivers the next completion of
    a script, 128 at most; [idle] counts the passes after the script's end. *)

Record demo := Demo { script : list completion; seen : list completion; idle : nat }.

Definition release (e : wq_entry) : wq_entry :=
  WqEntry (we_op e) (we_SR e) false (we_buf_addr e) (we_cid e) (we_nid e) (we_offset e) (we_length e).
Definition complete_all (wq : rmc_wq) : rmc_wq := Wq (release <$> wq_q wq) (wq_head wq) (wq_SR wq).

(** The completions written so far. *)
Definition demo_arrived (s : demo) : list completion := filter accepted (seen s).

Definition demo_nic : iface demo := fun s wq cq =>
  match script s with
  | c :: rest =>
      if decide (accepted c /\ (length (demo_arrived s) < 128)%nat)
      then (Demo rest (seen s ++ [c]) (idle s), complete_all wq,
            delivers false (Z.of_nat (length (demo_arrived s))) c cq)
      else (Demo rest (seen s) (idle s), complete_all wq, cq)
  | [] => (Demo [] (seen s) (S (idle s)), complete_all wq, cq)
  end.

Definition log_done (log : list (post * bool)) : list (post * bool) := (fun pb => (pb.1, false)) <$> log.

Lemma log_done_completes log : completes log (log_done log).
Proof. unfold log_done. induction log as [|[p b] log IH]; cbn; constructor; [by split|done]. Qed.

Lemma complete_all_holds sr0 log wq : wq_holds sr0 log wq -> wq_holds sr0 (log_done log) (complete_all wq).
Proof.
  intros [Hl Hh Hs Hlog Hold Hfree]. unfold complete_all, log_done.
  split; rewrite ?length_fmap; cbn [wq_q wq_head wq_SR]; try done.
  - by rewrite length_fmap.
  - intros i p b Hi Hge. rewrite list_lookup_fmap in Hi. destruct (log !! i) as [[p' b']|] eqn:E; [|done].
    injection Hi as <- <-. rewrite list_lookup_fmap. by rewrite (Hlog i p' b' E Hge).
  - intros i p b Hi _. rewrite list_lookup_fmap in Hi. destruct (log !! i) as [[p' b']|] eqn:E; [|done].
    by injection Hi as <- <-.
  - intros i Hi. destruct (Hfree i Hi) as (e & He & _). rewrite list_lookup_fmap, He. eexists. by split.
Qed.

Lemma log_done_free log : log_full (log_done log) = false.
Proof.
  unfold log_full. destruct (_ <? _)%nat; [done|]. unfold log_done. rewrite list_lookup_fmap, length_fmap.
  by destruct (log !! _) as [[p b]|].
Qed.

#[export] Instance demo_device : Device demo_nic demo_arrived false false.
Proof.
  split.
  - intros s. apply Forall_forall. intros c [Hc _]%list_elem_of_filter. done.
  - intros s wq cq log read [Hwq (pend & Ha & Hcq)]. pose proof (complete_all_holds _ _ _ Hwq) as Hwq'.
    pose proof (log_done_completes log) as Hc. unfold demo_nic. destruct (script s) as [|c rest]; [|destruct (decide _) as [[Hm Hlt]|_]].
    1, 3: eexists _, _, _, (log_done log), []; rewrite app_nil_r; split_and!; try done; by split; [|exists pend].
    eexists _, _, _, (log_done log), [c].
    assert (E : demo_arrived (Demo rest (seen s ++ [c]) (idle s)) = demo_arrived s ++ [c]).
    { unfold demo_arrived. cbn [seen]. rewrite filter_app. by rewrite filter_cons_True. }
    split_and!; try done. split; [done|]. exists (pend ++ [c]). rewrite E, Ha, <- app_assoc. split; [done|].
    rewrite length_app, Nat2Z.inj_add. apply delivers_holds; [done|]. rewrite Ha, length_app in Hlt. lia.
Qed.

#[export] Instance demo_eager : Eager demo_nic demo_arrived false false.
Proof.
  split; [apply _|]. intros s wq cq log read s' wq' cq' [Hwq _] E.
  assert (Hw : wq' = complete_all wq).
  { unfold demo_nic in E. destruct (script s); [|destruct (decide _)]; congruence. }
  subst wq'. destruct (head_entry _ _ _ (complete_all_holds _ _ _ Hwq)) as (e & He & Ev).
  exists e. by rewrite Ev, log_done_free.
Qed.

Lemma demo_start script : pair_holds demo_arrived false false (Demo script [] 0) wq_init cq_init [] [].
Proof. split; [exact wq_init_holds|]. exists []. split; [done|exact cq_init_holds]. Qed.

(** Four calls on a script of two messages and, between them, a completion that is none. *)
Lemma completion_queue_fifo_witness :
  exists s wq cq rets, checks demo_nic 128 4 (Success 0 0 0 0)
      (Demo [Completion 127 7 4096; Completion 9 0 0; Completion 1 8 8192] [] 0) wq_init cq_init = Ret (s, wq, cq, rets) /\
    map ss_op rets = [RMC_INCOMING_SEND; 0; RMC_INCOMING_RESP; RMC_INVAL] /\
    exists log gots, pair_holds demo_arrived false false s wq cq log (concat gots) /\ Forall2 hands gots rets.
Proof.
  set (s0 := Demo [Completion 127 7 4096; Completion 9 0 0; Completion 1 8 8192] [] 0).
  pose proof (completion_queue_fifo demo_nic demo_arrived false false 128 4 (Success 0 0 0 0) s0 wq_init cq_init [] []
    demo_device ltac:(lia) (demo_start _)) as H.
  destruct (checks demo_nic 128 4 _ s0 wq_init cq_init) as [[[[s wq] cq] rets]| |] eqn:E.
  2: destruct H.
  2: { specialize (H _ _ (eager_responsive _ _ _ _ demo_eager)). lia. }
  destruct H as (_ & log & gots & _ & Hh & Hg & _). exists s, wq, cq, rets. split; [done|]. split.
  - assert (Hr : (checks demo_nic 128 4 (Success 0 0 0 0) s0 wq_init cq_init ≫= fun st => Ret (map ss_op st.2)) =
      Ret [RMC_INCOMING_SEND; 0; RMC_INCOMING_RESP; RMC_INVAL]) by (vm_compute; reflexivity).
    rewrite E in Hr. cbn in Hr. by injection Hr.
  - exists log, gots. split; [exact Hh|exact Hg].
Defined.

(** 129 sends, the first of which is completed only after the refusal of the last. *)
Lemma work_queue_refines_log_witness :
  let l := replicate 129 (ASend 7 4096 65 3) ++ [AComplete 0; ARecv 7 8192 64] in
  exists wq, acts l wq_init = Ret (wq, replicate 128 0 ++ [-1; 0; 0]) /\
    wq_holds false (acts_log l []).1 wq.
Proof.
  intros l. destruct (work_queue_refines_log false [] wq_init l wq_init_holds) as (wq & E & Hw).
  { vm_compute. repeat split; lia. }
  exists wq. split; [|exact Hw]. rewrite E. do 2 f_equal.
Defined.
