(* ===== verification/Bytes.v ===== *)
(** * Byte memory

    An object of bytes at an address, with block reads and writes that are undefined
    outside of it, and the byte orders of the multi-byte fields. *)

From S2P Require Import Prelude.

Open Scope Z_scope.

(** The byte at address [origin] is the first cell. *)
Record memory := Mem { origin : Z; cells : list Z }.

Definition in_memory (m : memory) (a : Z) (n : nat) : Prop :=
  origin m <= a /\ a + Z.of_nat n <= origin m + Z.of_nat (length (cells m)).
#[export] Instance in_memory_dec m a n : Decision (in_memory m a n) := and_dec _ _.

Definition rd_bytes (m : memory) (a : Z) (n : nat) : outcome (list Z) :=
  if decide (in_memory m a n) then Ret (take n (drop (Z.to_nat (a - origin m)) (cells m))) else Undef.

Definition wr_bytes (m : memory) (a : Z) (bs : list Z) : outcome memory :=
  if decide (in_memory m a (length bs)) then
    let off := Z.to_nat (a - origin m) in
    Ret (Mem (origin m) (take off (cells m) ++ bs ++ drop (off + length bs) (cells m)))
  else Undef.

(** The byte at an address. *)
Definition byte_at (m : memory) (a : Z) : option Z :=
  if decide (origin m <= a) then cells m !! Z.to_nat (a - origin m) else None.

(** A memory that differs from [m] only by the block [bs] at [a]. *)
Record written (m : memory) (a : Z) (bs : list Z) (m' : memory) : Prop := {
  wt_origin : origin m' = origin m;
  wt_size : length (cells m') = length (cells m);
  wt_block i : (i < length bs)%nat -> byte_at m' (a + Z.of_nat i) = bs !! i;
  wt_other b : b < a \/ a + Z.of_nat (length bs) <= b -> byte_at m' b = byte_at m b;
}.

Lemma wr_bytes_spec m a bs : in_memory m a (length bs) ->
  exists m', wr_bytes m a bs = Ret m' /\ written m a bs m'.
Proof.
  intros [Hlo Hhi]. unfold wr_bytes. rewrite decide_True by done. eexists. split; [done|].
  set (off := Z.to_nat (a - origin m)). split; cbn [origin cells].
  - done.
  - rewrite !length_app, length_take, length_drop. lia.
  - intros i Hi. unfold byte_at. cbn [origin cells]. rewrite decide_True by lia.
    replace (Z.to_nat (a + Z.of_nat i - origin m)) with (off + i)%nat by lia.
    rewrite lookup_app_r by (rewrite length_take; lia). rewrite length_take, lookup_app_l by lia. f_equal. lia.
  - intros b Hb. unfold byte_at. cbn [origin cells]. destruct (decide (origin m <= b)); [|done].
    destruct Hb as [Hb|Hb].
    + rewrite lookup_app_l by (rewrite length_take; lia). by rewrite lookup_take_lt by lia.
    + rewrite !lookup_app_r by (rewrite ?length_take; lia). rewrite length_take, lookup_drop. f_equal. lia.
Qed.

Lemma wr_bytes_ok m a bs : (exists m', wr_bytes m a bs = Ret m') <-> in_memory m a (length bs).
Proof.
  unfold wr_bytes. destruct (decide _); split; try done; [by eexists|]. by intros [? [=]].
Qed.

Lemma rd_bytes_spec m a bs : in_memory m a (length bs) ->
  (forall i, (i < length bs)%nat -> byte_at m (a + Z.of_nat i) = bs !! i) -> rd_bytes m a (length bs) = Ret bs.
Proof.
  intros Hm Hb. unfold rd_bytes. rewrite decide_True by done. f_equal. destruct Hm as [Hlo Hhi].
  apply list_eq_same_length with (n := length bs); [done|rewrite length_take, length_drop; lia|].
  intros i x y Hi Hx Hy. rewrite lookup_take_lt, lookup_drop in Hx by lia. specialize (Hb i Hi).
  unfold byte_at in Hb. rewrite decide_True in Hb by lia.
  replace (Z.to_nat (a + Z.of_nat i - origin m)) with (Z.to_nat (a - origin m) + i)%nat in Hb by lia. congruence.
Qed.

Lemma rd_bytes_inv m a n bs : rd_bytes m a n = Ret bs ->
  in_memory m a n /\ length bs = n /\ forall i, (i < n)%nat -> byte_at m (a + Z.of_nat i) = bs !! i.
Proof.
  unfold rd_bytes. destruct (decide _) as [Hm|]; [|done]. intros [= <-]. destruct Hm as [Hlo Hhi].
  split; [done|]. split; [rewrite length_take, length_drop; lia|]. intros i Hi. unfold byte_at.
  rewrite decide_True by lia. rewrite lookup_take_lt, lookup_drop by lia. f_equal. lia.
Qed.

(** A block read where it was written, and one read beside it. *)
Lemma rd_written m a bs m' n : written m a bs m' -> in_memory m a n -> n = length bs -> rd_bytes m' a n = Ret bs.
Proof.
  intros [Ho Hs Hb _] [Hlo Hhi] ->. apply rd_bytes_spec; [|exact Hb]. split; rewrite Ho, ?Hs; lia.
Qed.

Lemma rd_beside m a bs m' b n cs : written m a bs m' ->
  b + Z.of_nat n <= a \/ a + Z.of_nat (length bs) <= b ->
  rd_bytes m b n = Ret cs -> rd_bytes m' b n = Ret cs.
Proof.
  intros [Ho Hs _ Hoth] Hd Hr. apply rd_bytes_inv in Hr as ([Hlo Hhi] & <- & Hc).
  apply rd_bytes_spec; [split; rewrite Ho, ?Hs; lia|]. intros i Hi. rewrite Hoth by lia. by apply Hc.
Qed.

Lemma written_in_memory m a bs m' b n : written m a bs m' -> in_memory m b n -> in_memory m' b n.
Proof. intros [Ho Hs _ _] [? ?]. split; rewrite Ho, ?Hs; lia. Qed.

(** A part of a block, and a block part of which was written. *)
Lemma rd_part m a n bs i k : rd_bytes m a n = Ret bs -> (i + k <= n)%nat ->
  rd_bytes m (a + Z.of_nat i) k = Ret (take k (drop i bs)).
Proof.
  intros ([Hlo Hhi] & Hl & Hb)%rd_bytes_inv Hik.
  assert (Hk : k = length (take k (drop i bs))) by (rewrite length_take, length_drop; lia).
  rewrite Hk at 1. apply rd_bytes_spec; rewrite <- Hk; [split; lia|]. intros j Hj.
  rewrite lookup_take_lt, lookup_drop, <- Hb by lia. f_equal. lia.
Qed.

Lemma rd_around m a n blk i bs m' : rd_bytes m a n = Ret blk -> (i + length bs <= n)%nat ->
  written m (a + Z.of_nat i) bs m' -> rd_bytes m' a n = Ret (take i blk ++ bs ++ drop (i + length bs) blk).
Proof.
  intros ([Hlo Hhi] & Hl & Hb)%rd_bytes_inv Hi [Ho Hs Hblk Hoth].
  set (new := take i blk ++ bs ++ drop (i + length bs) blk).
  assert (Hn : n = length new) by (unfold new; rewrite !length_app, length_take, length_drop; lia).
  rewrite Hn at 1. apply rd_bytes_spec; rewrite <- Hn; [split; rewrite Ho, ?Hs; lia|]. intros j Hj. unfold new.
  destruct (decide (j < i)%nat); [|destruct (decide (j < i + length bs)%nat)].
  - rewrite lookup_app_l by (rewrite length_take; lia). rewrite lookup_take_lt by lia. rewrite Hoth by lia. by apply Hb.
  - rewrite lookup_app_r by (rewrite length_take; lia). rewrite length_take, lookup_app_l by lia.
    replace (a + Z.of_nat j) with (a + Z.of_nat i + Z.of_nat (j - i)) by lia. rewrite Hblk by lia. f_equal. lia.
  - rewrite !lookup_app_r by (rewrite ?length_take; lia). rewrite length_take, lookup_drop.
    rewrite Hoth by lia. rewrite Hb by lia. f_equal. lia.
Qed.

(** The C library's copy: undefined when the blocks overlap. *)
Definition memcpy (m : memory) (dst src : Z) (n : nat) : outcome memory :=
  bs ← rd_bytes m src n;
  if decide (n <> O /\ dst < src + Z.of_nat n /\ src < dst + Z.of_nat n) then Undef
  else wr_bytes m dst bs.

Lemma memcpy_spec m dst src n bs : rd_bytes m src n = Ret bs -> in_memory m dst n ->
  n = O \/ src + Z.of_nat n <= dst \/ dst + Z.of_nat n <= src ->
  exists m', memcpy m dst src n = Ret m' /\ written m dst bs m'.
Proof.
  intros Hr Hd Hdis. destruct (rd_bytes_inv _ _ _ _ Hr) as (_ & Hl & _). unfold memcpy. rewrite Hr.
  cbn [mbind outcome_bind]. rewrite decide_False by lia. apply wr_bytes_spec. by rewrite Hl.
Qed.

(** ** Byte orders *)

Fixpoint le_bytes (n : nat) (v : Z) : list Z :=
  match n with O => [] | S n => v mod 256 :: le_bytes n (v / 256) end.
Fixpoint le_value (bs : list Z) : Z :=
  match bs with [] => 0 | b :: bs => b + 256 * le_value bs end.
Definition be_bytes (n : nat) (v : Z) : list Z := rev (le_bytes n v).
Definition be_value (bs : list Z) : Z := le_value (rev bs).

Lemma length_le_bytes n v : length (le_bytes n v) = n.
Proof. revert v. induction n as [|n IH]; intros v; cbn; [done|]. by rewrite IH. Qed.
Lemma length_be_bytes n v : length (be_bytes n v) = n.
Proof. unfold be_bytes. by rewrite length_rev, length_le_bytes. Qed.

Lemma le_value_bytes n v : 0 <= v < 256 ^ Z.of_nat n -> le_value (le_bytes n v) = v.
Proof.
  revert v. induction n as [|n IH]; intros v Hv; cbn [le_bytes le_value].
  - cbn in Hv. lia.
  - rewrite Nat2Z.inj_succ, Z.pow_succ_r in Hv by lia. rewrite IH.
    + pose proof (Z.div_mod v 256). lia.
    + split; [apply Z.div_pos; lia|]. apply Z.div_lt_upper_bound; lia.
Qed.
Lemma be_value_bytes n v : 0 <= v < 256 ^ Z.of_nat n -> be_value (be_bytes n v) = v.
Proof. intros. unfold be_value, be_bytes. rewrite rev_involutive. by apply le_value_bytes. Qed.

#[export] Hint Rewrite length_le_bytes length_be_bytes : wrap.
