(* ===== verification/Trace.v ===== *)
(** * [rte_lib/include/rte_trace_point.h], [rte_eal_trace.h]: trace points

    A trace point is a function that appends one event to the buffer of its thread: eight bytes
    with the identity of the trace point and a time stamp, then the values it was given. When
    the buffer is full it starts again from the beginning, or, in discard mode, the event is
    dropped. The model is the code under [ALLOW_EXPERIMENTAL_API], without which a trace point
    does nothing. The buffer's allocation, the time stamp counter and [rte_strscpy] are code
    outside the repository and arguments here; the registration, which computes the size of an
    event from the same list of fields, stores it in the handle. *)

From S2P Require Import Prelude Common Bytes.

Open Scope Z_scope.

(** ** The handle of a trace point *)

(* rte_lib/include/rte_trace_point.h:151-151 __RTE_TRACE_EMIT_STRING_LEN_MAX *)
Definition __RTE_TRACE_EMIT_STRING_LEN_MAX : Z := 32.
(* rte_lib/include/rte_trace_point.h:153-153 __RTE_TRACE_EVENT_HEADER_SZ *)
Definition __RTE_TRACE_EVENT_HEADER_SZ : Z := 8.
(* rte_lib/include/rte_trace_point.h:273-273 __RTE_TRACE_EVENT_HEADER_ID_SHIFT *)
Definition __RTE_TRACE_EVENT_HEADER_ID_SHIFT : Z := 48.
(* rte_lib/include/rte_trace_point.h:275-276 __RTE_TRACE_FIELD_SIZE_MASK *)
Definition __RTE_TRACE_FIELD_SIZE_MASK : Z := u64 (Z.shiftl 65535 0).
(* rte_lib/include/rte_trace_point.h:277-277 __RTE_TRACE_FIELD_ID_SHIFT *)
Definition __RTE_TRACE_FIELD_ID_SHIFT : Z := 16.
(* rte_lib/include/rte_trace_point.h:278-278 __RTE_TRACE_FIELD_ID_MASK *)
Definition __RTE_TRACE_FIELD_ID_MASK : Z := u64 (Z.shiftl 65535 __RTE_TRACE_FIELD_ID_SHIFT).
(* rte_lib/include/rte_trace_point.h:279-279 __RTE_TRACE_FIELD_ENABLE_MASK *)
Definition __RTE_TRACE_FIELD_ENABLE_MASK : Z := u64 (Z.shiftl 1 63).
(* rte_lib/include/rte_trace_point.h:280-280 __RTE_TRACE_FIELD_ENABLE_DISCARD *)
Definition __RTE_TRACE_FIELD_ENABLE_DISCARD : Z := u64 (Z.shiftl 1 62).

(** ** The buffer of a thread *)

(** [tr_mem] is the object that [mem] begins; the stream header plays no part. *)
(* rte_lib/include/rte_trace_point.h:289-294 __rte_trace_header *)
Record trace_header := TraceHeader { tr_offset : Z; tr_len : Z; tr_mem : memory }.

(** The macro on an operand of type [uint32_t]. *)
(* rte_lib/include/rte_common.h:289-290 RTE_ALIGN_FLOOR *)
Definition RTE_ALIGN_FLOOR32 (val align : Z) : Z := Z.land val (u32 (Z.lnot (u32 (align - 1)))).
(* rte_lib/include/rte_common.h:307-308 RTE_ALIGN_CEIL *)
Definition RTE_ALIGN_CEIL32 (val align : Z) : Z := RTE_ALIGN_FLOOR32 (val + (align - 1))%u32 align.

(** [trace_mem] is the thread's pointer; [alloc] what [__rte_trace_mem_per_thread_alloc] would
    leave in it. The result is the pointer with its object, and the address for the event. *)
(* rte_lib/include/rte_trace_point.h:298-328 __rte_trace_mem_get *)
Definition __rte_trace_mem_get (alloc trace_mem : option trace_header) (inn : Z)
    : option trace_header * option Z :=
  let sz := u16 (Z.land inn __RTE_TRACE_FIELD_SIZE_MASK) in
  match (match trace_mem with None => alloc | Some trace => Some trace end) with
  | None => (None, None)
  | Some trace =>
      let offset := tr_offset trace in
      let wraps := (offset + sz)%u32 >=? tr_len trace in
      if wraps && negb (Z.land inn __RTE_TRACE_FIELD_ENABLE_DISCARD =? 0) then (Some trace, None)
      else
        let offset := if wraps then 0 else offset in
        let offset := RTE_ALIGN_CEIL32 offset __RTE_TRACE_EVENT_HEADER_SZ in
        let mem := origin (tr_mem trace) + offset in
        let offset := (offset + sz)%u32 in
        (Some (TraceHeader offset (tr_len trace) (tr_mem trace)), Some mem)
  end.

(** The first eight bytes of an event. *)
(* rte_lib/include/rte_trace_point.h:335-340 __rte_trace_point_emit_ev_header *)
Definition event_header (tsc inn : Z) : Z :=
  let val := Z.land tsc (u64 (Z.lnot (u64 (Z.shiftl 65535 __RTE_TRACE_EVENT_HEADER_ID_SHIFT)))) in
  Z.lor val (u64 (Z.shiftl (Z.land inn __RTE_TRACE_FIELD_ID_MASK)
                    (__RTE_TRACE_EVENT_HEADER_ID_SHIFT - __RTE_TRACE_FIELD_ID_SHIFT))).

(* rte_lib/include/rte_trace_point.h:330-344 __rte_trace_point_emit_ev_header *)
Definition __rte_trace_point_emit_ev_header (tsc : Z) (m : memory) (mem inn : Z) : outcome (memory * Z) :=
  m ← wr_bytes m mem (le_bytes 8 (event_header tsc inn));
  Ret (m, mem + __RTE_TRACE_EVENT_HEADER_SZ).

(** ** The payload *)

(** A value, as its bytes in memory, or a string, which may be a null pointer. *)
Inductive trace_field := Val (bs : list Z) | Str (s : option (list Z)).

(** A value of type [float] or [double] is given by its bits. *)
(* rte_lib/include/rte_trace_point.h:387-387 rte_trace_point_emit_u64 *)
Definition rte_trace_point_emit_u64 (inn : Z) : trace_field := Val (le_bytes 8 inn).
(* rte_lib/include/rte_trace_point.h:388-388 rte_trace_point_emit_i64 *)
Definition rte_trace_point_emit_i64 (inn : Z) : trace_field := Val (le_bytes 8 inn).
(* rte_lib/include/rte_trace_point.h:389-389 rte_trace_point_emit_u32 *)
Definition rte_trace_point_emit_u32 (inn : Z) : trace_field := Val (le_bytes 4 inn).
(* rte_lib/include/rte_trace_point.h:390-390 rte_trace_point_emit_i32 *)
Definition rte_trace_point_emit_i32 (inn : Z) : trace_field := Val (le_bytes 4 inn).
(* rte_lib/include/rte_trace_point.h:391-391 rte_trace_point_emit_u16 *)
Definition rte_trace_point_emit_u16 (inn : Z) : trace_field := Val (le_bytes 2 inn).
(* rte_lib/include/rte_trace_point.h:392-392 rte_trace_point_emit_i16 *)
Definition rte_trace_point_emit_i16 (inn : Z) : trace_field := Val (le_bytes 2 inn).
(* rte_lib/include/rte_trace_point.h:393-393 rte_trace_point_emit_u8 *)
Definition rte_trace_point_emit_u8 (inn : Z) : trace_field := Val (le_bytes 1 inn).
(* rte_lib/include/rte_trace_point.h:394-394 rte_trace_point_emit_i8 *)
Definition rte_trace_point_emit_i8 (inn : Z) : trace_field := Val (le_bytes 1 inn).
(* rte_lib/include/rte_trace_point.h:395-395 rte_trace_point_emit_int *)
Definition rte_trace_point_emit_int (inn : Z) : trace_field := Val (le_bytes 4 inn).
(* rte_lib/include/rte_trace_point.h:396-396 rte_trace_point_emit_long *)
Definition rte_trace_point_emit_long (inn : Z) : trace_field := Val (le_bytes 8 inn).
(* rte_lib/include/rte_trace_point.h:397-397 rte_trace_point_emit_size_t *)
Definition rte_trace_point_emit_size_t (inn : Z) : trace_field := Val (le_bytes 8 inn).
(* rte_lib/include/rte_trace_point.h:398-398 rte_trace_point_emit_float *)
Definition rte_trace_point_emit_float (inn : Z) : trace_field := Val (le_bytes 4 inn).
(* rte_lib/include/rte_trace_point.h:399-399 rte_trace_point_emit_double *)
Definition rte_trace_point_emit_double (inn : Z) : trace_field := Val (le_bytes 8 inn).
(* rte_lib/include/rte_trace_point.h:400-400 rte_trace_point_emit_ptr *)
Definition rte_trace_point_emit_ptr (inn : Z) : trace_field := Val (le_bytes 8 inn).

Section Emit.
(** The bytes that [rte_strscpy] writes into a destination of the given size. *)
Variable rte_strscpy : list Z -> Z -> list Z.

(** The memory and where the next field goes; nothing when the function has returned. *)
(* rte_lib/include/rte_trace_point.h:363-367 __rte_trace_point_emit *)
Definition __rte_trace_point_emit (m : memory) (mem : Z) (inn : list Z) : outcome (memory * option Z) :=
  m ← wr_bytes m mem inn;
  Ret (m, Some (mem + Z.of_nat (length inn))).

(* rte_lib/include/rte_trace_point.h:369-375 rte_trace_point_emit_string *)
Definition rte_trace_point_emit_string (m : memory) (mem : Z) (inn : option (list Z)) : outcome (memory * option Z) :=
  match inn with
  | None => Ret (m, None)
  | Some s =>
      m ← wr_bytes m mem (rte_strscpy s __RTE_TRACE_EMIT_STRING_LEN_MAX);
      Ret (m, Some (mem + __RTE_TRACE_EMIT_STRING_LEN_MAX))
  end.

Definition emit_field (m : memory) (mem : Z) (f : trace_field) : outcome (memory * option Z) :=
  match f with Val bs => __rte_trace_point_emit m mem bs | Str s => rte_trace_point_emit_string m mem s end.

Fixpoint emit_fields (m : memory) (mem : Z) (fs : list trace_field) : outcome memory :=
  match fs with
  | [] => Ret m
  | f :: fs =>
      '(m, next) ← emit_field m mem f;
      match next with None => Ret m | Some mem => emit_fields m mem fs end
  end.

(** The function of the trace point [t] with the payload [fs]. *)
(* rte_lib/include/rte_trace_point.h:346-356 __rte_trace_point_emit_header_generic *)
Definition trace_point (alloc : option trace_header) (tsc t : Z) (fs : list trace_field)
    (trace_mem : option trace_header) : outcome (option trace_header) :=
  let val := t in
  if Z.land val __RTE_TRACE_FIELD_ENABLE_MASK =? 0 then Ret trace_mem
  else
    let '(trace_mem, mem) := __rte_trace_mem_get alloc trace_mem val in
    match trace_mem, mem with
    | Some trace, Some mem =>
        '(m, mem) ← __rte_trace_point_emit_ev_header tsc (tr_mem trace) mem val;
        m ← emit_fields m mem fs;
        Ret (Some (TraceHeader (tr_offset trace) (tr_len trace) m))
    | _, _ => Ret trace_mem
    end.

(* rte_lib/include/rte_trace_point.h:209-218 __rte_trace_point_fp_is_enabled *)
Definition __rte_trace_point_fp_is_enabled : bool := false.

(** The trace points of the fast path. *)
(* rte_lib/include/rte_trace_point.h:358-361 __rte_trace_point_emit_header_fp *)
Definition trace_point_fp (alloc : option trace_header) (tsc t : Z) (fs : list trace_field)
    (trace_mem : option trace_header) : outcome (option trace_header) :=
  if negb __rte_trace_point_fp_is_enabled then Ret trace_mem else trace_point alloc tsc t fs trace_mem.

(** The size that the registration of a trace point reports for each field, whatever its
    value; and the size that an event needs, which starts from that of the header. *)
(* rte_lib/include/rte_trace_point_register.h:31-43 __rte_trace_point_emit *)
Definition field_size (f : trace_field) : Z :=
  match f with Val bs => Z.of_nat (length bs) | Str _ => __RTE_TRACE_EMIT_STRING_LEN_MAX end.
(* rte_lib/include/rte_trace_point_register.h:25-26 __rte_trace_point_emit_header_generic *)
Definition event_size (fs : list trace_field) : Z :=
  foldl (fun sz f => sz + field_size f) __RTE_TRACE_EVENT_HEADER_SZ fs.

(** Uses of trace points by one thread, in order; [ev_alloc] is what the allocation gives,
    should this use call it. *)
Record event := Event { ev_handle : Z; ev_tsc : Z; ev_fields : list trace_field; ev_alloc : option trace_header }.

Fixpoint run_events (evs : list event) (trace_mem : option trace_header) : outcome (option trace_header) :=
  match evs with
  | [] => Ret trace_mem
  | e :: evs =>
      trace_mem ← trace_point (ev_alloc e) (ev_tsc e) (ev_handle e) (ev_fields e) trace_mem;
      run_events evs trace_mem
  end.
End Emit.

(** ** The trace points of the environment layer: the payload of each

    Of an interrupt handle, which is opaque, the members that are recorded. *)

(* rte_lib/include/rte_eal_trace.h:25-33 rte_eal_trace_alarm_set *)
Definition rte_eal_trace_alarm_set (us cb_fn cb_arg rc : Z) : list trace_field :=
  [rte_trace_point_emit_u64 us; rte_trace_point_emit_ptr cb_fn; rte_trace_point_emit_ptr cb_arg;
   rte_trace_point_emit_int rc].
(* rte_lib/include/rte_eal_trace.h:35-42 rte_eal_trace_alarm_cancel *)
Definition rte_eal_trace_alarm_cancel (cb_fn cb_arg count : Z) : list trace_field :=
  [rte_trace_point_emit_ptr cb_fn; rte_trace_point_emit_ptr cb_arg; rte_trace_point_emit_int count].
(* rte_lib/include/rte_eal_trace.h:45-48 rte_eal_trace_generic_void *)
Definition rte_eal_trace_generic_void : list trace_field := [].
(* rte_lib/include/rte_eal_trace.h:50-54 rte_eal_trace_generic_u64 *)
Definition rte_eal_trace_generic_u64 (inn : Z) : list trace_field := [rte_trace_point_emit_u64 inn].
(* rte_lib/include/rte_eal_trace.h:56-60 rte_eal_trace_generic_u32 *)
Definition rte_eal_trace_generic_u32 (inn : Z) : list trace_field := [rte_trace_point_emit_u32 inn].
(* rte_lib/include/rte_eal_trace.h:62-66 rte_eal_trace_generic_u16 *)
Definition rte_eal_trace_generic_u16 (inn : Z) : list trace_field := [rte_trace_point_emit_u16 inn].
(* rte_lib/include/rte_eal_trace.h:68-72 rte_eal_trace_generic_u8 *)
Definition rte_eal_trace_generic_u8 (inn : Z) : list trace_field := [rte_trace_point_emit_u8 inn].
(* rte_lib/include/rte_eal_trace.h:74-78 rte_eal_trace_generic_i64 *)
Definition rte_eal_trace_generic_i64 (inn : Z) : list trace_field := [rte_trace_point_emit_i64 inn].
(* rte_lib/include/rte_eal_trace.h:80-84 rte_eal_trace_generic_i32 *)
Definition rte_eal_trace_generic_i32 (inn : Z) : list trace_field := [rte_trace_point_emit_i32 inn].
(* rte_lib/include/rte_eal_trace.h:86-90 rte_eal_trace_generic_i16 *)
Definition rte_eal_trace_generic_i16 (inn : Z) : list trace_field := [rte_trace_point_emit_i16 inn].
(* rte_lib/include/rte_eal_trace.h:92-96 rte_eal_trace_generic_i8 *)
Definition rte_eal_trace_generic_i8 (inn : Z) : list trace_field := [rte_trace_point_emit_i8 inn].
(* rte_lib/include/rte_eal_trace.h:98-102 rte_eal_trace_generic_int *)
Definition rte_eal_trace_generic_int (inn : Z) : list trace_field := [rte_trace_point_emit_int inn].
(* rte_lib/include/rte_eal_trace.h:104-108 rte_eal_trace_generic_long *)
Definition rte_eal_trace_generic_long (inn : Z) : list trace_field := [rte_trace_point_emit_long inn].
(* rte_lib/include/rte_eal_trace.h:110-114 rte_eal_trace_generic_float *)
Definition rte_eal_trace_generic_float (inn : Z) : list trace_field := [rte_trace_point_emit_float inn].
(* rte_lib/include/rte_eal_trace.h:116-120 rte_eal_trace_generic_double *)
Definition rte_eal_trace_generic_double (inn : Z) : list trace_field := [rte_trace_point_emit_double inn].
(* rte_lib/include/rte_eal_trace.h:122-126 rte_eal_trace_generic_ptr *)
Definition rte_eal_trace_generic_ptr (ptr : Z) : list trace_field := [rte_trace_point_emit_ptr ptr].
(* rte_lib/include/rte_eal_trace.h:128-132 rte_eal_trace_generic_str *)
Definition rte_eal_trace_generic_str (str : option (list Z)) : list trace_field := [Str str].
(* rte_lib/include/rte_eal_trace.h:134-138 rte_eal_trace_generic_size_t *)
Definition rte_eal_trace_generic_size_t (sz : Z) : list trace_field := [rte_trace_point_emit_size_t sz].
(* rte_lib/include/rte_eal_trace.h:140-144 rte_eal_trace_generic_func *)
Definition rte_eal_trace_generic_func (func : option (list Z)) : list trace_field := [Str func].
(* rte_lib/include/rte_eal_trace.h:149-161 rte_eal_trace_intr_callback_register *)
Definition rte_eal_trace_intr_callback_register (dev_fd fd type_ max_intr nb_efd cb cb_arg rc : Z) : list trace_field :=
  [rte_trace_point_emit_int rc; rte_trace_point_emit_int dev_fd; rte_trace_point_emit_int fd;
   rte_trace_point_emit_int type_; rte_trace_point_emit_u32 max_intr; rte_trace_point_emit_u32 nb_efd;
   rte_trace_point_emit_ptr cb; rte_trace_point_emit_ptr cb_arg].
(* rte_lib/include/rte_eal_trace.h:162-174 rte_eal_trace_intr_callback_unregister *)
Definition rte_eal_trace_intr_callback_unregister (dev_fd fd type_ max_intr nb_efd cb cb_arg rc : Z) : list trace_field :=
  [rte_trace_point_emit_int rc; rte_trace_point_emit_int dev_fd; rte_trace_point_emit_int fd;
   rte_trace_point_emit_int type_; rte_trace_point_emit_u32 max_intr; rte_trace_point_emit_u32 nb_efd;
   rte_trace_point_emit_ptr cb; rte_trace_point_emit_ptr cb_arg].
(* rte_lib/include/rte_eal_trace.h:175-184 rte_eal_trace_intr_enable *)
Definition rte_eal_trace_intr_enable (dev_fd fd type_ max_intr nb_efd rc : Z) : list trace_field :=
  [rte_trace_point_emit_int rc; rte_trace_point_emit_int dev_fd; rte_trace_point_emit_int fd;
   rte_trace_point_emit_int type_; rte_trace_point_emit_u32 max_intr; rte_trace_point_emit_u32 nb_efd].
(* rte_lib/include/rte_eal_trace.h:185-194 rte_eal_trace_intr_disable *)
Definition rte_eal_trace_intr_disable (dev_fd fd type_ max_intr nb_efd rc : Z) : list trace_field :=
  [rte_trace_point_emit_int rc; rte_trace_point_emit_int dev_fd; rte_trace_point_emit_int fd;
   rte_trace_point_emit_int type_; rte_trace_point_emit_u32 max_intr; rte_trace_point_emit_u32 nb_efd].
(* rte_lib/include/rte_eal_trace.h:197-206 rte_eal_trace_mem_zmalloc *)
Definition rte_eal_trace_mem_zmalloc (type : option (list Z)) (size align socket ptr : Z) : list trace_field :=
  [Str type; rte_trace_point_emit_size_t size; rte_trace_point_emit_u32 align;
   rte_trace_point_emit_int socket; rte_trace_point_emit_ptr ptr].
(* rte_lib/include/rte_eal_trace.h:208-217 rte_eal_trace_mem_malloc *)
Definition rte_eal_trace_mem_malloc (type : option (list Z)) (size align socket ptr : Z) : list trace_field :=
  [Str type; rte_trace_point_emit_size_t size; rte_trace_point_emit_u32 align;
   rte_trace_point_emit_int socket; rte_trace_point_emit_ptr ptr].
(* rte_lib/include/rte_eal_trace.h:219-227 rte_eal_trace_mem_realloc *)
Definition rte_eal_trace_mem_realloc (size align socket ptr : Z) : list trace_field :=
  [rte_trace_point_emit_size_t size; rte_trace_point_emit_u32 align; rte_trace_point_emit_int socket;
   rte_trace_point_emit_ptr ptr].
(* rte_lib/include/rte_eal_trace.h:229-233 rte_eal_trace_mem_free *)
Definition rte_eal_trace_mem_free (ptr : Z) : list trace_field := [rte_trace_point_emit_ptr ptr].
(* rte_lib/include/rte_eal_trace.h:236-248 rte_eal_trace_memzone_reserve *)
Definition rte_eal_trace_memzone_reserve (name : option (list Z)) (len socket_id flags align bound mz : Z) : list trace_field :=
  [Str name; rte_trace_point_emit_size_t len; rte_trace_point_emit_int socket_id;
   rte_trace_point_emit_u32 flags; rte_trace_point_emit_u32 align; rte_trace_point_emit_u32 bound;
   rte_trace_point_emit_ptr mz].
(* rte_lib/include/rte_eal_trace.h:250-255 rte_eal_trace_memzone_lookup *)
Definition rte_eal_trace_memzone_lookup (name : option (list Z)) (memzone : Z) : list trace_field :=
  [Str name; rte_trace_point_emit_ptr memzone].
(* rte_lib/include/rte_eal_trace.h:257-263 rte_eal_trace_memzone_free *)
Definition rte_eal_trace_memzone_free (name : option (list Z)) (addr rc : Z) : list trace_field :=
  [Str name; rte_trace_point_emit_ptr addr; rte_trace_point_emit_int rc].
(* rte_lib/include/rte_eal_trace.h:266-274 rte_eal_trace_thread_remote_launch *)
Definition rte_eal_trace_thread_remote_launch (f arg worker_id rc : Z) : list trace_field :=
  [rte_trace_point_emit_ptr f; rte_trace_point_emit_ptr arg; rte_trace_point_emit_u32 worker_id;
   rte_trace_point_emit_int rc].
(* rte_lib/include/rte_eal_trace.h:275-280 rte_eal_trace_thread_lcore_ready *)
Definition rte_eal_trace_thread_lcore_ready (lcore_id : Z) (cpuset : option (list Z)) : list trace_field :=
  [rte_trace_point_emit_u32 lcore_id; Str cpuset].
