(* ===== verification/TraceSpec.v ===== *)
(** * What a trace buffer holds

    A buffer refines the list of the events recorded since it last started from the beginning,
    laid out one after the other at multiples of eight bytes: the theorem covers any history of
    any trace points, the drops in discard mode and the allocation of the buffer included, and
    says how many bytes the buffer needs. The room that the code allows for is six bytes short of
    it, and a history of trace points of the environment layer leaves its buffer. *)

From S2P Require Import Prelude Common Bytes Trace.

Open Scope Z_scope.

(** ** Specification *)

Definition align8 (o : Z) : Z := (o + 7) / 8 * 8.

(** An event in the buffer: the bytes it reserves, and the blocks it has written in them. *)
Record traced := Traced { td_size : Z; td_blocks : list (Z * list Z) }.

(** Where the last of a list of events ends. *)
Fixpoint lap_end (o : Z) (lap : list traced) : Z :=
  match lap with [] => o | r :: lap => lap_end (align8 o + td_size r) lap end.

Definition block_at (m : memory) (base : Z) (size : Z) (b : Z * list Z) : Prop :=
  0 <= b.1 /\ b.1 + Z.of_nat (length b.2) <= size /\ rd_bytes m (base + b.1) (length b.2) = Ret b.2.

(** The events of [lap] follow one another in memory from the offset [o]. *)
Fixpoint laid_out (m : memory) (o : Z) (lap : list traced) : Prop :=
  match lap with
  | [] => True
  | r :: lap => 0 <= td_size r /\ Forall (block_at m (origin m + align8 o) (td_size r)) (td_blocks r) /\
      laid_out m (align8 o + td_size r) lap
  end.

Section Spec.
Variable rte_strscpy : list Z -> Z -> list Z.

(** The blocks of a payload from a position in its event; a null string ends it. *)
Fixpoint field_blocks (o : Z) (fs : list trace_field) : list (Z * list Z) :=
  match fs with
  | [] => []
  | Val bs :: fs => (o, bs) :: field_blocks (o + Z.of_nat (length bs)) fs
  | Str None :: _ => []
  | Str (Some s) :: fs =>
      (o, rte_strscpy s __RTE_TRACE_EMIT_STRING_LEN_MAX) :: field_blocks (o + __RTE_TRACE_EMIT_STRING_LEN_MAX) fs
  end.

Definition ev_size (e : event) : Z := Z.land (ev_handle e) 65535.
Definition ev_traced (e : event) : traced :=
  Traced (ev_size e) ((0, le_bytes 8 (event_header (ev_tsc e) (ev_handle e))) :: field_blocks 8 (ev_fields e)).

Definition ev_enabled (e : event) : bool := Z.testbit (ev_handle e) 63.
Definition ev_discard (e : event) : bool := Z.testbit (ev_handle e) 62.

(** The events of a thread's buffer of [len] bytes; nothing before it is allocated. *)
Definition record_event (len : Z) (e : event) (lap : list traced) : list traced :=
  if len <=? lap_end 0 lap + ev_size e then if ev_discard e then lap else [ev_traced e]
  else lap ++ [ev_traced e].

Definition spec_event (len : Z) (e : event) (s : option (list traced)) : option (list traced) :=
  if negb (ev_enabled e) then s
  else record_event len e <$> (match s with None => match ev_alloc e with None => None | _ => Some [] end | _ => s end).

Definition spec_events (len : Z) (evs : list event) (s : option (list traced)) : option (list traced) :=
  foldl (fun s e => spec_event len e s) s evs.

Definition holds (len slack : Z) (trace : trace_header) (lap : list traced) : Prop :=
  tr_len trace = len /\ tr_offset trace = lap_end 0 lap /\ laid_out (tr_mem trace) 0 lap /\
  len + slack <= Z.of_nat (length (cells (tr_mem trace))) /\ 0 <= lap_end 0 lap <= len + slack /\
  (slack = 0 -> lap_end 0 lap mod 8 = 0).

Definition represents (len slack : Z) (trace_mem : option trace_header) (s : option (list traced)) : Prop :=
  match trace_mem, s with
  | None, None => True
  | Some trace, Some lap => holds len slack trace lap
  | _, _ => False
  end.

(** The handle carries at least the size of the payload, which fits in the buffer; a buffer that
    the allocation gives is fresh and has [slack] bytes after its last. *)
Definition event_ok (len slack : Z) (e : event) : Prop :=
  event_size (ev_fields e) <= ev_size e <= len /\
  (slack = 0 -> ev_size e mod 8 = 0) /\
  match ev_alloc e with
  | None => True
  | Some trace => tr_len trace = len /\ tr_offset trace = 0 /\ len + slack <= Z.of_nat (length (cells (tr_mem trace)))
  end.

End Spec.

(** ** Lemmas *)

Lemma align8_spec o : align8 o mod 8 = 0 /\ o <= align8 o <= o + 7 /\ (o mod 8 = 0 -> align8 o = o).
Proof. unfold align8. split; [apply Z_mod_mult|]. Z.div_mod_to_equations. lia. Qed.

Lemma RTE_ALIGN_CEIL32_8 o : 0 <= o < 2 ^ 32 - 7 -> RTE_ALIGN_CEIL32 o 8 = align8 o.
Proof.
  intros Ho. unfold RTE_ALIGN_CEIL32, RTE_ALIGN_FLOOR32, align8. change (8 - 1) with 7.
  rewrite (u32_small (o + 7)) by lia. set (y := o + 7).
  assert (Hy : y = Z.land y (Z.ones 32)).
  { rewrite Z.land_ones by lia. symmetry. apply Z.mod_small. unfold y. lia. }
  rewrite Hy at 1. rewrite <- Z.land_assoc.
  change (Z.land (Z.ones 32) _) with (Z.land (Z.ones 32) (Z.lnot (2 ^ 3 - 1))).
  rewrite Z.land_assoc, <- Hy. rewrite land_lnot_ones by lia. change (2 ^ 3) with 8.
  Z.div_mod_to_equations. lia.
Qed.

Lemma lap_end_snoc o lap r : lap_end o (lap ++ [r]) = align8 (lap_end o lap) + td_size r.
Proof. revert o. induction lap as [|x lap IH]; intros o; cbn; [done|]. apply IH. Qed.

Lemma laid_out_snoc m o lap r :
  laid_out m o (lap ++ [r]) <->
  laid_out m o lap /\ 0 <= td_size r /\
  Forall (block_at m (origin m + align8 (lap_end o lap)) (td_size r)) (td_blocks r).
Proof.
  revert o. induction lap as [|x lap IH]; intros o; cbn [app laid_out lap_end].
  - split; [intros (? & ? & _)|intros (_ & ? & ?)]; done.
  - rewrite IH. split; [intros (? & ? & ? & ? & ?)|intros ((? & ? & ?) & ? & ?)]; done.
Qed.

(** A memory that differs at most between two addresses. *)
Record changed (m : memory) (lo hi : Z) (m' : memory) : Prop := {
  ch_origin : origin m' = origin m;
  ch_size : length (cells m') = length (cells m);
  ch_other b n bs : b + Z.of_nat n <= lo \/ hi <= b -> rd_bytes m b n = Ret bs -> rd_bytes m' b n = Ret bs;
}.

Lemma changed_refl m lo hi : changed m lo hi m.
Proof. by split. Qed.

Lemma changed_written m a bs lo hi m' :
  written m a bs m' -> lo <= a -> a + Z.of_nat (length bs) <= hi -> changed m lo hi m'.
Proof.
  intros Hw Hlo Hhi. split; [apply Hw..|]. intros b n cs Hb Hr. eapply rd_beside; [exact Hw| |exact Hr]. lia.
Qed.

Lemma changed_trans m lo hi m1 m2 : changed m lo hi m1 -> changed m1 lo hi m2 -> changed m lo hi m2.
Proof. intros [Ho1 Hs1 H1] [Ho2 Hs2 H2]. split; [congruence..|]. intros. eauto. Qed.

Lemma changed_wider m lo hi lo' hi' m' : changed m lo hi m' -> lo' <= lo -> hi <= hi' -> changed m lo' hi' m'.
Proof. intros [Ho Hs H] ??. split; [done..|]. intros. apply H; [lia|done]. Qed.

Lemma block_at_changed m m' base size b lo hi :
  changed m lo hi m' -> base + size <= lo -> block_at m base size b -> block_at m' base size b.
Proof.
  intros [_ _ Hc] Hle (H0 & H1 & H2). split; [done|]. split; [done|]. apply Hc; [left; lia|done].
Qed.

Lemma laid_out_end m o lap : laid_out m o lap -> o <= lap_end o lap.
Proof.
  revert o. induction lap as [|r lap IH]; intros o; cbn; [lia|]. intros (Hr & _ & Hl).
  pose proof (IH _ Hl). pose proof (align8_spec o). lia.
Qed.

(** What is written behind the last event leaves the events alone. *)
Lemma laid_out_changed m m' o lap hi :
  changed m (origin m + lap_end o lap) hi m' -> laid_out m o lap -> laid_out m' o lap.
Proof.
  intros Hc. revert o Hc. induction lap as [|r lap IH]; intros o Hc; cbn [laid_out]; [done|].
  intros (Hr & Hb & Hl). split; [done|]. split; [|by apply IH].
  rewrite (ch_origin _ _ _ _ Hc). eapply Forall_impl; [exact Hb|]. intros b. eapply block_at_changed; [exact Hc|].
  pose proof (laid_out_end _ _ _ Hl). cbn [lap_end]. lia.
Qed.

Definition fields_size (fs : list trace_field) : Z := foldr (fun f s => field_size f + s) 0 fs.

Lemma field_size_nonneg f : 0 <= field_size f.
Proof. destruct f; cbn; unfold __RTE_TRACE_EMIT_STRING_LEN_MAX; lia. Qed.

Lemma fields_size_nonneg fs : 0 <= fields_size fs.
Proof. unfold fields_size. induction fs as [|f fs IH]; cbn; [lia|]. pose proof (field_size_nonneg f). lia. Qed.

Lemma event_size_sum fs : event_size fs = 8 + fields_size fs.
Proof.
  unfold event_size, __RTE_TRACE_EVENT_HEADER_SZ. generalize 8 as z.
  unfold fields_size. induction fs as [|f fs IH]; intros z; cbn [foldl foldr]; [lia|]. rewrite IH. lia.
Qed.

(** One block: written, and still there after later blocks. *)
Lemma wr_block m base size o bs :
  in_memory m base (Z.to_nat size) -> 0 <= o -> o + Z.of_nat (length bs) <= size ->
  exists m', wr_bytes m (base + o) bs = Ret m' /\ changed m (base + o) (base + size) m' /\
    in_memory m' base (Z.to_nat size) /\
    forall m'' lo, changed m' lo (base + size) m'' -> base + o + Z.of_nat (length bs) <= lo ->
      block_at m'' base size (o, bs).
Proof.
  intros [Hm1 Hm2] Ho Hfit.
  assert (Him : in_memory m (base + o) (length bs)) by (split; lia).
  destruct (wr_bytes_spec m (base + o) bs Him) as (m' & E & Hw). exists m'. split; [done|].
  split; [eapply changed_written; [exact Hw|lia|lia]|].
  split; [eapply written_in_memory; [exact Hw|split; lia]|].
  intros m'' lo Hc Hlo. split; [done|]. split; [done|]. cbn [fst snd].
  apply (ch_other _ _ _ _ Hc); [left; lia|]. by eapply rd_written.
Qed.

Section Steps.
Variable rte_strscpy : list Z -> Z -> list Z.
Hypothesis rte_strscpy_fits : forall s n, Z.of_nat (length (rte_strscpy s n)) <= Z.max 0 n.

Lemma emit_fields_spec fs : forall m base size o,
  in_memory m base (Z.to_nat size) -> 0 <= o -> o + fields_size fs <= size ->
  exists m', emit_fields rte_strscpy m (base + o) fs = Ret m' /\ changed m (base + o) (base + size) m' /\
    Forall (block_at m' base size) (field_blocks rte_strscpy o fs).
Proof.
  induction fs as [|f fs IH]; intros m base size o Hm Ho Hfit; cbn [emit_fields field_blocks].
  { exists m. split; [done|]. split; [apply changed_refl|done]. }
  change (fields_size (f :: fs)) with (field_size f + fields_size fs) in Hfit. pose proof (fields_size_nonneg fs) as Hn.
  assert (Hval : forall bs k, Z.of_nat (length bs) <= k -> o + k + fields_size fs <= size ->
    exists m1 m', wr_bytes m (base + o) bs = Ret m1 /\ emit_fields rte_strscpy m1 (base + o + k) fs = Ret m' /\
      changed m (base + o) (base + size) m' /\
      Forall (block_at m' base size) ((o, bs) :: field_blocks rte_strscpy (o + k) fs)).
  { intros bs k Hk Hf. destruct (wr_block m base size o bs Hm Ho) as (m1 & E & Hc & Hm1 & Hb); [lia|].
    destruct (IH m1 base size (o + k) Hm1) as (m' & E' & Hc' & Hbs); [lia|lia|].
    exists m1, m'. split; [done|]. split; [by rewrite <- Z.add_assoc|].
    split; [eapply changed_trans; [exact Hc|]; eapply changed_wider; [exact Hc'|lia|lia]|].
    constructor; [|done]. eapply Hb; [exact Hc'|lia]. }
  destruct f as [bs|[s|]]; cbn [emit_field field_size] in *.
  - destruct (Hval bs (Z.of_nat (length bs))) as (m1 & m' & E & E' & H); [lia|lia|].
    exists m'. unfold __rte_trace_point_emit. rewrite E. cbn. by rewrite E'.
  - destruct (Hval (rte_strscpy s __RTE_TRACE_EMIT_STRING_LEN_MAX) __RTE_TRACE_EMIT_STRING_LEN_MAX)
      as (m1 & m' & E & E' & H); [apply rte_strscpy_fits|lia|].
    exists m'. unfold rte_trace_point_emit_string. rewrite E. cbn [mbind outcome_bind]. by rewrite E'.
  - exists m. split; [done|]. split; [apply changed_refl|done].
Qed.

(** The header and the payload of an event, behind the events that are there. *)
Lemma put_event e m lap :
  laid_out m 0 lap -> event_size (ev_fields e) <= ev_size e ->
  align8 (lap_end 0 lap) + ev_size e <= Z.of_nat (length (cells m)) ->
  exists m1 m', wr_bytes m (origin m + align8 (lap_end 0 lap)) (le_bytes 8 (event_header (ev_tsc e) (ev_handle e))) = Ret m1 /\
    emit_fields rte_strscpy m1 (origin m + align8 (lap_end 0 lap) + 8) (ev_fields e) = Ret m' /\
    length (cells m') = length (cells m) /\ laid_out m' 0 (lap ++ [ev_traced rte_strscpy e]).
Proof.
  intros Hl Hsz Hroom. pose proof (laid_out_end _ _ _ Hl) as Hend. rewrite event_size_sum in Hsz.
  pose proof (fields_size_nonneg (ev_fields e)) as Hn.
  pose proof (align8_spec (lap_end 0 lap)) as (_ & Ha & _). set (base := origin m + align8 (lap_end 0 lap)).
  set (hd := le_bytes 8 _). assert (Hhd : Z.of_nat (length hd) = 8) by (unfold hd; by rewrite length_le_bytes).
  destruct (wr_block m base (ev_size e) 0 hd) as (m1 & E & Hc & Hm1 & Hb); [split; lia|lia|lia|].
  destruct (emit_fields_spec (ev_fields e) m1 base (ev_size e) 8) as (m' & E' & Hc' & Hbs); [done|lia|lia|].
  assert (Hch : changed m base (base + ev_size e) m').
  { rewrite Z.add_0_r in Hc. eapply changed_trans; [exact Hc|]. eapply changed_wider; [exact Hc'|lia|lia]. }
  exists m1, m'. rewrite Z.add_0_r in E. split; [done|]. split; [done|]. split; [apply Hch|].
  apply laid_out_snoc. split; [eapply laid_out_changed; [|exact Hl]; eapply changed_wider; [exact Hch|lia|reflexivity]|].
  cbn [td_size td_blocks ev_traced]. split; [lia|]. rewrite (ch_origin _ _ _ _ Hch). constructor; [|exact Hbs].
  eapply Hb; [exact Hc'|lia].
Qed.
End Steps.

(** A bit of a handle, as the code tests it. *)
Lemma land_pow2_eqb x k : 0 <= k -> (Z.land x (2 ^ k) =? 0) = negb (Z.testbit x k).
Proof.
  intros Hk. destruct (Z.testbit x k) eqn:E; cbn [negb].
  - apply Z.eqb_neq. intros H. assert (Ht := f_equal (fun y => Z.testbit y k) H). cbv beta in Ht.
    rewrite Z.land_spec, E, Z.pow2_bits_true, Z.bits_0 in Ht by done. done.
  - apply Z.eqb_eq. apply Z.bits_inj'. intros i Hi. rewrite Z.land_spec, Z.bits_0.
    destruct (Z.eq_dec i k) as [->|Hne]; [by rewrite E|]. rewrite Z.pow2_bits_false by lia. apply andb_false_r.
Qed.

Lemma enabled_mask e : (Z.land (ev_handle e) __RTE_TRACE_FIELD_ENABLE_MASK =? 0) = negb (ev_enabled e).
Proof. by apply (land_pow2_eqb _ 63). Qed.

Lemma ev_size_range e : 0 <= ev_size e < 65536.
Proof. unfold ev_size. change 65535 with (Z.ones 16). rewrite Z.land_ones by lia. apply Z.mod_pos_bound. lia. Qed.

(** The reservation. *)
Lemma mem_get_spec len slack alloc e trace lap :
  0 <= slack <= 6 -> 0 <= len < 2 ^ 31 -> holds len slack trace lap ->
  __rte_trace_mem_get alloc (Some trace) (ev_handle e) =
    let full := len <=? lap_end 0 lap + ev_size e in
    if full && ev_discard e then (Some trace, None)
    else
      let start := align8 (if full then 0 else lap_end 0 lap) in
      (Some (TraceHeader (start + ev_size e) len (tr_mem trace)), Some (origin (tr_mem trace) + start)).
Proof.
  intros Hs Hlen (Hl & Ho & _ & _ & He & _). unfold __rte_trace_mem_get. cbv zeta.
  change (Z.land (ev_handle e) __RTE_TRACE_FIELD_SIZE_MASK) with (ev_size e).
  change __RTE_TRACE_FIELD_ENABLE_DISCARD with (2 ^ 62). rewrite land_pow2_eqb, negb_involutive by lia.
  fold (ev_discard e). pose proof (ev_size_range e) as Hr. rewrite u16_small by lia.
  rewrite Ho, Hl, (u32_small (lap_end 0 lap + _)), Z.geb_leb by lia. destruct (_ && _); [done|].
  match goal with |- context [RTE_ALIGN_CEIL32 ?x _] => set (o := x) end. assert (Hoo : 0 <= o <= len + slack) by (unfold o; destruct (_ <=? _); lia).
  change __RTE_TRACE_EVENT_HEADER_SZ with 8. rewrite RTE_ALIGN_CEIL32_8 by lia.
  pose proof (align8_spec o). by rewrite u32_small by lia.
Qed.

Section Refinement.
Variable rte_strscpy : list Z -> Z -> list Z.
Hypothesis rte_strscpy_fits : forall s n, Z.of_nat (length (rte_strscpy s n)) <= Z.max 0 n.
Variables len slack : Z.
Hypothesis len_range : 0 <= len < 2 ^ 31.
Hypothesis slack_range : slack = 0 \/ slack = 6.

(** An event on a buffer that is there. *)
Lemma holds_event e trace lap :
  event_ok len slack e -> ev_enabled e = true -> holds len slack trace lap ->
  exists trace', trace_point rte_strscpy (ev_alloc e) (ev_tsc e) (ev_handle e) (ev_fields e) (Some trace) = Ret (Some trace') /\
    holds len slack trace' (record_event rte_strscpy len e lap).
Proof.
  intros (Hsz & H8 & _) Hen Hh. destruct Hh as (Hl & Ho & Hlaid & Hroom & He & Hz) eqn:EH. clear EH.
  unfold trace_point. rewrite enabled_mask, Hen. cbn [negb].
  rewrite (mem_get_spec len slack) with (lap := lap) by (done || lia). cbv zeta. unfold record_event.
  set (full := len <=? lap_end 0 lap + ev_size e).
  destruct (full && ev_discard e) eqn:Ed.
  { apply andb_true_iff in Ed as [-> ->]. by exists trace. }
  set (lap0 := if full then [] else lap).
  assert (E0 : (if full then 0 else lap_end 0 lap) = lap_end 0 lap0) by (unfold lap0; by destruct full).
  assert (E1 : (if full then if ev_discard e then lap else [ev_traced rte_strscpy e] else lap ++ [ev_traced rte_strscpy e])
    = lap0 ++ [ev_traced rte_strscpy e]).
  { unfold lap0. destruct full; [|done]. cbn [andb] in Ed. by rewrite Ed. }
  rewrite E0, E1. pose proof (align8_spec (lap_end 0 lap0)) as (A1 & A2 & A3).
  assert (Hfit : align8 (lap_end 0 lap0) + ev_size e <= len + slack).
  { unfold lap0, full in *. destruct (Z.leb_spec len (lap_end 0 lap + ev_size e)); cbn [lap_end] in *.
    - change (align8 0) with 0. lia.
    - destruct slack_range as [->| ->]; [rewrite A3; [lia|by apply Hz]|lia]. }
  destruct (put_event rte_strscpy rte_strscpy_fits e (tr_mem trace) lap0) as (m1 & m' & W1 & W2 & Hlen & Hlaid').
  { unfold lap0. by destruct full. } { lia. } { lia. }
  unfold __rte_trace_point_emit_ev_header. cbn [tr_mem tr_offset tr_len]. rewrite W1. cbn [mbind outcome_bind].
  change __RTE_TRACE_EVENT_HEADER_SZ with 8. rewrite W2. cbn [mbind outcome_bind]. eexists. split; [done|].
  pose proof (laid_out_end _ _ _ Hlaid'). rewrite lap_end_snoc in *.
  split; [done|]. cbn [tr_mem tr_offset tr_len]. rewrite lap_end_snoc. cbn [td_size ev_traced] in *.
  split; [done|]. split; [done|]. rewrite Hlen. split; [done|]. split; [lia|].
  intros Hs0. rewrite Zplus_mod, A1, (H8 Hs0). done.
Qed.

Lemma fresh_holds trace :
  tr_len trace = len -> tr_offset trace = 0 -> len + slack <= Z.of_nat (length (cells (tr_mem trace))) ->
  holds len slack trace [].
Proof. intros. split; [done|]. split; [done|]. split; [done|]. split; [done|]. split; [cbn; lia|done]. Qed.

Lemma trace_point_refines e tm s :
  event_ok len slack e -> represents len slack tm s ->
  exists tm', trace_point rte_strscpy (ev_alloc e) (ev_tsc e) (ev_handle e) (ev_fields e) tm = Ret tm' /\
    represents len slack tm' (spec_event rte_strscpy len e s).
Proof.
  intros Hok Hr. unfold spec_event. destruct (ev_enabled e) eqn:Hen; cbn [negb].
  2: { exists tm. split; [|done]. unfold trace_point. by rewrite enabled_mask, Hen. }
  destruct tm as [trace|], s as [lap|]; cbn [represents] in Hr; try done.
  - destruct (holds_event e trace lap Hok Hen Hr) as (trace' & E & H'). by exists (Some trace').
  - destruct (ev_alloc e) as [trace|] eqn:Ea.
    + destruct Hok as (Hsz & H8 & Halloc) eqn:EH. clear EH. rewrite Ea in Halloc. destruct Halloc as (? & ? & ?).
      destruct (holds_event e trace [] Hok Hen) as (trace' & E & H'); [by apply fresh_holds|].
      exists (Some trace'). rewrite Ea in E. split; [|done]. rewrite <- E. unfold trace_point. by rewrite enabled_mask, Hen.
    + exists None. split; [|done]. unfold trace_point, __rte_trace_mem_get.
      by destruct (Z.land _ _ =? 0).
Qed.
End Refinement.

(** C12: refinement of trace buffers: whatever trace points a thread uses, enabled or not, in discard
    mode or not, with whatever values, null strings included, and whether or not its buffer can
    be allocated, no write leaves the buffer and the buffer represents the list that the
    specification keeps - each enabled event is appended when it fits, otherwise dropped in
    discard mode and the beginning of a new list in overwrite mode - and every event of the list
    can be read back, header and fields, at the next multiple of eight bytes. The buffer needs six
    bytes more than its length, or none when every size is a multiple of eight. *)
Theorem trace_refines_laps rte_strscpy len slack evs :
  (forall s n, Z.of_nat (length (rte_strscpy s n)) <= Z.max 0 n) ->
  0 <= len < 2 ^ 31 -> slack = 0 \/ slack = 6 -> Forall (event_ok len slack) evs ->
  exists trace_mem, run_events rte_strscpy evs None = Ret trace_mem /\
    represents len slack trace_mem (spec_events rte_strscpy len evs None).
Proof.
  intros Hf Hl Hs Hok. assert (Hr : represents len slack None None) by done. revert Hr.
  generalize (None : option (list traced)) as s, (None : option trace_header) as tm.
  induction Hok as [|e evs He _ IH]; intros s tm Hr; cbn [run_events spec_events foldl].
  { by exists tm. }
  destruct (trace_point_refines rte_strscpy Hf len slack Hl Hs e tm s He Hr) as (tm' & E & Hr').
  rewrite E. cbn. by apply IH.
Qed.

(** The header of an event is the identity of the trace point over the low 48 bits of the time. *)
Theorem event_header_fields tsc inn :
  0 <= tsc < 2 ^ 64 ->
  event_header tsc inn mod 2 ^ 48 = tsc mod 2 ^ 48 /\ event_header tsc inn / 2 ^ 48 = inn / 2 ^ 16 mod 2 ^ 16.
Proof.
  intros Ht. rewrite <- !Z.land_ones, <- !Z.shiftr_div_pow2 by lia. unfold event_header, u64.
  change 18446744073709551616 with (2 ^ 64). rewrite <- !Z.land_ones by lia.
  change __RTE_TRACE_FIELD_ID_MASK with (Z.shiftl (Z.ones 16) 16). change (Z.shiftl 65535 _) with (Z.shiftl (Z.ones 16) 48).
  change (__RTE_TRACE_EVENT_HEADER_ID_SHIFT - __RTE_TRACE_FIELD_ID_SHIFT) with 32.
  split; apply Z.bits_inj'; intros i Hi; rewrite ?Z.land_spec, ?Z.shiftr_spec, ?Z.lor_spec, ?Z.land_spec by lia;
    rewrite ?Z.shiftl_spec, ?Z.lnot_spec, ?Z.land_spec, ?Z.shiftl_spec by lia; rewrite ?Z.testbit_ones by lia.
  - destruct (Z.ltb_spec i 48); [|by rewrite !andb_false_r].
    assert (Z.testbit (Z.shiftl (Z.ones 16) 16) (i - 32) = false) as ->.
    { rewrite Z.shiftl_mul_pow2 by lia. apply Z.mul_pow2_bits_low. lia. }
    rewrite (proj2 (Z.leb_gt 0 (i - 48))), (proj2 (Z.leb_le 0 i)), (proj2 (Z.ltb_lt i 64)) by lia. cbn.
    by rewrite !andb_true_r, andb_false_r, orb_false_r.
  - replace (i + 48 - 48) with i by lia. replace (i + 48 - 32 - 16) with i by lia.
    replace (i + 48 - 32) with (i + 16) by lia. rewrite (proj2 (Z.leb_le 0 i)), (proj2 (Z.leb_le 0 (i + 48))) by lia.
    destruct (Z.ltb_spec i 16).
    + rewrite (proj2 (Z.ltb_lt (i + 48) 64)) by lia. cbn. by rewrite andb_false_r, !andb_true_r.
    + rewrite (proj2 (Z.ltb_ge (i + 48) 64)) by lia. cbn [negb andb]. by rewrite !andb_false_r.
Qed.

(** ** Examples *)

(** A copy that truncates and terminates its result. *)
Definition demo_strscpy (s : list Z) (n : Z) : list Z :=
  if n <=? 0 then [] else take (Z.to_nat (n - 1)) s ++ [0].

Lemma demo_strscpy_fits s n : Z.of_nat (length (demo_strscpy s n)) <= Z.max 0 n.
Proof.
  unfold demo_strscpy. destruct (Z.leb_spec n 0); cbn [length]; [lia|]. rewrite length_app, length_take. cbn. lia.
Qed.

(** The use of an enabled trace point with the size its registration computes. *)
Definition use (id mode tsc : Z) (fs : list trace_field) (alloc : option trace_header) : event :=
  Event (2 ^ 63 + mode + 2 ^ 16 * id + event_size fs) tsc fs alloc.

Definition demo_buffer (len slack : Z) : option trace_header :=
  Some (TraceHeader 0 len (Mem 4096 (replicate (Z.to_nat (len + slack)) 255))).

Definition demo_uses : list event :=
  [use 1 0 100 rte_eal_trace_generic_void None;
   use 2 0 101 (rte_eal_trace_generic_u8 7) (demo_buffer 144 6);
   Event (2 ^ 62 + 9) 102 (rte_eal_trace_generic_u8 8) None;
   use 3 0 103 (rte_eal_trace_mem_zmalloc (Some [112; 113]) 64 8 0 4096) None;
   use 4 0 104 (rte_eal_trace_memzone_lookup None 9) None;
   use 5 (2 ^ 62) 105 (rte_eal_trace_generic_u64 10) None;
   use 6 0 106 (rte_eal_trace_alarm_cancel 1 2 (-1)) None;
   use 7 0 107 (rte_eal_trace_thread_lcore_ready 3 (Some [48; 45; 51])) None].

Lemma demo_uses_ok : Forall (event_ok 144 6) demo_uses.
Proof.
  repeat (apply Forall_cons; split; [split; [by vm_compute|]; split; [done|by vm_compute]|]). apply Forall_nil_2.
Qed.

Definition demo_held : list traced :=
  [Traced 28 [(0, [106; 0; 0; 0; 0; 0; 6; 0]); (8, [1; 0; 0; 0; 0; 0; 0; 0]); (16, [2; 0; 0; 0; 0; 0; 0; 0]);
              (24, [255; 255; 255; 255])];
   Traced 44 [(0, [107; 0; 0; 0; 0; 0; 7; 0]); (8, [3; 0; 0; 0]); (12, [48; 45; 51; 0])]].

(** Recorded in turn: one byte, a string and values, a null string; then an event is dropped in
    discard mode, and one that starts the buffer again and another follow. *)
Lemma trace_refines_laps_witness :
  spec_events demo_strscpy 144 demo_uses None = Some demo_held /\
  map td_size <$> spec_events demo_strscpy 144 (take 6 demo_uses) None = Some [9; 64; 48] /\
  exists trace_mem, run_events demo_strscpy demo_uses None = Ret trace_mem /\
    represents 144 6 trace_mem (Some demo_held).
Proof.
  split; [reflexivity|]. split; [reflexivity|].
  change (Some demo_held) with (spec_events demo_strscpy 144 demo_uses None).
  apply trace_refines_laps; [exact demo_strscpy_fits|lia|by right|exact demo_uses_ok].
Defined.

(** The check of the room comes before the alignment: trace points of the environment layer, used
    with the sizes of their registration in a buffer of their length, write behind its end. *)
Definition overrun_uses : list event :=
  use 1 0 100 rte_eal_trace_generic_void (demo_buffer 64 0) :: replicate 4 (use 2 0 101 (rte_eal_trace_generic_u8 7) None).

Theorem trace_overruns :
  Forall (fun e => event_size (ev_fields e) = ev_size e) overrun_uses /\
  run_events demo_strscpy overrun_uses None = Undef.
Proof. split; [repeat constructor|vm_compute; reflexivity]. Qed.
