(* ===== verification/Cbuf.v ===== *)
(** * [rpc_shm/cbuf.{h,cpp}]: circular receive buffers, and their use in [rpc.cpp]

    A buffer of [numEntries] entries in the memory of the context, with the sender's view
    of it: the next entry to write ([tail]), the oldest one not known to be free
    ([senders_head]), a full flag and a sense bit per entry; the receiver keeps its own
    [head]. The second part are the functions of [rpc.cpp] over the buffers of a context:
    their layout, polling and release. *)

From S2P Require Import Prelude Bytes.

Open Scope Z_scope.

(** ** The buffer *)

(* rpc_shm/cbuf.h:6-22 CircularReceiveBuffer *)
Record cbuf := Cbuf {
  is_full : bool;
  basePointer : Z;
  entryByteSize : Z;
  numEntries : Z;
  cb_head : Z;
  cb_tail : Z;
  buffer_sr : bool;
  sr_vector : list bool;
  senders_head : Z;
  is_sender : bool;
}.

(* rpc_shm/cbuf.h:24-25 CircularReceiveBuffer::CircularReceiveBuffer *)
Definition new_cbuf (aBase aSize aNumEntries : Z) (senderCopy : bool) : cbuf :=
  Cbuf false aBase aSize aNumEntries 0 0 false (replicate (Z.to_nat aNumEntries) true) 0 senderCopy.

(* rpc_shm/cbuf.cpp:7-10 getBasePointer *)
Definition getBasePointer (b : cbuf) : Z := basePointer b.
(* rpc_shm/cbuf.cpp:12-15 getHeadAddress *)
Definition getHeadAddress (b : cbuf) : Z := u64 (basePointer b + u64 (cb_head b * entryByteSize b)).
(* rpc_shm/cbuf.cpp:16-19 getTailAddress *)
Definition getTailAddress (b : cbuf) : Z := u64 (basePointer b + u64 (cb_tail b * entryByteSize b)).
(* rpc_shm/cbuf.cpp:21-24 getHeadOffset *)
Definition getHeadOffset (b : cbuf) : Z := u64 (cb_head b * entryByteSize b).
(* rpc_shm/cbuf.cpp:25-28 getTailOffset *)
Definition getTailOffset (b : cbuf) : Z := u64 (cb_tail b * entryByteSize b).
(* rpc_shm/cbuf.h:34-34 getHeadIdxValue *)
Definition getHeadIdxValue (b : cbuf) : Z := cb_head b.
(* rpc_shm/cbuf.h:35-35 getTailIdxValue *)
Definition getTailIdxValue (b : cbuf) : Z := cb_tail b.

(** [None]: an assertion fails, or [at] throws. *)
(* rpc_shm/cbuf.cpp:30-40 incTail *)
Definition incTail (b : cbuf) : option cbuf :=
  if negb (is_sender b) then None
  else
    let tail := u64 (cb_tail b + 1) in
    let '(tail, sr) := if tail >=? numEntries b then (0, negb (buffer_sr b)) else (tail, buffer_sr b) in
    let full := if tail =? senders_head b then true else is_full b in
    s ← sr_vector b !! Z.to_nat tail;
    if Bool.eqb s sr then None
    else Some (Cbuf full (basePointer b) (entryByteSize b) (numEntries b) (cb_head b) tail sr
                 (sr_vector b) (senders_head b) (is_sender b)).

(* rpc_shm/cbuf.cpp:42-48 incHeadAfterMsgProcessed *)
Definition incHeadAfterMsgProcessed (b : cbuf) : cbuf :=
  let head := u64 (cb_head b + 1) in
  let head := if head >=? numEntries b then 0 else head in
  Cbuf (is_full b) (basePointer b) (entryByteSize b) (numEntries b) head (cb_tail b) (buffer_sr b)
    (sr_vector b) (senders_head b) (is_sender b).

(* rpc_shm/cbuf.cpp:50-58 incSendersHeadToFreeSpace *)
Definition incSendersHeadToFreeSpace (inc : Z) (b : cbuf) : option cbuf :=
  if negb (is_sender b) then None
  else
    let sh := u64 (senders_head b + inc) in
    let sh := if sh >=? numEntries b then 0 else sh in
    let full := if negb (cb_tail b =? sh) then false else is_full b in
    Some (Cbuf full (basePointer b) (entryByteSize b) (numEntries b) (cb_head b) (cb_tail b) (buffer_sr b)
            (sr_vector b) sh (is_sender b)).

(* rpc_shm/cbuf.cpp:66-69 writeSRMetadata *)
Definition writeSRMetadata (entry : Z) (b : cbuf) : option cbuf :=
  if entry <? Z.of_nat (length (sr_vector b)) then
    Some (Cbuf (is_full b) (basePointer b) (entryByteSize b) (numEntries b) (cb_head b) (cb_tail b) (buffer_sr b)
            (<[Z.to_nat entry := buffer_sr b]> (sr_vector b)) (senders_head b) (is_sender b))
  else None.

(* rpc_shm/cbuf.cpp:71-74 GetReservedMemoryBytes *)
Definition GetReservedMemoryBytes (b : cbuf) : Z := u64 (numEntries b * entryByteSize b).

(* rpc_shm/cbuf.cpp:76-79 isEmpty *)
Definition isEmpty (b : cbuf) : bool := negb (is_full b) && (senders_head b =? cb_tail b).

(* rpc_shm/cbuf.cpp:81-95 getBufferSize *)
Definition getBufferSize (b : cbuf) : Z :=
  if isEmpty b then numEntries b
  else if cb_tail b >=? senders_head b then u64 (cb_tail b - senders_head b)
  else u64 (u64 (numEntries b - senders_head b) + cb_tail b).

(* rpc_shm/cbuf.cpp:98-104 getAvailSlots *)
Definition getAvailSlots (b : cbuf) : Z :=
  if isEmpty b then numEntries b else u64 (numEntries b - getBufferSize b).

(* rpc_shm/cbuf.cpp:60-64 zeroEntryNumber *)
Definition zeroEntryNumber (index : Z) (b : cbuf) (m : memory) : outcome memory :=
  wr_bytes m (u64 (basePointer b + u64 (index * entryByteSize b))) (replicate (Z.to_nat (entryByteSize b)) 0).

(** ** The buffers of a context *)

(* libzsim/zsim_nic_defines.hpp:110-110 EMULATOR_SW_PAGE_SIZE *)
Definition EMULATOR_SW_PAGE_SIZE : Z := 8192.
(* rpc_shm/rpc.h:17-17 MSGS_PER_PAIR *)
Definition MSGS_PER_PAIR : Z := 256.
(* rpc_shm/rpc.h:18-18 RPC_MAX_PAYLOAD *)
Definition RPC_MAX_PAYLOAD : Z := 512.

(** The allocation of [kal_reg_ctx] for the context, in bytes. *)
(* rpc_shm/rpc.cpp:136-136 createRPCNUMAContext *)
Definition ctx_size : Z := EMULATOR_SW_PAGE_SIZE * 2.

(** The loop body of the layout, [n] buffers to go. *)
(* rpc_shm/rpc.cpp:484-488 setupCircularBuffers *)
Fixpoint layout_buffers (n : nat) (bufferBasePointer : Z) (are_sendersCopies : bool) : list cbuf :=
  match n with
  | O => []
  | S n =>
      let b := new_cbuf bufferBasePointer EMULATOR_SW_PAGE_SIZE MSGS_PER_PAIR are_sendersCopies in
      b :: layout_buffers n (u64 (bufferBasePointer + GetReservedMemoryBytes b)) are_sendersCopies
  end.

(** [entryByteSize] and [numEntries] are parameters of the function. *)
(* rpc_shm/rpc.cpp:477-489 setupCircularBuffers *)
Definition setupCircularBuffers (pgas entryByteSize numEntries aNumberOfSenders aNumberOfReceivers : Z)
    (are_sendersCopies : bool) : list cbuf :=
  layout_buffers (Z.to_nat (u64 (aNumberOfSenders * aNumberOfReceivers))) pgas are_sendersCopies.

(** The decoder [dec] reads the memory and may move the pointer; [None] for [NULL]. *)
(* rpc_shm/rpc.cpp:517-526 pollOnBufferNumber *)
Definition pollOnBufferNumber (bufs : list cbuf) (bufNumber : nat) (dec : Z -> bool * Z) : option (option Z) :=
  rbuf ← bufs !! bufNumber;
  let '(ok, poll_loc) := dec (getHeadAddress rbuf) in
  Some (if (ok : bool) then Some poll_loc else None).

(* rpc_shm/rpc.cpp:528-533 zeroOutRBufHead *)
Definition zeroOutRBufHead (bufs : list cbuf) (m : memory) (bufferNumber : nat) : option (outcome memory) :=
  ptr ← bufs !! bufferNumber;
  Some (zeroEntryNumber (getHeadIdxValue ptr) ptr m).

(* rpc_shm/rpc.cpp:535-544 incrementBufferHead *)
Definition incrementBufferHead (bufs : list cbuf) (bufNumber : nat) : option (list cbuf) :=
  b ← bufs !! bufNumber;
  Some (<[bufNumber := incHeadAfterMsgProcessed b]> bufs).

(* rpc_shm/rpc.cpp:546-549 getBufferHeadIndex *)
Definition getBufferHeadIndex (bufs : list cbuf) (bufferNumber : nat) : option Z :=
  b ← bufs !! bufferNumber; Some (getHeadIdxValue b).

(* rpc_shm/rpc.cpp:472-475 flowControlUpdateSendersHead *)
Definition flowControlUpdateSendersHead (buf : cbuf) (inc : Z) : option cbuf := incSendersHeadToFreeSpace inc buf.

(* rpc_shm/rpc.h:123-125 getNumClients *)
Definition getNumClients (totalNodeCount : Z) : Z := u32 (totalNodeCount - 1).

(* rpc_shm/rpc.cpp:572-596 getCBufIdx *)
Definition getCBufIdx (totalNodeCount threadsPerClient cl_nid cl_tid sr_thread : Z) : Z :=
  let zeroShifted_clNid := u32 (cl_nid - 1) in
  let bufsPerServThread := u32 (getNumClients totalNodeCount * threadsPerClient) in
  let serv_region_idx := u64 (sr_thread * bufsPerServThread) in
  let client_buffer := u32 (u32 (zeroShifted_clNid * getNumClients totalNodeCount) + cl_tid) in
  u64 (serv_region_idx + client_buffer).

(* rpc_shm/rpc.cpp:551-553 getBufferIDX *)
Definition getBufferIDX (totalNodeCount threadsPerClient cl_nid cl_tid serv_tid : Z) : Z :=
  getCBufIdx totalNodeCount threadsPerClient cl_nid cl_tid serv_tid.

(** ** The sender's view *)

(** [c] entries, from [senders_head] on, are written and not known to be free; the sense
    bits left of the tail are of this lap, the others of the lap before. *)
Record cbuf_holds (n sh c : Z) (b : cbuf) : Prop := {
  bh_sender : is_sender b = true;
  bh_n : numEntries b = n;
  bh_range : 0 < n < 2 ^ 63 /\ 0 <= sh < n /\ 0 <= c <= n;
  bh_head : senders_head b = sh;
  bh_tail : cb_tail b = (sh + c) mod n;
  bh_full : is_full b = (c =? n);
  bh_len : Z.of_nat (length (sr_vector b)) = n;
  bh_sr i : 0 <= i < n ->
    sr_vector b !! Z.to_nat i = Some (if i <? cb_tail b then buffer_sr b else negb (buffer_sr b));
}.

Lemma new_cbuf_holds base size n : 0 < n < 2 ^ 63 -> cbuf_holds n 0 0 (new_cbuf base size n true).
Proof.
  intros Hn. unfold new_cbuf. split; cbn [is_sender numEntries senders_head cb_tail is_full sr_vector buffer_sr]; try done; try lia.
  - rewrite length_replicate. lia.
  - intros i Hi. rewrite (proj2 (Z.ltb_ge _ _)) by lia. apply lookup_replicate_2. lia.
Qed.

(** Projections of an explicit buffer. *)
Ltac cb_fields := cbn [is_full basePointer entryByteSize numEntries cb_head cb_tail buffer_sr sr_vector senders_head is_sender].

(** The position after a step of at most a lap. *)
Lemma mod_step n a k : 0 < n -> 0 <= a < n -> 0 <= k <= n ->
  (a + k) mod n = if a + k <? n then a + k else a + k - n.
Proof.
  intros Hn Ha Hk. destruct (Z.ltb_spec (a + k) n); [apply Z.mod_small; lia|].
  rewrite <- (Z_mod_plus_full _ (-1) n). apply Z.mod_small. lia.
Qed.

(** What [remoteBufferWrite] does to the buffer: the sense bit of the entry, the tail. *)
Definition send_entry (b : cbuf) : option cbuf := writeSRMetadata (getTailIdxValue b) b ≫= incTail.

Lemma send_entry_holds n sh c b : cbuf_holds n sh c b -> c < n ->
  exists b', send_entry b = Some b' /\ cbuf_holds n sh (c + 1) b'.
Proof.
  intros [Hs Hn Hr Hh Ht Hf Hl Hsr] Hc. destruct b as [full base es ne hd t sr v sh' snd]. cbn in *. subst snd ne sh' t full.
  set (t := (sh + c) mod n) in *. pose proof (Z.mod_pos_bound (sh + c) n ltac:(lia)) as Hb. fold t in Hb.
  unfold send_entry, writeSRMetadata, getTailIdxValue. cbn [cb_tail sr_vector].
  rewrite (proj2 (Z.ltb_lt _ _)) by lia. cbn [mbind option_bind].
  unfold incTail. cbn [is_sender negb cb_tail numEntries buffer_sr senders_head is_full sr_vector].
  set (w := <[Z.to_nat t := sr]> v).
  assert (Hw : forall i, 0 <= i < n -> w !! Z.to_nat i = Some (if i <? t + 1 then sr else negb sr)).
  { intros i Hi. unfold w. destruct (Z.eq_dec i t) as [->|Hne].
    - rewrite list_lookup_insert_eq by lia. by rewrite (proj2 (Z.ltb_lt _ _)) by lia.
    - rewrite list_lookup_insert_ne by lia. rewrite Hsr by done. do 2 f_equal.
      destruct (Z.ltb_spec i t), (Z.ltb_spec i (t + 1)); lia || done. }
  assert (Hlw : length w = length v) by (unfold w; by rewrite length_insert).
  rewrite u64_small, Z.geb_leb by lia.
  assert (Et : (sh + (c + 1)) mod n = if n <=? t + 1 then 0 else t + 1).
  { unfold t. rewrite !mod_step by lia.
    destruct (Z.ltb_spec (sh + c) n), (Z.ltb_spec (sh + (c + 1)) n); destruct (Z.leb_spec n (sh + c + 1));
      destruct (Z.leb_spec n (sh + c - n + 1)); lia. }
  assert (Efull : forall t', t' = (sh + (c + 1)) mod n ->
    (if t' =? sh then true else c =? n) = (c + 1 =? n)).
  { intros t' ->. rewrite mod_step by lia.
    destruct (Z.ltb_spec (sh + (c + 1)) n), (Z.eqb_spec (c + 1) n), (Z.eqb_spec c n); try lia;
      (destruct (Z.eqb_spec (sh + (c + 1)) sh); try lia; try done);
      destruct (Z.eqb_spec (sh + (c + 1) - n) sh); lia || done. }
  destruct (Z.leb_spec n (t + 1)) as [Hwrap|Hno].
  - rewrite (Hw 0) by lia. cbn [mbind option_bind]. rewrite (proj2 (Z.ltb_lt 0 _)) by lia.
    rewrite eqb_negb2. eexists. split; [done|].
    split; cb_fields; try done; try lia; rewrite ?Hlw; try done; [by apply Efull|].
    intros i Hi. rewrite Hw by done. rewrite (proj2 (Z.ltb_lt i _)) by lia.
    rewrite (proj2 (Z.ltb_ge i 0)) by lia. by rewrite negb_involutive.
  - rewrite Hw by lia. cbn [mbind option_bind]. rewrite (proj2 (Z.ltb_ge (t + 1) _)) by lia.
    rewrite eqb_negb1. eexists. split; [done|].
    split; cb_fields; try done; try lia; rewrite ?Hlw; try done; by apply Efull.
Qed.

(** Where the sender's head is after a release of [k] entries, and how many it then counts as
    written: crossing the end it is set to 0, whatever lies behind; and a full buffer released as a
    whole from position 0 stays full. *)
Definition head_after (n sh k : Z) : Z := if sh + k <? n then sh + k else 0.
Definition counted_after (n sh c k : Z) : Z := if sh + k <? n then c - k else if sh =? 0 then n else c - (n - sh).

Lemma free_holds n sh c k b : cbuf_holds n sh c b -> 0 <= k <= c ->
  exists b', flowControlUpdateSendersHead b k = Some b' /\ cbuf_holds n (head_after n sh k) (counted_after n sh c k) b'.
Proof.
  intros [Hs Hn Hr Hh Ht Hf Hl Hsr] Hk. destruct b as [full base es ne hd t sr v sh' snd]. cbn in *. subst snd ne sh' t full.
  unfold flowControlUpdateSendersHead, incSendersHeadToFreeSpace. cbn. rewrite u64_small, Z.geb_leb by lia.
  assert (E : (if n <=? sh + k then 0 else sh + k) = head_after n sh k).
  { unfold head_after. destruct (Z.leb_spec n (sh + k)), (Z.ltb_spec (sh + k) n); lia. }
  rewrite E. eexists. split; [done|].
  assert (Hc : 0 <= head_after n sh k < n /\ 0 <= counted_after n sh c k <= n /\
    (sh + c) mod n = (head_after n sh k + counted_after n sh c k) mod n).
  { unfold head_after, counted_after. destruct (Z.ltb_spec (sh + k) n); [split_and!; try lia; f_equal; lia|].
    destruct (Z.eqb_spec sh 0) as [->|]; (split_and!; try lia); [f_equal; lia|].
    rewrite <- (Z_mod_plus_full (sh + c) (-1) n). f_equal. lia. }
  destruct Hc as (Hc1 & Hc2 & Et). split; cb_fields; try done; try lia. rewrite Et.
  rewrite mod_step by lia. unfold head_after, counted_after in *. destruct (Z.ltb_spec (sh + k) n); [|destruct (Z.eqb_spec sh 0)];
    repeat match goal with |- context [?a <? ?b] => destruct (Z.ltb_spec a b) end;
    repeat match goal with |- context [?a =? ?b] => destruct (Z.eqb_spec a b) end; cbn [negb]; lia || done.
Qed.

Lemma avail_slots n sh c b : cbuf_holds n sh c b ->
  getAvailSlots b = (if c =? n then n else n - c) /\
  getBufferSize b = (if c =? 0 then n else if c =? n then 0 else c).
Proof.
  intros [Hs Hn Hr Hh Ht Hf Hl _]. destruct b as [full base es ne hd t sr v sh' snd]. cbn in *. subst snd ne sh' t full.
  unfold getAvailSlots, getBufferSize, isEmpty. cbn. rewrite mod_step by lia.
  destruct (Z.ltb_spec (sh + c) n); rewrite Z.geb_leb.
  - destruct (Z.eqb_spec c n), (Z.eqb_spec c 0), (Z.eqb_spec sh (sh + c)); cbn [negb andb]; try lia.
    rewrite (proj2 (Z.leb_le _ _)) by lia. split; wrap_lia.
  - destruct (Z.eqb_spec c n), (Z.eqb_spec c 0), (Z.eqb_spec sh (sh + c - n)); cbn [negb andb]; try lia.
    + rewrite (proj2 (Z.leb_le _ _)) by lia. split; wrap_lia.
    + rewrite (proj2 (Z.leb_gt _ _)) by lia. split; wrap_lia.
Qed.
