(* ===== verification/CbufSpec.v ===== *)
(** * What the circular receive buffers promise, and where they fall short

    The sender's accounting of free slots under histories of writes and releases
    ([sender_accounting]) and the slots that releases lose ([release_across_end]);
    the layout of the buffers of a context against the memory the context has
    ([zero_head_in_context]); which client threads share a buffer ([buffer_index_injective]). *)

From S2P Require Import Prelude Bytes Cbuf.

Open Scope Z_scope.

(** ** Histories of a sender's buffer *)

Inductive cop := CSend | CFree (inc : Z).

Definition cstep (b : cbuf) (o : cop) : option cbuf :=
  match o with CSend => send_entry b | CFree k => flowControlUpdateSendersHead b k end.
Fixpoint csteps (b : cbuf) (l : list cop) : option cbuf :=
  match l with [] => Some b | o :: l => b ← cstep b o; csteps b l end.

(** The sender's head, the number of outstanding entries, and the number of slots that are lost:
    neither outstanding nor counted as free. *)
Record account := Account { ac_head : Z; ac_out : Z; ac_lost : Z }.
(** The slots that a release of [k] entries loses: those by which it passes the end of the buffer, and
    all of them when a full buffer is released as a whole from position 0. *)
Definition loses (n sh k : Z) : Z := if sh + k <? n then 0 else if sh =? 0 then n else sh + k - n.
Definition count_step (n : Z) (a : account) (o : cop) : account :=
  match o with
  | CSend => Account (ac_head a) (ac_out a + 1) (ac_lost a)
  | CFree k => Account (head_after n (ac_head a) k) (ac_out a - k) (ac_lost a + loses n (ac_head a) k)
  end.

(** A sender writes when it counts a slot as free; a release names outstanding entries. *)
Definition cop_ok (n : Z) (a : account) (o : cop) : Prop :=
  match o with CSend => ac_out a + ac_lost a < n | CFree k => 0 <= k <= ac_out a end.
Fixpoint history_ok (n : Z) (a : account) (l : list cop) : Prop :=
  match l with [] => True | o :: l => cop_ok n a o /\ history_ok n (count_step n a o) l end.

(** What the buffer knows of an account. *)
Definition accounts (n : Z) (a : account) (b : cbuf) : Prop :=
  0 <= ac_out a /\ 0 <= ac_lost a /\ cbuf_holds n (ac_head a) (ac_out a + ac_lost a) b.

Lemma step_accounts n a o b : accounts n a b -> cop_ok n a o ->
  exists b', cstep b o = Some b' /\ accounts n (count_step n a o) b'.
Proof.
  destruct a as [sh out lost]. intros (Ho & Hl & Hb) Hok. pose proof (bh_range _ _ _ _ Hb) as Hr. unfold accounts.
  destruct o as [|k]; cbn [cop_ok cstep count_step ac_head ac_out ac_lost] in *.
  - destruct (send_entry_holds _ _ _ _ Hb Hok) as (b1 & -> & Hb1). exists b1.
    replace (out + 1 + lost) with (out + lost + 1) by lia. split; [done|]. by split_and!; try lia.
  - destruct (free_holds _ _ _ k _ Hb ltac:(lia)) as (b1 & -> & Hb1). exists b1. split; [done|].
    assert (E : counted_after n sh (out + lost) k = out - k + (lost + loses n sh k) /\ 0 <= loses n sh k).
    { unfold counted_after, loses. destruct (Z.ltb_spec (sh + k) n); [lia|]. destruct (Z.eqb_spec sh 0); lia. }
    destruct E as [E Hlo]. rewrite E in Hb1. by split_and!; try lia.
Qed.

Lemma history_accounts n l a b : accounts n a b -> history_ok n a l ->
  exists b', csteps b l = Some b' /\ accounts n (fold_left (count_step n) l a) b'.
Proof.
  revert a b. induction l as [|o l IH]; intros a b Hb Hok; cbn [csteps fold_left]; [by exists b|].
  destruct Hok as [Ho Hok]. destruct (step_accounts _ _ _ _ Hb Ho) as (b1 & -> & Hb1). cbn [mbind option_bind]. by apply IH.
Qed.

Lemma new_accounts base size n : 0 < n < 2 ^ 63 -> accounts n (Account 0 0 0) (new_cbuf base size n true).
Proof. intros Hn. split; [done|]. split; [done|]. by apply new_cbuf_holds. Qed.

(** C34: The sender's accounting: along every history in which a write finds a slot that is counted
    as free and a release names outstanding entries, the assertions of the buffer hold (in
    particular that of the sense bits), and the free slots reported are those neither outstanding
    nor lost, except that a buffer in which these are all the slots reports every slot as free.
    What is lost is exact: a release that passes the end of the buffer by [j] entries loses [j]
    slots for ever, a whole full buffer released from position 0 all of them, and no other release
    loses any. *)
Theorem sender_accounting base size n l :
  0 < n < 2 ^ 63 -> history_ok n (Account 0 0 0) l ->
  exists b, csteps (new_cbuf base size n true) l = Some b /\
    let a := fold_left (count_step n) l (Account 0 0 0) in
    accounts n a b /\ getAvailSlots b = (if ac_out a + ac_lost a =? n then n else n - ac_out a - ac_lost a).
Proof.
  intros Hn Hok. destruct (history_accounts n l _ _ (new_accounts base size n Hn) Hok) as (b & E & Hb).
  exists b. split; [done|]. split; [done|]. destruct Hb as (_ & _ & Hb). rewrite (proj1 (avail_slots _ _ _ _ Hb)).
  destruct (_ =? n); lia.
Qed.

(** A release within the buffer, one up to its end, one across it, which loses two slots. *)
Lemma sender_accounting_witness :
  exists b, csteps (new_cbuf 0 8192 4 true) [CSend; CSend; CSend; CFree 3; CSend; CSend; CSend; CFree 3; CSend] = Some b /\
    getAvailSlots b = 1.
Proof.
  destruct (sender_accounting 0 8192 4 [CSend; CSend; CSend; CFree 3; CSend; CSend; CSend; CFree 3; CSend]) as (b & E & _ & Ha).
  - lia.
  - vm_compute. repeat split; discriminate.
  - exists b. split; [exact E|exact Ha].
Defined.

(** Releases that cross the end of the buffer lose slots: the sender's head is reset to
    0 instead of being reduced modulo the number of entries, so that for a release of [k]
    entries from position [sh] the buffer reports [sh + k - n] slots too few; they are
    outstanding for ever. *)
Theorem release_across_end n sh c k b :
  cbuf_holds n sh c b -> k <= c -> k < n -> n < sh + k ->
  exists b', flowControlUpdateSendersHead b k = Some b' /\ senders_head b' = 0 /\
    getAvailSlots b' = (n - (c - k)) - (sh + k - n).
Proof.
  intros Hb Hk Hkn Hc. pose proof (bh_range _ _ _ _ Hb).
  destruct (free_holds _ _ _ k _ Hb ltac:(lia)) as (b' & E & Hb'). exists b'. split; [done|].
  rewrite (bh_head _ _ _ _ Hb'), (proj1 (avail_slots _ _ _ _ Hb')). unfold head_after, counted_after.
  rewrite (proj2 (Z.ltb_ge _ _)) by lia. split; [done|]. rewrite (proj2 (Z.eqb_neq sh 0)), (proj2 (Z.eqb_neq _ n)) by lia. lia.
Qed.

Lemma release_across_end_witness :
  exists b b', csteps (new_cbuf 0 8192 4 true) [CSend; CSend; CSend; CFree 3; CSend; CSend; CSend] = Some b /\
    flowControlUpdateSendersHead b 3 = Some b' /\ getAvailSlots b' = 2.
Proof.
  destruct (history_accounts 4 [CSend; CSend; CSend; CFree 3; CSend; CSend; CSend] _ _
    (new_accounts 0 8192 4 ltac:(lia))) as (b & E & _ & _ & Hb).
  { vm_compute. repeat split; discriminate. }
  destruct (release_across_end 4 3 3 3 b Hb) as (b' & E' & _ & Ha); [lia..|].
  exists b, b'. split; [exact E|]. split; [exact E'|exact Ha].
Defined.

(** ** The layout of a context *)

(** Buffer [i] starts [i] times 2 MB after the memory of the context. *)
Lemma layout_buffers_lookup n base s i : (i < n)%nat ->
  layout_buffers n base s !! i =
  Some (new_cbuf (if decide (i = O) then base else u64 (base + Z.of_nat i * 2097152)) EMULATOR_SW_PAGE_SIZE MSGS_PER_PAIR s).
Proof.
  revert base i. induction n as [|n IH]; intros base i Hi; [lia|]. cbn [layout_buffers].
  destruct i as [|i]; [done|]. cbn [lookup list_lookup]. rewrite IH by lia.
  change (GetReservedMemoryBytes _) with 2097152. do 3 f_equal.
  destruct (decide (i = O)) as [->|]; [by rewrite decide_False by lia|].
  rewrite decide_False by lia. wrap_lia.
Qed.

(** A buffer whose receiver has processed [k] messages. *)
Definition with_head (h : Z) (b : cbuf) : cbuf :=
  Cbuf (is_full b) (basePointer b) (entryByteSize b) (numEntries b) h (cb_tail b) (buffer_sr b)
    (sr_vector b) (senders_head b) (is_sender b).

Lemma inc_head_lap b k : numEntries b = 256 ->
  incHeadAfterMsgProcessed (with_head (Z.of_nat k mod 256) b) = with_head (Z.of_nat (S k) mod 256) b.
Proof.
  intros Hn. unfold incHeadAfterMsgProcessed, with_head. cbn [cb_head numEntries is_full basePointer entryByteSize
    cb_tail buffer_sr sr_vector senders_head is_sender]. rewrite Hn. f_equal.
  pose proof (Z.mod_pos_bound (Z.of_nat k) 256 ltac:(lia)). rewrite u64_small, Z.geb_leb by lia.
  destruct (Z.leb_spec 256 (Z.of_nat k mod 256 + 1)); Z.div_mod_to_equations; lia.
Qed.

(** [k] messages processed in buffer [i]. *)
Fixpoint process (k : nat) (i : nat) (bufs : list cbuf) : option (list cbuf) :=
  match k with O => Some bufs | S k => bufs ← process k i bufs; incrementBufferHead bufs i end.

Lemma process_run k i bufs b : bufs !! i = Some b -> numEntries b = 256 -> cb_head b = 0 ->
  process k i bufs = Some (<[i := with_head (Z.of_nat k mod 256) b]> bufs).
Proof.
  intros Hi Hn Hh. pose proof (lookup_lt_Some _ _ _ Hi). induction k as [|k IH]; cbn [process].
  - rewrite list_insert_id; [done|]. rewrite Hi. f_equal. destruct b; unfold with_head; cbn in *. by subst.
  - rewrite IH. cbn [mbind option_bind]. unfold incrementBufferHead.
    rewrite list_lookup_insert_eq by done. cbn [mbind option_bind]. by rewrite inc_head_lap, list_insert_insert_eq.
Qed.

(** The buffers do not fit the memory they are laid out in. A context has two pages;
    [setupCircularBuffers] ignores the entry size and count it is given and lays out 256
    pages per buffer. For every number of buffers and every number [k] of processed
    messages, the head of buffer [i] is [k] modulo 256, and zeroing the entry there stays
    within the context exactly for the first two entries of the first buffer. *)
Theorem zero_head_in_context es ne ns nr snd m i k :
  0 <= origin m -> 0 <= ns -> 0 <= nr -> origin m + 2097152 * (ns * nr) < 2 ^ 64 ->
  Z.of_nat (length (cells m)) = ctx_size -> Z.of_nat i < ns * nr ->
  exists bufs r, process k i (setupCircularBuffers (origin m) es ne ns nr snd) = Some bufs /\
    getBufferHeadIndex bufs i = Some (Z.of_nat k mod 256) /\
    zeroOutRBufHead bufs m i = Some r /\
    ((exists m', r = Ret m') <-> i = O /\ Z.of_nat k mod 256 < 2).
Proof.
  intros Hp Hs Hr Hfit Hlen Hi. unfold setupCircularBuffers. rewrite u64_small by nia.
  set (bufs := layout_buffers _ _ _).
  set (base := if decide (i = O) then origin m else u64 (origin m + Z.of_nat i * 2097152)).
  assert (Hbase : base = origin m + Z.of_nat i * 2097152).
  { unfold base. destruct (decide (i = O)); [lia|]. apply u64_small. nia. }
  set (b := new_cbuf base EMULATOR_SW_PAGE_SIZE MSGS_PER_PAIR snd).
  assert (Hb : bufs !! i = Some b) by (apply layout_buffers_lookup; lia).
  pose proof (lookup_lt_Some _ _ _ Hb) as Hlt. rewrite (process_run k i bufs b Hb eq_refl eq_refl).
  set (h := Z.of_nat k mod 256). pose proof (Z.mod_pos_bound (Z.of_nat k) 256 ltac:(lia)) as Hh. fold h in Hh.
  eexists _, _. split; [done|]. unfold getBufferHeadIndex, zeroOutRBufHead.
  rewrite list_lookup_insert_eq by done. cbn [mbind option_bind]. split; [done|]. split; [done|].
  unfold zeroEntryNumber, getHeadIdxValue. cbn [cb_head with_head b new_cbuf basePointer entryByteSize].
  change EMULATOR_SW_PAGE_SIZE with 8192. rewrite (u64_small (h * 8192)), Hbase, u64_small by nia.
  rewrite wr_bytes_ok, length_replicate. unfold in_memory. rewrite Hlen. change ctx_size with 16384.
  split; [|intros [-> ?]]; lia.
Qed.

Lemma zero_head_in_context_witness :
  exists bufs r, process 2 0 (setupCircularBuffers 65536 64 16 1 2 true) = Some bufs /\
    zeroOutRBufHead bufs (Mem 65536 (replicate (Z.to_nat ctx_size) 7)) 0 = Some r /\ ~ (exists m', r = Ret m').
Proof.
  destruct (zero_head_in_context 64 16 1 2 true (Mem 65536 (replicate (Z.to_nat ctx_size) 7)) 0 2) as (bufs & r & E1 & _ & E2 & H).
  1-4, 6: cbn [origin]; lia.
  { cbn [cells]. rewrite length_replicate. apply Z2Nat.id. unfold ctx_size, EMULATOR_SW_PAGE_SIZE. lia. }
  exists bufs, r. split; [exact E1|]. split; [exact E2|]. rewrite H. intros [_ Hk]. vm_compute in Hk. discriminate Hk.
Defined.

(** ** Which threads share a buffer *)

Lemma getCBufIdx_value n T m t s :
  1 <= n -> 1 <= T -> n * n + T < 2 ^ 32 -> n * T < 2 ^ 32 -> s * (n * T) < 2 ^ 63 ->
  1 <= m <= n -> 0 <= t < T -> 0 <= s -> getCBufIdx (n + 1) T m t s = n * (s * T + (m - 1)) + t.
Proof.
  intros Hn HT H1 H2 H3 Hm Ht Hs. unfold getCBufIdx, getNumClients.
  rewrite !(u32_small (n + 1 - 1)) by nia. replace (n + 1 - 1) with n by lia.
  rewrite (u32_small (m - 1)) by nia. rewrite (u32_small (n * T)) by nia.
  rewrite (u64_small (s * _)) by nia. rewrite (u32_small ((m - 1) * n)) by nia.
  rewrite (u32_small (_ + t)) by nia. rewrite u64_small by nia. lia.
Qed.

(** Which client threads share a buffer. With [n] clients of [T] threads and at least two
    server threads, [getCBufIdx] gives every triple of client, client thread and server
    thread a buffer of its own, and one of the [S * n * T] that are laid out, exactly when
    there is one client or as many clients as threads per client: the offset within a server's region is
    scaled by the number of clients instead of the threads per client. *)
Theorem buffer_index_injective n T S :
  1 <= n -> 1 <= T -> 2 <= S -> n * n + T < 2 ^ 32 -> n * T < 2 ^ 32 -> S * (n * T) < 2 ^ 63 ->
  (forall m t s m' t' s', 1 <= m <= n -> 0 <= t < T -> 0 <= s < S -> 1 <= m' <= n -> 0 <= t' < T -> 0 <= s' < S ->
     getCBufIdx (n + 1) T m t s = getCBufIdx (n + 1) T m' t' s' -> (m, t, s) = (m', t', s')) <->
  (n = 1 \/ n = T) /\
  (forall m t s, 1 <= m <= n -> 0 <= t < T -> 0 <= s < S -> 0 <= getCBufIdx (n + 1) T m t s < S * (n * T)).
Proof.
  intros Hn HT HS H1 H2 H3.
  assert (V : forall m t s, 1 <= m <= n -> 0 <= t < T -> 0 <= s < S ->
    getCBufIdx (n + 1) T m t s = n * (s * T + (m - 1)) + t).
  { intros m t s Hm Ht Hs. apply getCBufIdx_value; nia. }
  split.
  - intros Hinj. assert (E : n = 1 \/ n = T).
    { destruct (Z.eq_dec n 1) as [|Hn1]; [by left|]. right. destruct (Z.lt_trichotomy n T) as [Hlt|[E|Hlt]]; [|done|].
      - specialize (Hinj 1 n 0 2 0 0). rewrite !V in Hinj by lia. injection (Hinj ltac:(lia) ltac:(lia) ltac:(lia) ltac:(lia) ltac:(lia) ltac:(lia) ltac:(lia)); lia.
      - specialize (Hinj (T + 1) 0 0 1 0 1). rewrite !V in Hinj by lia. injection (Hinj ltac:(lia) ltac:(lia) ltac:(lia) ltac:(lia) ltac:(lia) ltac:(lia) ltac:(lia)); lia. }
    split; [done|]. intros m t s Hm Ht Hs. rewrite V by done. destruct E as [->| ->]; nia.
  - intros [E _] m t s m' t' s' Hm Ht Hs Hm' Ht' Hs'. rewrite !V by done. intros Heq.
    destruct E as [->| ->].
    + assert (s = s') by nia. assert (t = t') by nia. f_equal; [f_equal|]; lia.
    + assert (s * T + (m - 1) = s' * T + (m' - 1)) by nia. assert (t = t') by nia.
      assert (s = s') by nia. f_equal; [f_equal|]; nia.
Qed.

Lemma buffer_index_injective_witness :
  ~ (forall m t s m' t' s', 1 <= m <= 2 -> 0 <= t < 3 -> 0 <= s < 2 -> 1 <= m' <= 2 -> 0 <= t' < 3 -> 0 <= s' < 2 ->
     getCBufIdx 3 3 m t s = getCBufIdx 3 3 m' t' s' -> (m, t, s) = (m', t', s')).
Proof.
  intros H. destruct (proj1 (buffer_index_injective 2 3 2 ltac:(lia) ltac:(lia) ltac:(lia) ltac:(lia) ltac:(lia) ltac:(lia)) H)
    as [[E|E] _]; discriminate E.
Defined.
