(* ===== verification/Rpc.v ===== *)
(** * [rpc_shm/rpc.{h,cpp}]: messages, the RPC context, sending and receiving

    The wire format of a message ([packPayload], [unpackBufferToRPCLayer], in the variant of
    the simulator and in that of the virtual machine platform), the context with its queue
    pairs and local buffers, and the three calls of a worker: receive a request, send the
    reply, release the receive slot. *)

From S2P Require Import Prelude Bytes Nic Cbuf.

Open Scope Z_scope.

(** ** Messages *)

(** [payload] is an address; [rpc_type] the byte of the [char]. *)
(* rpc_shm/rpc.h:144-157 RPCWithHeader *)
Record RPCWithHeader := Rpc {
  rpc_len : Z;
  rpc_type : Z;
  rpc_id : Z;
  senders_qp : Z;
  senders_nid : Z;
  payload : Z;
  payload_len : Z;
}.

(* rpc_shm/rpc.cpp:21-23 getAlignmentReq *)
Definition getAlignmentReq : Z := 8.

(* rpc_shm/rpc.cpp:26-35 calcTotalHeaderBytes *)
Definition calcTotalHeaderBytes : Z :=
  let hbytes := 4 + 2 * 1 + 2 + 2 + 2 in
  let alignmentBytes := hbytes mod getAlignmentReq in
  hbytes + alignmentBytes.

(* rpc_shm/rpc.cpp:38-38 getLenParamBytes *)
Definition getLenParamBytes : Z := 4.
(* rpc_shm/rpc.cpp:40-40 getPayloadBytes *)
Definition getPayloadBytes (r : RPCWithHeader) : Z := u32 (rpc_len r - calcTotalHeaderBytes).

(* rpc_shm/rpc.cpp:600-611 createRPCStruct *)
Definition createRPCStruct (aType anRPCId aQPId aNID aPayloadLen aPayloadPointer : Z) : RPCWithHeader :=
  Rpc (u32 (calcTotalHeaderBytes + aPayloadLen)) aType anRPCId aQPId aNID aPayloadPointer aPayloadLen.

(** The padding before the payload. *)
(* rpc_shm/rpc.cpp:631-633 packPayload *)
Definition pad_payload (buf : Z) : Z :=
  if buf mod getAlignmentReq =? 0 then buf else buf + buf mod getAlignmentReq.

(** With [ZSIM]: little-endian fields. *)
(* rpc_shm/rpc.cpp:613-634 packPayload *)
Definition packPayload (rpc : RPCWithHeader) (m : memory) (buf : Z) : outcome memory :=
  m ← wr_bytes m buf (le_bytes 4 (rpc_len rpc));
  let buf := buf + 4 in
  m ← wr_bytes m buf [rpc_type rpc];
  let buf := buf + 2 * 1 in
  m ← wr_bytes m buf (le_bytes 2 (rpc_id rpc));
  let buf := buf + 2 in
  m ← wr_bytes m buf (le_bytes 2 (senders_qp rpc));
  let buf := buf + 2 in
  m ← wr_bytes m buf (le_bytes 2 (senders_nid rpc));
  let buf := buf + 2 in
  let buf := pad_payload buf in
  memcpy m buf (payload rpc) (Z.to_nat (payload_len rpc)).

(** Without a platform macro: network byte order. *)
(* rpc_shm/rpc.cpp:635-666 packPayload *)
Definition packPayload_vm (rpc : RPCWithHeader) (m : memory) (buf : Z) : outcome memory :=
  m ← wr_bytes m buf (be_bytes 4 (rpc_len rpc));
  let buf := buf + 4 in
  m ← wr_bytes m buf [rpc_type rpc];
  let buf := buf + 2 * 1 in
  m ← wr_bytes m buf (be_bytes 2 (rpc_id rpc));
  let buf := buf + 2 in
  m ← wr_bytes m buf (be_bytes 2 (senders_qp rpc));
  let buf := buf + 2 in
  m ← wr_bytes m buf (be_bytes 2 (senders_nid rpc));
  let buf := buf + 2 in
  let buf := pad_payload buf in
  if payload_len rpc =? 0 then Ret m else memcpy m buf (payload rpc) (Z.to_nat (payload_len rpc)).

(* rpc_shm/rpc.cpp:669-695 unpackBufferToRPCLayer *)
Definition unpackBufferToRPCLayer (m : memory) (buf : Z) : outcome RPCWithHeader :=
  rpc_len ← rd_bytes m buf 4;
  let aNetworkBuffer := buf + 4 in
  rpc_type ← rd_bytes m aNetworkBuffer 1;
  let aNetworkBuffer := aNetworkBuffer + 2 * 1 in
  rpc_id ← rd_bytes m aNetworkBuffer 2;
  let aNetworkBuffer := aNetworkBuffer + 2 in
  senders_qp ← rd_bytes m aNetworkBuffer 2;
  let aNetworkBuffer := aNetworkBuffer + 2 in
  senders_nid ← rd_bytes m aNetworkBuffer 2;
  Ret (createRPCStruct (le_value rpc_type) (le_value rpc_id) (le_value senders_qp) (le_value senders_nid)
         (u32 (le_value rpc_len - calcTotalHeaderBytes)) (buf + calcTotalHeaderBytes)).

(* rpc_shm/rpc.cpp:696-719 unpackBufferToRPCLayer *)
Definition unpackBufferToRPCLayer_vm (m : memory) (buf : Z) : outcome RPCWithHeader :=
  rpc_len ← rd_bytes m buf 4;
  let aNetworkBuffer := buf + 4 in
  rpc_type ← rd_bytes m aNetworkBuffer 1;
  let aNetworkBuffer := aNetworkBuffer + 1 in
  rpc_id ← rd_bytes m aNetworkBuffer 2;
  let aNetworkBuffer := aNetworkBuffer + 2 in
  senders_qp ← rd_bytes m aNetworkBuffer 2;
  let aNetworkBuffer := aNetworkBuffer + 2 in
  senders_nid ← rd_bytes m aNetworkBuffer 2;
  Ret (createRPCStruct (be_value rpc_type) (be_value rpc_id) (be_value senders_qp) (be_value senders_nid)
         (u32 (be_value rpc_len - calcTotalHeaderBytes)) (buf + calcTotalHeaderBytes)).

(** ** The context *)

(* rpc_shm/rpc.h:74-81 soNUMAQP_T *)
Record soNUMAQP_T := QP { qp_id : Z; qp_wq : rmc_wq; qp_cq : rmc_cq }.

(* libzsim/zsim_nic_defines.hpp:232-238 send_buf_management_t *)
Record send_buf_management_t := SendCtrl { sb_head : Z; sb_tail : Z; sb_lock : Z }.

(** Without the addresses, which nothing sets to memory. *)
(* libzsim/zsim_nic_defines.hpp:241-251 ctx_entry_t *)
Record ctx_entry_t := CtxEntry {
  ctx_id : Z;
  num_nodes : Z;
  msg_entry_size : Z;
  msgs_per_dest : Z;
  buf_management : list send_buf_management_t;
}.

(** The members that are initialised; a null pointer is [None]. *)
(* rpc_shm/rpc.h:87-115 rpcNUMAContext *)
Record rpcNUMAContext := Context {
  qps : list (option soNUMAQP_T);
  app_buffers : list (option Z);
  ctx_pgas : option Z;
  ctx_struct : ctx_entry_t;
  per_node_chunk : Z;
  lbuf_size_bytes : Z;
}.

(* rpc_shm/rpc.h:129-129 getLBufSizeBytes *)
Definition getLBufSizeBytes (ctx : rpcNUMAContext) : Z := lbuf_size_bytes ctx.
(* rpc_shm/rpc.cpp:730-732 get_lbuf_size *)
Definition get_lbuf_size (ctx : rpcNUMAContext) : Z := getLBufSizeBytes ctx.

(** [malloc] stands for the success of the allocation; the code sizes and fills one
    management structure per node. *)
(* libzsim/zsim_nic_defines.cpp:206-236 kal_reg_send_recv_bufs *)
Definition kal_reg_send_recv_bufs (malloc : bool) (e : ctx_entry_t) (send_buf_entries entry_size nodes : Z)
    : ctx_entry_t * Z :=
  if negb (entry_size mod CACHE_BLOCK_SIZE =? 0) then (e, -1)
  else if negb malloc then (CtxEntry (ctx_id e) nodes entry_size send_buf_entries (buf_management e), -1)
  else
    let send_ctrl := map (fun _ => SendCtrl 0 (u16 (send_buf_entries - 1)) 0) (seq 0 (Z.to_nat nodes)) in
    (CtxEntry (ctx_id e) nodes entry_size send_buf_entries send_ctrl, 0).

(** [memalign] is [posix_memalign], whose return code is not looked at. *)
(* libzsim/zsim_nic_defines.cpp:287-300 kal_reg_ctx *)
Definition kal_reg_ctx (memalign : Z -> Z -> option Z) (ctx_ptr : option Z) (num_pages : Z) : option Z * Z :=
  let ctx_size := i32 (u32 (num_pages * EMULATOR_SW_PAGE_SIZE)) in
  match ctx_ptr with
  | None => (memalign EMULATOR_SW_PAGE_SIZE (u64 ctx_size), 0)
  | Some _ => (ctx_ptr, 0)
  end.

(** With [ZSIM]. *)
(* rpc_shm/rpc.cpp:133-226 createRPCNUMAContext *)
Definition createRPCNUMAContext (memalign : Z -> Z -> option Z) (malloc : bool) (totalNodes qp_start qp_end : Z)
    : option rpcNUMAContext :=
  let '(pgas, code) := kal_reg_ctx memalign None (ctx_size / EMULATOR_SW_PAGE_SIZE) in
  if code <? 0 then None
  else
    let msg_size := RPC_MAX_PAYLOAD in
    let msgs_per_node := MSGS_PER_PAIR in
    let '(e, _) := kal_reg_send_recv_bufs malloc (CtxEntry SR_CTX_ID 0 0 0 []) msgs_per_node msg_size (u16 totalNodes) in
    let chunk := u64 ((msg_entry_size e + CACHE_BLOCK_SIZE) * msgs_per_dest e) in
    let num_qps := Z.to_nat (u32 (qp_end - qp_start + 1)) in
    Some (Context (replicate num_qps None) (replicate num_qps None) pgas e chunk (msgs_per_node * msg_size)).

(** [at]: its exception, which nothing catches, and the use of a null pointer are [Undef]. *)
Definition at_ {A} (v : list A) (i : Z) : outcome A := rd v i.

(** The simulator chooses the address of the buffer. *)
(* rpc_shm/rpc.cpp:47-69 registerNewLocalBuffer *)
Definition registerNewLocalBuffer (ctx : rpcNUMAContext) (tptr : Z) (tidx : Z) : outcome (rpcNUMAContext * Z) :=
  bufs ← wr (app_buffers ctx) tidx (Some tptr);
  Ret (Context (qps ctx) bufs (ctx_pgas ctx) (ctx_struct ctx) (per_node_chunk ctx) (lbuf_size_bytes ctx), tptr).

Definition set_qp (ctx : rpcNUMAContext) (i : Z) (qp : soNUMAQP_T) : outcome rpcNUMAContext :=
  l ← wr (qps ctx) i (Some qp);
  Ret (Context l (app_buffers ctx) (ctx_pgas ctx) (ctx_struct ctx) (per_node_chunk ctx) (lbuf_size_bytes ctx)).

(** The simulator provides the two queues. *)
(* rpc_shm/rpc.cpp:71-94 registerNewSONUMAQP *)
Definition registerNewSONUMAQP (ctx : rpcNUMAContext) (wq : rmc_wq) (cq : rmc_cq) (tidx : Z) : outcome rpcNUMAContext :=
  set_qp ctx tidx (QP (u32 tidx) wq cq).

Definition get_qp (ctx : rpcNUMAContext) (i : Z) : outcome soNUMAQP_T :=
  q ← at_ (qps ctx) i;
  match q with Some qp => Ret qp | None => Undef end.

(** ** The calls of a worker *)

(** The address is computed in units of the buffer's elements, four bytes each. *)
(* rpc_shm/rpc.h:49-51 getUnderlyingAddress *)
Definition getUnderlyingAddress (underlyingBuffer byteOffset : Z) : Z := underlyingBuffer + 4 * byteOffset.

Section Calls.
Context {N : Type}.
(** The interface, as in [rmc_check_cq]: it acts before every look at the queues. [client_done]
    is the flag that the simulator sets, as a function of the interface's state. *)
Variable nic : N -> rmc_wq -> rmc_cq -> N * rmc_wq * rmc_cq.
Variable client_done : N -> bool.
Variable fuel : nat.

(* rpc_shm/rpc.cpp:276-279 sendToNode_zsim *)
Definition send_loop (s : N) (wq : rmc_wq) (cq : rmc_cq) (ctx_id data_address length nid : Z)
    : outcome (N * rmc_wq * rmc_cq) :=
  do_while fuel (fun '(s, wq, cq) =>
    let '(s, wq, cq) := nic s wq cq in
    '(wq, send_ret) ← rmc_hw_send wq ctx_id data_address length nid;
    Ret (negb (send_ret =? 0), (s, wq, cq))) (s, wq, cq).

(* rpc_shm/rpc.cpp:246-281 sendToNode_zsim *)
Definition sendToNode_zsim (s : N) (ctx : rpcNUMAContext) (m : memory) (messageBuffer messageByteSize destNode sendQP : Z)
    (raw_payload_data : Z) (skipcpy : bool) (rpc_send_count : Z) : outcome (N * rpcNUMAContext * memory) :=
  let the_ctx := ctx_struct ctx in
  if msgs_per_dest the_ctx =? 0 then Undef
  else
    let lbuf_offset := u64 (rpc_send_count mod msgs_per_dest the_ctx * msg_entry_size the_ctx) in
    let net_buffer_vaddr := getUnderlyingAddress messageBuffer (i32 lbuf_offset) in
    my_qp ← get_qp ctx sendQP;
    m ← (if skipcpy then wr_bytes m net_buffer_vaddr (le_bytes 4 4660)
         else memcpy m net_buffer_vaddr raw_payload_data (Z.to_nat messageByteSize));
    '(s, wq, cq) ← send_loop s (qp_wq my_qp) (qp_cq my_qp) (ctx_id the_ctx) net_buffer_vaddr messageByteSize destNode;
    ctx ← set_qp ctx sendQP (QP (qp_id my_qp) wq cq);
    Ret (s, ctx, m).

(** The result with its uninitialised members [junk], and what is written through
    [source_node_id]; nothing is written through [source_qp_id]. *)
(* rpc_shm/rpc.cpp:386-436 receiveRPCRequest_zsim_l3fwd *)
Definition receiveRPCRequest_zsim_l3fwd (s : N) (ctx : rpcNUMAContext) (serv_qp_id : Z) (junk_ret : successStruct)
    (junk : RPCWithHeader) : outcome (N * rpcNUMAContext * RPCWithHeader * option Z) :=
  my_qp ← get_qp ctx serv_qp_id;
  '(s, wq, cq, retd_from_rmc) ← do_while fuel (fun '(s, wq, cq, _) =>
    '(s, wq, cq, retd_from_rmc) ← rmc_check_cq nic fuel junk_ret s wq cq;
    Ret (negb (ss_op retd_from_rmc =? RMC_INCOMING_SEND) && negb (client_done s), (s, wq, cq, retd_from_rmc)))
    (s, qp_wq my_qp, qp_cq my_qp, junk_ret);
  ctx ← set_qp ctx serv_qp_id (QP (qp_id my_qp) wq cq);
  if client_done s then
    Ret (s, ctx, Rpc (rpc_len junk) (rpc_type junk) (rpc_id junk) (senders_qp junk) (senders_nid junk) (payload junk) 57005, None)
  else
    let rbuf_slot_ptr := ss_recv_buf_addr retd_from_rmc in
    Ret (s, ctx, Rpc (rpc_len junk) (rpc_type junk) (rpc_id junk) (senders_qp junk) (u16 (ss_tid retd_from_rmc))
           rbuf_slot_ptr (payload_len junk), Some (u16 (ss_tid retd_from_rmc))).

(** The code of [rmc_hw_recv] is not looked at. *)
(* rpc_shm/rpc.cpp:464-470 do_Recv_zsim *)
Definition do_Recv_zsim (s : N) (ctx : rpcNUMAContext) (cl_tid rbuf_slot_ptr freeSizeBytes : Z)
    : outcome (N * rpcNUMAContext) :=
  if Z.of_nat (length (qps ctx)) <? cl_tid then Undef
  else
    my_qp ← get_qp ctx cl_tid;
    let '(s, wq, cq) := nic s (qp_wq my_qp) (qp_cq my_qp) in
    '(wq, _) ← rmc_hw_recv wq (ctx_id (ctx_struct ctx)) rbuf_slot_ptr freeSizeBytes;
    ctx ← set_qp ctx cl_tid (QP (qp_id my_qp) wq cq);
    Ret (s, ctx).
End Calls.
