(* ===== verification/RpcSpec.v ===== *)
(** * Messages: what the receiver unpacks is what the sender packed

    [pack_unpack_roundtrip] for the variant of the simulator, with the one condition it has,
    the alignment of the buffer; [vm_fields_shifted] for the other variant, whose two sides
    disagree about the place of the fields. *)

From S2P Require Import Prelude Bytes Rpc.

Open Scope Z_scope.

(** The five fields of a header, encoded. *)
Definition put_header (l t i q n : list Z) (m : memory) (buf : Z) : outcome memory :=
  m ← wr_bytes m buf l; m ← wr_bytes m (buf + 4) t; m ← wr_bytes m (buf + 6) i;
  m ← wr_bytes m (buf + 8) q; wr_bytes m (buf + 10) n.

(** The twelve bytes of the header; the sixth is not written. *)
Definition header_block (l t i q n : list Z) (pad : Z) : list Z := l ++ t ++ [pad] ++ i ++ q ++ n.

Lemma put_part m buf blk k bs : rd_bytes m buf 12 = Ret blk -> (k + length bs <= 12)%nat ->
  exists m', wr_bytes m (buf + Z.of_nat k) bs = Ret m' /\
    rd_bytes m' buf 12 = Ret (take k blk ++ bs ++ drop (k + length bs) blk) /\
    origin m' = origin m /\ length (cells m') = length (cells m) /\
    forall b, b < buf \/ buf + 12 <= b -> byte_at m' b = byte_at m b.
Proof.
  intros Hr Hk. pose proof (rd_bytes_inv _ _ _ _ Hr) as ([Hlo Hhi] & _).
  destruct (wr_bytes_spec m (buf + Z.of_nat k) bs) as (m' & E & Hw); [split; lia|].
  exists m'. split; [done|]. split; [by eapply rd_around|]. destruct Hw as [Ho Hs _ Hoth].
  split; [done|]. split; [done|]. intros b Hb. apply Hoth. lia.
Qed.

Lemma put_header_run l t i q n m buf : length l = 4%nat -> length t = 1%nat -> length i = 2%nat ->
  length q = 2%nat -> length n = 2%nat -> in_memory m buf 12 ->
  exists m' pad, byte_at m (buf + 5) = Some pad /\ put_header l t i q n m buf = Ret m' /\
    rd_bytes m' buf 12 = Ret (header_block l t i q n pad) /\
    origin m' = origin m /\ length (cells m') = length (cells m) /\
    forall b, b < buf \/ buf + 12 <= b -> byte_at m' b = byte_at m b.
Proof.
  intros Hl Ht Hi Hq Hn Hm.
  assert (exists blk, rd_bytes m buf 12 = Ret blk) as [blk H0] by (unfold rd_bytes; rewrite decide_True by done; by eexists).
  destruct (rd_bytes_inv _ _ _ _ H0) as (_ & Hlen & Hb).
  destruct (put_part m buf blk 0 l H0 ltac:(lia)) as (m1 & E1 & H1 & O1 & S1 & F1).
  destruct (put_part m1 buf _ 4 t H1 ltac:(lia)) as (m2 & E2 & H2 & O2 & S2 & F2).
  destruct (put_part m2 buf _ 6 i H2 ltac:(lia)) as (m3 & E3 & H3 & O3 & S3 & F3).
  destruct (put_part m3 buf _ 8 q H3 ltac:(lia)) as (m4 & E4 & H4 & O4 & S4 & F4).
  destruct (put_part m4 buf _ 10 n H4 ltac:(lia)) as (m5 & E5 & H5 & O5 & S5 & F5).
  rewrite Z.add_0_r in E1. change (Z.of_nat 4) with 4 in E2. change (Z.of_nat 6) with 6 in E3.
  change (Z.of_nat 8) with 8 in E4. change (Z.of_nat 10) with 10 in E5.
  do 13 (destruct blk as [|? blk]; [try discriminate Hlen|]); [|discriminate Hlen].
  do 5 (destruct l as [|? l]; [try discriminate Hl|]); [|discriminate Hl].
  do 2 (destruct t as [|? t]; [try discriminate Ht|]); [|discriminate Ht].
  do 3 (destruct i as [|? i]; [try discriminate Hi|]); [|discriminate Hi].
  do 3 (destruct q as [|? q]; [try discriminate Hq|]); [|discriminate Hq].
  do 3 (destruct n as [|? n]; [try discriminate Hn|]); [|discriminate Hn].
  eexists m5, _. split; [exact (Hb 5%nat ltac:(lia))|]. split.
  { unfold put_header. rewrite E1. cbn [mbind outcome_bind]. rewrite E2. cbn [mbind outcome_bind].
    rewrite E3. cbn [mbind outcome_bind]. rewrite E4. cbn [mbind outcome_bind]. exact E5. }
  split; [exact H5|]. split; [congruence|]. split; [congruence|]. intros b Hbb.
  by rewrite F5, F4, F3, F2, F1.
Qed.

Lemma pad_payload_value buf : pad_payload buf = buf + buf mod 8.
Proof. unfold pad_payload. change getAlignmentReq with 8. destruct (Z.eqb_spec (buf mod 8) 0); lia. Qed.

Lemma memcpy_none m dst src : in_memory m src 0 -> in_memory m dst 0 -> memcpy m dst src 0 = Ret m.
Proof.
  intros Hs Hd. unfold memcpy, rd_bytes. rewrite decide_True by done. cbn [mbind outcome_bind take].
  rewrite decide_False by lia. unfold wr_bytes. rewrite decide_True by done. cbv zeta. rewrite firstn_O. cbn [length app].
  rewrite Nat.add_0_r, take_drop. by destruct m.
Qed.

(** Packing, by the encoders of the four numbers: the header, then the payload at the padded
    address. *)
Lemma pack_run l t i q n r m buf p : length l = 4%nat -> length t = 1%nat -> length i = 2%nat ->
  length q = 2%nat -> length n = 2%nat ->
  let len := Z.to_nat (payload_len r) in
  let dst := pad_payload (buf + 12) in
  in_memory m buf 12 -> in_memory m dst len -> rd_bytes m (payload r) len = Ret p ->
  payload r + Z.of_nat len <= buf \/ dst + Z.of_nat len <= payload r ->
  exists m' pad, byte_at m (buf + 5) = Some pad /\
    (m1 ← put_header l t i q n m buf; memcpy m1 dst (payload r) len) = Ret m' /\
    (m1 ← put_header l t i q n m buf;
     if payload_len r =? 0 then Ret m1 else memcpy m1 dst (payload r) len) = Ret m' /\
    rd_bytes m' buf 12 = Ret (header_block l t i q n pad) /\ rd_bytes m' dst len = Ret p.
Proof.
  intros Hl Ht Hi Hq Hn len dst Hm Hd Hp Hdis.
  destruct (put_header_run l t i q n m buf Hl Ht Hi Hq Hn Hm) as (m1 & pad & Hpad & -> & Hh & Ho & Hs & Hf).
  cbn [mbind outcome_bind].
  assert (Hdst : buf + 12 <= dst).
  { unfold dst. rewrite pad_payload_value. pose proof (Z.mod_pos_bound (buf + 12) 8). lia. }
  destruct (rd_bytes_inv _ _ _ _ Hp) as ([Hplo Hphi] & Hlen & Hb).
  assert (Hp1 : rd_bytes m1 (payload r) len = Ret p).
  { rewrite <- Hlen. apply rd_bytes_spec; rewrite Hlen; [split; rewrite Ho, ?Hs; lia|].
    intros j Hj. rewrite Hf by lia. by apply Hb. }
  assert (Hd1 : in_memory m1 dst len) by (destruct Hd; split; rewrite Ho, ?Hs; lia).
  destruct (memcpy_spec m1 dst (payload r) len p Hp1 Hd1 ltac:(lia)) as (m2 & E & Hw). rewrite E.
  exists m2, pad. split; [done|]. split; [done|]. split.
  { destruct (Z.eqb_spec (payload_len r) 0) as [E0|]; [|done]. rewrite <- E.
    unfold len in *. rewrite E0 in *. symmetry. apply memcpy_none; [|done]. split; rewrite Ho, ?Hs; lia. }
  split.
  - eapply rd_beside; [exact Hw| |exact Hh]. lia.
  - by eapply rd_written.
Qed.

(** The part of the header that the receiver reads for a field. *)
Lemma header_field m buf blk z n : rd_bytes m buf 12 = Ret blk -> 0 <= z -> z + Z.of_nat n <= 12 ->
  rd_bytes m (buf + z) n = Ret (take n (drop (Z.to_nat z) blk)).
Proof. intros H Hz Hk. rewrite <- (Z2Nat.id z) at 1 by done. apply (rd_part m buf 12); [done|lia]. Qed.

Lemma header_start m buf blk n : rd_bytes m buf 12 = Ret blk -> (n <= 12)%nat -> rd_bytes m buf n = Ret (take n blk).
Proof. intros H Hk. rewrite <- (Z.add_0_r buf) at 1. by apply (rd_part m buf 12 blk 0). Qed.

(** Read the next field of a header known by [H]. *)
Ltac read_field H :=
  match goal with
  | |- context [rd_bytes _ (_ + ?z) ?n] => rewrite (header_field _ _ _ z n H) by lia
  | |- context [rd_bytes _ _ ?n] => rewrite (header_start _ _ _ n H) by lia
  end; cbn [mbind outcome_bind].

Record sane (r : RPCWithHeader) : Prop := {
  sn_type : 0 <= rpc_type r < 256;
  sn_id : is_u16 (rpc_id r);
  sn_qp : is_u16 (senders_qp r);
  sn_nid : is_u16 (senders_nid r);
  sn_payload : 0 <= payload_len r < 2 ^ 32 - 16;
  sn_len : rpc_len r = 16 + payload_len r;
}.

Lemma put_header_unfold (K : memory -> Z -> outcome memory) m buf l t i q n :
  (m ← wr_bytes m buf l; let b := buf + 4 in m ← wr_bytes m b t; let b := b + 2 * 1 in
   m ← wr_bytes m b i; let b := b + 2 in m ← wr_bytes m b q; let b := b + 2 in
   m ← wr_bytes m b n; let b := b + 2 in K m b) =
  (m1 ← put_header l t i q n m buf; K m1 (buf + 12)).
Proof.
  unfold put_header. cbv zeta.
  replace (buf + 4 + 2 * 1) with (buf + 6) by lia. replace (buf + 6 + 2) with (buf + 8) by lia.
  replace (buf + 8 + 2) with (buf + 10) by lia. replace (buf + 10 + 2) with (buf + 12) by lia.
  do 4 (rewrite bind_assoc; apply bind_ext; [done|intros ?]). done.
Qed.

(** C33: What the receiver unpacks is what the sender packed. For a message made by
    [createRPCStruct] and a buffer with room for it apart from the payload, packing
    succeeds, unpacking gives back the five header fields and the payload length, with the
    payload pointer 16 bytes into the buffer, and reading it gives back the payload exactly
    when the buffer is aligned to eight bytes; for any buffer the payload is found
    [(buf + 12) mod 8] bytes behind the header. *)
Theorem pack_unpack_roundtrip r m buf p : sane r ->
  let len := Z.to_nat (payload_len r) in
  in_memory m buf (24 + len) -> rd_bytes m (payload r) len = Ret p ->
  payload r + Z.of_nat len <= buf \/ buf + 24 + Z.of_nat len <= payload r ->
  exists m', packPayload r m buf = Ret m' /\
    unpackBufferToRPCLayer m' buf =
      Ret (Rpc (rpc_len r) (rpc_type r) (rpc_id r) (senders_qp r) (senders_nid r) (buf + 16) (payload_len r)) /\
    rd_bytes m' (buf + 12 + (buf + 12) mod 8) len = Ret p /\
    (buf + 12 + (buf + 12) mod 8 = buf + 16 <-> buf mod 8 = 0).
Proof.
  intros [Ht Hi Hq Hn Hpl Hl] len [Hlo Hhi] Hp Hdis. pose proof (Z.mod_pos_bound (buf + 12) 8 ltac:(lia)) as Hmod.
  destruct (pack_run (le_bytes 4 (rpc_len r)) [rpc_type r] (le_bytes 2 (rpc_id r)) (le_bytes 2 (senders_qp r))
    (le_bytes 2 (senders_nid r)) r m buf p) as (m' & pad & _ & E & _ & Hh & Hpay); rewrite ?pad_payload_value; try done;
    try (split; lia); try lia.
  rewrite pad_payload_value in Hpay. exists m'. split; [exact (eq_trans (put_header_unfold (fun m b => memcpy m (pad_payload b) (payload r) len) m buf _ _ _ _ _) E)|].
  split; [|split; [exact Hpay|Z.div_mod_to_equations; lia]].
  unfold unpackBufferToRPCLayer.
  replace (buf + 4 + 2 * 1) with (buf + 6) by lia. replace (buf + 6 + 2) with (buf + 8) by lia.
  replace (buf + 8 + 2) with (buf + 10) by lia.
  do 5 read_field Hh.
  change (take 4 _) with (le_bytes 4 (rpc_len r)). rewrite le_value_bytes by (cbn; lia).
  unfold createRPCStruct. change calcTotalHeaderBytes with 16.
  rewrite (u32_small (rpc_len r - 16)) by lia. rewrite u32_small by lia. f_equal. f_equal; try lia.
  - apply Z.add_0_r.
  - apply (le_value_bytes 2). cbn; lia.
  - apply (le_value_bytes 2). cbn; lia.
  - apply (le_value_bytes 2). cbn; lia.
Qed.

(** Without a platform macro the two sides disagree about the place of the fields: the
    sender leaves a byte after the one-byte type, the receiver does not skip it. For every
    message the length and the type arrive, but the receiver's rpc id is made of the byte
    that happened to be in the buffer and the high half of the id, its queue pair of the
    low half of the id and the high half of the queue pair, and its node likewise. *)
Theorem vm_fields_shifted r m buf p : sane r ->
  let len := Z.to_nat (payload_len r) in
  in_memory m buf (24 + len) -> rd_bytes m (payload r) len = Ret p ->
  payload r + Z.of_nat len <= buf \/ buf + 24 + Z.of_nat len <= payload r ->
  exists m' pad, byte_at m (buf + 5) = Some pad /\ packPayload_vm r m buf = Ret m' /\
    unpackBufferToRPCLayer_vm m' buf =
      Ret (Rpc (rpc_len r) (rpc_type r) (pad * 256 + rpc_id r / 256)
             (rpc_id r mod 256 * 256 + senders_qp r / 256) (senders_qp r mod 256 * 256 + senders_nid r / 256)
             (buf + 16) (payload_len r)).
Proof.
  intros [Ht Hi Hq Hn Hpl Hl] len [Hlo Hhi] Hp Hdis. pose proof (Z.mod_pos_bound (buf + 12) 8 ltac:(lia)) as Hmod.
  destruct (pack_run (be_bytes 4 (rpc_len r)) [rpc_type r] (be_bytes 2 (rpc_id r)) (be_bytes 2 (senders_qp r))
    (be_bytes 2 (senders_nid r)) r m buf p) as (m' & pad & Hpad & _ & E & Hh & Hpay); rewrite ?pad_payload_value; try done;
    try (split; lia); try lia.
  exists m', pad. split; [done|]. split; [exact (eq_trans (put_header_unfold
    (fun m b => let b := pad_payload b in if payload_len r =? 0 then Ret m else memcpy m b (payload r) len) m buf _ _ _ _ _) E)|].
  unfold unpackBufferToRPCLayer_vm.
  replace (buf + 4 + 1) with (buf + 5) by lia. replace (buf + 5 + 2) with (buf + 7) by lia.
  replace (buf + 7 + 2) with (buf + 9) by lia. do 5 read_field Hh.
  change (take 4 _) with (be_bytes 4 (rpc_len r)). rewrite be_value_bytes by (cbn; lia).
  unfold createRPCStruct. change calcTotalHeaderBytes with 16.
  rewrite (u32_small (rpc_len r - 16)) by lia. rewrite u32_small by lia.
  change (Z.to_nat 4) with 4%nat. change (Z.to_nat 5) with 5%nat. change (Z.to_nat 7) with 7%nat.
  change (Z.to_nat 9) with 9%nat. cbn. f_equal. f_equal; Z.div_mod_to_equations; lia.
Qed.

(** ** Witnesses *)

Definition demo_message : RPCWithHeader := createRPCStruct 1 258 772 1286 3 5000.
Definition demo_memory : memory := Mem 4096 (replicate 904 255 ++ [7; 8; 9] ++ replicate 97 255).

Lemma demo_payload : rd_bytes demo_memory 5000 3 = Ret [7; 8; 9].
Proof. vm_compute. reflexivity. Qed.

(** An aligned buffer, and one that is not. *)
Lemma pack_unpack_roundtrip_witness :
  (exists m, packPayload demo_message demo_memory 4104 = Ret m /\
     unpackBufferToRPCLayer m 4104 = Ret (Rpc 19 1 258 772 1286 4120 3) /\ rd_bytes m 4120 3 = Ret [7; 8; 9]) /\
  (exists m, packPayload demo_message demo_memory 4100 = Ret m /\
     unpackBufferToRPCLayer m 4100 = Ret (Rpc 19 1 258 772 1286 4116 3) /\ rd_bytes m 4112 3 = Ret [7; 8; 9]).
Proof.
  split.
  - destruct (pack_unpack_roundtrip demo_message demo_memory 4104 [7; 8; 9]) as (m & E & U & P & _).
    + split; vm_compute; repeat split; congruence.
    + split; vm_compute; congruence.
    + exact demo_payload.
    + right. vm_compute. congruence.
    + exists m. split; [exact E|]. split; [exact U|exact P].
  - destruct (pack_unpack_roundtrip demo_message demo_memory 4100 [7; 8; 9]) as (m & E & U & P & _).
    + split; vm_compute; repeat split; congruence.
    + split; vm_compute; congruence.
    + exact demo_payload.
    + right. vm_compute. congruence.
    + exists m. split; [exact E|]. split; [exact U|exact P].
Defined.

Lemma vm_fields_shifted_witness :
  exists m, packPayload_vm demo_message demo_memory 4104 = Ret m /\
    unpackBufferToRPCLayer_vm m 4104 = Ret (Rpc 19 1 65281 515 1029 4120 3).
Proof.
  destruct (vm_fields_shifted demo_message demo_memory 4104 [7; 8; 9]) as (m & pad & Hp & E & U).
  - split; vm_compute; repeat split; congruence.
  - split; vm_compute; congruence.
  - exact demo_payload.
  - right. vm_compute. congruence.
  - exists m. split; [exact E|]. vm_compute in Hp. injection Hp as <-. exact U.
Defined.
