(* ===== verification/Stats.v ===== *)
(** * [rpc_shm/statContainer.tpp]: the container of service times and its file

    [StatsContainer<double>], which the context of the RPC library keeps: appending, and the two
    functions that copy it to and from a binary file. A [double] is its 64 bits, little-endian in
    the file; files are a map from names to their bytes. A stream that could not be opened, or
    that has come to its end, ignores further operations, and the code does not look. *)

From S2P Require Import Prelude Bytes.
From stdpp Require Import gmap strings.

Open Scope Z_scope.

(** ** Definitions *)

Abbreviation files := (gmap string (list Z)).

(* rpc_shm/statContainer.tpp:7-11 append *)
Definition append (c : list Z) (appendMe : Z) : list Z := c ++ [appendMe].

(** The exception of [at] is not caught anywhere. *)
(* rpc_shm/statContainer.tpp:13-17 get *)
Definition get (c : list Z) (idx : Z) : outcome Z := rd c idx.

(** [can_open]: whether the file could be opened for writing, which empties it. *)
(* rpc_shm/statContainer.tpp:19-30 writeToFile *)
Definition writeToFile (can_open : bool) (fs : files) (fname : string) (c : list Z) : files :=
  if can_open then <[fname := concat (map (le_bytes 8) c)]> fs else fs.

(** [vector::resize]: zeros are appended, or elements dropped. *)
Definition resize (n : nat) (c : list Z) : list Z := take n c ++ replicate (n - length c) 0.

(** One [fin.read]: at the end of the file only the bytes that are left are stored, and the
    stream refuses everything after it. The stream is what is left of it, if it is good. *)
Definition read_element (fin : option (list Z)) (v : Z) : option (list Z) * Z :=
  match fin with
  | None => (None, v)
  | Some bs =>
      let got := take 8 bs in
      (if (length got <? 8)%nat then None else Some (drop 8 bs), le_value (got ++ drop (length got) (le_bytes 8 v)))
  end.

Fixpoint read_elements (fin : option (list Z)) (c : list Z) : list Z :=
  match c with
  | [] => []
  | v :: c => let '(fin, v) := read_element fin v in v :: read_elements fin c
  end.

(* rpc_shm/statContainer.tpp:32-48 readFromFile *)
Definition readFromFile (fs : files) (fname : string) (num_elements : nat) (c : list Z) : list Z :=
  read_elements (fs !! fname) (resize num_elements c).

(** The functions of the library on the member [rpcServiceTimeStats]. *)
(* rpc_shm/rpc.cpp:555-558 addToContainer *)
Definition addToContainer (rpcServiceTimeStats : list Z) (element : Z) : list Z := append rpcServiceTimeStats element.
(* rpc_shm/rpc.cpp:560-564 writeContainerToFile *)
Definition writeContainerToFile (can_open : bool) (fs : files) (rpcServiceTimeStats : list Z) (fname : string) : files :=
  writeToFile can_open fs fname rpcServiceTimeStats.
(* rpc_shm/rpc.cpp:566-570 readContainerFromFile *)
Definition readContainerFromFile (fs : files) (rpcServiceTimeStats : list Z) (fname : string) (num_elements : nat) : list Z :=
  readFromFile fs fname num_elements rpcServiceTimeStats.

(** ** Lemmas *)

Definition doubles (c : list Z) : Prop := Forall (fun v => is_u64 v) c.

Lemma length_resize n c : length (resize n c) = n.
Proof. unfold resize. rewrite length_app, length_take, length_replicate. lia. Qed.

Lemma read_closed c : read_elements None c = c.
Proof. induction c as [|v c IH]; cbn; [done|]. by rewrite IH. Qed.

(** At the end of the file the remaining elements keep their values. *)
Lemma read_end c : doubles c -> read_elements (Some []) c = c.
Proof.
  intros Hc. destruct Hc as [|v c Hv Hc]; [done|]. cbn [read_elements read_element take length].
  change (0 <? 8)%nat with true. cbv iota. rewrite read_closed. cbn [app drop]. f_equal. apply le_value_bytes.
  change (256 ^ Z.of_nat 8) with (2 ^ 64). lia.
Qed.

(** Whole elements are read as they were written. *)
Lemma read_written xs c : doubles xs -> doubles c ->
  read_elements (Some (concat (map (le_bytes 8) xs))) c = take (length c) xs ++ drop (length xs) c.
Proof.
  intros Hxs. revert c. induction Hxs as [|x xs Hx _ IH]; intros c Hc.
  - cbn [map concat length]. rewrite read_end by done. by rewrite take_nil.
  - destruct Hc as [|v c Hv Hc]; [done|]. cbn [map concat read_elements read_element].
    assert (Hl : length (le_bytes 8 x) = 8%nat) by apply length_le_bytes.
    rewrite take_app_le, take_ge, drop_app_ge by lia. rewrite Hl, drop_0. change (8 <? 8)%nat with false. cbv iota.
    replace (drop 8 (le_bytes 8 v)) with (@nil Z) by (symmetry; apply drop_ge; by rewrite length_le_bytes).
    rewrite app_nil_r, le_value_bytes, IH by (done || change (256 ^ Z.of_nat 8) with (2 ^ 64); lia). done.
Qed.

Lemma doubles_resize n c : doubles c -> doubles (resize n c).
Proof.
  intros Hc. unfold resize. apply Forall_app. split; [by apply Forall_take|]. apply Forall_replicate. lia.
Qed.

(** What is written can be read back, by a container with any contents: as many elements as were
    written, the first of them, or all of them followed by what the resized container holds. *)
Theorem write_read_roundtrip fs fname xs c n :
  doubles xs -> doubles c ->
  readContainerFromFile (writeContainerToFile true fs xs fname) c fname n =
    take n xs ++ drop (length xs) (resize n c).
Proof.
  intros Hxs Hc. unfold readContainerFromFile, writeContainerToFile, readFromFile, writeToFile.
  rewrite lookup_insert_eq, read_written, length_resize; [done..|by apply doubles_resize].
Qed.

Lemma write_read_roundtrip_witness :
  readContainerFromFile (writeContainerToFile true ∅ [4611686018427387904; 7] "f") [9] "f" 3 = [4611686018427387904; 7; 0].
Proof.
  rewrite (write_read_roundtrip ∅ "f" [4611686018427387904; 7] [9] 3); [reflexivity|..];
    repeat (apply Forall_cons; split; [lia|]); apply Forall_nil_2.
Defined.

(** The file of another name is not touched; a file that cannot be opened is not written, and one
    that is not there leaves the resized container as it is. *)
Theorem container_files_frame fs fname other xs c n :
  other <> fname -> doubles c ->
  writeContainerToFile true fs xs fname !! other = fs !! other /\
  writeContainerToFile false fs xs fname = fs /\
  (fs !! other = None -> readContainerFromFile (writeContainerToFile true fs xs fname) c other n = resize n c).
Proof.
  intros Hne Hc. unfold readContainerFromFile, writeContainerToFile, readFromFile, writeToFile.
  rewrite lookup_insert_ne by congruence. split; [done|]. split; [done|]. intros ->. apply read_closed.
Qed.

Lemma container_files_frame_witness :
  readContainerFromFile (writeContainerToFile true ∅ [1] "f") [5; 6] "g" 1 = [5].
Proof.
  destruct (container_files_frame ∅ "f" "g" [1] [5; 6] 1) as (_ & _ & H); [done| |by apply H].
  repeat (apply Forall_cons; split; [lia|]). apply Forall_nil_2.
Defined.
