(* ===== verification/Cuckoo.v ===== *)
(** * [rte_lib/rte_cuckoo_hash.c]: insertion into the cuckoo hash table

    The table, its key store and its two rings of free indices as one record;
    every function from [search_and_update] to [__rte_hash_add_key_with_hash] as
    a function of it, [Undef] standing for an access outside an array. A pointer
    to a bucket is a reference into [buckets] or [buckets_ext]. A thread runs
    alone; [fuel] bounds the lock loops and the walk along a bucket chain. *)

From S2P Require Import Prelude Common Atomic RingCore RingCopy RingElem Locks.

Open Scope Z_scope.

(** ** Constants and data *)

(* rte_lib/rte_cuckoo_hash.h:117-117 RTE_HASH_BUCKET_ENTRIES *)
Definition RTE_HASH_BUCKET_ENTRIES : Z := 8.
(* rte_lib/rte_cuckoo_hash.h:123-123 NULL_SIGNATURE *)
Definition NULL_SIGNATURE : Z := 0.
(* rte_lib/rte_cuckoo_hash.h:125-125 EMPTY_SLOT *)
Definition EMPTY_SLOT : Z := 0.
(* rte_lib/rte_cuckoo_hash.h:131-131 RTE_HASH_BFS_QUEUE_MAX_LEN *)
Definition RTE_HASH_BFS_QUEUE_MAX_LEN : Z := 1000.
(* rte_lib/rte_hash.h:8-8 RTE_HASH_ENTRIES_MAX *)
Definition RTE_HASH_ENTRIES_MAX : Z := 1073741824.

(** A bucket pointer. *)
Inductive bref := Main (i : Z) | ExtB (i : Z).
#[export] Instance bref_eq_dec : EqDecision bref.
Proof. solve_decision. Defined.

(** [flag] is never read or written by the code that is modelled. *)
(* rte_lib/rte_cuckoo_hash.h:168-176 rte_hash_bucket *)
Record rte_hash_bucket := Bucket {
  sig_current : list Z;
  key_idx : list Z;
  b_next : option bref;
}.

(** The entry's bytes after the data pointer, as many as [key_entry_size] leaves. *)
(* rte_lib/rte_cuckoo_hash.h:150-157 rte_hash_key *)
Record rte_hash_key := HKey { k_pdata : Z; k_key : list Z }.

(** [h_lock] is the word of [readwrite_lock]; [key_store] holds the entries at the
    multiples of [key_entry_size]. *)
(* rte_lib/rte_cuckoo_hash.h:179-248 rte_hash *)
Record rte_hash := Hash {
  key_len : Z;
  hw_trans_mem_support : bool;
  ext_table_support : bool;
  readwrite_concur_lf_support : bool;
  writer_takes_lock : bool;
  hash_func_init_val : Z;
  bucket_bitmask : Z;
  key_entry_size : Z;
  free_slots : rte_ring;
  key_store : list rte_hash_key;
  buckets : list rte_hash_bucket;
  h_lock : Z;
  buckets_ext : list rte_hash_bucket;
  free_ext_bkts : rte_ring;
  tbl_chng_cnt : Z;
}.

(** A node of the breadth-first search; [n_prev] is an index into the queue. *)
(* rte_lib/rte_cuckoo_hash.h:250-256 queue_node *)
Record queue_node := Node {
  n_bkt : bref;
  n_cur_bkt_idx : Z;
  n_prev : option Z;
  n_prev_slot : Z;
}.

(** Field updates. *)
Definition set_free_slots (r : rte_ring) (h : rte_hash) : rte_hash :=
  Hash (key_len h) (hw_trans_mem_support h) (ext_table_support h)
    (readwrite_concur_lf_support h) (writer_takes_lock h) (hash_func_init_val h)
    (bucket_bitmask h) (key_entry_size h) r (key_store h) (buckets h) (h_lock h)
    (buckets_ext h) (free_ext_bkts h) (tbl_chng_cnt h).
Definition set_key_store (k : list rte_hash_key) (h : rte_hash) : rte_hash :=
  Hash (key_len h) (hw_trans_mem_support h) (ext_table_support h)
    (readwrite_concur_lf_support h) (writer_takes_lock h) (hash_func_init_val h)
    (bucket_bitmask h) (key_entry_size h) (free_slots h) k (buckets h) (h_lock h)
    (buckets_ext h) (free_ext_bkts h) (tbl_chng_cnt h).
Definition set_buckets (b : list rte_hash_bucket) (h : rte_hash) : rte_hash :=
  Hash (key_len h) (hw_trans_mem_support h) (ext_table_support h)
    (readwrite_concur_lf_support h) (writer_takes_lock h) (hash_func_init_val h)
    (bucket_bitmask h) (key_entry_size h) (free_slots h) (key_store h) b (h_lock h)
    (buckets_ext h) (free_ext_bkts h) (tbl_chng_cnt h).
Definition set_lock (l : Z) (h : rte_hash) : rte_hash :=
  Hash (key_len h) (hw_trans_mem_support h) (ext_table_support h)
    (readwrite_concur_lf_support h) (writer_takes_lock h) (hash_func_init_val h)
    (bucket_bitmask h) (key_entry_size h) (free_slots h) (key_store h) (buckets h) l
    (buckets_ext h) (free_ext_bkts h) (tbl_chng_cnt h).
Definition set_buckets_ext (b : list rte_hash_bucket) (h : rte_hash) : rte_hash :=
  Hash (key_len h) (hw_trans_mem_support h) (ext_table_support h)
    (readwrite_concur_lf_support h) (writer_takes_lock h) (hash_func_init_val h)
    (bucket_bitmask h) (key_entry_size h) (free_slots h) (key_store h) (buckets h) (h_lock h)
    b (free_ext_bkts h) (tbl_chng_cnt h).
Definition set_free_ext (r : rte_ring) (h : rte_hash) : rte_hash :=
  Hash (key_len h) (hw_trans_mem_support h) (ext_table_support h)
    (readwrite_concur_lf_support h) (writer_takes_lock h) (hash_func_init_val h)
    (bucket_bitmask h) (key_entry_size h) (free_slots h) (key_store h) (buckets h) (h_lock h)
    (buckets_ext h) r (tbl_chng_cnt h).
Definition set_chng (c : Z) (h : rte_hash) : rte_hash :=
  Hash (key_len h) (hw_trans_mem_support h) (ext_table_support h)
    (readwrite_concur_lf_support h) (writer_takes_lock h) (hash_func_init_val h)
    (bucket_bitmask h) (key_entry_size h) (free_slots h) (key_store h) (buckets h) (h_lock h)
    (buckets_ext h) (free_ext_bkts h) c.

(** ** Memory accesses *)

Definition get_bkt (h : rte_hash) (b : bref) : outcome rte_hash_bucket :=
  match b with Main i => rd (buckets h) i | ExtB i => rd (buckets_ext h) i end.

Definition put_bkt (h : rte_hash) (b : bref) (v : rte_hash_bucket) : outcome rte_hash :=
  match b with
  | Main i => l ← wr (buckets h) i v; Ret (set_buckets l h)
  | ExtB i => l ← wr (buckets_ext h) i v; Ret (set_buckets_ext l h)
  end.

(** [b->sig_current[i]] and [b->key_idx[i]]. *)
Definition get_sig (h : rte_hash) (b : bref) (i : Z) : outcome Z :=
  v ← get_bkt h b; rd (sig_current v) i.
Definition get_idx (h : rte_hash) (b : bref) (i : Z) : outcome Z :=
  v ← get_bkt h b; rd (key_idx v) i.
Definition put_sig (h : rte_hash) (b : bref) (i s : Z) : outcome rte_hash :=
  v ← get_bkt h b; l ← wr (sig_current v) i s; put_bkt h b (Bucket l (key_idx v) (b_next v)).
Definition put_idx (h : rte_hash) (b : bref) (i k : Z) : outcome rte_hash :=
  v ← get_bkt h b; l ← wr (key_idx v) i k; put_bkt h b (Bucket (sig_current v) l (b_next v)).

(** [(char * )keys + idx * h->key_entry_size]: the product is an [unsigned int]; an
    address that is not the start of an entry is outside the model. *)
(* rte_lib/rte_cuckoo_hash.c:189-190 search_and_update *)
Definition key_slot (h : rte_hash) (idx : Z) : outcome Z :=
  let off := (idx * key_entry_size h)%u32 in
  if (0 <? key_entry_size h) && (off mod key_entry_size h =? 0)
  then Ret (off / key_entry_size h) else Undef.

(** [memcmp]: the sign of the first difference; reading past an object is undefined. *)
Fixpoint memcmp (a b : list Z) (n : nat) : outcome Z :=
  match n with
  | O => Ret 0
  | S n =>
      match a, b with
      | x :: a, y :: b => if x =? y then memcmp a b n else Ret (x - y)
      | _, _ => Undef
      end
  end.

(** ** Operations *)

(** [sizeof(key1)] is the size of the pointer, not of the key. *)
(* rte_lib/rte_cuckoo_hash.c:81-85 rte_hash_cmp_eq *)
Definition rte_hash_cmp_eq (key1 key2 : list Z) : outcome Z :=
  let key1size := sizeof_ptr in
  memcmp key1 key2 (Z.to_nat key1size).

(* rte_lib/rte_cuckoo_hash.c:109-113 get_short_sig *)
Definition get_short_sig (hash : Z) : Z := u16 (Z.shiftr hash 16).

(* rte_lib/rte_cuckoo_hash.c:115-119 get_prim_bucket_index *)
Definition get_prim_bucket_index (h : rte_hash) (hash : Z) : Z :=
  Z.land hash (bucket_bitmask h).

(* rte_lib/rte_cuckoo_hash.c:121-126 get_alt_bucket_index *)
Definition get_alt_bucket_index (h : rte_hash) (cur_bkt_idx sig : Z) : Z :=
  Z.land (Z.lxor cur_bkt_idx sig) (bucket_bitmask h).

Section Ops.
Variable fuel : nat.

(* rte_lib/rte_cuckoo_hash.c:89-100 alloc_slot *)
Definition alloc_slot (h : rte_hash) : outcome (rte_hash * Z) :=
  '(r, obj, ret) ← rte_ring_sc_dequeue_elem fuel (free_slots h) [0] 4;
  let h := set_free_slots r h in
  if negb (ret =? 0) then Ret (h, EMPTY_SLOT)
  else slot_id ← rd obj 0; Ret (h, slot_id).

(* rte_lib/rte_cuckoo_hash.c:171-178 enqueue_slot_back *)
Definition enqueue_slot_back (h : rte_hash) (slot_id : Z) : outcome rte_hash :=
  '(r, _) ← rte_ring_sp_enqueue_elem fuel (free_slots h) [slot_id] 4;
  Ret (set_free_slots r h).

(* rte_lib/rte_cuckoo_hash.c:130-138 __hash_rw_writer_lock *)
Definition __hash_rw_writer_lock (h : rte_hash) : outcome rte_hash :=
  if writer_takes_lock h && hw_trans_mem_support h then
    l ← rte_rwlock_write_lock fuel (h_lock h); Ret (set_lock l h)
  else if writer_takes_lock h then
    l ← rte_rwlock_write_lock fuel (h_lock h); Ret (set_lock l h)
  else Ret h.

(* rte_lib/rte_cuckoo_hash.c:150-158 __hash_rw_writer_unlock *)
Definition __hash_rw_writer_unlock (h : rte_hash) : rte_hash :=
  if writer_takes_lock h && hw_trans_mem_support h then
    set_lock (rte_rwlock_write_unlock (h_lock h)) h
  else if writer_takes_lock h then set_lock (rte_rwlock_write_unlock (h_lock h)) h
  else h.

(** The reader's side, which no function of this file uses; [readwrite_concur_support] is a member
    of the table that nothing else reads after the creation. *)
(* rte_lib/rte_cuckoo_hash.c:140-148 __hash_rw_reader_lock *)
Definition __hash_rw_reader_lock (readwrite_concur_support : bool) (h : rte_hash) : outcome rte_hash :=
  if readwrite_concur_support && hw_trans_mem_support h then
    l ← rte_rwlock_read_lock fuel (h_lock h); Ret (set_lock l h)
  else if readwrite_concur_support then
    l ← rte_rwlock_read_lock fuel (h_lock h); Ret (set_lock l h)
  else Ret h.

(* rte_lib/rte_cuckoo_hash.c:160-168 __hash_rw_reader_unlock *)
Definition __hash_rw_reader_unlock (readwrite_concur_support : bool) (h : rte_hash) : rte_hash :=
  if readwrite_concur_support && hw_trans_mem_support h then
    set_lock (rte_rwlock_read_unlock (h_lock h)) h
  else if readwrite_concur_support then set_lock (rte_rwlock_read_unlock (h_lock h)) h
  else h.

(** [while (lst_bkt->next != NULL) lst_bkt = lst_bkt->next] *)
(* rte_lib/rte_cuckoo_hash.c:73-79 rte_hash_get_last_bkt *)
Definition rte_hash_get_last_bkt (h : rte_hash) (lst_bkt : bref) : outcome bref :=
  do_while fuel (fun b =>
    v ← get_bkt h b;
    Ret (match b_next v with Some b' => (true, b') | None => (false, b) end)) lst_bkt.

(** [FOR_EACH_BUCKET(cur, start) body]: the body stops the walk with [Some]. *)
(* rte_lib/rte_cuckoo_hash.c:46-49 FOR_EACH_BUCKET *)
Fixpoint for_each_bucket {A} (n : nat) (h : rte_hash) (cur : option bref)
    (body : rte_hash -> bref -> outcome (rte_hash * option A)) : outcome (rte_hash * option A) :=
  match cur with
  | None => Ret (h, None)
  | Some b =>
      match n with
      | O => Spin
      | S n =>
          '(h, res) ← body h b;
          match res with
          | Some a => Ret (h, Some a)
          | None => v ← get_bkt h b; for_each_bucket n h (b_next v) body
          end
      end
  end.

(** [for (i = 0; i < RTE_HASH_BUCKET_ENTRIES; i++) body]: likewise. *)
Fixpoint for_entries {A} (n : nat) (i : Z) (h : rte_hash)
    (body : rte_hash -> Z -> outcome (rte_hash * option A)) : outcome (rte_hash * option A) :=
  match n with
  | O => Ret (h, None)
  | S n =>
      '(h, res) ← body h i;
      match res with
      | Some a => Ret (h, Some a)
      | None => for_entries n (i + 1) h body
      end
  end.
Definition N_ENTRIES : nat := Z.to_nat RTE_HASH_BUCKET_ENTRIES.

(* rte_lib/rte_cuckoo_hash.c:180-210 search_and_update *)
Definition search_and_update (h : rte_hash) (data : Z) (key : list Z) (bkt : bref) (sig : Z)
    : outcome (rte_hash * Z) :=
  '(h, res) ← for_entries N_ENTRIES 0 h (fun h i =>
    s ← get_sig h bkt i;
    if s =? sig then
      idx ← get_idx h bkt i;
      p ← key_slot h idx;
      k ← rd (key_store h) p;
      c ← rte_hash_cmp_eq key (k_key k);
      if c =? 0 then
        ks ← wr (key_store h) p (HKey data (k_key k));
        Ret (set_key_store ks h, Some (i32 (idx - 1)))
      else Ret (h, None)
    else Ret (h, None));
  Ret (h, match res with Some pos => pos | None => -1 end).

(** The duplicate check that opens every insertion step: the first bucket, then
    the chain of the other. *)
(* rte_lib/rte_cuckoo_hash.c:300-314 rte_hash_cuckoo_move_insert_mw *)
Definition search_both (h : rte_hash) (data : Z) (key : list Z) (bkt alt_bkt : bref) (sig : Z)
    : outcome (rte_hash * option Z) :=
  '(h, ret) ← search_and_update h data key bkt sig;
  if negb (ret =? -1) then Ret (h, Some ret)
  else for_each_bucket fuel h (Some alt_bkt) (fun h cur_bkt =>
    '(h, ret) ← search_and_update h data key cur_bkt sig;
    Ret (h, if negb (ret =? -1) then Some ret else None)).

(** The code, and [*ret_val] (0 when it is not written). *)
(* rte_lib/rte_cuckoo_hash.c:213-270 rte_hash_cuckoo_insert_mw *)
Definition rte_hash_cuckoo_insert_mw (h : rte_hash) (prim_bkt sec_bkt : bref)
    (key : list Z) (data sig new_idx : Z) : outcome (rte_hash * Z * Z) :=
  h ← __hash_rw_writer_lock h;
  '(h, dup) ← search_both h data key prim_bkt sec_bkt sig;
  match dup with
  | Some ret => Ret (__hash_rw_writer_unlock h, 1, ret)
  | None =>
      '(h, placed) ← for_entries N_ENTRIES 0 h (fun h i =>
        idx ← get_idx h prim_bkt i;
        if idx =? EMPTY_SLOT then
          h ← put_sig h prim_bkt i sig;
          h ← put_idx h prim_bkt i new_idx;
          Ret (h, Some i)
        else Ret (h, None));
      let h := __hash_rw_writer_unlock h in
      Ret (h, match placed with Some _ => 0 | None => -1 end, 0)
  end.

(** The increments of [*tbl_chng_cnt] that announce a move. *)
(* rte_lib/rte_cuckoo_hash.c:335-349 rte_hash_cuckoo_move_insert_mw *)
Definition announce (h : rte_hash) : rte_hash :=
  if readwrite_concur_lf_support h then set_chng (tbl_chng_cnt h + 1)%u32 h else h.

(** The loop that moves every entry of the path one bucket on, from the leaf back
    to the root: the ring of the path still to move is the node [curr_node], the
    hole is the slot [curr_slot] of [curr_bkt]. [None]: the path was invalid. *)
(* rte_lib/rte_cuckoo_hash.c:316-365 rte_hash_cuckoo_move_insert_mw *)
Fixpoint move_path (n : nat) (h : rte_hash) (queue : list queue_node) (curr_node : queue_node)
    (curr_bkt : bref) (curr_slot : Z) : outcome (rte_hash * option (bref * Z)) :=
  match n_prev curr_node with
  | None => Ret (h, Some (curr_bkt, curr_slot))
  | Some p =>
      match n with
      | O => Spin
      | S n =>
          prev_node ← rd queue p;
          let prev_bkt := n_bkt prev_node in
          let prev_slot := n_prev_slot curr_node in
          s ← get_sig h prev_bkt prev_slot;
          let prev_alt_bkt_idx := get_alt_bucket_index h (n_cur_bkt_idx prev_node) s in
          if decide (Main prev_alt_bkt_idx <> curr_bkt) then
            h ← put_idx h curr_bkt curr_slot EMPTY_SLOT;
            Ret (h, None)
          else
            let h := announce h in
            s ← get_sig h prev_bkt prev_slot;
            h ← put_sig h curr_bkt curr_slot s;
            k ← get_idx h prev_bkt prev_slot;
            h ← put_idx h curr_bkt curr_slot k;
            move_path n h queue prev_node prev_bkt prev_slot
      end
  end.

(* rte_lib/rte_cuckoo_hash.c:273-393 rte_hash_cuckoo_move_insert_mw *)
Definition rte_hash_cuckoo_move_insert_mw (h : rte_hash) (bkt alt_bkt : bref)
    (key : list Z) (data : Z) (queue : list queue_node) (leaf leaf_slot sig new_idx : Z)
    : outcome (rte_hash * Z * Z) :=
  leaf_node ← rd queue leaf;
  let curr_bkt := n_bkt leaf_node in
  let curr_slot := leaf_slot in
  h ← __hash_rw_writer_lock h;
  idx ← get_idx h curr_bkt curr_slot;
  if negb (idx =? EMPTY_SLOT) then Ret (__hash_rw_writer_unlock h, -1, 0)
  else
    '(h, dup) ← search_both h data key bkt alt_bkt sig;
    match dup with
    | Some ret => Ret (__hash_rw_writer_unlock h, 1, ret)
    | None =>
        '(h, hole) ← move_path (length queue) h queue leaf_node curr_bkt curr_slot;
        match hole with
        | None => Ret (__hash_rw_writer_unlock h, -1, 0)
        | Some (curr_bkt, curr_slot) =>
            let h := announce h in
            h ← put_sig h curr_bkt curr_slot sig;
            h ← put_idx h curr_bkt curr_slot new_idx;
            Ret (__hash_rw_writer_unlock h, 0, 0)
        end
    end.

(** The body of the inner loop of the search, for one slot of the bucket at
    [tail]; [queue] is the initialised part of the array, so that [head] is its
    length, and a node written at [RTE_HASH_BFS_QUEUE_MAX_LEN] is out of bounds. *)
(* rte_lib/rte_cuckoo_hash.c:423-440 rte_hash_cuckoo_make_space_mw *)
Definition bfs_slot (bkt sec_bkt : bref) (key : list Z) (data sig new_idx : Z)
    (tail : Z) (curr_bkt : bref) (cur_idx : Z) (h : rte_hash) (queue : list queue_node) (i : Z)
    : outcome (rte_hash * list queue_node * option (Z * Z)) :=
  k ← get_idx h curr_bkt i;
  '(h, ret) ←
    if k =? EMPTY_SLOT then
      '(h, ret, ret_val) ←
        rte_hash_cuckoo_move_insert_mw h bkt sec_bkt key data queue tail i sig new_idx;
      Ret (h, if negb (ret =? -1) then Some (ret, ret_val) else None)
    else Ret (h, None);
  match ret with
  | Some r => Ret (h, queue, Some r)
  | None =>
      s ← get_sig h curr_bkt i;
      let alt_idx := get_alt_bucket_index h cur_idx s in
      let alt_bkt := Main alt_idx in
      if Z.of_nat (length queue) <? RTE_HASH_BFS_QUEUE_MAX_LEN
      then Ret (h, queue ++ [Node alt_bkt alt_idx (Some tail) i], None)
      else Undef
  end.

(** [for (i = 0; i < RTE_HASH_BUCKET_ENTRIES; i++)] over [bfs_slot]. *)
(* rte_lib/rte_cuckoo_hash.c:422-441 rte_hash_cuckoo_make_space_mw *)
Fixpoint bfs_slots (n : nat) (bkt sec_bkt : bref) (key : list Z) (data sig new_idx : Z)
    (tail : Z) (curr_bkt : bref) (cur_idx : Z) (h : rte_hash) (queue : list queue_node) (i : Z)
    : outcome (rte_hash * list queue_node * option (Z * Z)) :=
  match n with
  | O => Ret (h, queue, None)
  | S n =>
      '(h, queue, ret) ← bfs_slot bkt sec_bkt key data sig new_idx tail curr_bkt cur_idx h queue i;
      match ret with
      | Some r => Ret (h, queue, Some r)
      | None =>
          bfs_slots n bkt sec_bkt key data sig new_idx tail curr_bkt cur_idx h queue (i + 1)
      end
  end.

(** [while (tail != head && head < queue + MAX_LEN - ENTRIES)], [n] passes at most. *)
(* rte_lib/rte_cuckoo_hash.c:416-445 rte_hash_cuckoo_make_space_mw *)
Fixpoint bfs_loop (n : nat) (bkt sec_bkt : bref) (key : list Z) (data sig new_idx : Z)
    (tail : Z) (h : rte_hash) (queue : list queue_node) : outcome (rte_hash * Z * Z) :=
  let head := Z.of_nat (length queue) in
  if negb (tail =? head) && (head <? RTE_HASH_BFS_QUEUE_MAX_LEN - RTE_HASH_BUCKET_ENTRIES) then
    match n with
    | O => Spin
    | S n =>
        node ← rd queue tail;
        '(h, queue, ret) ← bfs_slots N_ENTRIES bkt sec_bkt key data sig new_idx tail
          (n_bkt node) (n_cur_bkt_idx node) h queue 0;
        match ret with
        | Some (ret, ret_val) => Ret (h, ret, ret_val)
        | None => bfs_loop n bkt sec_bkt key data sig new_idx (tail + 1) h queue
        end
    end
  else Ret (h, - ENOSPC, 0).

(* rte_lib/rte_cuckoo_hash.c:395-446 rte_hash_cuckoo_make_space_mw *)
Definition rte_hash_cuckoo_make_space_mw (h : rte_hash) (bkt sec_bkt : bref)
    (key : list Z) (data sig bucket_idx new_idx : Z) : outcome (rte_hash * Z * Z) :=
  let queue := [Node bkt bucket_idx None (-1)] in
  bfs_loop (Z.to_nat RTE_HASH_BFS_QUEUE_MAX_LEN) bkt sec_bkt key data sig new_idx 0 h queue.

(** The tail of the insertion, for a table with extendable buckets. *)
(* rte_lib/rte_cuckoo_hash.c:577-654 __rte_hash_add_key_with_hash *)
Definition add_ext (h : rte_hash) (key : list Z) (data short_sig slot_id : Z)
    (prim_bkt sec_bkt : bref) : outcome (rte_hash * Z) :=
  h ← __hash_rw_writer_lock h;
  '(h, dup) ← search_both h data key prim_bkt sec_bkt short_sig;
  match dup with
  | Some ret =>
      h ← enqueue_slot_back h slot_id;
      Ret (__hash_rw_writer_unlock h, ret)
  | None =>
      '(h, placed) ← for_each_bucket fuel h (Some sec_bkt) (fun h cur_bkt =>
        for_entries N_ENTRIES 0 h (fun h i =>
          idx ← get_idx h cur_bkt i;
          if idx =? EMPTY_SLOT then
            h ← put_sig h cur_bkt i short_sig;
            h ← put_idx h cur_bkt i slot_id;
            Ret (h, Some (i32 (slot_id - 1)))
          else Ret (h, None)));
      match placed with
      | Some pos => Ret (__hash_rw_writer_unlock h, pos)
      | None =>
          let ext_bkt_id := 0 in
          '(r, obj, _) ← rte_ring_sc_dequeue_elem fuel (free_ext_bkts h) [ext_bkt_id] 4;
          let h := set_free_ext r h in
          ext_bkt_id ← rd obj 0;
          if ext_bkt_id =? 0 then Ret (__hash_rw_writer_unlock h, - ENOSPC)
          else
            let nb := ExtB (ext_bkt_id - 1) in
            h ← put_sig h nb 0 short_sig;
            h ← put_idx h nb 0 slot_id;
            last ← rte_hash_get_last_bkt h sec_bkt;
            v ← get_bkt h last;
            h ← put_bkt h last (Bucket (sig_current v) (key_idx v) (Some nb));
            Ret (__hash_rw_writer_unlock h, i32 (slot_id - 1))
      end
  end.

(** [memcpy(new_k->key, key, h->key_len)]. *)
(* rte_lib/rte_cuckoo_hash.c:534-535 __rte_hash_add_key_with_hash *)
Definition copy_key (dst key : list Z) (n : Z) : outcome (list Z) :=
  let n := Z.to_nat n in
  if (length key <? n)%nat || (length dst <? n)%nat then Undef
  else Ret (take n key ++ drop n dst).

(* rte_lib/rte_cuckoo_hash.c:459-656 __rte_hash_add_key_with_hash *)
Definition __rte_hash_add_key_with_hash (h : rte_hash) (key : list Z) (sig data : Z)
    : outcome (rte_hash * Z) :=
  let short_sig := get_short_sig sig in
  let prim_bucket_idx := get_prim_bucket_index h sig in
  let sec_bucket_idx := get_alt_bucket_index h prim_bucket_idx short_sig in
  let prim_bkt := Main prim_bucket_idx in
  let sec_bkt := Main sec_bucket_idx in
  h ← __hash_rw_writer_lock h;
  '(h, dup) ← search_both h data key prim_bkt sec_bkt short_sig;
  let h := __hash_rw_writer_unlock h in
  match dup with
  | Some ret => Ret (h, ret)
  | None =>
      '(h, slot_id) ← alloc_slot h;
      p ← key_slot h slot_id;
      k ← rd (key_store h) p;
      bytes ← copy_key (k_key k) key (key_len h);
      ks ← wr (key_store h) p (HKey data bytes);
      let h := set_key_store ks h in
      '(h, ret, ret_val) ← rte_hash_cuckoo_insert_mw h prim_bkt sec_bkt key data short_sig slot_id;
      if ret =? 0 then Ret (h, i32 (slot_id - 1))
      else if ret =? 1 then h ← enqueue_slot_back h slot_id; Ret (h, ret_val)
      else
        '(h, ret, ret_val) ← rte_hash_cuckoo_make_space_mw h prim_bkt sec_bkt key data
          short_sig prim_bucket_idx slot_id;
        if ret =? 0 then Ret (h, i32 (slot_id - 1))
        else if ret =? 1 then h ← enqueue_slot_back h slot_id; Ret (h, ret_val)
        else
          '(h, ret, ret_val) ← rte_hash_cuckoo_make_space_mw h sec_bkt prim_bkt key data
            short_sig sec_bucket_idx slot_id;
          if ret =? 0 then Ret (h, i32 (slot_id - 1))
          else if ret =? 1 then h ← enqueue_slot_back h slot_id; Ret (h, ret_val)
          else if negb (ext_table_support h) then
            h ← enqueue_slot_back h slot_id; Ret (h, ret)
          else add_ext h key data short_sig slot_id prim_bkt sec_bkt
  end.

(** The table's hash function is a parameter: the caller chooses it. *)
(* rte_lib/rte_cuckoo_hash.c:451-456 rte_hash_hash *)
Definition rte_hash_hash (hash_func : list Z -> Z -> Z -> Z) (h : rte_hash) (key : list Z) : Z :=
  hash_func key (key_len h) (hash_func_init_val h).

(* rte_lib/rte_cuckoo_hash.c:658-663 rte_hash_add_key *)
Definition rte_hash_add_key (hash_func : list Z -> Z -> Z -> Z) (h : rte_hash) (key : list Z)
    : outcome (rte_hash * Z) :=
  __rte_hash_add_key_with_hash h key (rte_hash_hash hash_func h key) 0.
End Ops.
