(* ===== verification/CuckooSpec.v ===== *)
(** * Cuckoo insertion: the placement invariant and what an insertion does to it

    The main buckets: every index stored there sits in one of the two buckets its hash
    names, under its short signature, and moving entries along a cuckoo path never loses,
    duplicates or misplaces one. What the walk along the extensions of the two buckets
    finds is a hypothesis here, discharged in [CuckooTable]. *)

From S2P Require Import Prelude Common Atomic RingCore RingCopy RingElem RingSpec.
From S2P Require Import Locks Cuckoo.

Open Scope Z_scope.

#[export] Instance bucket_inhabited : Inhabited rte_hash_bucket :=
  populate (Bucket [] [] None).
#[export] Instance hkey_inhabited : Inhabited rte_hash_key := populate (HKey 0 []).

(** ** The table as a matrix of slots *)

Definition bkt_at (B : list rte_hash_bucket) (b : Z) : rte_hash_bucket := B !!! Z.to_nat b.
Definition sig_at (B : list rte_hash_bucket) (b i : Z) : Z :=
  sig_current (bkt_at B b) !!! Z.to_nat i.
Definition idx_at (B : list rte_hash_bucket) (b i : Z) : Z := key_idx (bkt_at B b) !!! Z.to_nat i.

(** Every bucket has its eight slots; [nx] is the first extension of each. *)
Definition table_shape (N : Z) (nx : Z -> option bref) (B : list rte_hash_bucket) : Prop :=
  Z.of_nat (length B) = N /\
  forall b, 0 <= b < N ->
    length (sig_current (bkt_at B b)) = 8%nat /\ length (key_idx (bkt_at B b)) = 8%nat /\ b_next (bkt_at B b) = nx b.

Definition in_table (N b i : Z) : Prop := 0 <= b < N /\ 0 <= i < 8.

Definition upd_sig (B : list rte_hash_bucket) (b i s : Z) : list rte_hash_bucket :=
  let v := bkt_at B b in
  <[Z.to_nat b := Bucket (<[Z.to_nat i := s]> (sig_current v)) (key_idx v) (b_next v)]> B.
Definition upd_idx (B : list rte_hash_bucket) (b i k : Z) : list rte_hash_bucket :=
  let v := bkt_at B b in
  <[Z.to_nat b := Bucket (sig_current v) (<[Z.to_nat i := k]> (key_idx v)) (b_next v)]> B.

Section Matrix.
Context (N : Z) (nx : Z -> option bref) (B : list rte_hash_bucket).
Hypothesis HB : table_shape N nx B.

Lemma bkt_shape b : 0 <= b < N ->
  length (sig_current (bkt_at B b)) = 8%nat /\ length (key_idx (bkt_at B b)) = 8%nat /\
  b_next (bkt_at B b) = nx b.
Proof. apply HB. Qed.

Lemma rd_bkt b : 0 <= b < N -> rd B b = Ret (bkt_at B b).
Proof.
  intros Hb. destruct HB as [Hl _]. apply rd_Ret; [lia|].
  apply list_lookup_lookup_total_lt. lia.
Qed.

Lemma rd_total (l : list Z) i : 0 <= i < Z.of_nat (length l) -> rd l i = Ret (l !!! Z.to_nat i).
Proof. intros Hi. apply rd_Ret; [lia|]. apply list_lookup_lookup_total_lt. lia. Qed.

Lemma bkt_insert b b' v :
  0 <= b < N -> 0 <= b' < N ->
  bkt_at (<[Z.to_nat b := v]> B) b' = if b' =? b then v else bkt_at B b'.
Proof.
  intros Hb Hb'. destruct HB as [Hl _]. unfold bkt_at. destruct (Z.eqb_spec b' b) as [->|Hne].
  - apply list_lookup_total_insert_eq. lia.
  - apply list_lookup_total_insert_ne. lia.
Qed.

Lemma upd_sig_spec b i s b' i' :
  in_table N b i -> in_table N b' i' ->
  sig_at (upd_sig B b i s) b' i' = (if (b' =? b) && (i' =? i) then s else sig_at B b' i') /\
  idx_at (upd_sig B b i s) b' i' = idx_at B b' i'.
Proof.
  intros [Hb Hi] [Hb' Hi']. unfold upd_sig, sig_at, idx_at.
  destruct (bkt_shape b Hb) as [Hs _].
  rewrite bkt_insert by done. destruct (Z.eqb_spec b' b) as [->|]; [|done]. cbn.
  split; [|done]. destruct (Z.eqb_spec i' i) as [->|].
  - apply list_lookup_total_insert_eq. lia.
  - apply list_lookup_total_insert_ne. lia.
Qed.

Lemma upd_idx_spec b i k b' i' :
  in_table N b i -> in_table N b' i' ->
  idx_at (upd_idx B b i k) b' i' = (if (b' =? b) && (i' =? i) then k else idx_at B b' i') /\
  sig_at (upd_idx B b i k) b' i' = sig_at B b' i'.
Proof.
  intros [Hb Hi] [Hb' Hi']. unfold upd_idx, sig_at, idx_at.
  destruct (bkt_shape b Hb) as (_ & Hs & _).
  rewrite bkt_insert by done. destruct (Z.eqb_spec b' b) as [->|]; [|done]. cbn.
  split; [|done]. destruct (Z.eqb_spec i' i) as [->|].
  - apply list_lookup_total_insert_eq. lia.
  - apply list_lookup_total_insert_ne. lia.
Qed.

Lemma insert_shape b v : 0 <= b < N ->
  length (sig_current v) = 8%nat -> length (key_idx v) = 8%nat -> b_next v = nx b ->
  table_shape N nx (<[Z.to_nat b := v]> B).
Proof.
  intros Hb H1 H2 H3. split; [rewrite length_insert; apply HB|]. intros b' Hb'.
  rewrite bkt_insert by done. destruct (Z.eqb_spec b' b) as [->|]; [done|]. by apply bkt_shape.
Qed.

Lemma upd_sig_shape b i s : 0 <= b < N -> table_shape N nx (upd_sig B b i s).
Proof.
  intros Hb. destruct (bkt_shape b Hb) as (? & ? & ?).
  apply insert_shape; cbn; rewrite ?length_insert; done.
Qed.
Lemma upd_idx_shape b i k : 0 <= b < N -> table_shape N nx (upd_idx B b i k).
Proof.
  intros Hb. destruct (bkt_shape b Hb) as (? & ? & ?).
  apply insert_shape; cbn; rewrite ?length_insert; done.
Qed.
End Matrix.

(** The accesses of the code on a slot of the table. *)
Section Accesses.
Context (N : Z) (nx : Z -> option bref) (h : rte_hash).
Hypothesis HB : table_shape N nx (buckets h).

Lemma get_sig_at b i : in_table N b i -> get_sig h (Main b) i = Ret (sig_at (buckets h) b i).
Proof.
  intros [Hb Hi]. unfold get_sig, get_bkt. rewrite (rd_bkt N nx) by done. cbn.
  destruct (bkt_shape _ _ _ HB b Hb) as [Hs _]. apply rd_total. lia.
Qed.
Lemma get_idx_at b i : in_table N b i -> get_idx h (Main b) i = Ret (idx_at (buckets h) b i).
Proof.
  intros [Hb Hi]. unfold get_idx, get_bkt. rewrite (rd_bkt N nx) by done. cbn.
  destruct (bkt_shape _ _ _ HB b Hb) as (_ & Hs & _). apply rd_total. lia.
Qed.
Lemma put_sig_at b i s :
  in_table N b i -> put_sig h (Main b) i s = Ret (set_buckets (upd_sig (buckets h) b i s) h).
Proof.
  intros [Hb Hi]. unfold put_sig, get_bkt. rewrite (rd_bkt N nx) by done. cbn.
  destruct (bkt_shape _ _ _ HB b Hb) as (Hs & _). rewrite wr_Ret by lia. cbn.
  destruct HB as [Hl _]. by rewrite wr_Ret by lia.
Qed.
Lemma put_idx_at b i k :
  in_table N b i -> put_idx h (Main b) i k = Ret (set_buckets (upd_idx (buckets h) b i k) h).
Proof.
  intros [Hb Hi]. unfold put_idx, get_bkt. rewrite (rd_bkt N nx) by done. cbn.
  destruct (bkt_shape _ _ _ HB b Hb) as (_ & Hs & _). rewrite wr_Ret by lia. cbn.
  destruct HB as [Hl _]. by rewrite wr_Ret by lia.
Qed.
End Accesses.

(** The same on the extendable buckets, whose links are [nxe]. *)
Section ExtAccesses.
Context (M : Z) (nxe : Z -> option bref) (h : rte_hash).
Hypothesis HE : table_shape M nxe (buckets_ext h).

Lemma get_sig_ext e i : in_table M e i -> get_sig h (ExtB e) i = Ret (sig_at (buckets_ext h) e i).
Proof.
  intros [He Hi]. unfold get_sig, get_bkt. rewrite (rd_bkt M nxe) by done. cbn.
  destruct (bkt_shape _ _ _ HE e He) as [Hs _]. apply rd_total. lia.
Qed.
Lemma get_idx_ext e i : in_table M e i -> get_idx h (ExtB e) i = Ret (idx_at (buckets_ext h) e i).
Proof.
  intros [He Hi]. unfold get_idx, get_bkt. rewrite (rd_bkt M nxe) by done. cbn.
  destruct (bkt_shape _ _ _ HE e He) as (_ & Hs & _). apply rd_total. lia.
Qed.
Lemma put_sig_ext e i s :
  in_table M e i -> put_sig h (ExtB e) i s = Ret (set_buckets_ext (upd_sig (buckets_ext h) e i s) h).
Proof.
  intros [He Hi]. unfold put_sig, get_bkt. rewrite (rd_bkt M nxe) by done. cbn.
  destruct (bkt_shape _ _ _ HE e He) as (Hs & _). rewrite wr_Ret by lia. cbn.
  destruct HE as [Hl _]. by rewrite wr_Ret by lia.
Qed.
Lemma put_idx_ext e i k :
  in_table M e i -> put_idx h (ExtB e) i k = Ret (set_buckets_ext (upd_idx (buckets_ext h) e i k) h).
Proof.
  intros [He Hi]. unfold put_idx, get_bkt. rewrite (rd_bkt M nxe) by done. cbn.
  destruct (bkt_shape _ _ _ HE e He) as (_ & Hs & _). rewrite wr_Ret by lia. cbn.
  destruct HE as [Hl _]. by rewrite wr_Ret by lia.
Qed.
End ExtAccesses.

(** ** Bucket indices *)

(** The two buckets of a hash, for a table of [2^k] buckets. *)
Definition alt_of (mask b s : Z) : Z := Z.land (Z.lxor b s) mask.
Definition prim_of (mask hash : Z) : Z := Z.land hash mask.

Lemma mask_range k x : 0 <= k -> 0 <= Z.land x (2 ^ k - 1) < 2 ^ k.
Proof. intros Hk. rewrite land_ones_mod by done. apply Z.mod_pos_bound. lia. Qed.

(** Moving by a signature twice comes back: the alternative is an involution. *)
Lemma alt_of_involutive k b s :
  0 <= k -> 0 <= b < 2 ^ k -> alt_of (2 ^ k - 1) (alt_of (2 ^ k - 1) b s) s = b.
Proof.
  intros Hk Hb. unfold alt_of. rewrite <- (Z.mod_small b (2 ^ k)) at 2 by done.
  rewrite <- land_ones_mod by done.
  apply Z.bits_inj'. intros i Hi. rewrite !Z.land_spec, !Z.lxor_spec, !Z.land_spec, Z.lxor_spec.
  by destruct (Z.testbit b i), (Z.testbit s i), (Z.testbit (2 ^ k - 1) i).
Qed.

(** ** The placement invariant

    [hs k] is the hash of the key stored at index [k]; [S] is the set of stored
    indices; [hole] is a slot whose content does not count: the empty slot at the
    end of a cuckoo path, then each slot of the path in turn. *)

Section Placement.
Context (k0 : Z) (hs : Z -> Z).
Let N := 2 ^ k0.
Let mask := 2 ^ k0 - 1.
Hypothesis Hk0 : 0 <= k0.

Definition valid_at (hs : Z -> Z) (k b s : Z) : Prop :=
  s = get_short_sig (hs k) /\
  (b = prim_of (2 ^ k0 - 1) (hs k) \/
   b = alt_of (2 ^ k0 - 1) (prim_of (2 ^ k0 - 1) (hs k)) (get_short_sig (hs k))).

Record placed_ok (hs : Z -> Z) (S : Z -> Prop) (B : list rte_hash_bucket)
    (hole : option (Z * Z)) : Prop := {
  po_valid : forall b i, in_table (2 ^ k0) b i -> Some (b, i) <> hole -> idx_at B b i <> 0 ->
    S (idx_at B b i) /\ valid_at hs (idx_at B b i) b (sig_at B b i);
  po_cover : forall k, S k ->
    exists b i, in_table (2 ^ k0) b i /\ Some (b, i) <> hole /\ idx_at B b i = k;
  po_uniq : forall b i b' i', in_table (2 ^ k0) b i -> in_table (2 ^ k0) b' i' ->
    Some (b, i) <> hole -> Some (b', i') <> hole ->
    idx_at B b i <> 0 -> idx_at B b i = idx_at B b' i' -> (b, i) = (b', i');
  po_nonzero : ~ S 0;
}.

Lemma valid_at_moves k b s :
  valid_at hs k b s -> valid_at hs k (alt_of mask b s) s.
Proof.
  intros [Hs Hb]. subst s. split; [done|]. destruct Hb as [-> | ->]; [by right|left].
  apply alt_of_involutive; [done|]. by apply mask_range.
Qed.

(** An empty slot may be taken as the hole, and an empty hole given back. *)
Lemma placed_open S B b i :
  in_table N b i -> idx_at B b i = 0 ->
  placed_ok hs S B None -> placed_ok hs S B (Some (b, i)).
Proof.
  intros Hin H0 [Hv Hc Hu Hz]. split; [auto| |auto|done].
  intros k Hk. destruct (Hc k Hk) as (b' & i' & Hin' & _ & E). exists b', i'.
  split; [done|]. split; [|done]. intros [= -> ->]. subst k. by rewrite H0 in Hk.
Qed.

Lemma placed_close S B B' b i :
  in_table N b i ->
  (forall b' i', in_table N b' i' ->
     idx_at B' b' i' = (if (b' =? b) && (i' =? i) then 0 else idx_at B b' i') /\
     sig_at B' b' i' = sig_at B b' i') ->
  placed_ok hs S B (Some (b, i)) -> placed_ok hs S B' None.
Proof.
  intros Hin HB' [Hv Hc Hu Hz].
  assert (Hne : forall b' i', in_table N b' i' -> idx_at B' b' i' <> 0 ->
    Some (b', i') <> Some (b, i) /\ idx_at B' b' i' = idx_at B b' i' /\
    sig_at B' b' i' = sig_at B b' i').
  { intros b' i' Hin' H. destruct (HB' b' i' Hin') as [E1 E2].
    destruct (Z.eqb_spec b' b), (Z.eqb_spec i' i); cbn in E1; try done;
      (split; [congruence|done]). }
  split.
  - intros b' i' Hin' _ H. destruct (Hne b' i' Hin' H) as (Hh & E1 & E2).
    rewrite E1, E2 in *. auto.
  - intros k Hk. destruct (Hc k Hk) as (b' & i' & Hin' & Hh & E). exists b', i'.
    split; [done|]. split; [done|]. destruct (HB' b' i' Hin') as [E1 _].
    destruct (Z.eqb_spec b' b), (Z.eqb_spec i' i); cbn in E1; subst; done.
  - intros b1 i1 b2 i2 Hin1 Hin2 _ _ H E.
    destruct (Hne b1 i1 Hin1 H) as (Hh1 & E1 & _).
    destruct (Hne b2 i2 Hin2) as (Hh2 & E2 & _); [congruence|].
    rewrite E1, E2 in *. auto.
  - done.
Qed.

(** One move along the path: the entry at [(pb, ps)] is copied into the hole in its
    other bucket, and its old slot becomes the hole. *)
Lemma placed_move S B B' b i pb ps :
  in_table N b i -> in_table N pb ps -> alt_of mask pb (sig_at B pb ps) = b ->
  (forall b' i', in_table N b' i' ->
     idx_at B' b' i' = (if (b' =? b) && (i' =? i) then idx_at B pb ps else idx_at B b' i') /\
     sig_at B' b' i' = (if (b' =? b) && (i' =? i) then sig_at B pb ps else sig_at B b' i')) ->
  placed_ok hs S B (Some (b, i)) -> placed_ok hs S B' (Some (pb, ps)).
Proof.
  intros Hin Hinp Halt HB' [Hv Hc Hu Hz].
  (* where a counted slot of the new table got its entry from *)
  assert (Hsrc : forall b' i', in_table N b' i' -> Some (b', i') <> Some (pb, ps) ->
    exists bs js, in_table N bs js /\ Some (bs, js) <> Some (b, i) /\
      idx_at B' b' i' = idx_at B bs js /\ sig_at B' b' i' = sig_at B bs js /\
      ((bs, js) = (b', i') \/ ((bs, js) = (pb, ps) /\ (b', i') = (b, i)))).
  { intros b' i' Hin' Hh. destruct (HB' b' i' Hin') as [E1 E2].
    destruct (Z.eqb_spec b' b) as [->|], (Z.eqb_spec i' i) as [->|]; cbn in E1, E2;
      [exists pb, ps|exists b, i'|exists b', i|exists b', i'];
      (split; [done|]); (split; [congruence|]); auto. }
  split.
  - intros b' i' Hin' Hh H0. destruct (Hsrc b' i' Hin' Hh) as (bs & js & Hs & Hhs & E1 & E2 & Hor).
    rewrite E1, E2 in *. destruct (Hv bs js Hs Hhs H0) as [HS Hval]. split; [done|].
    destruct Hor as [[= -> ->]|[[= -> ->] [= -> ->]]]; [done|].
    rewrite <- Halt. by apply valid_at_moves.
  - intros k Hk. destruct (Hc k Hk) as (b' & i' & Hin' & Hh & E).
    destruct (decide ((b', i') = (pb, ps))) as [[= -> ->]|Hd].
    + exists b, i. destruct (HB' b i Hin) as [E1 _]. rewrite !Z.eqb_refl in E1. cbn in E1.
      split; [done|]. split; [congruence|]. congruence.
    + exists b', i'. destruct (HB' b' i' Hin') as [E1 _]. split; [done|]. split; [congruence|].
      destruct (Z.eqb_spec b' b), (Z.eqb_spec i' i); cbn in E1; subst; done.
  - intros b1 i1 b2 i2 Hin1 Hin2 Hh1 Hh2 H0 E.
    destruct (Hsrc b1 i1 Hin1 Hh1) as (bs1 & js1 & Hs1 & Hg1 & E1 & _ & Ho1).
    destruct (Hsrc b2 i2 Hin2 Hh2) as (bs2 & js2 & Hs2 & Hg2 & E2 & _ & Ho2).
    assert ((bs1, js1) = (bs2, js2)) by (apply Hu; congruence || done).
    destruct Ho1 as [?|[? ?]], Ho2 as [?|[? ?]]; congruence.
  - done.
Qed.

(** The new index goes into the hole. *)
Lemma placed_fill S B B' b i k hash :
  in_table N b i -> k <> 0 -> ~ S k ->
  valid_at (fun j => if j =? k then hash else hs j) k b (get_short_sig hash) ->
  (forall b' i', in_table N b' i' ->
     idx_at B' b' i' = (if (b' =? b) && (i' =? i) then k else idx_at B b' i') /\
     sig_at B' b' i' = (if (b' =? b) && (i' =? i) then get_short_sig hash else sig_at B b' i')) ->
  placed_ok hs S B (Some (b, i)) ->
  placed_ok (fun j => if j =? k then hash else hs j) (fun j => S j \/ j = k) B' None.
Proof.
  intros Hin Hk HnS Hval HB' [Hv Hc Hu Hz].
  assert (Hsame : forall b' i', in_table N b' i' -> (b', i') <> (b, i) ->
    idx_at B' b' i' = idx_at B b' i' /\ sig_at B' b' i' = sig_at B b' i' /\
    Some (b', i') <> Some (b, i)).
  { intros b' i' Hin' Hne. destruct (HB' b' i' Hin') as [E1 E2].
    destruct (Z.eqb_spec b' b), (Z.eqb_spec i' i); cbn in E1, E2; subst; try done;
      (split; [done|]); (split; [done|congruence]). }
  assert (Hnew : idx_at B' b i = k /\ sig_at B' b i = get_short_sig hash).
  { destruct (HB' b i Hin) as [E1 E2]. rewrite !Z.eqb_refl in *. done. }
  split.
  - intros b' i' Hin' _ H0. destruct (decide ((b', i') = (b, i))) as [[= -> ->]|Hd].
    + destruct Hnew as [-> ->]. auto.
    + destruct (Hsame b' i' Hin' Hd) as (E1 & E2 & Hh). rewrite E1, E2 in *.
      destruct (Hv b' i' Hin' Hh H0) as [HS Hva]. split; [by left|].
      unfold valid_at in *. destruct (Z.eqb_spec (idx_at B b' i') k) as [E|]; [|done].
      by rewrite E in HS.
  - intros j [Hj| ->].
    + destruct (Hc j Hj) as (b' & i' & Hin' & Hh & E). exists b', i'.
      split; [done|]. split; [done|]. destruct (Hsame b' i' Hin') as (E1 & _); congruence.
    + exists b, i. split; [done|]. split; [done|]. apply Hnew.
  - intros b1 i1 b2 i2 Hin1 Hin2 _ _ H0 E.
    destruct (decide ((b1, i1) = (b, i))) as [[= -> ->]|Hd1],
      (decide ((b2, i2) = (b, i))) as [[= -> ->]|Hd2]; [done|..].
    + exfalso. destruct (Hsame b2 i2 Hin2 Hd2) as (E2 & _ & Hh). destruct Hnew as [E1 _].
      destruct (Hv b2 i2 Hin2 Hh) as [HS _]; congruence.
    + exfalso. destruct (Hsame b1 i1 Hin1 Hd1) as (E2 & _ & Hh). destruct Hnew as [E1 _].
      destruct (Hv b1 i1 Hin1 Hh) as [HS _]; congruence.
    + destruct (Hsame b1 i1 Hin1 Hd1) as (E1 & _ & Hh1).
      destruct (Hsame b2 i2 Hin2 Hd2) as (E2 & _ & Hh2).
      rewrite E1, E2 in *. auto.
  - intros [?|?]; [done|congruence].
Qed.
End Placement.

(** ** The code on a well-shaped table *)

Lemma memcmp_spec a b n :
  (n <= length a)%nat -> (n <= length b)%nat ->
  exists c, memcmp a b n = Ret c /\ (c = 0 <-> take n a = take n b).
Proof.
  revert a b; induction n as [|n IH]; intros [|x a] [|y b] Ha Hb; cbn in *; try lia;
    try (exists 0; done).
  destruct (Z.eqb_spec x y) as [->|Hne].
  - destruct (IH a b) as (c & E & Hc); [lia|lia|]. exists c. split; [done|].
    rewrite Hc. split; [by intros ->|by intros [= ->]].
  - exists (x - y). split; [done|]. split; [lia|]. by intros [= -> _].
Qed.

Section Loops.
Context {A : Type}.
Implicit Type body : rte_hash -> Z -> outcome (rte_hash * option A).

Lemma for_entries_none n i h body :
  (forall j, i <= j < i + Z.of_nat n -> body h j = Ret (h, None)) ->
  for_entries n i h body = Ret (h, None).
Proof.
  revert i; induction n as [|n IH]; intros i H; [done|]. cbn.
  rewrite H by lia. cbn. apply IH. intros. apply H. lia.
Qed.

Lemma for_entries_some n i h body m h' a :
  i <= m < i + Z.of_nat n ->
  (forall j, i <= j < m -> body h j = Ret (h, None)) -> body h m = Ret (h', Some a) ->
  for_entries n i h body = Ret (h', Some a).
Proof.
  revert i; induction n as [|n IH]; intros i Hm H Ha; [lia|]. cbn.
  destruct (Z.eq_dec i m) as [->|Hne].
  - by rewrite Ha.
  - rewrite H by lia. cbn. apply IH; [lia| |done]. intros. apply H. lia.
Qed.
End Loops.

(** The first slot with a property, if there is one. *)
Lemma first_slot (P : Z -> Prop) (dec : forall j, {P j} + {~ P j}) n :
  (exists m, 0 <= m < Z.of_nat n /\ P m /\ forall j, 0 <= j < m -> ~ P j) \/
  (forall j, 0 <= j < Z.of_nat n -> ~ P j).
Proof.
  induction n as [|n IH]; [right; lia|].
  destruct IH as [(m & Hm & HP & Hj)|Hno].
  - left. exists m. split; [lia|]. done.
  - destruct (dec (Z.of_nat n)) as [HP|HP].
    + left. exists (Z.of_nat n). split; [lia|]. done.
    + right. intros j Hj. destruct (Z.eq_dec j (Z.of_nat n)) as [->|]; [done|]. apply Hno. lia.
Qed.

(** The key store: entries of equal size, addressable in 32 bits. *)
Record store_ok (h : rte_hash) : Prop := {
  so_size : 16 <= key_entry_size h < 2 ^ 32;
  so_bytes : forall e, e ∈ key_store h ->
    Z.of_nat (length (k_key e)) = key_entry_size h - 8;
  so_addr : Z.of_nat (length (key_store h)) * key_entry_size h <= 2 ^ 32;
  so_len : 0 <= key_len h <= key_entry_size h - 8;
}.

Definition entry_at (h : rte_hash) (k : Z) : rte_hash_key := key_store h !!! Z.to_nat k.
Definition prefix8 (l : list Z) : list Z := take 8 l.
Definition in_store (h : rte_hash) (k : Z) : Prop := 0 <= k < Z.of_nat (length (key_store h)).

Lemma key_slot_at h k : store_ok h -> in_store h k -> key_slot h k = Ret k.
Proof.
  intros [Hs _ Ha _] Hk. unfold in_store in Hk. unfold key_slot. rewrite u32_small by nia.
  rewrite (proj2 (Z.ltb_lt _ _)) by lia. rewrite Z.mod_mul by lia. cbn.
  by rewrite Z.div_mul by lia.
Qed.

Lemma entry_in h k : in_store h k -> key_store h !! Z.to_nat k = Some (entry_at h k).
Proof. intros Hk. unfold in_store in Hk. apply list_lookup_lookup_total_lt. lia. Qed.

Lemma cmp_entry h key k :
  store_ok h -> in_store h k -> (8 <= length key)%nat ->
  exists c, rte_hash_cmp_eq key (k_key (entry_at h k)) = Ret c /\
    (c = 0 <-> prefix8 key = prefix8 (k_key (entry_at h k))).
Proof.
  intros Hs Hk Hl. apply memcmp_spec; [done|].
  pose proof (so_bytes _ Hs (entry_at h k)) as Hb. pose proof (so_size _ Hs).
  assert (entry_at h k ∈ key_store h) by (eapply list_elem_of_lookup_2, entry_in, Hk).
  specialize (Hb ltac:(done)). change (Z.to_nat sizeof_ptr) with 8%nat. lia.
Qed.

(** A slot of the array [B] that the search would take for the key. *)
Definition slot_match (B : list rte_hash_bucket) (h : rte_hash) (key : list Z) (s b i : Z) : Prop :=
  sig_at B b i = s /\ prefix8 key = prefix8 (k_key (entry_at h (idx_at B b i))).

Definition with_data (h : rte_hash) (k data : Z) : rte_hash :=
  set_key_store (<[Z.to_nat k := HKey data (k_key (entry_at h k))]> (key_store h)) h.

Section Search.
(** [r] points to bucket [b] of the array [B]. *)
Context (h : rte_hash) (data : Z) (key : list Z) (s : Z) (r : bref) (B : list rte_hash_bucket) (b : Z).
Hypothesis Hgs : forall i, 0 <= i < 8 -> get_sig h r i = Ret (sig_at B b i).
Hypothesis Hgi : forall i, 0 <= i < 8 -> get_idx h r i = Ret (idx_at B b i).
Hypothesis Hs : store_ok h.
Hypothesis Hkey : (8 <= length key)%nat.
Hypothesis Hidx : forall i, 0 <= i < 8 -> in_store h (idx_at B b i).

Let body (h : rte_hash) (i : Z) : outcome (rte_hash * option Z) :=
  s0 ← get_sig h r i;
  if s0 =? s then
    idx ← get_idx h r i;
    p ← key_slot h idx;
    k ← rd (key_store h) p;
    c ← rte_hash_cmp_eq key (k_key k);
    if c =? 0 then
      ks ← wr (key_store h) p (HKey data (k_key k));
      Ret (set_key_store ks h, Some (i32 (idx - 1)))
    else Ret (h, None)
  else Ret (h, None).

Lemma search_body i :
  0 <= i < 8 ->
  (slot_match B h key s b i ->
   body h i = Ret (with_data h (idx_at B b i) data,
                   Some (i32 (idx_at B b i - 1)))) /\
  (~ slot_match B h key s b i -> body h i = Ret (h, None)).
Proof.
  intros Hi.
  unfold body, slot_match. rewrite Hgs by done. cbn [mbind outcome_bind].
  destruct (Z.eqb_spec (sig_at B b i) s) as [E|E].
  - rewrite Hgi by done. cbn [mbind outcome_bind].
    specialize (Hidx i Hi). set (k := idx_at B b i) in *.
    rewrite key_slot_at by done. cbn [mbind outcome_bind]. rewrite (rd_Ret _ _ (entry_at h k)).
    + cbn [mbind outcome_bind]. destruct (cmp_entry h key k Hs Hidx Hkey) as (c & -> & Hc). cbn [mbind outcome_bind].
      unfold in_store in Hidx. rewrite wr_Ret by lia. cbn [mbind outcome_bind].
      destruct (Z.eqb_spec c 0); (split; [|tauto]); intros [_ Hm]; [done|]. tauto.
    + unfold in_store in Hidx. lia.
    + by apply entry_in.
  - split; [tauto|done].
Qed.

(** The search misses when no slot matches, and otherwise takes the first match. *)
Lemma search_miss :
  (forall i, 0 <= i < 8 -> ~ slot_match B h key s b i) ->
  search_and_update h data key r s = Ret (h, -1).
Proof.
  intros H. unfold search_and_update. rewrite for_entries_none; [done|].
  intros j Hj. change (Z.of_nat N_ENTRIES) with 8 in Hj. apply search_body; [lia|apply H; lia].
Qed.

Lemma search_hit m :
  0 <= m < 8 -> slot_match B h key s b m -> (forall j, 0 <= j < m -> ~ slot_match B h key s b j) ->
  search_and_update h data key r s =
  Ret (with_data h (idx_at B b m) data, i32 (idx_at B b m - 1)).
Proof.
  intros Hm HP Hj. unfold search_and_update.
  erewrite (for_entries_some _ _ _ _ m); [done|..].
  - change (Z.of_nat N_ENTRIES) with 8. lia.
  - intros j Hjm. apply search_body; [lia|by apply Hj].
  - by apply search_body.
Qed.
End Search.

(** ** One insertion

    [h0] is the table when the insertion starts, apart from its buckets: [st B c l]
    is the table with buckets [B], change count [c] and lock word [l]. *)
Section Insert.
Context (fuel : nat) (k0 : Z) (nx : Z -> option bref) (hs : Z -> Z) (S : Z -> Prop) (h0 : rte_hash).
Context (key : list Z) (data hash new_idx : Z).
Let N := 2 ^ k0.
Let mask := 2 ^ k0 - 1.
Let s := get_short_sig hash.
Let p := prim_of mask hash.
Let q := alt_of mask p s.

(** The key is not stored: neither the dummy entry nor a stored entry of the same
    short signature and buckets has its first eight bytes. *)
Definition fresh_key (hs : Z -> Z) (S : Z -> Prop) (h : rte_hash) (key : list Z) (hash : Z) : Prop :=
  let mask := 2 ^ k0 - 1 in
  let s := get_short_sig hash in
  prefix8 key <> prefix8 (k_key (entry_at h 0)) /\
  forall k, S k -> get_short_sig (hs k) = s ->
    prim_of mask (hs k) = prim_of mask hash \/
    prim_of mask (hs k) = alt_of mask (prim_of mask hash) s ->
    prefix8 key <> prefix8 (k_key (entry_at h k)).

Hypothesis Hk0 : 0 <= k0.
Hypothesis Hmask : bucket_bitmask h0 = 2 ^ k0 - 1.
Hypothesis Hstore : store_ok h0.
Hypothesis Hkey : (8 <= length key)%nat.
Hypothesis Hlock : writer_takes_lock h0 = true -> h_lock h0 = 0.
Hypothesis Hzero : in_store h0 0.
Hypothesis HS : forall k, S k -> in_store h0 k.
Hypothesis Hfresh : fresh_key hs S h0 key hash.
Hypothesis Hnew : new_idx <> 0.
Hypothesis HnewS : ~ S new_idx.

Definition st (B : list rte_hash_bucket) (c l : Z) : rte_hash :=
  set_lock l (set_chng c (set_buckets B h0)).
Let l0 := h_lock h0.
Let lk := if writer_takes_lock h0 then -1 else h_lock h0.

(** The duplicate check along the extensions of the two buckets finds nothing. *)
Definition check_dup (h : rte_hash) (cur_bkt : bref) : outcome (rte_hash * option Z) :=
  '(h, ret) ← search_and_update h data key cur_bkt s;
  Ret (h, if negb (ret =? -1) then Some ret else None).
Hypothesis Hwalk : forall B c l b, b = p \/ b = q ->
  for_each_bucket fuel (st B c l) (nx b) check_dup = Ret (st B c l, None).

Definition inv (B : list rte_hash_bucket) : Prop :=
  table_shape (2 ^ k0) nx B /\ placed_ok k0 hs S B None.

(** The new index is stored, with its hash, and nothing else has changed. *)
Definition inserted (B : list rte_hash_bucket) : Prop :=
  table_shape (2 ^ k0) nx B /\
  placed_ok k0 (fun j => if j =? new_idx then hash else hs j)
    (fun j => S j \/ j = new_idx) B None.

Lemma two_buckets : 0 <= p < N /\ 0 <= q < N.
Proof. split; by apply mask_range. Qed.

Lemma q_back : alt_of mask q s = p.
Proof. apply alt_of_involutive; [done|]. apply two_buckets. Qed.

Lemma lock_st B c :
  __hash_rw_writer_lock (Datatypes.S fuel) (st B c l0) = Ret (st B c lk).
Proof.
  unfold __hash_rw_writer_lock, st, lk, l0. cbn [writer_takes_lock hw_trans_mem_support].
  change (h_lock (set_lock _ _)) with (h_lock h0).
  change (writer_takes_lock (set_lock _ _)) with (writer_takes_lock h0).
  change (hw_trans_mem_support (set_lock _ _)) with (hw_trans_mem_support h0).
  destruct (writer_takes_lock h0); [|done]. rewrite Hlock, write_lock_free by done.
  by destruct (hw_trans_mem_support h0).
Qed.

Lemma unlock_st B c : __hash_rw_writer_unlock (st B c lk) = st B c l0.
Proof.
  unfold __hash_rw_writer_unlock, st, lk, l0.
  change (writer_takes_lock (set_lock _ _)) with (writer_takes_lock h0).
  change (hw_trans_mem_support (set_lock _ _)) with (hw_trans_mem_support h0).
  destruct (writer_takes_lock h0); [|done]. rewrite Hlock by done.
  by destruct (hw_trans_mem_support h0).
Qed.

Lemma inv_idx B b i : inv B -> in_table N b i -> in_store h0 (idx_at B b i).
Proof.
  intros [_ [Hv _ _ _]] Hin. destruct (Z.eq_dec (idx_at B b i) 0) as [->|E]; [done|].
  apply HS. by apply (Hv b i Hin).
Qed.

Lemma inv_no_match B c l b i :
  inv B -> b = p \/ b = q -> 0 <= i < 8 -> ~ slot_match B (st B c l) key s b i.
Proof.
  intros [_ [Hv _ _ _]] Hb Hi [Hsig Hpre]. pose proof two_buckets as [Hp Hq].
  assert (Hin : in_table N b i) by (destruct Hb; subst b; done).
  change (buckets (st B c l)) with B in *. change (entry_at (st B c l)) with (entry_at h0) in *.
  destruct Hfresh as [Hf0 Hf]. destruct (Z.eq_dec (idx_at B b i) 0) as [E|E].
  - by rewrite E in Hpre.
  - destruct (Hv b i Hin) as [HSk [Hs1 Hs2]]; [done|done|].
    apply (Hf (idx_at B b i)); [done|by rewrite <- Hs1| |done].
    fold mask. fold s. fold p. fold q. fold mask in Hs2. rewrite <- Hs1, Hsig in Hs2.
    set (pk := prim_of mask (hs (idx_at B b i))) in *.
    assert (Hpk : 0 <= pk < N) by by apply mask_range.
    pose proof (alt_of_involutive k0 pk s Hk0 Hpk) as Hback. fold mask in Hback.
    pose proof q_back as Hq'. assert (Hqd : q = alt_of mask p s) by done.
    destruct Hs2 as [E2|E2], Hb as [E3|E3]; [left|right|right|left]; congruence.
Qed.

Lemma store_st B c l : store_ok (st B c l).
Proof. by destruct Hstore. Qed.

(** The search of a main bucket misses. *)
Lemma search_main_miss B c l b : inv B -> b = p \/ b = q ->
  search_and_update (st B c l) data key (Main b) s = Ret (st B c l, -1).
Proof.
  intros Hinv Hb. pose proof two_buckets as [Hp Hq]. pose proof Hinv as [HB _].
  assert (Hbr : 0 <= b < N) by (destruct Hb; subst b; done).
  apply (search_miss _ data key s (Main b) B b).
  - intros i Hi. by apply (get_sig_at N nx (st B c l)).
  - intros i Hi. by apply (get_idx_at N nx (st B c l)).
  - apply store_st.
  - done.
  - intros i Hi. by apply (inv_idx B b i).
  - intros i Hi. by apply inv_no_match.
Qed.

Lemma search_both_miss B c l b1 b2 :
  inv B -> b1 = p \/ b1 = q -> b2 = p \/ b2 = q ->
  search_both (Datatypes.S fuel) (st B c l) data key (Main b1) (Main b2) s =
  Ret (st B c l, None).
Proof.
  intros Hinv H1 H2. pose proof two_buckets as [Hp Hq]. pose proof Hinv as [HB _].
  unfold search_both. rewrite search_main_miss by done. cbn [mbind outcome_bind Z.eqb negb].
  change (negb (-1 =? -1)) with false. cbn [for_each_bucket].
  rewrite search_main_miss by done. cbn [mbind outcome_bind].
  change (negb (-1 =? -1)) with false. unfold get_bkt. change (buckets (st B c l)) with B.
  assert (Hb2 : 0 <= b2 < 2 ^ k0) by (destruct H2; subst b2; done).
  cbv iota. rewrite (rd_bkt _ _ _ HB) by done. cbn [mbind outcome_bind].
  destruct (bkt_shape _ _ _ HB b2 Hb2) as (_ & _ & ->). by apply Hwalk.
Qed.

(** The new entry is valid in either of its buckets. *)
Lemma new_valid b :
  b = p \/ b = q ->
  valid_at k0 (fun j => if j =? new_idx then hash else hs j) new_idx b (get_short_sig hash).
Proof. intros Hb. unfold valid_at. rewrite Z.eqb_refl. split; [done|]. exact Hb. Qed.

(** Storing signature and index in a slot, as the three insertion paths do. *)
Lemma put_entry B c l b i sg k :
  table_shape N nx B -> in_table N b i ->
  exists B',
    (h ← put_sig (st B c l) (Main b) i sg; put_idx h (Main b) i k) = Ret (st B' c l) /\
    table_shape N nx B' /\
    forall b' i', in_table N b' i' ->
      idx_at B' b' i' = (if (b' =? b) && (i' =? i) then k else idx_at B b' i') /\
      sig_at B' b' i' = (if (b' =? b) && (i' =? i) then sg else sig_at B b' i').
Proof.
  intros HB Hin. assert (HB1 : table_shape N nx (upd_sig B b i sg)) by by apply upd_sig_shape, Hin.
  exists (upd_idx (upd_sig B b i sg) b i k).
  split; [|split; [by apply upd_idx_shape, Hin|]].
  - rewrite (put_sig_at N nx) by done. cbn [mbind outcome_bind]. by rewrite (put_idx_at N nx).
  - intros b' i' Hin'. destruct (upd_sig_spec _ _ _ HB b i sg b' i') as [E1 E2]; [done..|].
    destruct (upd_idx_spec _ _ _ HB1 b i k b' i') as [E3 E4]; [done..|].
    by rewrite E3, E4, E1, E2.
Qed.

Lemma fill_inserted B B' b i :
  table_shape N nx B' -> in_table N b i -> b = p \/ b = q ->
  placed_ok k0 hs S B (Some (b, i)) ->
  (forall b' i', in_table N b' i' ->
     idx_at B' b' i' = (if (b' =? b) && (i' =? i) then new_idx else idx_at B b' i') /\
     sig_at B' b' i' = (if (b' =? b) && (i' =? i) then s else sig_at B b' i')) ->
  inserted B'.
Proof.
  intros HB' Hin Hb Hp Hpt. split; [done|].
  apply (placed_fill k0 hs S B B' b i new_idx hash); try done. by apply new_valid.
Qed.

(** The scan of a bucket for its first empty slot. *)
Lemma place_first {A} (f : Z -> A) B c l b sg k :
  table_shape N nx B -> 0 <= b < N ->
  let scan := for_entries N_ENTRIES 0 (st B c l) (fun h i =>
    idx ← get_idx h (Main b) i;
    if idx =? EMPTY_SLOT then
      h ← put_sig h (Main b) i sg; h ← put_idx h (Main b) i k; Ret (h, Some (f i))
    else Ret (h, None)) in
  (exists m B', in_table N b m /\ idx_at B b m = 0 /\ scan = Ret (st B' c l, Some (f m)) /\
     table_shape N nx B' /\
     forall b' i', in_table N b' i' ->
       idx_at B' b' i' = (if (b' =? b) && (i' =? m) then k else idx_at B b' i') /\
       sig_at B' b' i' = (if (b' =? b) && (i' =? m) then sg else sig_at B b' i')) \/
  ((forall j, 0 <= j < 8 -> idx_at B b j <> 0) /\ scan = Ret (st B c l, None)).
Proof.
  intros HB Hb scan.
  assert (Hbody : forall j, 0 <= j < 8 -> idx_at B b j <> 0 ->
    (idx ← get_idx (st B c l) (Main b) j;
     if idx =? EMPTY_SLOT then
       h ← put_sig (st B c l) (Main b) j sg; h ← put_idx h (Main b) j k; Ret (h, Some (f j))
     else Ret (st B c l, None)) = Ret (st B c l, None)).
  { intros j Hj Hne. rewrite (get_idx_at N nx) by done. cbn [mbind outcome_bind].
    change (buckets (st B c l)) with B. change EMPTY_SLOT with 0. by rewrite (proj2 (Z.eqb_neq _ _) Hne). }
  destruct (first_slot (fun j => idx_at B b j = 0) (fun j => Z.eq_dec _ _) 8)
    as [(m & Hm & H0 & Hj)|Hno].
  - left. assert (Hin : in_table N b m) by done.
    destruct (put_entry B c l b m sg k HB Hin) as (B' & E & HB' & Hpt).
    exists m, B'. split; [done|]. split; [done|]. split; [|done].
    apply (for_entries_some _ _ _ _ m); [done|..].
    + intros j Hjm. apply Hbody; [lia|by apply Hj].
    + rewrite (get_idx_at N nx) by done. cbn [mbind outcome_bind].
      change (buckets (st B c l)) with B. rewrite H0. change (0 =? EMPTY_SLOT) with true.
      cbv iota. rewrite <- bind_assoc. rewrite E. done.
  - right. split; [done|]. apply for_entries_none. intros j Hj.
    change (Z.of_nat N_ENTRIES) with 8 in Hj. apply Hbody; [lia|apply Hno; lia].
Qed.

(** No slot of the bucket is empty. *)
Definition full (B : list rte_hash_bucket) (b : Z) : Prop :=
  forall j, 0 <= j < 8 -> idx_at B b j <> 0.

(** The insertion into the primary bucket: done if it has an empty slot. *)
Lemma insert_mw_cases B c :
  inv B ->
  (exists B', rte_hash_cuckoo_insert_mw (Datatypes.S fuel) (st B c l0) (Main p) (Main q)
                key data s new_idx = Ret (st B' c l0, 0, 0) /\ inserted B') \/
  rte_hash_cuckoo_insert_mw (Datatypes.S fuel) (st B c l0) (Main p) (Main q)
    key data s new_idx = Ret (st B c l0, -1, 0) /\ full B p.
Proof.
  intros Hinv. pose proof Hinv as [HB Hpl]. pose proof two_buckets as [Hp Hq].
  unfold rte_hash_cuckoo_insert_mw. rewrite lock_st. cbn [mbind outcome_bind].
  rewrite search_both_miss by auto. cbn [mbind outcome_bind].
  pose proof (place_first (fun i => i) B c lk p s new_idx HB Hp) as Hpf. cbv beta zeta in Hpf.
  destruct Hpf as [(m & B' & Hin & H0 & -> & HB' & Hpt)|[Hno ->]];
    cbn [mbind outcome_bind]; rewrite unlock_st.
  - left. exists B'. split; [done|]. apply (fill_inserted B B' p m); auto. by apply placed_open.
  - by right.
Qed.

(** *** The path back from the leaf *)

(** A queue node names its bucket by index; the root is [root]; any other node
    comes from a slot of an earlier one. *)
Definition node_ok (root j : Z) (node : queue_node) : Prop :=
  n_bkt node = Main (n_cur_bkt_idx node) /\ 0 <= n_cur_bkt_idx node < 2 ^ k0 /\
  match n_prev node with
  | None => n_cur_bkt_idx node = root
  | Some p => 0 <= p < j /\ 0 <= n_prev_slot node < 8
  end.
Definition queue_ok (root : Z) (queue : list queue_node) : Prop :=
  forall (j : nat) node, queue !! j = Some node -> node_ok root (Z.of_nat j) node.

Lemma announce_st B c l : exists c', announce (st B c l) = st B c' l.
Proof.
  unfold announce. change (readwrite_concur_lf_support (st B c l))
    with (readwrite_concur_lf_support h0).
  destruct (readwrite_concur_lf_support h0); eexists; [|done].
  change (tbl_chng_cnt (st B c l)) with c. done.
Qed.

Lemma move_path_ok root queue n B c l node cb cs (j : nat) :
  queue_ok root queue -> queue !! j = Some node -> n_bkt node = Main cb -> (j <= n)%nat ->
  table_shape N nx B -> in_table N cb cs -> placed_ok k0 hs S B (Some (cb, cs)) ->
  exists B' c', table_shape N nx B' /\
    ((move_path n (st B c l) queue node (Main cb) cs = Ret (st B' c' l, None) /\
      placed_ok k0 hs S B' None) \/
     (exists cs', move_path n (st B c l) queue node (Main cb) cs =
        Ret (st B' c' l, Some (Main root, cs')) /\
      in_table N root cs' /\ placed_ok k0 hs S B' (Some (root, cs')))).
Proof.
  intros Hq. revert B c node cb cs j.
  induction n as [|n IH]; intros B c node cb cs j Hj Hcb Hjn HB Hin Hpl;
    pose proof (Hq j node Hj) as (Hnb & Hr & Hprev); assert (n_cur_bkt_idx node = cb) by congruence;
    subst cb; cbn [move_path]; destruct (n_prev node) as [pp|].
  - lia.
  - exists B, c. split; [done|]. right. exists cs. rewrite <- Hprev. done.
  - destruct Hprev as [Hpp Hps].
    destruct (lookup_lt_is_Some_2 queue (Z.to_nat pp)) as [pn Hpn].
    { apply lookup_lt_Some in Hj. lia. }
    rewrite (rd_Ret _ _ pn) by (lia || done). cbn [mbind outcome_bind].
    pose proof (Hq _ _ Hpn) as (Hpb & Hpr & _). rewrite Hpb.
    set (pb := n_cur_bkt_idx pn) in *. set (ps := n_prev_slot node) in *.
    assert (Hinp : in_table N pb ps) by done.
    rewrite (get_sig_at N nx (st B c l)) by done. cbn [mbind outcome_bind]. change (buckets (st B c l)) with B.
    unfold get_alt_bucket_index. change (bucket_bitmask (st B c l)) with (bucket_bitmask h0).
    rewrite Hmask. fold mask. fold (alt_of mask pb (sig_at B pb ps)).
    case_decide as Hd.
    + rewrite (put_idx_at N nx) by done. cbn [mbind outcome_bind]. change (buckets (st B c l)) with B.
      eexists (upd_idx B _ cs EMPTY_SLOT), c. split; [by apply upd_idx_shape, Hin|]. left.
      split; [done|]. apply (placed_close k0 hs S B _ (n_cur_bkt_idx node) cs); try done.
      intros b' i' Hin'. by apply (upd_idx_spec N nx).
    + injection Hd as Halt.
      destruct (announce_st B c l) as [c' Ec]. rewrite Ec.
      rewrite (get_sig_at N nx) by done. cbn [mbind outcome_bind]. change (buckets (st B c' l)) with B.
      rewrite (put_sig_at N nx) by done. cbn [mbind outcome_bind]. change (buckets (st B c' l)) with B.
      set (B1 := upd_sig B (n_cur_bkt_idx node) cs (sig_at B pb ps)).
      assert (HB1 : table_shape N nx B1) by by apply upd_sig_shape, Hin.
      change (set_buckets B1 (st B c' l)) with (st B1 c' l).
      rewrite (get_idx_at N nx) by done. cbn [mbind outcome_bind]. change (buckets (st B1 c' l)) with B1.
      rewrite (put_idx_at N nx) by done. cbn [mbind outcome_bind]. change (buckets (st B1 c' l)) with B1.
      set (B2 := upd_idx B1 (n_cur_bkt_idx node) cs (idx_at B1 pb ps)).
      change (set_buckets B2 (st B1 c' l)) with (st B2 c' l).
      apply (IH B2 c' pn pb ps (Z.to_nat pp)); try done; [lia|by apply upd_idx_shape, Hin|].
      apply (placed_move k0 hs Hk0 S B B2 (n_cur_bkt_idx node) cs pb ps); try done.
      intros b' i' Hin'.
      destruct (upd_sig_spec _ _ _ HB (n_cur_bkt_idx node) cs (sig_at B pb ps) b' i') as [E1 E2]; [done..|].
      destruct (upd_sig_spec _ _ _ HB (n_cur_bkt_idx node) cs (sig_at B pb ps) pb ps) as [_ E5]; [done..|].
      destruct (upd_idx_spec _ _ _ HB1 (n_cur_bkt_idx node) cs (idx_at B1 pb ps) b' i') as [E3 E4]; [done..|].
      fold B1 in E1, E2, E5. unfold B2. by rewrite E3, E4, E1, E2, E5.
  - exists B, c. split; [done|]. right. exists cs. rewrite <- Hprev. done.
Qed.

(** The three outcomes of a step of the search: still looking, done, or the
    attempt was refused with the table still in order. *)
Lemma move_insert_cases root queue B c b1 b2 (leaf : nat) node i :
  inv B -> queue_ok root queue -> queue !! leaf = Some node -> 0 <= i < 8 ->
  b1 = p \/ b1 = q -> b2 = p \/ b2 = q -> root = p \/ root = q ->
  idx_at B (n_cur_bkt_idx node) i = 0 ->
  exists B' c',
    (rte_hash_cuckoo_move_insert_mw (Datatypes.S fuel) (st B c l0) (Main b1) (Main b2) key data
       queue (Z.of_nat leaf) i s new_idx = Ret (st B' c' l0, 0, 0) /\ inserted B') \/
    (rte_hash_cuckoo_move_insert_mw (Datatypes.S fuel) (st B c l0) (Main b1) (Main b2) key data
       queue (Z.of_nat leaf) i s new_idx = Ret (st B' c' l0, -1, 0) /\ inv B').
Proof.
  intros Hinv Hq Hleaf Hi H1 H2 Hroot H0. pose proof Hinv as [HB Hpl].
  pose proof (Hq _ _ Hleaf) as (Hnb & Hr & _).
  assert (Hin : in_table N (n_cur_bkt_idx node) i) by done.
  unfold rte_hash_cuckoo_move_insert_mw.
  rewrite (rd_Ret _ _ node) by (lia || by rewrite Nat2Z.id). cbn [mbind outcome_bind].
  rewrite lock_st, Hnb. cbn [mbind outcome_bind].
  rewrite (get_idx_at N nx) by done. cbn [mbind outcome_bind]. change (buckets (st B c lk)) with B.
  rewrite H0. change (negb (0 =? EMPTY_SLOT)) with false. cbv iota.
  rewrite search_both_miss by done. cbn [mbind outcome_bind].
  destruct (move_path_ok root queue (length queue) B c lk node (n_cur_bkt_idx node) i leaf)
    as (B' & c' & HB' & [[E Hp']|(cs' & E & Hin' & Hp')]); try done.
  { apply lookup_lt_Some in Hleaf. lia. }
  { by apply placed_open. }
  - rewrite E. cbn [mbind outcome_bind]. rewrite unlock_st. exists B', c'. by right.
  - rewrite E. cbn [mbind outcome_bind].
    destruct (announce_st B' c' lk) as [c2 Ec]. rewrite Ec.
    destruct (put_entry B' c2 lk root cs' s new_idx HB' Hin') as (B2 & E2 & HB2 & Hpt).
    rewrite <- bind_assoc, E2. cbn [mbind outcome_bind]. rewrite unlock_st.
    exists B2, c2. left. split; [done|]. by apply (fill_inserted B' B2 root cs').
Qed.

(** *** The breadth-first search *)

Lemma queue_ok_snoc root queue node :
  queue_ok root queue -> node_ok root (Z.of_nat (length queue)) node ->
  queue_ok root (queue ++ [node]).
Proof.
  intros Hq Hn j nd Hj. apply lookup_app_Some in Hj as [Hj|[Hl Hj]]; [by apply Hq|].
  apply list_lookup_singleton_Some in Hj as [Hj <-].
  by replace j with (length queue) by lia.
Qed.

Section Search2.
Context (root b1 b2 : Z).
Hypothesis H1 : b1 = p \/ b1 = q.
Hypothesis H2 : b2 = p \/ b2 = q.
Hypothesis Hroot : root = p \/ root = q.

Lemma bfs_slot_cases queue B c (tail : nat) node i :
  inv B -> queue_ok root queue -> queue !! tail = Some node -> 0 <= i < 8 ->
  Z.of_nat (length queue) < RTE_HASH_BFS_QUEUE_MAX_LEN ->
  exists B' c',
    (bfs_slot (Datatypes.S fuel) (Main b1) (Main b2) key data s new_idx (Z.of_nat tail)
       (n_bkt node) (n_cur_bkt_idx node) (st B c l0) queue i =
       Ret (st B' c' l0, queue, Some (0, 0)) /\ inserted B') \/
    (exists nd, bfs_slot (Datatypes.S fuel) (Main b1) (Main b2) key data s new_idx (Z.of_nat tail)
       (n_bkt node) (n_cur_bkt_idx node) (st B c l0) queue i =
       Ret (st B' c' l0, queue ++ [nd], None) /\ inv B' /\ queue_ok root (queue ++ [nd])).
Proof.
  intros Hinv Hq Htail Hi Hlen. pose proof (Hq _ _ Htail) as (Hnb & Hr & _).
  assert (Hin : in_table N (n_cur_bkt_idx node) i) by done.
  pose proof (lookup_lt_Some _ _ _ Htail) as Htl.
  (* what follows a slot that did not end the search *)
  assert (Hpush : forall B' c', inv B' -> exists nd,
    (s' ← get_sig (st B' c' l0) (n_bkt node) i;
     let alt_idx := get_alt_bucket_index (st B' c' l0) (n_cur_bkt_idx node) s' in
     if Z.of_nat (length queue) <? RTE_HASH_BFS_QUEUE_MAX_LEN
     then Ret (st B' c' l0, queue ++ [Node (Main alt_idx) alt_idx (Some (Z.of_nat tail)) i],
               @None (Z * Z))
     else Undef) = Ret (st B' c' l0, queue ++ [nd], None) /\ queue_ok root (queue ++ [nd])).
  { intros B' c' [HB' _]. rewrite Hnb, (get_sig_at N nx) by done. cbn [mbind outcome_bind].
    cbv zeta. rewrite (proj2 (Z.ltb_lt _ _) Hlen). eexists. split; [done|].
    apply queue_ok_snoc; [done|]. split; [done|]. cbn [n_cur_bkt_idx n_prev n_prev_slot].
    split; [|lia]. unfold get_alt_bucket_index.
    change (bucket_bitmask (st B' c' l0)) with (bucket_bitmask h0).
    rewrite Hmask. by apply mask_range. }
  pose proof Hinv as [HB _]. unfold bfs_slot.
  replace (get_idx (st B c l0) (n_bkt node) i) with (Ret (idx_at B (n_cur_bkt_idx node) i))
    by (rewrite Hnb, (get_idx_at N nx) by done; done).
  cbn [mbind outcome_bind]. change EMPTY_SLOT with 0.
  destruct (Z.eqb_spec (idx_at B (n_cur_bkt_idx node) i) 0) as [E0|E0].
  - destruct (move_insert_cases root queue B c b1 b2 tail node i)
      as (B' & c' & [[E Hins]|[E Hinv']]); try done; rewrite E; cbn [mbind outcome_bind].
    + exists B', c'. by left.
    + exists B', c'. right. change (negb (-1 =? -1)) with false. cbv iota.
      destruct (Hpush B' c' Hinv') as (nd & En & Hqn). exists nd. done.
  - exists B, c. right. destruct (Hpush B c Hinv) as (nd & En & Hqn). exists nd. done.
Qed.

Lemma bfs_slots_cases n queue B c (tail : nat) node i :
  inv B -> queue_ok root queue -> queue !! tail = Some node ->
  0 <= i -> i + Z.of_nat n <= 8 ->
  Z.of_nat (length queue) + Z.of_nat n <= RTE_HASH_BFS_QUEUE_MAX_LEN ->
  exists B' c',
    ((exists queue', bfs_slots (Datatypes.S fuel) n (Main b1) (Main b2) key data s new_idx
        (Z.of_nat tail) (n_bkt node) (n_cur_bkt_idx node) (st B c l0) queue i =
        Ret (st B' c' l0, queue', Some (0, 0))) /\ inserted B') \/
    (exists nds, bfs_slots (Datatypes.S fuel) n (Main b1) (Main b2) key data s new_idx
       (Z.of_nat tail) (n_bkt node) (n_cur_bkt_idx node) (st B c l0) queue i =
       Ret (st B' c' l0, queue ++ nds, None) /\ length nds = n /\
       inv B' /\ queue_ok root (queue ++ nds)).
Proof.
  revert queue B c i; induction n as [|n IH]; intros queue B c i Hinv Hq Ht Hi0 Hi Hlen.
  - exists B, c. right. exists []. by rewrite app_nil_r.
  - cbn [bfs_slots].
    destruct (bfs_slot_cases queue B c tail node i)
      as (B1 & c1 & [[E Hins]|(nd & E & Hinv1 & Hq1)]); try done; try lia; rewrite E;
      cbn [mbind outcome_bind].
    + exists B1, c1. left. split; [by exists queue|done].
    + destruct (IH (queue ++ [nd]) B1 c1 (i + 1))
        as (B2 & c2 & [[[q2 E2] Hins]|(nds & E2 & Hl & Hinv2 & Hq2)]); try done; try lia.
      * by apply lookup_app_l_Some.
      * rewrite length_app. cbn. lia.
      * exists B2, c2. left. split; [by exists q2|done].
      * exists B2, c2. right. exists (nd :: nds). rewrite <- app_assoc in *.
        cbn [length app] in *. split; [done|]. by rewrite Hl.
Qed.

(** The search ends within the fuel: a pass moves [tail] on by one and appends
    eight nodes, and no pass starts with fewer than eight places left. *)
Lemma bfs_loop_cases n queue B c (tail : nat) :
  inv B -> queue_ok root queue -> (tail <= length queue)%nat ->
  (length queue <= 999)%nat -> (1000 - tail <= n)%nat ->
  exists B' c',
    (bfs_loop (Datatypes.S fuel) n (Main b1) (Main b2) key data s new_idx (Z.of_nat tail)
       (st B c l0) queue = Ret (st B' c' l0, 0, 0) /\ inserted B') \/
    (bfs_loop (Datatypes.S fuel) n (Main b1) (Main b2) key data s new_idx (Z.of_nat tail)
       (st B c l0) queue = Ret (st B' c' l0, - ENOSPC, 0) /\ inv B').
Proof.
  revert queue B c tail; induction n as [|n IH]; intros queue B c tail Hinv Hq Ht Hl Hn; [lia|].
  cbn [bfs_loop].
  change (RTE_HASH_BFS_QUEUE_MAX_LEN - RTE_HASH_BUCKET_ENTRIES) with 992.
  destruct (Z.eqb_spec (Z.of_nat tail) (Z.of_nat (length queue))) as [E|E];
    [exists B, c; by right|].
  destruct (Z.ltb_spec (Z.of_nat (length queue)) 992) as [Hlt|Hge]; [|exists B, c; by right].
  cbn [negb andb].
  destruct (lookup_lt_is_Some_2 queue tail) as [node Hnode]; [lia|].
  rewrite (rd_Ret _ _ node) by (lia || by rewrite Nat2Z.id). cbn [mbind outcome_bind].
  destruct (bfs_slots_cases N_ENTRIES queue B c tail node 0)
    as (B1 & c1 & [[[q1 E1] Hins]|(nds & E1 & Hnl & Hinv1 & Hq1)]); try done; try lia.
  - change (Z.of_nat N_ENTRIES) with 8. change RTE_HASH_BFS_QUEUE_MAX_LEN with 1000. lia.
  - rewrite E1. cbn [mbind outcome_bind]. exists B1, c1. by left.
  - rewrite E1. cbn [mbind outcome_bind]. change N_ENTRIES with 8%nat in Hnl.
    replace (Z.of_nat tail + 1) with (Z.of_nat (Datatypes.S tail)) by lia.
    apply IH; try done; rewrite ?length_app; lia.
Qed.

Lemma make_space_cases B c :
  inv B -> b1 = root ->
  exists B' c',
    (rte_hash_cuckoo_make_space_mw (Datatypes.S fuel) (st B c l0) (Main b1) (Main b2) key data s
       root new_idx = Ret (st B' c' l0, 0, 0) /\ inserted B') \/
    (rte_hash_cuckoo_make_space_mw (Datatypes.S fuel) (st B c l0) (Main b1) (Main b2) key data s
       root new_idx = Ret (st B' c' l0, - ENOSPC, 0) /\ inv B').
Proof.
  intros Hinv Hb. unfold rte_hash_cuckoo_make_space_mw.
  apply (bfs_loop_cases (Z.to_nat RTE_HASH_BFS_QUEUE_MAX_LEN) _ B c 0); try done.
  - intros j node Hj. apply list_lookup_singleton_Some in Hj as [-> <-].
    pose proof two_buckets as [Hp Hq]. split; [by rewrite Hb|]. split; [|done].
    cbn [n_cur_bkt_idx]. destruct Hroot as [-> | ->]; done.
  - cbn. lia.
  - cbn. lia.
Qed.
End Search2.

(** The three attempts in their order: primary bucket, a path from the primary
    bucket, a path from the secondary one. *)
Lemma attempts_cases B c :
  inv B ->
  exists B' c' (ok : bool),
    (forall (Z0 Z2 : rte_hash -> outcome (rte_hash * Z)) (Z1 W : rte_hash -> Z -> outcome (rte_hash * Z)),
      ('(h, ret, ret_val) ← rte_hash_cuckoo_insert_mw (Datatypes.S fuel) (st B c l0) (Main p) (Main q)
         key data s new_idx;
       if ret =? 0 then Z0 h
       else if ret =? 1 then W h ret_val
       else
         '(h, ret, ret_val) ← rte_hash_cuckoo_make_space_mw (Datatypes.S fuel) h (Main p) (Main q)
           key data s p new_idx;
         if ret =? 0 then Z0 h
         else if ret =? 1 then W h ret_val
         else
           '(h, ret, ret_val) ← rte_hash_cuckoo_make_space_mw (Datatypes.S fuel) h (Main q) (Main p)
             key data s q new_idx;
           if ret =? 0 then Z0 h
           else if ret =? 1 then W h ret_val
           else if negb (ext_table_support h) then Z1 h ret else Z2 h) =
      if ok then Z0 (st B' c' l0)
      else if negb (ext_table_support h0) then Z1 (st B' c' l0) (- ENOSPC) else Z2 (st B' c' l0)) /\
    (if ok then inserted B' else inv B' /\ full B p).
Proof.
  intros Hinv.
  destruct (insert_mw_cases B c Hinv) as [(B1 & E1 & Hins)|[E1 Hfull]].
  { exists B1, c, true. split; [intros; by rewrite E1|done]. }
  destruct (make_space_cases p p q (or_introl eq_refl) (or_intror eq_refl) (or_introl eq_refl)
    B c Hinv eq_refl) as (B2 & c2 & [[E2 Hins]|[E2 Hinv2]]).
  { exists B2, c2, true. split; [intros; by rewrite E1; cbn [mbind outcome_bind]; rewrite E2|done]. }
  destruct (make_space_cases q q p (or_intror eq_refl) (or_introl eq_refl) (or_intror eq_refl)
    B2 c2 Hinv2 eq_refl) as (B3 & c3 & [[E3 Hins]|[E3 Hinv3]]).
  - exists B3, c3, true. split; [|done]. intros. rewrite E1. cbn [mbind outcome_bind].
    change (-1 =? 0) with false. change (-1 =? 1) with false. cbv iota. rewrite E2.
    cbn [mbind outcome_bind]. change (- ENOSPC =? 0) with false.
    change (- ENOSPC =? 1) with false. cbv iota. by rewrite E3.
  - exists B3, c3, false. split; [|done]. intros. rewrite E1. cbn [mbind outcome_bind].
    change (-1 =? 0) with false. change (-1 =? 1) with false. cbv iota. rewrite E2.
    cbn [mbind outcome_bind]. change (- ENOSPC =? 0) with false.
    change (- ENOSPC =? 1) with false. cbv iota. rewrite E3. cbn [mbind outcome_bind].
    change (- ENOSPC =? 0) with false. change (- ENOSPC =? 1) with false. cbv iota. done.
Qed.
End Insert.

(** ** The ring of free slots *)

Definition plain_sync (r : rte_ring) : Prop :=
  ht_sync_type (r_prod r) <> RTE_RING_SYNC_MT_RTS /\
  ht_sync_type (r_cons r) <> RTE_RING_SYNC_MT_RTS.

Lemma dequeue_word_empty fuel r x :
  ring_wf 4 r -> plain_sync r -> contents 4 r = [] ->
  rte_ring_sc_dequeue_elem fuel r [x] 4 = Ret (r, [x], - ENOENT).
Proof.
  intros Hwf [_ Hs] Hc. pose proof (contents_length _ _ Hwf) as Hl. rewrite Hc in Hl.
  change (4 / 4) with 1 in Hl. cbn in Hl.
  unfold rte_ring_sc_dequeue_elem, rte_ring_sc_dequeue_bulk_elem.
  rewrite do_dequeue_plain by (done || (cbn; lia)). unfold deq_result, clip.
  replace (used r) with 0 by lia. cbn. unfold deq_table. rewrite ring_load_nil by lia. done.
Qed.

Lemma dequeue_word fuel r x v rest :
  ring_wf 4 r -> plain_sync r -> contents 4 r = v :: rest ->
  exists r', rte_ring_sc_dequeue_elem fuel r [x] 4 = Ret (r', [v], 0) /\
    ring_wf 4 r' /\ plain_sync r' /\ contents 4 r' = rest /\ r_capacity r' = r_capacity r.
Proof.
  intros Hwf [Hsp Hs] Hc. pose proof (contents_length _ _ Hwf) as Hl. rewrite Hc in Hl.
  change (4 / 4) with 1 in Hl. cbn [length] in Hl.
  unfold rte_ring_sc_dequeue_elem, rte_ring_sc_dequeue_bulk_elem.
  rewrite do_dequeue_plain by (done || (cbn; lia)). unfold deq_result, clip.
  destruct (Z.gtb_spec 1 (used r)); [lia|]. cbn [mbind outcome_bind].
  assert (H1 : 0 <= 1 <= used r) by lia.
  pose proof (contents_deq 4 r Hwf 1 H1) as Hd. rewrite Hc in Hd. unfold deq_table.
  pose proof (ring_load_length (r_mem r) (ht_tail (r_cons r) * (4 / 4)) (1 * (4 / 4))) as Hll.
  destruct (ring_load (r_mem r) (ht_tail (r_cons r) * (4 / 4)) (1 * (4 / 4))) as [|v' [|? ?]];
    try discriminate Hll. injection Hd as -> Hrest.
  eexists. split; [done|]. split; [by apply deq_after_wf|].
  split; [split; [done|by cbn; rewrite advance_sync]|]. split; [done|done].
Qed.

Lemma enqueue_word fuel r v :
  ring_wf 4 r -> plain_sync r -> Z.of_nat (length (contents 4 r)) < r_capacity r ->
  exists r', rte_ring_sp_enqueue_elem fuel r [v] 4 = Ret (r', 0) /\
    ring_wf 4 r' /\ plain_sync r' /\ contents 4 r' = contents 4 r ++ [v] /\
    r_capacity r' = r_capacity r.
Proof.
  intros Hwf [Hsp Hs] Hc. pose proof (contents_length _ _ Hwf) as Hl.
  change (4 / 4) with 1 in Hl. pose proof (used_range r).
  unfold rte_ring_sp_enqueue_elem, rte_ring_sp_enqueue_bulk_elem.
  rewrite do_enqueue_plain by (done || (cbn; lia)). unfold enq_result, clip.
  destruct (Z.gtb_spec 1 (r_capacity r - used r)); [lia|]. cbn [mbind outcome_bind].
  assert (H1 : 0 <= 1 <= r_capacity r - used r) by lia.
  eexists. split; [done|]. split; [by apply enq_after_wf|].
  split; [split; [by cbn; rewrite advance_sync|done]|]. split; [|done].
  by rewrite contents_enq by (done || (cbn; lia)).
Qed.
