(* ===== verification/CuckooExt.v ===== *)
(** * Extendable buckets: chains behind the main buckets

    When the two buckets of a key are full and no path of moves frees a slot,
    [__rte_hash_add_key_with_hash] appends to the secondary bucket a chain of buckets of
    [buckets_ext]. [C b] is the chain of main bucket [b]; an index stored in a chain is in
    the chain of its secondary bucket. *)

From S2P Require Import Prelude Common Atomic RingCore RingCopy RingElem RingSpec.
From S2P Require Import Locks Cuckoo CuckooSpec.

Open Scope Z_scope.

(** ** Chains *)

Definition next_in (l : list Z) : option bref := match l with [] => None | e :: _ => Some (ExtB e) end.

(** The buckets of the list are linked in its order. *)
Fixpoint linked (E : list rte_hash_bucket) (l : list Z) : Prop :=
  match l with
  | [] => True
  | e :: l => 0 <= e < Z.of_nat (length E) /\ b_next (bkt_at E e) = next_in l /\ linked E l
  end.

Record chains_ok (N : Z) (C : Z -> list Z) (E : list rte_hash_bucket) : Prop := {
  ch_slots : table_shape (Z.of_nat (length E)) (fun e => b_next (bkt_at E e)) E;
  ch_linked : forall b, 0 <= b < N -> linked E (C b);
  ch_nodup : forall b, 0 <= b < N -> NoDup (C b);
  ch_once : forall b b' e, 0 <= b < N -> 0 <= b' < N -> e ∈ C b -> e ∈ C b' -> b = b';
}.

Lemma linked_in E l e : linked E l -> e ∈ l -> 0 <= e < Z.of_nat (length E).
Proof.
  induction l as [|e' l IH]; intros Hl Hin; [by apply elem_of_nil in Hin|].
  destruct Hl as (He & _ & Hl). apply elem_of_cons in Hin as [->|Hin]; auto.
Qed.

(** Writing buckets whose links stay, or that are not in the list, does not unlink it. *)
Lemma linked_ext E E' l : length E' = length E ->
  (forall e, e ∈ l -> b_next (bkt_at E' e) = b_next (bkt_at E e)) -> linked E l -> linked E' l.
Proof.
  intros Hlen. induction l as [|e l IH]; intros Hn Hl; [done|]. destruct Hl as (He & Hne & Hl).
  split; [by rewrite Hlen|]. split; [by rewrite Hn by left|]. apply IH; [|done]. intros. apply Hn. by right.
Qed.

(** There are at most as many buckets in a chain as there are extendable buckets. *)
Lemma chain_bound N C E b : chains_ok N C E -> 0 <= b < N -> (length (C b) <= length E)%nat.
Proof.
  intros HC Hb. assert (Hr : forall e, e ∈ C b -> e ∈ seqZ 0 (Z.of_nat (length E))).
  { intros e He. apply elem_of_seqZ. pose proof (linked_in _ _ _ (ch_linked _ _ _ HC b Hb) He). lia. }
  pose proof (submseteq_length _ _ (NoDup_submseteq _ _ (ch_nodup _ _ _ HC b Hb) Hr)) as Hs.
  rewrite length_seqZ in Hs. lia.
Qed.

Section Walk.
Context {A : Type} (h : rte_hash) (body : rte_hash -> bref -> outcome (rte_hash * option A)).

(** A walk along a chain whose body finds nothing. *)
Lemma walk_none fuel l : linked (buckets_ext h) l -> (length l <= fuel)%nat ->
  (forall e, e ∈ l -> body h (ExtB e) = Ret (h, None)) ->
  for_each_bucket fuel h (next_in l) body = Ret (h, None).
Proof.
  revert fuel. induction l as [|e l IH]; intros fuel Hl Hf Hb; [by destruct fuel|].
  destruct Hl as (He & Hn & Hl). destruct fuel as [|fuel]; cbn in Hf; [lia|]. cbn [next_in for_each_bucket].
  rewrite Hb by left. cbn [mbind outcome_bind]. unfold get_bkt.
  rewrite (rd_Ret _ _ (bkt_at (buckets_ext h) e)) by (lia || (apply list_lookup_lookup_total_lt; lia)).
  cbn [mbind outcome_bind]. rewrite Hn. apply IH; [done|lia|]. intros. apply Hb. by right.
Qed.

(** A walk that ends at the first bucket where the body finds something. *)
Lemma walk_some fuel l1 e l2 h' a : linked (buckets_ext h) (l1 ++ e :: l2) -> (length l1 < fuel)%nat ->
  (forall e', e' ∈ l1 -> body h (ExtB e') = Ret (h, None)) -> body h (ExtB e) = Ret (h', Some a) ->
  for_each_bucket fuel h (next_in (l1 ++ e :: l2)) body = Ret (h', Some a).
Proof.
  revert fuel. induction l1 as [|e1 l1 IH]; intros fuel Hl Hf Hb Ha; (destruct fuel as [|fuel]; cbn in Hf; [lia|]);
    cbn [app next_in for_each_bucket].
  - by rewrite Ha.
  - destruct Hl as (He & Hn & Hl). rewrite Hb by left. cbn [mbind outcome_bind]. unfold get_bkt.
    rewrite (rd_Ret _ _ (bkt_at (buckets_ext h) e1)) by (lia || (apply list_lookup_lookup_total_lt; lia)).
    cbn [mbind outcome_bind]. rewrite Hn. apply IH; [done|lia| |done]. intros. apply Hb. by right.
Qed.
End Walk.

(** ** What the chains hold *)

Section Placed.
Context (k0 : Z).
Let N := 2 ^ k0.
Let mask := 2 ^ k0 - 1.

Definition sec_of (hash : Z) : Z := alt_of (2 ^ k0 - 1) (prim_of (2 ^ k0 - 1) hash) (get_short_sig hash).

(** Slot [i] of bucket [e] of the chain of [b]. *)
Definition in_chain (C : Z -> list Z) (b e i : Z) : Prop := 0 <= b < 2 ^ k0 /\ e ∈ C b /\ 0 <= i < 8.

Record ext_placed (hs : Z -> Z) (S : Z -> Prop) (C : Z -> list Z) (E : list rte_hash_bucket) : Prop := {
  ep_valid : forall b e i, in_chain C b e i -> idx_at E e i <> 0 ->
    S (idx_at E e i) /\ sig_at E e i = get_short_sig (hs (idx_at E e i)) /\ b = sec_of (hs (idx_at E e i));
  ep_cover : forall k, S k -> exists b e i, in_chain C b e i /\ idx_at E e i = k;
  ep_uniq : forall b e i b' e' i', in_chain C b e i -> in_chain C b' e' i' ->
    idx_at E e i <> 0 -> idx_at E e i = idx_at E e' i' -> (e, i) = (e', i');
  ep_nonzero : ~ S 0;
}.

Lemma ext_placed_hash hs hs' S C E : (forall k, S k -> hs' k = hs k) -> ext_placed hs S C E -> ext_placed hs' S C E.
Proof.
  intros Hs [Hv Hc Hu Hz]. split; try done. intros b e i Hin H0. destruct (Hv b e i Hin H0) as (HS & ?).
  by rewrite Hs.
Qed.

Lemma placed_hash hs hs' S B : (forall k, S k -> hs' k = hs k) -> placed_ok k0 hs S B None -> placed_ok k0 hs' S B None.
Proof.
  intros Hs [Hv Hc Hu Hz]. split; try done. intros b i Hin Hh H0. destruct (Hv b i Hin Hh H0) as (HS & Hval).
  split; [done|]. unfold valid_at. by rewrite Hs.
Qed.

Section Fill.
Context (hs : Z -> Z) (S : Z -> Prop) (C C' : Z -> list Z) (E E' : list rte_hash_bucket) (e m k hash : Z).
Hypotheses (Hk : k <> 0) (HnS : ~ S k) (Hm : 0 <= m < 8) (Hb : 0 <= sec_of hash < 2 ^ k0).
Hypothesis HE : forall e' i', 0 <= i' < 8 -> e' = e \/ (exists b, 0 <= b < 2 ^ k0 /\ e' ∈ C b) ->
  idx_at E' e' i' = (if (e' =? e) && (i' =? m) then k else idx_at E e' i') /\
  sig_at E' e' i' = (if (e' =? e) && (i' =? m) then get_short_sig hash else sig_at E e' i').
(** The chains are the old ones, and [e] is in that of the key's secondary bucket. *)
Hypothesis HC : forall b e', 0 <= b < 2 ^ k0 -> e' ∈ C' b <-> e' ∈ C b \/ (b = sec_of hash /\ e' = e).
Hypothesis Hfree : forall i, 0 <= i < 8 -> (exists b, 0 <= b < 2 ^ k0 /\ e ∈ C b) /\ idx_at E e m = 0 \/ idx_at E e i = 0.

Lemma ext_placed_fill : (forall b, 0 <= b < 2 ^ k0 -> e ∈ C b -> b = sec_of hash) -> ext_placed hs S C E ->
  ext_placed (fun j => if j =? k then hash else hs j) (fun j => S j \/ j = k) C' E'.
Proof.
  intros Hsec [Hv Hc Hu Hz].
  (* a slot of the new chains is the new one, or an old slot with its old content, or empty *)
  assert (Hsrc : forall b e' i', in_chain C' b e' i' -> idx_at E' e' i' <> 0 ->
    ((e', i') = (e, m) /\ b = sec_of hash /\ idx_at E' e' i' = k /\ sig_at E' e' i' = get_short_sig hash) \/
    ((e', i') <> (e, m) /\ in_chain C b e' i' /\ idx_at E' e' i' = idx_at E e' i' /\ sig_at E' e' i' = sig_at E e' i')).
  { intros b e' i' (Hb' & Hin & Hi) H0. apply HC in Hin; [|done].
    assert (Hor : e' = e \/ (exists b, 0 <= b < 2 ^ k0 /\ e' ∈ C b)) by (destruct Hin as [Hin|[_ ->]]; [right; by exists b|by left]).
    destruct (HE e' i' Hi Hor) as [E1 E2]. destruct (Z.eqb_spec e' e) as [->|Hne]; cbn in E1, E2.
    - assert (b = sec_of hash) as -> by (destruct Hin as [Hin|[-> _]]; [by apply Hsec|done]).
      destruct (Z.eqb_spec i' m) as [->|Hni]; [by left|]. right. split; [congruence|]. split; [|done].
      destruct Hin as [Hin|_]; [done|]. destruct (Hfree i' Hi) as [[(b & Hb2 & Hin) _]|H]; [|congruence].
      by rewrite <- (Hsec b Hb2 Hin).
    - right. split; [congruence|]. split; [|done]. destruct Hin as [Hin|[_ ?]]; done. }
  assert (Hnew : in_chain C' (sec_of hash) e m /\ idx_at E' e m = k).
  { split; [|by destruct (HE e m Hm (or_introl eq_refl)) as [-> _]; rewrite !Z.eqb_refl].
    split; [done|]. split; [|done]. apply HC; [done|by right]. }
  split.
  - intros b e' i' Hin H0. destruct (Hsrc b e' i' Hin H0) as [(_ & -> & -> & ->)|(_ & Hin' & E1 & E2)].
    + rewrite Z.eqb_refl. auto.
    + rewrite E1, E2 in *. destruct (Hv b e' i' Hin' H0) as (HS & Hs & Hb').
      destruct (Z.eqb_spec (idx_at E e' i') k) as [Ek|]; [by rewrite Ek in HS|]. auto.
  - intros j [Hj| ->]; [|by exists (sec_of hash), e, m]. destruct (Hc j Hj) as (b & e' & i' & (Hb' & Hin & Hi) & Ej).
    exists b, e', i'. split; [split; [done|]; split; [apply HC; [done|by left]|done]|].
    destruct (HE e' i' Hi) as [E1 _]; [right; by exists b|].
    destruct (Z.eqb_spec e' e) as [->|], (Z.eqb_spec i' m) as [->|]; cbn in E1; try congruence.
    exfalso. destruct (Hfree m Hm) as [[_ H]|H]; congruence.
  - intros b1 e1 i1 b2 e2 i2 Hin1 Hin2 H0 Eq.
    destruct (Hsrc b1 e1 i1 Hin1 H0) as [(-> & _ & Ek1 & _)|(_ & Hc1 & E1 & _)],
      (Hsrc b2 e2 i2 Hin2 ltac:(congruence)) as [(-> & _ & Ek2 & _)|(_ & Hc2 & E2 & _)]; [done|..].
    + exfalso. apply HnS. rewrite <- Ek1, Eq, E2. apply (Hv b2 e2 i2 Hc2). congruence.
    + exfalso. apply HnS. rewrite <- Ek2, <- Eq, E1. apply (Hv b1 e1 i1 Hc1). congruence.
    + rewrite E1, E2 in *. eauto.
  - intros [?|?]; [done|congruence].
Qed.
End Fill.
End Placed.

(** ** Linking a bucket *)

Definition set_next (B : list rte_hash_bucket) (b : Z) (r : bref) : list rte_hash_bucket :=
  <[Z.to_nat b := Bucket (sig_current (bkt_at B b)) (key_idx (bkt_at B b)) (Some r)]> B.

Section SetNext.
Context (N : Z) (nx : Z -> option bref) (B : list rte_hash_bucket) (b : Z) (r : bref).
Hypotheses (HB : table_shape N nx B) (Hb : 0 <= b < N).

Lemma set_next_at b' : 0 <= b' < N ->
  (forall i, idx_at (set_next B b r) b' i = idx_at B b' i) /\
  (forall i, sig_at (set_next B b r) b' i = sig_at B b' i) /\
  b_next (bkt_at (set_next B b r) b') = if b' =? b then Some r else nx b'.
Proof.
  intros Hb'. unfold idx_at, sig_at, set_next. rewrite (bkt_insert N nx) by done.
  destruct (Z.eqb_spec b' b) as [->|]; [done|]. split; [done|]. split; [done|]. by apply (bkt_shape N nx).
Qed.

Lemma set_next_shape : table_shape N (fun b' => if b' =? b then Some r else nx b') (set_next B b r).
Proof.
  split; [unfold set_next; rewrite length_insert; apply HB|]. intros b' Hb'. destruct (set_next_at b' Hb') as (_ & _ & ->).
  destruct (bkt_shape N nx B HB b' Hb') as (H1 & H2 & _). unfold set_next. rewrite (bkt_insert N nx) by done.
  destruct (Z.eqb_spec b' b) as [->|]; done.
Qed.
End SetNext.

(** Every array of buckets with their eight slots has a shape. *)
Lemma own_shape N nx B : table_shape N nx B -> table_shape N (fun b => b_next (bkt_at B b)) B.
Proof. intros [Hl H]. split; [done|]. intros b Hb. by destruct (H b Hb) as (? & ? & _). Qed.

Definition add_link (C : Z -> list Z) (q e : Z) : Z -> list Z := fun b => if b =? q then C q ++ [e] else C b.
Definition link_last (C : Z -> list Z) (E : list rte_hash_bucket) (q e : Z) : list rte_hash_bucket :=
  match last (C q) with None => E | Some x => set_next E x (ExtB e) end.

Lemma linked_snoc E l x e : linked E (l ++ [x]) -> NoDup (l ++ [x]) -> 0 <= e < Z.of_nat (length E) ->
  table_shape (Z.of_nat (length E)) (fun b => b_next (bkt_at E b)) E ->
  e <> x -> b_next (bkt_at E e) = None -> linked (set_next E x (ExtB e)) ((l ++ [x]) ++ [e]).
Proof.
  intros Hl Hn He HE Hex Hne. assert (Hlen : length (set_next E x (ExtB e)) = length E) by apply length_insert.
  assert (Hx : 0 <= x < Z.of_nat (length E)) by (eapply linked_in; [exact Hl|apply elem_of_app; right; left]).
  assert (Hat : forall b', 0 <= b' < Z.of_nat (length E) -> b' <> x ->
    b_next (bkt_at (set_next E x (ExtB e)) b') = b_next (bkt_at E b')).
  { intros b' Hb' Hd. destruct (set_next_at _ _ E x (ExtB e) HE Hx b' Hb') as (_ & _ & ->). by rewrite (proj2 (Z.eqb_neq _ _) Hd). }
  induction l as [|y l IH]; cbn [app linked next_in] in *.
  - rewrite Hlen. destruct (set_next_at _ _ E x (ExtB e) HE Hx x Hx) as (_ & _ & ->). rewrite Z.eqb_refl, Hat by done. done.
  - destruct Hl as (Hy & Hny & Hl). apply NoDup_cons in Hn as [Hyn Hn]. rewrite Hlen. split; [done|]. split; [|by apply IH].
    rewrite Hat; [rewrite Hny; by destruct l|done|]. intros ->. apply Hyn. apply elem_of_app. right. left.
Qed.

Lemma chains_link N C E q e : chains_ok N C E -> 0 <= q < N -> 0 <= e < Z.of_nat (length E) ->
  (forall b, 0 <= b < N -> ~ (e ∈ C b)) -> b_next (bkt_at E e) = None ->
  chains_ok N (add_link C q e) (link_last C E q e).
Proof.
  intros [HE Hl Hn Ho] Hq He Hfree Hne. unfold link_last, add_link.
  assert (Hcase : C q = [] /\ last (C q) = None \/ exists l x, C q = l ++ [x] /\ last (C q) = Some x).
  { destruct (C q) as [|y l] using rev_ind; [by left|right]. exists l, y. by rewrite last_snoc. }
  assert (Hshape : table_shape (Z.of_nat (length (match last (C q) with None => E | Some x => set_next E x (ExtB e) end)))
    (fun b => b_next (bkt_at (match last (C q) with None => E | Some x => set_next E x (ExtB e) end) b))
    (match last (C q) with None => E | Some x => set_next E x (ExtB e) end)).
  { destruct Hcase as [[_ ->]|(l & x & Ec & ->)]; [done|]. unfold set_next at 1. rewrite length_insert. eapply own_shape, set_next_shape; [exact HE|].
    apply (linked_in E (C q)); [by apply Hl|]. rewrite Ec. apply elem_of_app. right. left. }
  split; [exact Hshape|..].
  - intros b Hb. destruct (Z.eqb_spec b q) as [->|Hbq].
    + destruct Hcase as [[-> ->]|(l & x & Ec & ->)]; [done|]. pose proof (Hl q Hq) as Hlq. pose proof (Hn q Hq) as Hnq.
      rewrite Ec in *. apply linked_snoc; try done. intros ->. apply (Hfree q Hq). rewrite Ec. apply elem_of_app. right. left.
    + destruct Hcase as [[_ ->]|(l & x & Ec & ->)]; [by apply Hl|]. apply (linked_ext E); [apply length_insert| |by apply Hl].
      intros e' He'. assert (Hx : x ∈ C q) by (rewrite Ec; apply elem_of_app; right; left).
      destruct (set_next_at _ _ E x (ExtB e) HE (linked_in _ _ _ (Hl q Hq) Hx) e' (linked_in _ _ _ (Hl b Hb) He')) as (_ & _ & ->).
      destruct (Z.eqb_spec e' x) as [->|]; [|done]. by destruct (Hbq (Ho b q x Hb Hq He' Hx)).
  - intros b Hb. destruct (Z.eqb_spec b q) as [->|]; [|by apply Hn]. apply NoDup_app. split; [by apply Hn|]. split; [|apply NoDup_singleton].
    intros y Hy ->%list_elem_of_singleton. by apply (Hfree q Hq).
  - intros b b' y Hb Hb' Hy Hy'. destruct (Z.eqb_spec b q) as [->|], (Z.eqb_spec b' q) as [->|]; [done|..|by eapply Ho].
    + apply elem_of_app in Hy as [Hy| ->%list_elem_of_singleton]; [by apply (Ho q b' y)|]. by destruct (Hfree b' Hb').
    + apply elem_of_app in Hy' as [Hy'| ->%list_elem_of_singleton]; [by apply (Ho b q y)|]. by destruct (Hfree b Hb).
Qed.

(** The walk to the last bucket. *)
Lemma get_last_spec fuel h r v l : get_bkt h r = Ret v -> b_next v = next_in l -> linked (buckets_ext h) l ->
  (length l <= fuel)%nat ->
  rte_hash_get_last_bkt fuel h r = Ret (match last l with None => r | Some e => ExtB e end).
Proof.
  unfold rte_hash_get_last_bkt. revert fuel r v. induction l as [|e l IH]; intros fuel r v Hv Hn Hl Hf.
  - apply do_while_once. rewrite Hv. cbn [mbind outcome_bind]. by rewrite Hn.
  - destruct fuel as [|fuel]; cbn in Hf; [lia|]. cbn [do_while]. rewrite Hv. cbn [mbind outcome_bind]. rewrite Hn.
    cbn [next_in mbind outcome_bind]. destruct Hl as (He & Hne & Hl).
    rewrite (IH fuel (ExtB e) (bkt_at (buckets_ext h) e)); [|..|done|lia].
    + rewrite last_cons. by destruct (last l).
    + apply rd_Ret; [lia|]. apply list_lookup_lookup_total_lt. lia.
    + done.
Qed.

(** ** The code on a chain *)

Lemma search_ext_miss h data key s e :
  table_shape (Z.of_nat (length (buckets_ext h))) (fun b => b_next (bkt_at (buckets_ext h) b)) (buckets_ext h) ->
  store_ok h -> (8 <= length key)%nat -> 0 <= e < Z.of_nat (length (buckets_ext h)) ->
  (forall i, 0 <= i < 8 -> in_store h (idx_at (buckets_ext h) e i)) ->
  (forall i, 0 <= i < 8 -> ~ slot_match (buckets_ext h) h key s e i) ->
  search_and_update h data key (ExtB e) s = Ret (h, -1).
Proof.
  intros HE Hs Hk He Hi Hno. apply (search_miss _ _ _ _ (ExtB e) (buckets_ext h) e); try done.
  - intros i Hr. by apply (get_sig_ext _ _ h HE).
  - intros i Hr. by apply (get_idx_ext _ _ h HE).
Qed.

(** The scan of a bucket for an empty slot, as [add_ext] has it. *)
Definition scan_bucket (sg k : Z) (h : rte_hash) (r : bref) : outcome (rte_hash * option Z) :=
  for_entries N_ENTRIES 0 h (fun h i =>
    idx ← get_idx h r i;
    if idx =? EMPTY_SLOT then
      h ← put_sig h r i sg; h ← put_idx h r i k; Ret (h, Some (i32 (k - 1)))
    else Ret (h, None)).

Definition upd_slot (E : list rte_hash_bucket) (e m sg k : Z) : list rte_hash_bucket := upd_idx (upd_sig E e m sg) e m k.

Lemma upd_slot_at M nx E e m sg k e' i' : table_shape M nx E -> in_table M e m -> in_table M e' i' ->
  idx_at (upd_slot E e m sg k) e' i' = (if (e' =? e) && (i' =? m) then k else idx_at E e' i') /\
  sig_at (upd_slot E e m sg k) e' i' = (if (e' =? e) && (i' =? m) then sg else sig_at E e' i').
Proof.
  intros HE Hin Hin'. assert (HE1 : table_shape M nx (upd_sig E e m sg)) by by apply upd_sig_shape, Hin.
  unfold upd_slot. destruct (upd_idx_spec _ _ _ HE1 e m k e' i') as [-> ->]; [done..|].
  destruct (upd_sig_spec _ _ _ HE e m sg e' i') as [-> ->]; done.
Qed.

Lemma upd_slot_shape M nx E e m sg k : table_shape M nx E -> 0 <= e < M -> table_shape M nx (upd_slot E e m sg k).
Proof. intros HE He. apply upd_idx_shape; [|done]. by apply upd_sig_shape. Qed.

Section Scan.
Context (h : rte_hash) (sg k : Z).
Let E := buckets_ext h.
Hypothesis HE : table_shape (Z.of_nat (length E)) (fun b => b_next (bkt_at E b)) E.

Lemma put_slot_ext e m : in_table (Z.of_nat (length E)) e m ->
  (h ← put_sig h (ExtB e) m sg; put_idx h (ExtB e) m k) = Ret (set_buckets_ext (upd_slot E e m sg k) h).
Proof.
  intros Hin. rewrite (put_sig_ext _ _ h HE) by done. cbn [mbind outcome_bind].
  rewrite (put_idx_ext (Z.of_nat (length E)) (fun b => b_next (bkt_at E b))); [done| |done].
  by apply upd_sig_shape, Hin.
Qed.

Lemma scan_ext e : 0 <= e < Z.of_nat (length E) ->
  (exists m, 0 <= m < 8 /\ idx_at E e m = 0 /\
     scan_bucket sg k h (ExtB e) = Ret (set_buckets_ext (upd_slot E e m sg k) h, Some (i32 (k - 1)))) \/
  ((forall j, 0 <= j < 8 -> idx_at E e j <> 0) /\ scan_bucket sg k h (ExtB e) = Ret (h, None)).
Proof.
  intros He. set (body := fun (h : rte_hash) (i : Z) =>
    idx ← get_idx h (ExtB e) i;
    if idx =? EMPTY_SLOT then h ← put_sig h (ExtB e) i sg; h ← put_idx h (ExtB e) i k; Ret (h, Some (i32 (k - 1)))
    else Ret (h, None)).
  assert (Hfull : forall j, 0 <= j < 8 -> idx_at E e j <> 0 -> body h j = Ret (h, None)).
  { intros j Hj Hne. unfold body. rewrite (get_idx_ext _ _ h HE) by done. cbn [mbind outcome_bind].
    fold E. change EMPTY_SLOT with 0. by rewrite (proj2 (Z.eqb_neq _ _) Hne). }
  destruct (first_slot (fun j => idx_at E e j = 0) (fun j => Z.eq_dec _ _) 8) as [(m & Hm & H0 & Hj)|Hno].
  - left. exists m. split; [done|]. split; [done|]. apply (for_entries_some _ _ _ body m); [done|..].
    + intros j Hjm. apply Hfull; [lia|by apply Hj].
    + unfold body. rewrite (get_idx_ext _ _ h HE) by done. cbn [mbind outcome_bind]. fold E. rewrite H0.
      change (0 =? EMPTY_SLOT) with true. cbv iota. rewrite <- bind_assoc, put_slot_ext by done. done.
  - right. split; [intros j Hj; by apply Hno|]. apply (for_entries_none _ _ _ body). intros j Hj.
    change (Z.of_nat N_ENTRIES) with 8 in Hj. apply Hfull; [lia|apply Hno; lia].
Qed.

(** The scan of a chain: its first bucket with an empty slot, or nothing. *)
Lemma scan_chain fuel l : linked E l -> (length l <= fuel)%nat ->
  (exists e m, e ∈ l /\ 0 <= m < 8 /\ idx_at E e m = 0 /\
     for_each_bucket fuel h (next_in l) (scan_bucket sg k) = Ret (set_buckets_ext (upd_slot E e m sg k) h, Some (i32 (k - 1)))) \/
  (forall e j, e ∈ l -> 0 <= j < 8 -> idx_at E e j <> 0) /\ for_each_bucket fuel h (next_in l) (scan_bucket sg k) = Ret (h, None).
Proof.
  intros Hl Hf.
  assert (Hsplit : (forall e, e ∈ l -> (forall j, 0 <= j < 8 -> idx_at E e j <> 0) /\ scan_bucket sg k h (ExtB e) = Ret (h, None)) \/
    exists l1 e l2 m, l = l1 ++ e :: l2 /\ 0 <= m < 8 /\ idx_at E e m = 0 /\ (forall e', e' ∈ l1 -> scan_bucket sg k h (ExtB e') = Ret (h, None)) /\
      scan_bucket sg k h (ExtB e) = Ret (set_buckets_ext (upd_slot E e m sg k) h, Some (i32 (k - 1)))).
  { clear Hf. induction l as [|e l IH]; [left; by intros e ?%elem_of_nil|]. destruct Hl as (He & _ & Hl).
    destruct (scan_ext e He) as [(m & Hm & H0 & Es)|[Hno Es]].
    { right. exists [], e, l, m. split; [done|]. split; [done|]. split; [done|]. split; [by intros e' ?%elem_of_nil|done]. }
    destruct (IH Hl) as [Hall|(l1 & e' & l2 & m & -> & Hm & H0 & Hb & Es')].
    - left. intros e' [->|Hin]%elem_of_cons; [done|by apply Hall].
    - right. exists (e :: l1), e', l2, m. split; [done|]. split; [done|]. split; [done|]. split; [|done].
      intros x [->|Hin]%elem_of_cons; [done|by apply Hb]. }
  destruct Hsplit as [Hall|(l1 & e & l2 & m & -> & Hm & H0 & Hb & Es)].
  - right. split; [intros e j Hin; by apply Hall|]. apply walk_none; [done|done|]. intros e Hin. by apply Hall.
  - left. exists e, m. split; [apply elem_of_app; right; left|]. split; [done|]. split; [done|].
    apply walk_some; [done| |done|done]. rewrite length_app in Hf. cbn in Hf. lia.
Qed.
End Scan.

(** ** What stays when a slot is written or a bucket linked *)

Lemma table_shape_eq N nx nx' B : (forall b, 0 <= b < N -> nx b = nx' b) -> table_shape N nx B -> table_shape N nx' B.
Proof. intros Hn [Hl H]. split; [done|]. intros b Hb. rewrite <- (Hn b Hb). by apply H. Qed.

Lemma chains_upd N C E e m sg k : chains_ok N C E -> 0 <= e < Z.of_nat (length E) -> chains_ok N C (upd_slot E e m sg k).
Proof.
  intros [HE Hl Hn Ho] He. pose proof (upd_slot_shape _ _ E e m sg k HE He) as HE'.
  assert (Hlen : length (upd_slot E e m sg k) = length E) by (unfold upd_slot, upd_idx, upd_sig; by rewrite !length_insert).
  split; [|intros b Hb|done|done].
  - rewrite Hlen. eapply own_shape. exact HE'.
  - apply (linked_ext E); [done| |by apply Hl]. intros e' He'. apply HE'. eapply linked_in; [by apply Hl|done].
Qed.

(** The extendable buckets that are left. *)
Record spare_ok (N : Z) (C : Z -> list Z) (E : list rte_hash_bucket) (ids : list Z) : Prop := {
  sp_nodup : NoDup ids;
  sp_range : forall id, id ∈ ids -> 1 <= id <= Z.of_nat (length E);
  sp_out : forall id b, id ∈ ids -> 0 <= b < N -> ~ (id - 1 ∈ C b);
  sp_empty : forall id, id ∈ ids -> b_next (bkt_at E (id - 1)) = None /\ forall i, 0 <= i < 8 -> idx_at E (id - 1) i = 0;
}.

Lemma spare_ext N C E E' ids : length E' = length E ->
  (forall id, id ∈ ids -> bkt_at E' (id - 1) = bkt_at E (id - 1)) -> spare_ok N C E ids -> spare_ok N C E' ids.
Proof.
  intros Hlen Hs [H1 H2 H3 H4]. split; [done|by rewrite Hlen|done|]. intros id Hid. unfold idx_at. rewrite (Hs id Hid). by apply H4.
Qed.

Lemma upd_slot_other E e m sg k e' : 0 <= e -> 0 <= e' -> e' <> e -> bkt_at (upd_slot E e m sg k) e' = bkt_at E e'.
Proof. intros H1 H2 H3. unfold bkt_at, upd_slot, upd_idx, upd_sig. rewrite !list_lookup_total_insert_ne by lia. done. Qed.
Lemma set_next_other E x r e' : 0 <= x -> 0 <= e' -> e' <> x -> bkt_at (set_next E x r) e' = bkt_at E e'.
Proof. intros H1 H2 H3. unfold bkt_at, set_next. rewrite list_lookup_total_insert_ne by lia. done. Qed.

Lemma link_last_cases C E q e : C q = [] /\ link_last C E q e = E \/
  exists l x, C q = l ++ [x] /\ link_last C E q e = set_next E x (ExtB e).
Proof.
  unfold link_last. destruct (C q) as [|x l] using rev_ind; [by left|right]. exists l, x. by rewrite last_snoc.
Qed.

Section LinkLast.
Context (N : Z) (C : Z -> list Z) (E : list rte_hash_bucket) (q e : Z).
Hypotheses (HC : chains_ok N C E) (Hq : 0 <= q < N).

Lemma link_last_length : length (link_last C E q e) = length E.
Proof. destruct (link_last_cases C E q e) as [[_ ->]|(l & x & _ & ->)]; [done|]. apply length_insert. Qed.

Lemma link_last_at e' : 0 <= e' < Z.of_nat (length E) ->
  (forall i, idx_at (link_last C E q e) e' i = idx_at E e' i) /\ (forall i, sig_at (link_last C E q e) e' i = sig_at E e' i).
Proof.
  intros He'. destruct (link_last_cases C E q e) as [[_ ->]|(l & x & Ec & ->)]; [done|].
  assert (Hx : x ∈ C q) by (rewrite Ec; apply elem_of_app; right; left).
  destruct (set_next_at _ _ E x (ExtB e) (ch_slots _ _ _ HC) (linked_in _ _ _ (ch_linked _ _ _ HC q Hq) Hx) e' He') as (? & ? & _). done.
Qed.

Lemma link_last_other e' : 0 <= e' -> ~ (e' ∈ C q) -> bkt_at (link_last C E q e) e' = bkt_at E e'.
Proof.
  intros He' Hn. destruct (link_last_cases C E q e) as [[_ ->]|(l & x & Ec & ->)]; [done|].
  assert (Hx : x ∈ C q) by (rewrite Ec; apply elem_of_app; right; left).
  pose proof (linked_in _ _ _ (ch_linked _ _ _ HC q Hq) Hx). apply set_next_other; [lia|done|]. by intros ->.
Qed.
End LinkLast.

(** A spare bucket takes the new index in its first slot and becomes the last of the chain. *)
Section NewBucket.
Context (k0 : Z) (hs : Z -> Z) (S : Z -> Prop) (C : Z -> list Z) (E : list rte_hash_bucket) (id k hash : Z) (ids : list Z).
Let N := 2 ^ k0.
Let q := sec_of k0 hash.
Let e := id - 1.
Hypotheses (HC : chains_ok N C E) (Hsp : spare_ok N C E (id :: ids)) (Hq : 0 <= q < N).
Let E1 := upd_slot E e 0 (get_short_sig hash) k.
Let C' := add_link C q e.
Let E2 := link_last C E1 q e.

Lemma new_bucket_range : 0 <= e < Z.of_nat (length E).
Proof. pose proof (sp_range _ _ _ _ Hsp id ltac:(left)). unfold e. lia. Qed.

Lemma new_bucket_length : length E1 = length E.
Proof. unfold E1, upd_slot, upd_idx, upd_sig. by rewrite !length_insert. Qed.

Lemma new_bucket_chains : chains_ok N C' E2.
Proof.
  pose proof new_bucket_range as He. apply chains_link; [by apply chains_upd|done|by rewrite new_bucket_length| |].
  - intros b Hb. apply (sp_out _ _ _ _ Hsp); [left|done].
  - pose proof (upd_slot_shape _ _ E e 0 (get_short_sig hash) k (ch_slots _ _ _ HC) He) as Hsh.
    unfold E1. destruct (bkt_shape _ _ _ Hsh e He) as (_ & _ & ->). by apply (sp_empty _ _ _ _ Hsp); left.
Qed.

Lemma new_bucket_placed : k <> 0 -> ~ S k -> ext_placed k0 hs S C E ->
  ext_placed k0 (fun j => if j =? k then hash else hs j) (fun j => S j \/ j = k) C' E2.
Proof.
  intros Hk HnS Hp. pose proof new_bucket_range as He. pose proof (chains_upd _ _ _ e 0 (get_short_sig hash) k HC He) as HC1.
  destruct (sp_empty _ _ _ _ Hsp id ltac:(left)) as [_ Hz]. fold e in Hz.
  apply (ext_placed_fill k0 hs S C C' E E2 e 0 k hash); try done.
  - intros e' i' Hi' Hor. assert (He' : 0 <= e' < Z.of_nat (length E)).
    { destruct Hor as [->|(b & Hb & Hin)]; [done|]. eapply linked_in; [by apply (ch_linked _ _ _ HC b)|done]. }
    destruct (link_last_at _ _ _ q e HC1 Hq e') as [Hi Hs]; [fold E1; by rewrite new_bucket_length|]. fold E1 E2 in Hi, Hs. rewrite Hi, Hs.
    by apply (upd_slot_at (Z.of_nat (length E)) (fun b => b_next (bkt_at E b))); [apply (ch_slots _ _ _ HC)|split; [|lia]|].
  - intros b e' Hb. unfold C', add_link. destruct (Z.eqb_spec b q) as [->|Hbq].
    + rewrite elem_of_app, list_elem_of_singleton. fold q. tauto.
    + split; [by left|]. by intros [?|[? _]].
  - intros i Hi. right. by apply Hz.
  - intros b Hb Hin. by destruct (sp_out _ _ _ _ Hsp id b ltac:(left) Hb).
Qed.

Lemma new_bucket_spare : spare_ok N C' E2 ids.
Proof.
  pose proof new_bucket_range as He. pose proof (chains_upd _ _ _ e 0 (get_short_sig hash) k HC He) as HC1.
  pose proof (sp_nodup _ _ _ _ Hsp) as [Hni Hnd]%NoDup_cons.
  assert (Hr : forall id', id' ∈ ids -> 0 <= id' - 1 < Z.of_nat (length E) /\ id' - 1 <> e).
  { intros id' Hin. pose proof (sp_range _ _ _ _ Hsp id' ltac:(by right)). split; [lia|]. unfold e. intros ?. apply Hni. by replace id with id' by lia. }
  assert (Hsp' : spare_ok N C' E ids).
  { split; [done|..].
    - intros id' Hin. apply (sp_range _ _ _ _ Hsp). by right.
    - intros id' b Hin Hb. destruct (Hr id' Hin) as [_ Hne]. pose proof (sp_out _ _ _ _ Hsp id') as Hout. unfold C', add_link.
      destruct (Z.eqb_spec b q) as [->|]; [|apply Hout; [by right|done]].
      rewrite elem_of_app, list_elem_of_singleton. intros [Hx|Hx]; [|done]. apply (Hout q); [by right|done|done].
    - intros id' Hin. apply (sp_empty _ _ _ _ Hsp). by right. }
  apply (spare_ext N C' E); [|intros id' Hin|exact Hsp'].
  - unfold E2. rewrite link_last_length. apply new_bucket_length.
  - destruct (Hr id' Hin) as [Hr1 Hne]. unfold E2. rewrite (link_last_other N); [|done|done|lia|].
    + apply upd_slot_other; [lia|lia|done].
    + apply (sp_out _ _ _ _ Hsp); [by right|done].
Qed.

(** The main array: the chain's first link, if the chain was empty. *)
Definition link_main (B : list rte_hash_bucket) : list rte_hash_bucket :=
  match C q with [] => set_next B q (ExtB e) | _ :: _ => B end.

Lemma link_main_inv hs' S' B : inv k0 (fun b => next_in (C b)) hs' S' B -> inv k0 (fun b => next_in (C' b)) hs' S' (link_main B).
Proof.
  intros [HB Hp]. unfold link_main. destruct (C q) as [|x l] eqn:Ec.
  - split.
    + eapply table_shape_eq; [|by apply set_next_shape]. intros b Hb. cbn. unfold C', add_link.
      destruct (Z.eqb_spec b q) as [->|]; [by rewrite Ec|done].
    + destruct Hp as [Hv Hc Hu Hz].
      assert (Hat : forall b i, in_table (2 ^ k0) b i -> idx_at (set_next B q (ExtB e)) b i = idx_at B b i /\ sig_at (set_next B q (ExtB e)) b i = sig_at B b i).
      { intros b i [Hb Hi]. destruct (set_next_at _ _ B q (ExtB e) HB Hq b Hb) as (-> & -> & _). done. }
      split; [| | |done].
      * intros b i Hin Hh. destruct (Hat b i Hin) as [-> ->]. by apply Hv.
      * intros j Hj. destruct (Hc j Hj) as (b & i & Hin & Hh & Ej). exists b, i. destruct (Hat b i Hin) as [-> _]. done.
      * intros b i b' i' Hin Hin' H1 H2. destruct (Hat b i Hin) as [-> _], (Hat b' i' Hin') as [-> _]. by apply Hu.
  - split; [|done]. eapply table_shape_eq; [|exact HB]. intros b Hb. cbn. unfold C', add_link.
    destruct (Z.eqb_spec b q) as [->|]; [by rewrite Ec|done].
Qed.
End NewBucket.

(** The linking, as [add_ext] has it. *)
Lemma link_run {A} (K : rte_hash -> outcome A) fuel N nx t C q e :
  table_shape N nx (buckets t) -> 0 <= q < N -> nx q = next_in (C q) -> chains_ok N C (buckets_ext t) ->
  (length (buckets_ext t) <= fuel)%nat ->
  (last ← rte_hash_get_last_bkt fuel t (Main q);
   v ← get_bkt t last;
   h ← put_bkt t last (Bucket (sig_current v) (key_idx v) (Some (ExtB e)));
   K h) =
  K (set_buckets_ext (link_last C (buckets_ext t) q e)
      (set_buckets (match C q with [] => set_next (buckets t) q (ExtB e) | _ :: _ => buckets t end) t)).
Proof.
  intros HB Hq Hnx HC Hf. pose proof (ch_linked _ _ _ HC q Hq) as Hl. pose proof (chain_bound _ _ _ q HC Hq).
  assert (Hg : get_bkt t (Main q) = Ret (bkt_at (buckets t) q)) by by apply (rd_bkt N nx).
  destruct (bkt_shape N nx _ HB q Hq) as (_ & _ & Hn). rewrite Hnx in Hn.
  rewrite (get_last_spec fuel t (Main q) _ (C q) Hg Hn Hl) by lia. cbn [mbind outcome_bind]. unfold link_last.
  destruct (C q) as [|y l] using rev_ind.
  - cbn [last]. rewrite Hg. cbn [mbind outcome_bind]. unfold put_bkt. destruct HB as [HBl _]. rewrite wr_Ret by lia.
    cbn [mbind outcome_bind]. f_equal.
  - clear IHl. rewrite last_snoc.
    assert (Hy : 0 <= y < Z.of_nat (length (buckets_ext t))) by (eapply linked_in; [exact Hl|apply elem_of_app; right; left]).
    unfold get_bkt. rewrite (rd_bkt _ _ _ (ch_slots _ _ _ HC)) by done. cbn [mbind outcome_bind]. unfold put_bkt. rewrite wr_Ret by lia.
    cbn [mbind outcome_bind]. f_equal. destruct t; by destruct l.
Qed.

(** ** Tables without chains *)

Lemma no_chains N nx E : table_shape (Z.of_nat (length E)) nx E -> chains_ok N (fun _ => []) E.
Proof.
  intros HE. split; [by eapply own_shape|done|by intros; apply NoDup_nil|]. by intros b b' e _ _ ?%elem_of_nil.
Qed.

Lemma no_ext_buckets N : chains_ok N (fun _ => []) [].
Proof. apply (no_chains _ (fun _ => None)). split; [done|]. intros b Hb. cbn in Hb. lia. Qed.

Lemma no_ext_placed k0 hs E : ext_placed k0 hs (fun _ => False) (fun _ => []) E.
Proof.
  split; [by intros b e i (_ & ?%elem_of_nil & _)|by intros k []|by intros b e i b' e' i' (_ & ?%elem_of_nil & _)|by intros []].
Qed.
