(* ===== verification/CuckooTable.v ===== *)
(** * The whole table, and the outcome of inserting a new key

    A table at rest, with or without extendable buckets: which index is stored in the main
    buckets and which in the chains, under which hash ([layout]), the invariant [hash_ok],
    and what [__rte_hash_add_key_with_hash] does to it for a key that is not stored. *)

From S2P Require Import Prelude Common Atomic RingCore RingCopy RingElem RingSpec.
From S2P Require Import Locks Cuckoo CuckooSpec CuckooExt.

Open Scope Z_scope.

(** A table of [2 ^ ly_bits] buckets: the chain behind each, the hash of each stored index,
    and the indices stored in the main buckets and in the chains. *)
Record layout := Layout {
  ly_bits : Z;
  ly_chain : Z -> list Z;
  ly_hash : Z -> Z;
  ly_main : Z -> Prop;
  ly_ext : Z -> Prop;
}.
Definition stored_in (L : layout) (k : Z) : Prop := ly_main L k \/ ly_ext L k.
Definition first_ext (L : layout) (b : Z) : option bref := next_in (ly_chain L b).

(** The table at rest; the free ring holds indices that are not stored, the ring of
    extendable buckets the empty ones outside every chain. *)
Record hash_ok (L : layout) (h : rte_hash) : Prop := {
  hk_size : 0 <= ly_bits L;
  hk_mask : bucket_bitmask h = 2 ^ ly_bits L - 1;
  hk_store : store_ok h;
  hk_lock : writer_takes_lock h = true -> h_lock h = 0;
  hk_zero : in_store h 0;
  hk_stored : forall k, stored_in L k -> in_store h k;
  hk_table : inv (ly_bits L) (first_ext L) (ly_hash L) (ly_main L) (buckets h);
  hk_chains : chains_ok (2 ^ ly_bits L) (ly_chain L) (buckets_ext h);
  hk_ext : ext_placed (ly_bits L) (ly_hash L) (ly_ext L) (ly_chain L) (buckets_ext h);
  hk_apart : forall k, ly_main L k -> ~ ly_ext L k;
  hk_ring : ring_wf 4 (free_slots h) /\ plain_sync (free_slots h);
  hk_free : NoDup (contents 4 (free_slots h)) /\
    forall k, k ∈ contents 4 (free_slots h) -> in_store h k /\ k <> 0 /\ ~ stored_in L k;
  hk_spare : if ext_table_support h
    then ring_wf 4 (free_ext_bkts h) /\ plain_sync (free_ext_bkts h) /\
         spare_ok (2 ^ ly_bits L) (ly_chain L) (buckets_ext h) (contents 4 (free_ext_bkts h))
    else forall b, 0 <= b < 2 ^ ly_bits L -> ly_chain L b = [];
}.

(** Nothing stored, and no chain. *)
Definition empty_layout (k0 : Z) : layout := Layout k0 (fun _ => []) (fun _ => 0) (fun _ => False) (fun _ => False).

Lemma st_same h : st h (buckets h) (tbl_chng_cnt h) (h_lock h) = h.
Proof. by destruct h. Qed.

Lemma in_store_bound h k : store_ok h -> in_store h k -> 0 <= k < 2 ^ 28.
Proof. intros [Hs _ Ha _] Hk. unfold in_store in Hk. nia. Qed.

Lemma i32_pos k : 0 < k < 2 ^ 28 -> i32 (k - 1) = k - 1.
Proof.
  intros Hk. unfold i32. rewrite u32_small by lia.
  by rewrite (proj2 (Z.ltb_lt _ _)) by lia.
Qed.

Lemma alloc_slot_cases fuel h :
  ring_wf 4 (free_slots h) -> plain_sync (free_slots h) ->
  match contents 4 (free_slots h) with
  | [] => alloc_slot fuel h = Ret (h, EMPTY_SLOT)
  | slot :: rest =>
      exists r, alloc_slot fuel h = Ret (set_free_slots r h, slot) /\
        ring_wf 4 r /\ plain_sync r /\ contents 4 r = rest /\
        r_capacity r = r_capacity (free_slots h)
  end.
Proof.
  intros Hwf Hs. unfold alloc_slot. destruct (contents 4 (free_slots h)) as [|v rest] eqn:E.
  - rewrite dequeue_word_empty by done. cbn. by destruct h.
  - destruct (dequeue_word fuel _ 0 v rest Hwf Hs E) as (r & -> & ?). exists r. done.
Qed.

(** The entry written for a new key. *)
Definition new_entry (h : rte_hash) (slot data : Z) (key : list Z) : rte_hash_key :=
  let n := Z.to_nat (key_len h) in
  HKey data (take n key ++ drop n (k_key (entry_at h slot))).
Definition with_entry (h : rte_hash) (slot data : Z) (key : list Z) : rte_hash :=
  set_key_store (<[Z.to_nat slot := new_entry h slot data key]> (key_store h)) h.

Section NewEntry.
Context (h : rte_hash) (slot data : Z) (key : list Z).
Hypothesis Hs : store_ok h.
Hypothesis Hslot : in_store h slot.
Hypothesis Hl : key_len h <= Z.of_nat (length key).

Lemma entry_length k : in_store h k -> Z.of_nat (length (k_key (entry_at h k))) = key_entry_size h - 8.
Proof. intros Hk. apply (so_bytes _ Hs). by eapply list_elem_of_lookup_2, entry_in. Qed.

(** The accesses that write it. *)
Lemma write_entry :
  key_slot h slot = Ret slot /\
  rd (key_store h) slot = Ret (entry_at h slot) /\
  copy_key (k_key (entry_at h slot)) key (key_len h) = Ret (k_key (new_entry h slot data key)) /\
  wr (key_store h) slot (HKey data (k_key (new_entry h slot data key))) =
    Ret (key_store (with_entry h slot data key)).
Proof.
  pose proof (entry_length slot Hslot). pose proof (so_len _ Hs).
  split; [by apply key_slot_at|]. unfold in_store in Hslot.
  split; [apply rd_Ret; [lia|by apply entry_in]|]. split.
  - unfold copy_key. by rewrite (proj2 (Nat.ltb_ge _ _)), (proj2 (Nat.ltb_ge _ _)) by lia.
  - by rewrite wr_Ret by lia.
Qed.

Lemma with_entry_store k : in_store (with_entry h slot data key) k <-> in_store h k.
Proof. unfold in_store, with_entry. cbn. by rewrite length_insert. Qed.

Lemma with_entry_at k :
  in_store h k ->
  entry_at (with_entry h slot data key) k =
  if k =? slot then new_entry h slot data key else entry_at h k.
Proof.
  intros Hk. unfold in_store in *. unfold entry_at at 1, with_entry. cbn.
  destruct (Z.eqb_spec k slot) as [->|].
  - apply list_lookup_total_insert_eq. lia.
  - apply list_lookup_total_insert_ne. lia.
Qed.

Lemma with_entry_ok : store_ok (with_entry h slot data key).
Proof.
  pose proof (entry_length slot Hslot). pose proof (so_len _ Hs). destruct Hs as [H1 H2 H3 H4].
  split; try done.
  - intros e He. apply list_elem_of_lookup in He as [j Hj].
    apply list_lookup_insert_Some in Hj as [(_ & <- & _)|[_ Hj]].
    + cbn. rewrite length_app, length_take, length_drop. lia.
    + apply H2. by eapply list_elem_of_lookup_2.
  - cbn. by rewrite length_insert.
Qed.
End NewEntry.

(** The extendable buckets that are left, in a table that has them. *)
Definition ext_left (h : rte_hash) : option (list Z) :=
  if ext_table_support h then Some (contents 4 (free_ext_bkts h)) else None.

(** [L'] has the index [slot], with its hash, and what [L] has. *)
Record grows (L : layout) (slot hash : Z) (L' : layout) : Prop := {
  gr_bits : ly_bits L' = ly_bits L;
  gr_hash : forall j, ly_hash L' j = if j =? slot then hash else ly_hash L j;
  gr_stored : forall k, stored_in L' k <-> stored_in L k \/ k = slot;
}.

Section AddKey.
Context (fuel : nat) (L : layout) (h : rte_hash).
Context (key : list Z) (data hash : Z).
Hypothesis Hok : hash_ok L h.
Hypothesis Hfuel : (length (buckets_ext h) <= fuel)%nat.
Hypothesis Hkey : (8 <= length key)%nat.
Let k0 := ly_bits L.
Let s := get_short_sig hash.
Let p := prim_of (2 ^ k0 - 1) hash.
Let q := alt_of (2 ^ k0 - 1) p s.

Lemma add_buckets : 0 <= p < 2 ^ k0 /\ 0 <= q < 2 ^ k0.
Proof. apply two_buckets, (hk_size _ _ Hok). Qed.

Lemma fresh_main g : fresh_key k0 (ly_hash L) (stored_in L) g key hash -> fresh_key k0 (ly_hash L) (ly_main L) g key hash.
Proof. intros [H0 H]. split; [done|]. intros k Hk. apply H. by left. Qed.

(** *** The chains hold no entry of a fresh key *)
Section Chain.
Context (g : rte_hash).
Hypotheses (Hg : buckets_ext g = buckets_ext h) (Hst : store_ok g).
Hypothesis Hin : forall k, in_store h k -> in_store g k.
Hypothesis Hfresh : fresh_key k0 (ly_hash L) (stored_in L) g key hash.

Lemma chain_store b e i : in_chain k0 (ly_chain L) b e i -> in_store g (idx_at (buckets_ext g) e i).
Proof.
  intros Hc. rewrite Hg. apply Hin. destruct (Z.eq_dec (idx_at (buckets_ext h) e i) 0) as [->|H0]; [apply (hk_zero _ _ Hok)|].
  apply (hk_stored _ _ Hok). right. by apply (ep_valid _ _ _ _ _ (hk_ext _ _ Hok) b e i).
Qed.

Lemma chain_no_match b e i : b = p \/ b = q -> in_chain k0 (ly_chain L) b e i -> ~ slot_match (buckets_ext g) g key s e i.
Proof.
  intros Hb Hc [Hsig Hpre]. rewrite Hg in Hsig, Hpre. destruct Hfresh as [Hf0 Hf].
  destruct (Z.eq_dec (idx_at (buckets_ext h) e i) 0) as [E|E]; [by rewrite E in Hpre|].
  destruct (ep_valid _ _ _ _ _ (hk_ext _ _ Hok) b e i Hc E) as (Hk & Hs & Hsec).
  apply (Hf (idx_at (buckets_ext h) e i)); [by right|by rewrite <- Hs| |done].
  fold s p q. unfold sec_of in Hsec. fold k0 in Hsec. rewrite <- Hs, Hsig in Hsec.
  set (pk := prim_of (2 ^ k0 - 1) (ly_hash L (idx_at (buckets_ext h) e i))) in *.
  assert (Hpk : 0 <= pk < 2 ^ k0) by apply mask_range, (hk_size _ _ Hok).
  pose proof (alt_of_involutive k0 pk s (hk_size _ _ Hok) Hpk) as Hback. rewrite <- Hsec in Hback.
  destruct Hb as [->| ->]; [right; exact (eq_sym Hback)|left]. rewrite <- Hback.
  apply alt_of_involutive; [apply (hk_size _ _ Hok)|apply add_buckets].
Qed.

Lemma chain_walk b : b = p \/ b = q ->
  for_each_bucket fuel g (first_ext L b) (check_dup key data hash) = Ret (g, None).
Proof.
  intros Hb. assert (Hbr : 0 <= b < 2 ^ k0) by (destruct add_buckets, Hb; subst b; done).
  pose proof (ch_linked _ _ _ (hk_chains _ _ Hok) b Hbr) as Hl. rewrite <- Hg in Hl.
  apply walk_none; [done| |].
  - pose proof (chain_bound _ _ _ b (hk_chains _ _ Hok) Hbr). lia.
  - intros e He. unfold check_dup. rewrite search_ext_miss; [done|..|done| | |].
    + rewrite Hg. apply (ch_slots _ _ _ (hk_chains _ _ Hok)).
    + done.
    + by apply (linked_in _ (ly_chain L b)).
    + intros i Hi. by apply (chain_store b).
    + intros i Hi. by apply (chain_no_match b).
Qed.
End Chain.

Hypothesis Hlen : key_len h <= Z.of_nat (length key).
Hypothesis Hfresh : fresh_key k0 (ly_hash L) (stored_in L) h key hash.

(** The table with its lock held. *)
Let hl := st h (buckets h) (tbl_chng_cnt h) (if writer_takes_lock h then -1 else h_lock h).

(** The duplicate check finds nothing, and leaves the table as it was. *)
Lemma add_key_start :
  __hash_rw_writer_lock (Datatypes.S fuel) h = Ret hl /\
  search_both (Datatypes.S fuel) hl data key (Main p) (Main q) s = Ret (hl, None) /\
  __hash_rw_writer_unlock hl = h.
Proof.
  pose proof (hk_lock _ _ Hok) as Hlk.
  pose proof (lock_st fuel h Hlk (buckets h) (tbl_chng_cnt h)) as E1.
  rewrite st_same in E1. split; [done|]. split.
  - apply (search_both_miss fuel k0 (first_ext L) (ly_hash L) (ly_main L) h key data hash); auto;
      try apply Hok; [|by apply fresh_main|].
    + intros k Hk. apply (hk_stored _ _ Hok). by left.
    + intros B c l b Hb. apply chain_walk; try done. by destruct (hk_store _ _ Hok).
  - unfold hl. rewrite (unlock_st h Hlk). apply st_same.
Qed.

(** The freshness of the key survives the writing of its own entry. *)
Lemma fresh_with_entry r slot :
  in_store h slot -> slot <> 0 -> ~ stored_in L slot ->
  fresh_key k0 (ly_hash L) (stored_in L) (with_entry (set_free_slots r h) slot data key) key hash.
Proof.
  intros Hslot Hne HnS. destruct Hfresh as [Hf0 Hf].
  assert (Hat : forall k, in_store h k -> k <> slot ->
    entry_at (with_entry (set_free_slots r h) slot data key) k = entry_at h k).
  { intros k Hk Hks. rewrite with_entry_at by done. by rewrite (proj2 (Z.eqb_neq _ _) Hks). }
  split.
  - rewrite Hat by (auto || apply (hk_zero _ _ Hok)). done.
  - intros k Hk Hs1 Hs2. rewrite Hat; [by apply Hf|by apply (hk_stored _ _ Hok)|congruence].
Qed.

(** *** Once a slot is allocated: [r] is the ring without it. *)
Section Attempt.
Context (slot : Z) (r : rte_ring).
Hypotheses (Hslot : in_store h slot) (Hne : slot <> 0) (HnS : ~ stored_in L slot).
Let hr := set_free_slots r h.
Let h1 := with_entry hr slot data key.
Let lk := if writer_takes_lock h then -1 else h_lock h.

Lemma store_hr : store_ok hr.
Proof. by destruct (hk_store _ _ Hok). Qed.

Lemma store_h1 : store_ok h1.
Proof. apply with_entry_ok; [apply store_hr|done|done]. Qed.

Lemma in_store_h1 k : in_store h1 k <-> in_store h k.
Proof. exact (with_entry_store hr slot data key k). Qed.

Lemma walk_h1 B c l b : b = p \/ b = q ->
  for_each_bucket fuel (st h1 B c l) (first_ext L b) (check_dup key data hash) = Ret (st h1 B c l, None).
Proof.
  intros Hb. apply chain_walk; [done|by destruct store_h1|intros k Hk; by apply in_store_h1| |done].
  apply (fresh_with_entry r slot Hslot Hne HnS).
Qed.

Lemma main_h1 k : ly_main L k -> in_store h1 k.
Proof. intros Hk. apply in_store_h1, (hk_stored _ _ Hok). by left. Qed.

Lemma fresh_h1 : fresh_key k0 (ly_hash L) (ly_main L) h1 key hash.
Proof. apply fresh_main, (fresh_with_entry r slot Hslot Hne HnS). Qed.

Let inv_L := inv k0 (first_ext L) (ly_hash L) (ly_main L).
Let inserted_L := inserted k0 (first_ext L) (ly_hash L) (ly_main L) hash slot.

(** The attempts in the main buckets, from the table with its new entry. *)
Lemma attempt_run :
  exists B' c' (ok : bool),
    (forall (Z0 Z2 : rte_hash -> outcome (rte_hash * Z)) (Z1 W : rte_hash -> Z -> outcome (rte_hash * Z)),
      ('(h, ret, ret_val) ← rte_hash_cuckoo_insert_mw (Datatypes.S fuel) h1 (Main p) (Main q)
         key data s slot;
       if ret =? 0 then Z0 h
       else if ret =? 1 then W h ret_val
       else
         '(h, ret, ret_val) ← rte_hash_cuckoo_make_space_mw (Datatypes.S fuel) h (Main p) (Main q)
           key data s p slot;
         if ret =? 0 then Z0 h
         else if ret =? 1 then W h ret_val
         else
           '(h, ret, ret_val) ← rte_hash_cuckoo_make_space_mw (Datatypes.S fuel) h (Main q) (Main p)
             key data s q slot;
           if ret =? 0 then Z0 h
           else if ret =? 1 then W h ret_val
           else if negb (ext_table_support h) then Z1 h ret else Z2 h) =
      if ok then Z0 (st h1 B' c' (h_lock h))
      else if negb (ext_table_support h) then Z1 (st h1 B' c' (h_lock h)) (- ENOSPC) else Z2 (st h1 B' c' (h_lock h))) /\
    (if ok then inserted_L B' else inv_L B' /\ full (buckets h) p).
Proof.
  destruct (attempts_cases fuel k0 (first_ext L) (ly_hash L) (ly_main L) h1 key data hash slot) with (B := buckets h1)
    (c := tbl_chng_cnt h1) as (B' & c' & ok & Hrun & Hres); try done; try apply Hok.
  - apply store_h1.
  - apply in_store_h1, (hk_zero _ _ Hok).
  - apply main_h1.
  - apply fresh_h1.
  - intros H. apply HnS. by left.
  - intros B c l b Hb. by apply walk_h1.
  - exists B', c', ok. split; [|done]. intros Z0 Z2 Z1 W. specialize (Hrun Z0 Z2 Z1 W).
    rewrite st_same in Hrun. exact Hrun.
Qed.

(** *** The extendable buckets, when the main buckets refuse *)
Section Extend.
Context (B : list rte_hash_bucket) (c : Z).
Hypothesis HB : inv_L B.
Let g := st h1 B c (h_lock h).
Let E := buckets_ext h.
Let C := ly_chain L.

(** What [add_ext] makes of the table: the slot goes to the main bucket, to a bucket of the
    chain, or to a new bucket; or nothing is left. *)
Inductive extended : rte_hash -> Z -> Prop :=
  | ext_main B' : inserted_L B' -> extended (st h1 B' c (h_lock h)) (slot - 1)
  | ext_chain e m : e ∈ C q -> 0 <= m < 8 -> idx_at E e m = 0 ->
      extended (set_buckets_ext (upd_slot E e m s slot) g) (slot - 1)
  | ext_new id ids rx : contents 4 (free_ext_bkts h) = id :: ids ->
      ring_wf 4 rx -> plain_sync rx -> contents 4 rx = ids ->
      extended (set_free_ext rx (set_buckets_ext (link_last C (upd_slot E (id - 1) 0 s slot) q (id - 1))
        (set_buckets (link_main k0 C id hash B) g))) (slot - 1)
  | ext_none : contents 4 (free_ext_bkts h) = [] -> full B q -> (forall e j, e ∈ C q -> 0 <= j < 8 -> idx_at E e j <> 0) ->
      extended g (- ENOSPC).

Hypothesis Hext : ext_table_support h = true.
Let gl := st h1 B c lk.

Lemma slot_i32 : i32 (slot - 1) = slot - 1.
Proof. pose proof (in_store_bound _ _ (hk_store _ _ Hok) Hslot). apply i32_pos. lia. Qed.

Lemma spare_run :
  exists rx obj, rte_ring_sc_dequeue_elem (Datatypes.S fuel) (free_ext_bkts h) [0] 4 = Ret (rx, [obj], if obj =? 0 then - ENOENT else 0) /\
    ((contents 4 (free_ext_bkts h) = [] /\ rx = free_ext_bkts h /\ obj = 0) \/
     exists ids, contents 4 (free_ext_bkts h) = obj :: ids /\ ring_wf 4 rx /\ plain_sync rx /\ contents 4 rx = ids /\ 1 <= obj <= Z.of_nat (length E)).
Proof.
  pose proof (hk_spare _ _ Hok) as Hsp. rewrite Hext in Hsp. destruct Hsp as (Hw & Hs & Hsp).
  destruct (contents 4 (free_ext_bkts h)) as [|id ids] eqn:Ec.
  - exists (free_ext_bkts h), 0. rewrite dequeue_word_empty by done. split; [done|by left].
  - destruct (dequeue_word (Datatypes.S fuel) _ 0 id ids Hw Hs Ec) as (rx & Er & Hwx & Hsx & Hcx & _).
    pose proof (sp_range _ _ _ _ Hsp id ltac:(left)) as Hid. exists rx, id. rewrite Er, (proj2 (Z.eqb_neq id 0)) by lia.
    split; [done|right]. by exists ids.
Qed.

(** The scan of the secondary bucket and its chain. *)
Lemma add_ext_scan :
  for_each_bucket (Datatypes.S fuel) gl (Some (Main q)) (scan_bucket s slot) = Ret (gl, None) /\
    full B q /\ (forall e j, e ∈ C q -> 0 <= j < 8 -> idx_at E e j <> 0) \/
  exists h', for_each_bucket (Datatypes.S fuel) gl (Some (Main q)) (scan_bucket s slot) = Ret (h', Some (slot - 1)) /\
    extended (__hash_rw_writer_unlock h') (slot - 1).
Proof.
  pose proof HB as [HBt HBp]. destruct add_buckets as [Hp Hq].
  pose proof (place_first k0 (first_ext L) h1 key 0 (hk_size _ _ Hok) Hkey (fun _ => i32 (slot - 1)) B c lk q s slot HBt Hq) as Hpf.
  cbv beta zeta in Hpf. cbn [for_each_bucket]. destruct Hpf as [(m & B' & Hin & H0 & Es & HB' & Hpt)|[Hfull Es]].
  - right. exists (st h1 B' c lk). change (scan_bucket s slot gl (Main q) = Ret (st h1 B' c lk, Some (i32 (slot - 1)))) in Es. rewrite Es. cbn [mbind outcome_bind]. rewrite slot_i32. split; [done|].
    pose proof (unlock_st h1 (hk_lock _ _ Hok) B' c) as Eu.
    change (if writer_takes_lock h1 then -1 else h_lock h1) with lk in Eu. rewrite Eu. apply ext_main.
    apply (fill_inserted k0 (first_ext L) (ly_hash L) (ly_main L) hash slot Hne) with (B := B) (b := q) (i := m); try done.
    + intros ?. apply HnS. by left.
    + by right.
    + by apply placed_open.
  - change (scan_bucket s slot gl (Main q) = Ret (gl, None)) in Es. rewrite Es. cbn [mbind outcome_bind]. unfold get_bkt. change (buckets gl) with B.
    rewrite (rd_bkt _ _ _ HBt) by done. cbn [mbind outcome_bind]. destruct (bkt_shape _ _ _ HBt q Hq) as (_ & _ & ->).
    destruct (scan_chain gl s slot (ch_slots _ _ _ (hk_chains _ _ Hok)) fuel (C q) (ch_linked _ _ _ (hk_chains _ _ Hok) q Hq))
      as [(e & m & He & Hm & H0 & Ec)|[Hno Ec]].
    + pose proof (chain_bound _ _ _ q (hk_chains _ _ Hok) Hq). fold C in H. lia.
    + right. exists (set_buckets_ext (upd_slot E e m s slot) gl). change (first_ext L q) with (next_in (C q)). rewrite Ec, slot_i32. split; [done|].
      pose proof (unlock_st h1 (hk_lock _ _ Hok) B c) as Eu. change (if writer_takes_lock h1 then -1 else h_lock h1) with lk in Eu. fold gl in Eu.
      replace (__hash_rw_writer_unlock (set_buckets_ext (upd_slot E e m s slot) gl)) with (set_buckets_ext (upd_slot E e m s slot) (__hash_rw_writer_unlock gl)).
      { rewrite Eu. by apply ext_chain. }
      unfold __hash_rw_writer_unlock. cbn [writer_takes_lock hw_trans_mem_support set_buckets_ext].
      destruct (writer_takes_lock gl), (hw_trans_mem_support gl); done.
    + left. change (first_ext L q) with (next_in (C q)). by rewrite Ec.
Qed.

Lemma unlock_gl : __hash_rw_writer_unlock gl = g.
Proof. exact (unlock_st h1 (hk_lock _ _ Hok) B c). Qed.

(** Releasing the lock commutes with the writes. *)
Lemma unlock_ext t rx E' B' : __hash_rw_writer_unlock (set_free_ext rx (set_buckets_ext E' (set_buckets B' t))) =
  set_free_ext rx (set_buckets_ext E' (set_buckets B' (__hash_rw_writer_unlock t))).
Proof. unfold __hash_rw_writer_unlock. destruct t as [? [] ? ? []]; done. Qed.

Lemma add_ext_run : exists h' ret,
  add_ext (Datatypes.S fuel) g key data s slot (Main p) (Main q) = Ret (h', ret) /\ extended h' ret.
Proof.
  unfold add_ext. pose proof (lock_st fuel h1 (hk_lock _ _ Hok) B c) as El.
  change (__hash_rw_writer_lock (Datatypes.S fuel) g = Ret gl) in El. rewrite El. cbn [mbind outcome_bind].
  pose proof (search_both_miss fuel k0 (first_ext L) (ly_hash L) (ly_main L) h1 key data hash (hk_size _ _ Hok) store_h1 Hkey
    (proj2 (in_store_h1 0) (hk_zero _ _ Hok)) main_h1 fresh_h1 walk_h1 B c lk p q HB (or_introl eq_refl) (or_intror eq_refl)) as Es.
  fold s gl in Es. rewrite Es. cbn [mbind outcome_bind].
  lazymatch goal with |- context [for_each_bucket (Datatypes.S fuel) gl (Some (Main q)) ?f] => change f with (scan_bucket s slot) end.
  destruct add_ext_scan as [(En & Hfull & Hno)|(h' & En & Hx)]; rewrite En; cbn [mbind outcome_bind];
    [|by exists (__hash_rw_writer_unlock h'), (slot - 1)].
  destruct spare_run as (rx & obj & Er & Hcase). change (free_ext_bkts gl) with (free_ext_bkts h). rewrite Er. cbn [mbind outcome_bind].
  rewrite (rd_Ret [obj] 0 obj) by (done || lia). cbn [mbind outcome_bind].
  destruct Hcase as [(Ec & -> & ->)|(ids & Ec & Hwx & Hsx & Hcx & Hid)].
  - exists g, (- ENOSPC). cbn [Z.eqb]. split; [|by apply ext_none].
    change (set_free_ext (free_ext_bkts h) gl) with gl. by rewrite unlock_gl.
  - rewrite (proj2 (Z.eqb_neq obj 0)) by lia.
    set (gx := set_free_ext rx gl).
    assert (Hslots : table_shape (Z.of_nat (length (buckets_ext gx))) (fun b => b_next (bkt_at (buckets_ext gx) b)) (buckets_ext gx))
      by apply (ch_slots _ _ _ (hk_chains _ _ Hok)).
    pose proof (put_slot_ext gx s slot Hslots (obj - 1) 0) as Ep. rewrite <- bind_assoc.
    rewrite Ep by (change (buckets_ext gx) with E; split; lia). cbn [mbind outcome_bind].
    destruct HB as [HBt _]. destruct add_buckets as [_ Hq].
    set (E1 := upd_slot (buckets_ext gx) (obj - 1) 0 s slot).
    pose proof (link_run (fun h => Ret (__hash_rw_writer_unlock h, i32 (slot - 1))) (Datatypes.S fuel) (2 ^ k0) (first_ext L)
      (set_buckets_ext E1 gx) C q (obj - 1) HBt Hq eq_refl) as Elk.
    change (buckets_ext (set_buckets_ext E1 gx)) with E1 in Elk. rewrite Elk.
    + eexists _, _. split; [reflexivity|]. rewrite slot_i32.
      pose proof (ext_new obj ids rx Ec Hwx Hsx Hcx) as Hx. revert Hx. unfold link_main. fold s q.
      change (__hash_rw_writer_unlock (set_buckets_ext ?x (set_buckets ?y (set_buckets_ext E1 gx))))
        with (__hash_rw_writer_unlock (set_free_ext rx (set_buckets_ext x (set_buckets y gl)))).
      rewrite unlock_ext, unlock_gl. done.
    + apply chains_upd; [apply (hk_chains _ _ Hok)|]. change (buckets_ext gx) with E. lia.
    + unfold E1, upd_slot, upd_idx, upd_sig. rewrite !length_insert. change (buckets_ext gx) with (buckets_ext h). lia.
Qed.
End Extend.

(** A table with the new entry written, and its buckets and rings replaced. *)
Definition result (r' fx : rte_ring) (E' B' : list rte_hash_bucket) (c' : Z) : rte_hash :=
  set_free_slots r' (set_free_ext fx (set_buckets_ext E' (st h1 B' c' (h_lock h)))).

Lemma result_ok L' r' fx E' B' c' :
  ly_bits L' = k0 -> (forall k, stored_in L' k -> stored_in L k \/ k = slot) ->
  inv k0 (first_ext L') (ly_hash L') (ly_main L') B' -> chains_ok (2 ^ k0) (ly_chain L') E' ->
  ext_placed k0 (ly_hash L') (ly_ext L') (ly_chain L') E' -> (forall k, ly_main L' k -> ~ ly_ext L' k) ->
  ring_wf 4 r' -> plain_sync r' -> NoDup (contents 4 r') ->
  (forall k, k ∈ contents 4 r' -> in_store h k /\ k <> 0 /\ ~ stored_in L' k) ->
  (if ext_table_support h
   then ring_wf 4 fx /\ plain_sync fx /\ spare_ok (2 ^ k0) (ly_chain L') E' (contents 4 fx)
   else forall b, 0 <= b < 2 ^ k0 -> ly_chain L' b = []) ->
  hash_ok L' (result r' fx E' B' c').
Proof.
  intros Hb Hst Ht Hch Hex Hap Hw Hs Hn Hfr Hsp. pose proof store_h1 as Hst1.
  assert (Hin : forall k, in_store (result r' fx E' B' c') k <-> in_store h k) by exact in_store_h1.
  pose proof Hok as [Hk0 Hmk _ Hlk Hz HSt _ _ _ _ _ _ _]. split; rewrite ?Hb; try done.
  - by destruct Hst1.
  - by apply Hin.
  - intros k [Hk| ->]%Hst; apply Hin; auto.
  - split; [done|]. intros k Hk. rewrite Hin. by apply Hfr.
Qed.

Lemma result_entries r' fx E' B' c' k : in_store h k ->
  entry_at (result r' fx E' B' c') k = if k =? slot then new_entry h slot data key else entry_at h k.
Proof. intros Hk. exact (with_entry_at hr slot data key Hslot k Hk). Qed.
End Attempt.

(** What an insertion never changes. *)
Definition same_params (h' : rte_hash) : Prop :=
  key_len h' = key_len h /\ hash_func_init_val h' = hash_func_init_val h /\
  (forall k, in_store h' k <-> in_store h k) /\ length (buckets_ext h') = length (buckets_ext h).
Definition same_entries (slot : Z) (h' : rte_hash) : Prop :=
  forall k, in_store h k -> k <> slot -> entry_at h' k = entry_at h k.

(** What the caller learns, and the table it is left with: the key is stored, at the cost of
    an extendable bucket at most; or it is refused, the table having no extendable buckets,
    and the index is free again; or it is refused, none being left, and the index is lost. *)
Definition add_ok (slot : Z) (rest : list Z) (h' : rte_hash) : Prop :=
  same_params h' /\ same_entries slot h' /\ (exists L', grows L slot hash L' /\ hash_ok L' h') /\
  contents 4 (free_slots h') = rest /\ entry_at h' slot = new_entry h slot data key /\
  (ext_left h' = ext_left h \/ exists id ids, ext_left h = Some (id :: ids) /\ ext_left h' = Some ids).
Definition add_full (slot : Z) (rest : list Z) (h' : rte_hash) : Prop :=
  same_params h' /\ same_entries slot h' /\ hash_ok L h' /\ contents 4 (free_slots h') = rest ++ [slot] /\
  ext_left h = None /\ ext_left h' = None /\ full (buckets h) p.
Definition add_lost (slot : Z) (rest : list Z) (h' : rte_hash) : Prop :=
  same_params h' /\ same_entries slot h' /\ hash_ok L h' /\ contents 4 (free_slots h') = rest /\
  ext_left h = Some [] /\ ext_left h' = Some [].

Section Result.
Context (slot : Z) (rest : list Z) (r : rte_ring).
Hypothesis Hc : contents 4 (free_slots h) = slot :: rest.
Hypotheses (Hwr : ring_wf 4 r) (Hsr : plain_sync r) (Hcr : contents 4 r = rest).
Hypothesis Hcap : r_capacity r = r_capacity (free_slots h).
Let h1 := with_entry (set_free_slots r h) slot data key.
Let upd (j : Z) : Z := if j =? slot then hash else ly_hash L j.

Lemma slot_free : in_store h slot /\ slot <> 0 /\ ~ stored_in L slot /\ ~ (slot ∈ rest) /\ NoDup rest.
Proof.
  destruct (hk_free _ _ Hok) as [Hnd Hfr]. rewrite Hc in Hnd, Hfr.
  apply NoDup_cons in Hnd as [? ?]. destruct (Hfr slot) as (? & ? & ?); [by left|]. done.
Qed.

Lemma rest_free L' : (forall k, stored_in L' k -> stored_in L k \/ k = slot) ->
  forall k, k ∈ rest -> in_store h k /\ k <> 0 /\ ~ stored_in L' k.
Proof.
  intros Hst k Hk. destruct slot_free as (_ & _ & _ & Hnin & _). destruct (hk_free _ _ Hok) as [_ Hfr]. rewrite Hc in Hfr.
  destruct (Hfr k) as (? & ? & ?); [by right|]. split; [done|]. split; [done|]. intros [?| ->]%Hst; done.
Qed.

Lemma upd_main k : ly_main L k -> upd k = ly_hash L k.
Proof.
  intros Hk. unfold upd. destruct slot_free as (_ & _ & HnS & _). destruct (Z.eqb_spec k slot) as [->|]; [|done].
  destruct HnS. by left.
Qed.
Lemma upd_ext k : ly_ext L k -> upd k = ly_hash L k.
Proof.
  intros Hk. unfold upd. destruct slot_free as (_ & _ & HnS & _). destruct (Z.eqb_spec k slot) as [->|]; [|done].
  destruct HnS. by right.
Qed.

(** A result whose table is in order for a layout with the new index. *)
Lemma added L' fx E' B' c' :
  grows L slot hash L' -> length E' = length (buckets_ext h) ->
  inv k0 (first_ext L') (ly_hash L') (ly_main L') B' -> chains_ok (2 ^ k0) (ly_chain L') E' ->
  ext_placed k0 (ly_hash L') (ly_ext L') (ly_chain L') E' -> (forall k, ly_main L' k -> ~ ly_ext L' k) ->
  (if ext_table_support h
   then ring_wf 4 fx /\ plain_sync fx /\ spare_ok (2 ^ k0) (ly_chain L') E' (contents 4 fx)
   else forall b, 0 <= b < 2 ^ k0 -> ly_chain L' b = []) ->
  (fx = free_ext_bkts h \/ ext_table_support h = true /\ exists id, contents 4 (free_ext_bkts h) = id :: contents 4 fx) ->
  add_ok slot rest (result slot r r fx E' B' c').
Proof.
  intros Hg HlE Ht Hch Hex Hap Hsp Hfx. destruct slot_free as (Hslot & Hne & HnS & Hnin & Hnd).
  assert (Hst : forall k, stored_in L' k -> stored_in L k \/ k = slot) by (intros k; apply (gr_stored _ _ _ _ Hg)).
  split; [|split; [|split; [|split; [exact Hcr|split]]]].
  - split; [done|]. split; [done|]. split; [|exact HlE]. intros k. exact (in_store_h1 slot r k).
  - intros k Hk Hks. rewrite result_entries by done. by rewrite (proj2 (Z.eqb_neq _ _) Hks).
  - exists L'. split; [done|]. apply result_ok; try done; [apply (gr_bits _ _ _ _ Hg)|by rewrite Hcr|].
    rewrite Hcr. by apply rest_free.
  - rewrite result_entries by done. by rewrite Z.eqb_refl.
  - change (ext_left (result slot r r fx E' B' c')) with (if ext_table_support h then Some (contents 4 fx) else None).
    unfold ext_left. destruct Hfx as [->|[-> [id ->]]]; [by left|right]. by exists id, (contents 4 fx).
Qed.

Lemma added_main B' c' : inserted k0 (first_ext L) (ly_hash L) (ly_main L) hash slot B' ->
  add_ok slot rest (st h1 B' c' (h_lock h)).
Proof.
  intros Hins. destruct slot_free as (Hslot & Hne & HnS & _).
  apply (added (Layout k0 (ly_chain L) upd (fun k => ly_main L k \/ k = slot) (ly_ext L)) (free_ext_bkts h) (buckets_ext h) B' c');
    cbn [ly_chain ly_hash ly_main ly_ext]; try done; try apply Hok; [..|by left].
  - split; [done|done|]. intros k. unfold stored_in. cbn. tauto.
  - eapply ext_placed_hash; [|apply (hk_ext _ _ Hok)]. apply upd_ext.
  - intros k [Hk| ->] He; [by apply (hk_apart _ _ Hok k)|]. apply HnS. by right.
Qed.

Lemma added_chain B c e m : inv k0 (first_ext L) (ly_hash L) (ly_main L) B ->
  e ∈ ly_chain L q -> 0 <= m < 8 -> idx_at (buckets_ext h) e m = 0 ->
  add_ok slot rest (set_buckets_ext (upd_slot (buckets_ext h) e m s slot) (st h1 B c (h_lock h))).
Proof.
  intros [HB HP] He Hm H0. destruct slot_free as (Hslot & Hne & HnS & _). destruct add_buckets as [_ Hq].
  pose proof (linked_in _ _ _ (ch_linked _ _ _ (hk_chains _ _ Hok) q Hq) He) as Her.
  pose proof (hk_chains _ _ Hok) as HC.
  apply (added (Layout k0 (ly_chain L) upd (ly_main L) (fun k => ly_ext L k \/ k = slot)) (free_ext_bkts h)
    (upd_slot (buckets_ext h) e m s slot) B c); cbn [ly_chain ly_hash ly_main ly_ext]; try done; [..|by left].
  - split; [done|done|]. intros k. unfold stored_in. cbn. tauto.
  - unfold upd_slot, upd_idx, upd_sig. by rewrite !length_insert.
  - split; [done|]. eapply placed_hash; [|exact HP]. apply upd_main.
  - by apply chains_upd.
  - apply (ext_placed_fill k0 (ly_hash L) (ly_ext L) (ly_chain L) (ly_chain L) (buckets_ext h) _ e m slot hash); try done.
    + intros ?. apply HnS. by right.
    + intros e' i' Hi' Hor. apply (upd_slot_at _ _ _ e m _ _ e' i' (ch_slots _ _ _ HC)); [done|split; [|done]].
      destruct Hor as [->|(b & Hb & Hin)]; [done|]. eapply linked_in; [by apply (ch_linked _ _ _ HC b)|done].
    + intros b e' Hb. split; [by left|]. by intros [?|[-> ->]].
    + intros i Hi. left. split; [by exists q|done].
    + intros b Hb Hin. by apply (ch_once _ _ _ HC b q e).
    + apply (hk_ext _ _ Hok).
  - intros k Hk [Hx| ->]; [by apply (hk_apart _ _ Hok k)|]. apply HnS. by left.
  - pose proof (hk_spare _ _ Hok) as Hsp. destruct (ext_table_support h); [|done]. destruct Hsp as (? & ? & Hsp). split; [done|]. split; [done|].
    apply (spare_ext _ _ (buckets_ext h)); [unfold upd_slot, upd_idx, upd_sig; by rewrite !length_insert| |done].
    intros id Hid. pose proof (sp_range _ _ _ _ Hsp id Hid). apply upd_slot_other; [lia|lia|]. intros E.
    apply (sp_out _ _ _ _ Hsp id q Hid Hq). by rewrite E.
Qed.

Lemma added_new B c id ids rx : ext_table_support h = true -> inv k0 (first_ext L) (ly_hash L) (ly_main L) B ->
  contents 4 (free_ext_bkts h) = id :: ids -> ring_wf 4 rx -> plain_sync rx -> contents 4 rx = ids ->
  add_ok slot rest (set_free_ext rx (set_buckets_ext
    (link_last (ly_chain L) (upd_slot (buckets_ext h) (id - 1) 0 s slot) q (id - 1))
    (set_buckets (link_main k0 (ly_chain L) id hash B) (st h1 B c (h_lock h))))).
Proof.
  intros Hx HB Ec Hwx Hsx Hcx. destruct slot_free as (Hslot & Hne & HnS & _). destruct add_buckets as [_ Hq].
  pose proof (hk_chains _ _ Hok) as HC. pose proof (hk_spare _ _ Hok) as Hsp. rewrite Hx, Ec in Hsp. destruct Hsp as (_ & _ & Hsp).
  apply (added (Layout k0 (add_link (ly_chain L) q (id - 1)) upd (ly_main L) (fun k => ly_ext L k \/ k = slot)) rx
    (link_last (ly_chain L) (upd_slot (buckets_ext h) (id - 1) 0 s slot) q (id - 1)) (link_main k0 (ly_chain L) id hash B) c);
    cbn [ly_chain ly_hash ly_main ly_ext].
  - split; [done|done|]. intros k. unfold stored_in. cbn. tauto.
  - rewrite link_last_length. unfold upd_slot, upd_idx, upd_sig. by rewrite !length_insert.
  - pose proof (link_main_inv k0 (ly_chain L) id hash Hq (ly_hash L) (ly_main L) B HB) as [H1 H2]. split; [exact H1|].
    eapply placed_hash; [|exact H2]. apply upd_main.
  - by apply (new_bucket_chains k0 _ _ _ slot hash ids HC Hsp Hq).
  - apply (new_bucket_placed k0 (ly_hash L) (ly_ext L) _ _ id slot hash ids HC Hsp Hq Hne); [|apply (hk_ext _ _ Hok)].
    intros ?. apply HnS. by right.
  - intros k Hk [Hy| ->]; [by apply (hk_apart _ _ Hok k)|]. apply HnS. by left.
  - rewrite Hx. split; [done|]. split; [done|]. rewrite Hcx. by apply (new_bucket_spare k0 _ _ id slot hash ids HC Hsp).
  - right. split; [done|]. exists id. by rewrite Hcx.
Qed.

(** Everything the extendable buckets may come to. *)
Lemma extended_cases B c h' ret : ext_table_support h = true -> inv k0 (first_ext L) (ly_hash L) (ly_main L) B ->
  extended slot r B c h' ret ->
  (ret = slot - 1 /\ add_ok slot rest h') \/ (ret = - ENOSPC /\ add_lost slot rest h').
Proof.
  intros Hx HB [B' Hins|e m He Hm H0|id ids rx Ec Hw Hs Hcx|Ec _ _].
  - left. split; [done|]. by apply added_main.
  - left. split; [done|]. by apply added_chain.
  - left. split; [done|]. by apply (added_new B c id ids rx).
  - right. split; [done|]. destruct slot_free as (Hslot & Hne & HnS & Hnin & Hnd).
    change (st (with_entry (set_free_slots r h) slot data key) B c (h_lock h)) with (result slot r r (free_ext_bkts h) (buckets_ext h) B c).
    split; [|split; [|split; [|split; [exact Hcr|split]]]].
    + split; [done|]. split; [done|]. split; [|done]. intros k. exact (in_store_h1 slot r k).
    + intros k Hk Hks. rewrite result_entries by done. by rewrite (proj2 (Z.eqb_neq _ _) Hks).
    + apply result_ok; try done; try apply Hok; [by left|by rewrite Hcr|]. rewrite Hcr. apply rest_free. by left.
    + unfold ext_left. by rewrite Hx, Ec.
    + unfold ext_left. change (ext_table_support (result slot r r (free_ext_bkts h) (buckets_ext h) B c)) with (ext_table_support h).
      rewrite Hx. by rewrite <- Ec.
Qed.

(** Without extendable buckets the index goes back. *)
Lemma refused B c : ext_table_support h = false ->
  inv k0 (first_ext L) (ly_hash L) (ly_main L) B -> full (buckets h) p ->
  exists h', (h2 ← enqueue_slot_back (Datatypes.S fuel) (st h1 B c (h_lock h)) slot;
              Ret (h2, - ENOSPC)) = Ret (h', - ENOSPC) /\ add_full slot rest h'.
Proof.
  intros Hx HB Hfull. destruct slot_free as (Hslot & Hne & HnS & Hnin & Hnd). destruct (hk_ring _ _ Hok) as [Hw0 _].
  assert (Hroom : Z.of_nat (length (contents 4 r)) < r_capacity r).
  { pose proof (contents_length _ _ Hw0) as Hl. pose proof (rw_used _ _ Hw0).
    rewrite Hc in Hl. change (4 / 4) with 1 in Hl. cbn in Hl. rewrite Hcr, Hcap. lia. }
  destruct (enqueue_word (Datatypes.S fuel) r slot Hwr Hsr Hroom) as (r2 & E & Hw2 & Hs2 & Hc2 & _). rewrite Hcr in Hc2.
  unfold enqueue_slot_back. change (free_slots (st h1 B c (h_lock h))) with r. rewrite E. cbn [mbind outcome_bind].
  exists (result slot r r2 (free_ext_bkts h) (buckets_ext h) B c). split; [done|].
  split; [|split; [|split; [|split; [exact Hc2|split; [|split]]]]].
  - split; [done|]. split; [done|]. split; [|done]. intros k. exact (in_store_h1 slot r k).
  - intros k Hk Hks. rewrite result_entries by done. by rewrite (proj2 (Z.eqb_neq _ _) Hks).
  - apply result_ok; try done; try apply Hok; [by left|..].
    + rewrite Hc2. apply NoDup_app. split; [done|]. split; [|apply NoDup_singleton].
      intros x Hy Hy2. apply list_elem_of_singleton in Hy2. by subst.
    + rewrite Hc2. intros k [Hk| ->%list_elem_of_singleton]%elem_of_app; [|done]. apply rest_free; [by left|done].
  - unfold ext_left. by rewrite Hx.
  - unfold ext_left. change (ext_table_support (result slot r r2 (free_ext_bkts h) (buckets_ext h) B c)) with (ext_table_support h). by rewrite Hx.
  - done.
Qed.
End Result.

Lemma add_key_new_cases slot rest :
  contents 4 (free_slots h) = slot :: rest ->
  exists h' ret,
    __rte_hash_add_key_with_hash (Datatypes.S fuel) h key hash data = Ret (h', ret) /\
    (ret = slot - 1 /\ add_ok slot rest h' \/ ret = - ENOSPC /\ (add_full slot rest h' \/ add_lost slot rest h')).
Proof.
  intros Hc. destruct (slot_free slot rest Hc) as (Hslot & Hne & HnS & _).
  pose proof (hk_store _ _ Hok) as Hst. destruct (hk_ring _ _ Hok) as [Hwf Hsy].
  pose proof (in_store_bound _ _ Hst Hslot) as Hb.
  pose proof (alloc_slot_cases (Datatypes.S fuel) h Hwf Hsy) as Hal. rewrite Hc in Hal.
  destruct Hal as (r & Eal & Hwr & Hsr & Hcr & Hcap).
  unfold __rte_hash_add_key_with_hash, get_prim_bucket_index, get_alt_bucket_index.
  rewrite (hk_mask _ _ Hok). fold (prim_of (2 ^ ly_bits L - 1) hash). fold k0 p s.
  fold (alt_of (2 ^ k0 - 1) p s). fold q.
  destruct add_key_start as (E1 & E2 & E3). rewrite E1. cbn [mbind outcome_bind].
  rewrite E2. cbn [mbind outcome_bind]. rewrite E3, Eal. cbn [mbind outcome_bind].
  set (hr := set_free_slots r h).
  destruct (write_entry hr slot data key) as (W1 & W2 & W3 & W4); try done; [apply store_hr|].
  rewrite W1. cbn [mbind outcome_bind]. rewrite W2. cbn [mbind outcome_bind].
  rewrite W3. cbn [mbind outcome_bind]. rewrite W4. cbn [mbind outcome_bind].
  change (set_key_store (key_store (with_entry hr slot data key)) hr)
    with (with_entry hr slot data key).
  destruct (attempt_run slot r Hslot Hne HnS) as (B' & c' & ok & Hrun & Hres).
  pose proof (Hrun (fun h => Ret (h, i32 (slot - 1)))
    (fun h => add_ext (Datatypes.S fuel) h key data s slot (Main p) (Main q))
    (fun h ret => h ← enqueue_slot_back (Datatypes.S fuel) h slot; Ret (h, ret))
    (fun h ret => h ← enqueue_slot_back (Datatypes.S fuel) h slot; Ret (h, ret))) as Hr.
  cbv beta in Hr. fold hr in Hr. rewrite Hr. destruct ok.
  - eexists _, _. rewrite i32_pos by lia. split; [done|]. left. split; [done|]. by apply added_main.
  - destruct Hres as [Hres Hfull]. destruct (ext_table_support h) eqn:Hx; cbn [negb].
    + destruct (add_ext_run slot r Hslot Hne HnS B' c' Hres Hx) as (h' & ret & E & Hex).
      exists h', ret. split; [exact E|]. destruct (extended_cases slot rest r Hc Hwr Hsr Hcr B' c' h' ret Hx Hres Hex); tauto.
    + destruct (refused slot rest r Hc Hwr Hsr Hcr Hcap B' c' Hx Hres Hfull) as (h' & E & Hf).
      exists h', (- ENOSPC). split; [exact E|]. right. tauto.
Qed.
End AddKey.
