(* ===== verification/HashCreate.v ===== *)
(** * [rte_hash_create]: parameter checks, sizes, and what becomes of the call

    The creation of the rings reserves memory zones, which is code outside the
    repository: [ring_create esize count] says whether it succeeds. *)

From S2P Require Import Prelude Common Atomic RingCore RingCopy RingElem Locks.
From S2P Require Import Cuckoo CuckooSpec.

Open Scope Z_scope.

(* rte_lib/rte_hash.h:18-18 RTE_HASH_EXTRA_FLAGS_TRANS_MEM_SUPPORT *)
Definition RTE_HASH_EXTRA_FLAGS_TRANS_MEM_SUPPORT : Z := 1.
(* rte_lib/rte_hash.h:21-21 RTE_HASH_EXTRA_FLAGS_MULTI_WRITER_ADD *)
Definition RTE_HASH_EXTRA_FLAGS_MULTI_WRITER_ADD : Z := 2.
(* rte_lib/rte_hash.h:24-24 RTE_HASH_EXTRA_FLAGS_RW_CONCURRENCY *)
Definition RTE_HASH_EXTRA_FLAGS_RW_CONCURRENCY : Z := 4.
(* rte_lib/rte_hash.h:27-27 RTE_HASH_EXTRA_FLAGS_EXT_TABLE *)
Definition RTE_HASH_EXTRA_FLAGS_EXT_TABLE : Z := 8.
(* rte_lib/rte_hash.h:35-35 RTE_HASH_EXTRA_FLAGS_NO_FREE_ON_DEL *)
Definition RTE_HASH_EXTRA_FLAGS_NO_FREE_ON_DEL : Z := 16.
(* rte_lib/rte_hash.h:40-40 RTE_HASH_EXTRA_FLAGS_RW_CONCURRENCY_LF *)
Definition RTE_HASH_EXTRA_FLAGS_RW_CONCURRENCY_LF : Z := 32.
(* rte_lib/rte_cuckoo_hash.c:39-44 RTE_HASH_EXTRA_FLAGS_MASK *)
Definition RTE_HASH_EXTRA_FLAGS_MASK : Z :=
  Z.lor RTE_HASH_EXTRA_FLAGS_TRANS_MEM_SUPPORT (Z.lor RTE_HASH_EXTRA_FLAGS_MULTI_WRITER_ADD
    (Z.lor RTE_HASH_EXTRA_FLAGS_RW_CONCURRENCY (Z.lor RTE_HASH_EXTRA_FLAGS_EXT_TABLE
      (Z.lor RTE_HASH_EXTRA_FLAGS_NO_FREE_ON_DEL RTE_HASH_EXTRA_FLAGS_RW_CONCURRENCY_LF)))).
(* rte_lib/rte_cuckoo_hash.h:127-127 KEY_ALIGNMENT *)
Definition KEY_ALIGNMENT : Z := 16.

(** Without the name, the hash function pointer and the reserved word. *)
(* rte_lib/rte_hash.h:64-73 rte_hash_parameters *)
Record rte_hash_parameters := HParams {
  hp_entries : Z;
  hp_key_len : Z;
  hp_hash_func_init_val : Z;
  hp_socket_id : Z;
  hp_extra_flag : Z;
}.

(** The early returns. *)
(* rte_lib/rte_cuckoo_hash.c:696-722 rte_hash_create *)
Definition params_valid (params : rte_hash_parameters) : bool :=
  let entries := hp_entries params in
  if (RTE_HASH_ENTRIES_MAX <? entries) || (entries <? RTE_HASH_BUCKET_ENTRIES) ||
     (hp_key_len params =? 0) then false
  else if flag_set (hp_extra_flag params) (Z.lnot RTE_HASH_EXTRA_FLAGS_MASK) then false
  else if flag_set (hp_extra_flag params) RTE_HASH_EXTRA_FLAGS_RW_CONCURRENCY &&
          flag_set (hp_extra_flag params) RTE_HASH_EXTRA_FLAGS_RW_CONCURRENCY_LF then false
  else true.

(* rte_lib/rte_cuckoo_hash.c:766-766 rte_hash_create *)
Definition num_key_slots (params : rte_hash_parameters) : Z := (hp_entries params + 1)%u32.
(* rte_lib/rte_cuckoo_hash.c:777-778 rte_hash_create *)
Definition num_buckets (params : rte_hash_parameters) : Z :=
  rte_align32pow2 (hp_entries params) / RTE_HASH_BUCKET_ENTRIES.
(* rte_lib/rte_cuckoo_hash.c:868-870 rte_hash_create *)
Definition created_entry_size (params : rte_hash_parameters) : Z :=
  u32 (RTE_ALIGN (u64 (sizeof_ptr + hp_key_len params)) KEY_ALIGNMENT).

Section Create.
Variable ring_create : Z -> Z -> bool.

(** [None] is a null pointer. Once the rings exist the function takes the lock
    [h->tailq_lock] while its local [h] is still the null pointer it was declared
    with, so what follows in the source is never reached. *)
(* rte_lib/rte_cuckoo_hash.c:665-797 rte_hash_create *)
Definition rte_hash_create (params : option rte_hash_parameters) : outcome (option rte_hash) :=
  match params with
  | None => Ret None
  | Some params =>
      if negb (params_valid params) then Ret None
      else if negb (ring_create 4 (rte_align32pow2 (num_key_slots params))) then Ret None
      else if flag_set (hp_extra_flag params) RTE_HASH_EXTRA_FLAGS_EXT_TABLE &&
              negb (ring_create 4 (rte_align32pow2 (num_buckets params + 1)%u32)) then Ret None
      else
        let h : option rte_hash := None in
        match h with
        | None => Undef
        | Some h => Ret (Some h)
        end
  end.

(** [rte_hash_create] never returns a table: it returns a null pointer when there are
    no parameters, when they are invalid or when a ring cannot be created, and in every
    other case its behaviour is undefined, because it dereferences [h] before allocating
    it. *)
Theorem rte_hash_create_never_succeeds params :
  (rte_hash_create params = Ret None <->
   match params with
   | None => True
   | Some p => params_valid p = false \/ ring_create 4 (rte_align32pow2 (num_key_slots p)) = false \/
       flag_set (hp_extra_flag p) RTE_HASH_EXTRA_FLAGS_EXT_TABLE = true /\
       ring_create 4 (rte_align32pow2 (num_buckets p + 1)%u32) = false
   end) /\
  (rte_hash_create params = Ret None \/ rte_hash_create params = Undef).
Proof.
  unfold rte_hash_create. destruct params as [p|]; [|intuition congruence].
  destruct (params_valid p); cbn; [|intuition congruence].
  destruct (ring_create 4 (rte_align32pow2 (num_key_slots p))); cbn; [|intuition congruence].
  destruct (flag_set _ _); cbn; [|intuition congruence].
  destruct (ring_create 4 _); cbn; intuition congruence.
Qed.
End Create.

(** ** Sizes *)

(** The sizes computed for valid parameters: one key slot per entry and the reserved
    one; a power of two of buckets, at least one, whose eight-fold is at least the number
    of entries and less than twice it, so [bucket_bitmask] selects a bucket; and an entry
    size that is a multiple of 16 and holds the data pointer and the key. *)
Theorem created_sizes p :
  params_valid p = true -> is_u32 (hp_entries p) -> 0 <= hp_key_len p < 2 ^ 31 ->
  num_key_slots p = hp_entries p + 1 /\
  (exists k, 0 <= k /\ num_buckets p = 2 ^ k /\ hp_entries p <= 8 * num_buckets p < 2 * hp_entries p) /\
  (exists m, created_entry_size p = 16 * m) /\
  8 + hp_key_len p <= created_entry_size p < 8 + hp_key_len p + 16.
Proof.
  intros Hv He Hk. unfold params_valid in Hv.
  destruct ((RTE_HASH_ENTRIES_MAX <? hp_entries p) || (hp_entries p <? RTE_HASH_BUCKET_ENTRIES) ||
     (hp_key_len p =? 0)) eqn:E; [done|]. clear Hv.
  apply orb_false_iff in E as [E _]. apply orb_false_iff in E as [E1 E2].
  apply Z.ltb_ge in E1, E2. unfold RTE_HASH_ENTRIES_MAX, RTE_HASH_BUCKET_ENTRIES in *.
  split; [unfold num_key_slots; apply u32_small; lia|]. split.
  - unfold num_buckets, RTE_HASH_BUCKET_ENTRIES. rewrite rte_align32pow2_log2_up by lia.
    pose proof (Z.log2_up_spec (hp_entries p) ltac:(lia)) as Hl.
    pose proof (Z.log2_up_le_mono 8 (hp_entries p) ltac:(lia)) as H3.
    change (Z.log2_up 8) with 3 in H3. set (l := Z.log2_up (hp_entries p)) in *.
    assert (H8 : 2 ^ l = 2 ^ (l - 3) * 8)
      by (change 8 with (2 ^ 3) at 1; rewrite <- Z.pow_add_r by lia; f_equal; lia).
    assert (Hp : 2 ^ l = 2 * 2 ^ Z.pred l)
      by (rewrite <- Z.pow_succ_r by lia; f_equal; lia).
    exists (l - 3). rewrite H8, Z.div_mul by done. lia.
  - assert (E : created_entry_size p = (8 + hp_key_len p + 15) / 16 * 16).
    { unfold created_entry_size, KEY_ALIGNMENT. change sizeof_ptr with 8.
      rewrite (u64_small (8 + _)) by lia. rewrite (RTE_ALIGN_pow2 _ 4) by lia.
      apply u32_small. change (2 ^ 4) with 16. Z.div_mod_to_equations; lia. }
    rewrite E. split; [exists ((8 + hp_key_len p + 15) / 16); lia|]. Z.div_mod_to_equations; lia.
Qed.

(** The byte offset of an entry is a 32-bit product: in a table that the checks accept
    (134217728 entries of 16-byte keys, entry size 32), the entry of the largest index has
    offset 2^32, which wraps to 0, so that the lookup of that index reads, and the
    insertion overwrites, the reserved entry 0. *)
Theorem key_offset_wraps h :
  key_entry_size h = created_entry_size (HParams (2 ^ 27) 16 0 0 0) ->
  params_valid (HParams (2 ^ 27) 16 0 0 0) = true /\ key_slot h (2 ^ 27) = Ret 0.
Proof.
  intros E. split; [reflexivity|]. change (created_entry_size _) with 32 in E.
  unfold key_slot. by rewrite E.
Qed.

(** ** Witnesses *)

Lemma created_sizes_witness :
  num_buckets (HParams 100 37 0 0 0) = 16 /\ exists m, created_entry_size (HParams 100 37 0 0 0) = 16 * m.
Proof.
  destruct (created_sizes (HParams 100 37 0 0 0)) as (_ & _ & H & _); [reflexivity|cbn; lia|cbn; lia|].
  split; [vm_compute; reflexivity|exact H].
Defined.

Lemma key_offset_wraps_witness :
  exists h, key_entry_size h = 32 /\ key_slot h (2 ^ 27) = Ret 0.
Proof.
  exists (Hash 16 false false false false 0 0 32
    (Ring "r" 0 None 0 0 0 zero_headtail zero_headtail []) [] [] 0 []
    (Ring "r" 0 None 0 0 0 zero_headtail zero_headtail []) 0).
  split; [reflexivity|]. apply (key_offset_wraps (Hash 16 false false false false 0 0 32
    (Ring "r" 0 None 0 0 0 zero_headtail zero_headtail []) [] [] 0 []
    (Ring "r" 0 None 0 0 0 zero_headtail zero_headtail []) 0)). reflexivity.
Defined.
