(* ===== verification/CuckooMap.v ===== *)
(** * The cuckoo hash table as a finite map

    What the caller of [rte_hash_add_key] relies on: a key that is stored keeps
    its position, a new key gets a position of its own, and a history of
    insertions into a table of eight-byte keys is a history of a finite map. *)

From stdpp Require Import gmap.
From S2P Require Import Prelude Common Atomic RingCore RingCopy RingElem RingSpec.
From S2P Require Import Locks Cuckoo CuckooSpec CuckooExt CuckooTable.

Open Scope Z_scope.

(** ** A key that is stored *)

(** The caller's key reads as entry [k]: same buckets, same short signature, same
    first eight bytes; and as no other entry. *)
Record reads_as (L : layout) (h : rte_hash) (key : list Z) (hash k : Z) : Prop := {
  ra_stored : stored_in L k;
  ra_sig : get_short_sig (ly_hash L k) = get_short_sig hash;
  ra_prim : prim_of (2 ^ ly_bits L - 1) (ly_hash L k) = prim_of (2 ^ ly_bits L - 1) hash;
  ra_prefix : prefix8 key = prefix8 (k_key (entry_at h k));
  ra_dummy : prefix8 key <> prefix8 (k_key (entry_at h 0));
  ra_only : forall j, stored_in L j -> prefix8 key = prefix8 (k_key (entry_at h j)) -> j = k;
}.

Section Existing.
Context (fuel : nat) (L : layout) (h : rte_hash).
Context (key : list Z) (data hash k : Z).
Hypothesis Hok : hash_ok L h.
Hypothesis Hfuel : (length (buckets_ext h) <= fuel)%nat.
Hypothesis Hkey : (8 <= length key)%nat.
Hypothesis Hra : reads_as L h key hash k.
Let k0 := ly_bits L.
Let s := get_short_sig hash.
Let p := prim_of (2 ^ k0 - 1) hash.
Let q := alt_of (2 ^ k0 - 1) p s.
Let lk := if writer_takes_lock h then -1 else h_lock h.
Let hl := st h (buckets h) (tbl_chng_cnt h) lk.

Lemma stored_nonzero : k <> 0.
Proof.
  destruct (hk_table _ _ Hok) as [_ [_ _ _ Hz]]. pose proof (ep_nonzero _ _ _ _ _ (hk_ext _ _ Hok)) as Hz'.
  destruct (ra_stored _ _ _ _ _ Hra) as [H|H]; by intros ->.
Qed.

Lemma stored_small : in_store h k /\ i32 (k - 1) = k - 1 /\ negb (k - 1 =? -1) = true.
Proof.
  pose proof (hk_stored _ _ Hok k (ra_stored _ _ _ _ _ Hra)) as Hks.
  pose proof (in_store_bound _ _ (hk_store _ _ Hok) Hks). pose proof stored_nonzero.
  split; [done|]. split; [apply i32_pos; lia|]. apply negb_true_iff, Z.eqb_neq. lia.
Qed.

(** Where the entry is: in a main bucket, or in the chain of the secondary one. *)
Lemma stored_main : ly_main L k ->
  exists b i, in_table (2 ^ k0) b i /\ (b = p \/ b = q) /\ idx_at (buckets h) b i = k /\
    slot_match (buckets h) hl key s b i.
Proof.
  intros HS. destruct (hk_table _ _ Hok) as [_ [Hv Hc _ _]]. destruct Hra as [_ Hsg Hpr Hpx _ _].
  destruct (Hc k HS) as (b & i & Hin & _ & E). exists b, i.
  destruct (Hv b i Hin) as [_ [V1 V2]]; [done|rewrite E; apply stored_nonzero|].
  rewrite E in V1, V2. fold k0 in Hpr, V2. rewrite Hpr, Hsg in V2. repeat split; try done; try apply Hin.
  - by rewrite V1.
  - change (prefix8 key = prefix8 (k_key (entry_at h (idx_at (buckets h) b i)))). by rewrite E.
Qed.

Lemma stored_chain : ly_ext L k ->
  exists e i, in_chain k0 (ly_chain L) q e i /\ idx_at (buckets_ext h) e i = k /\ slot_match (buckets_ext h) hl key s e i.
Proof.
  intros HS. destruct (hk_ext _ _ Hok) as [Hv Hc _ _]. destruct Hra as [_ Hsg Hpr Hpx _ _].
  destruct (Hc k HS) as (b & e & i & Hin & E). destruct (Hv b e i Hin) as (_ & V1 & V2); [rewrite E; apply stored_nonzero|].
  rewrite E in V1, V2. unfold sec_of in V2. fold k0 in V2, Hpr. rewrite Hpr, Hsg in V2. subst b.
  exists e, i. split; [done|]. split; [done|]. split; [by rewrite V1|].
  change (prefix8 key = prefix8 (k_key (entry_at h (idx_at (buckets_ext h) e i)))). by rewrite E.
Qed.

(** Nothing else matches. *)
Lemma main_match b i : in_table (2 ^ k0) b i -> slot_match (buckets h) hl key s b i ->
  idx_at (buckets h) b i = k /\ ly_main L k.
Proof.
  intros Hin [_ Hp]. destruct (hk_table _ _ Hok) as [_ [Hv _ _ _]]. destruct Hra as [_ _ _ _ Hd Ho].
  change (prefix8 key = prefix8 (k_key (entry_at h (idx_at (buckets h) b i)))) in Hp.
  assert (Hne : idx_at (buckets h) b i <> 0) by (intros E0; rewrite E0 in Hp; done).
  destruct (Hv b i Hin) as [HS _]; [done|done|]. assert (E : idx_at (buckets h) b i = k) by (apply Ho; [by left|done]).
  by rewrite <- E at 2.
Qed.

Lemma chain_match b e i : in_chain k0 (ly_chain L) b e i -> slot_match (buckets_ext h) hl key s e i ->
  idx_at (buckets_ext h) e i = k /\ ly_ext L k.
Proof.
  intros Hin [_ Hp]. destruct (hk_ext _ _ Hok) as [Hv _ _ _]. destruct Hra as [_ _ _ _ Hd Ho].
  change (prefix8 key = prefix8 (k_key (entry_at h (idx_at (buckets_ext h) e i)))) in Hp.
  assert (Hne : idx_at (buckets_ext h) e i <> 0) by (intros E0; rewrite E0 in Hp; done).
  destruct (Hv b e i Hin Hne) as [HS _]. assert (E : idx_at (buckets_ext h) e i = k) by (apply Ho; [by right|done]).
  by rewrite <- E at 2.
Qed.

Lemma main_only b i b' i' : in_table (2 ^ k0) b i -> idx_at (buckets h) b i = k ->
  in_table (2 ^ k0) b' i' -> slot_match (buckets h) hl key s b' i' -> (b', i') = (b, i).
Proof.
  intros Hin E Hin' Hm. destruct (main_match b' i' Hin' Hm) as [E' _]. destruct (hk_table _ _ Hok) as [_ [_ _ Hu _]].
  apply Hu; try done; [|congruence]. rewrite E'. apply stored_nonzero.
Qed.

Lemma store_hl : store_ok hl.
Proof. by destruct (hk_store _ _ Hok). Qed.

(** *** The searches, bucket by bucket *)
Lemma main_accesses b : 0 <= b < 2 ^ k0 ->
  (forall i, 0 <= i < 8 -> get_sig hl (Main b) i = Ret (sig_at (buckets h) b i)) /\
  (forall i, 0 <= i < 8 -> get_idx hl (Main b) i = Ret (idx_at (buckets h) b i)) /\
  (forall i, 0 <= i < 8 -> in_store hl (idx_at (buckets h) b i)).
Proof.
  intros Hb. destruct (hk_table _ _ Hok) as [HB HP]. split; [|split]; intros i Hi.
  - by apply (get_sig_at (2 ^ k0) (first_ext L) hl).
  - by apply (get_idx_at (2 ^ k0) (first_ext L) hl).
  - apply (inv_idx k0 (first_ext L) (ly_hash L) (ly_main L) h); [apply (hk_zero _ _ Hok)| |done|done].
    intros j Hj. apply (hk_stored _ _ Hok). by left.
Qed.

Lemma main_miss b : 0 <= b < 2 ^ k0 -> (forall i, 0 <= i < 8 -> ~ slot_match (buckets h) hl key s b i) ->
  search_and_update hl data key (Main b) s = Ret (hl, -1).
Proof.
  intros Hb Hno. destruct (main_accesses b Hb) as (H1 & H2 & H3).
  apply (search_miss hl data key s (Main b) (buckets h) b H1 H2 store_hl Hkey H3 Hno).
Qed.

Lemma main_hit b i : in_table (2 ^ k0) b i -> idx_at (buckets h) b i = k -> slot_match (buckets h) hl key s b i ->
  search_and_update hl data key (Main b) s = Ret (with_data hl k data, k - 1).
Proof.
  intros Hin E Hm. pose proof Hin as [Hb Hi]. destruct (main_accesses b Hb) as (H1 & H2 & H3).
  rewrite (search_hit hl data key s (Main b) (buckets h) b H1 H2 store_hl Hkey H3 i Hi Hm).
  - rewrite E. by destruct stored_small as (_ & -> & _).
  - intros j Hj Hmj. assert (Hinj : in_table (2 ^ k0) b j) by (split; [done|lia]).
    pose proof (main_only b i b j Hin E Hinj Hmj) as [=]. lia.
Qed.

(** The walk along the chain of the secondary bucket. *)
Lemma chain_walk_hit : ly_ext L k ->
  for_each_bucket fuel hl (first_ext L q) (check_dup key data hash) = Ret (with_data hl k data, Some (k - 1)).
Proof.
  intros HS. destruct (stored_chain HS) as (e & i & Hin & E & Hm). pose proof Hin as (Hq & He & Hi).
  pose proof (hk_chains _ _ Hok) as HC. pose proof (ch_linked _ _ _ HC q Hq) as Hl.
  apply list_elem_of_split in He as (l1 & l2 & Ec). unfold first_ext. rewrite Ec in *.
  assert (Hsub : forall e', e' ∈ l1 ++ e :: l2 -> 0 <= e' < Z.of_nat (length (buckets_ext h))) by (intros e' He'; by eapply linked_in).
  assert (Hacc : forall e', e' ∈ l1 ++ e :: l2 ->
    (forall i, 0 <= i < 8 -> get_sig hl (ExtB e') i = Ret (sig_at (buckets_ext h) e' i)) /\
    (forall i, 0 <= i < 8 -> get_idx hl (ExtB e') i = Ret (idx_at (buckets_ext h) e' i)) /\
    (forall i, 0 <= i < 8 -> in_store hl (idx_at (buckets_ext h) e' i))).
  { intros e' He'. pose proof (Hsub e' He'). split; [|split]; intros j Hj.
    - by apply (get_sig_ext _ _ hl (ch_slots _ _ _ HC)).
    - by apply (get_idx_ext _ _ hl (ch_slots _ _ _ HC)).
    - apply (chain_store L h Hok hl) with (b := q); try done. by rewrite <- Ec in He'. }
  assert (Hes : e ∈ l1 ++ e :: l2) by (apply elem_of_app; right; left).
  apply walk_some; [done| |intros e' He'|].
  - pose proof (chain_bound _ _ _ q HC Hq) as Hb. rewrite Ec, length_app in Hb. cbn in Hb. lia.
  - assert (Hin' : e' ∈ l1 ++ e :: l2) by (apply elem_of_app; by left). destruct (Hacc e' Hin') as (H1 & H2 & H3).
    unfold check_dup. fold s. rewrite (search_miss hl data key s (ExtB e') (buckets_ext h) e' H1 H2 store_hl Hkey H3); [done|].
    intros j Hj Hmj. assert (Hc' : in_chain k0 (ly_chain L) q e' j) by (split; [done|]; split; [by rewrite Ec|done]).
    destruct (chain_match q e' j Hc' Hmj) as [E' _].
    assert (Heq : (e', j) = (e, i)).
    { apply (ep_uniq _ _ _ _ _ (hk_ext _ _ Hok) q e' j q e i Hc' Hin); [rewrite E'; apply stored_nonzero|congruence]. }
    injection Heq as -> _.
    pose proof (ch_nodup _ _ _ HC q Hq) as Hn. rewrite Ec in Hn. apply NoDup_app in Hn as (_ & Hd & _). apply (Hd e He'). left.
  - destruct (Hacc e Hes) as (H1 & H2 & H3). unfold check_dup. fold s.
    rewrite (search_hit hl data key s (ExtB e) (buckets_ext h) e H1 H2 store_hl Hkey H3 i Hi Hm).
    + rewrite E. cbn [mbind outcome_bind]. destruct stored_small as (_ & -> & ->). done.
    + intros j Hj Hmj. assert (Hc' : in_chain k0 (ly_chain L) q e j) by (split; [done|]; split; [by rewrite Ec|lia]).
      destruct (chain_match q e j Hc' Hmj) as [E' _].
      assert (Heq : (e, j) = (e, i)).
      { apply (ep_uniq _ _ _ _ _ (hk_ext _ _ Hok) q e j q e i Hc' Hin); [rewrite E'; apply stored_nonzero|congruence]. }
      injection Heq. lia.
Qed.

Lemma search_stored : search_both (Datatypes.S fuel) hl data key (Main p) (Main q) s =
  Ret (with_data hl k data, Some (k - 1)).
Proof.
  destruct (two_buckets k0 hash (hk_size _ _ Hok)) as [Hp Hq]. fold p in Hp, Hq. fold s q in Hq.
  destruct stored_small as (_ & _ & Hret). pose proof (hk_table _ _ Hok) as [HB _].
  unfold search_both. destruct (ra_stored _ _ _ _ _ Hra) as [HS|HS].
  - destruct (stored_main HS) as (b & i & Hin & Hb & E & Hm). destruct (Z.eq_dec b p) as [->|Hbp].
    + rewrite (main_hit p i) by done. cbn [mbind outcome_bind]. by rewrite Hret.
    + destruct Hb as [Hb|Hb]; [done|]. subst b. rewrite (main_miss p Hp).
      * cbn [mbind outcome_bind]. change (negb (-1 =? -1)) with false. cbn [for_each_bucket].
        rewrite (main_hit q i) by done. cbn [mbind outcome_bind]. by rewrite Hret.
      * intros j Hj Hmj. pose proof (main_only q i p j Hin E (conj Hp Hj) Hmj) as [=]. congruence.
  - assert (Hno : forall b j, in_table (2 ^ k0) b j -> ~ slot_match (buckets h) hl key s b j).
    { intros b j Hin Hmj. destruct (main_match b j Hin Hmj) as [_ HM]. by apply (hk_apart _ _ Hok k). }
    rewrite (main_miss p Hp) by (intros j Hj; by apply Hno). cbn [mbind outcome_bind].
    change (negb (-1 =? -1)) with false. cbn [for_each_bucket].
    rewrite (main_miss q Hq) by (intros j Hj; by apply Hno). cbn [mbind outcome_bind].
    change (negb (-1 =? -1)) with false. cbv iota. unfold get_bkt. change (buckets hl) with (buckets h).
    rewrite (rd_bkt _ _ _ HB) by done. cbn [mbind outcome_bind]. destruct (bkt_shape _ _ _ HB q Hq) as (_ & _ & ->).
    exact (chain_walk_hit HS).
Qed.

Lemma with_data_at j : in_store h j ->
  entry_at (with_data h k data) j = if j =? k then HKey data (k_key (entry_at h k)) else entry_at h j.
Proof using Hok Hra.
  intros Hj. pose proof (hk_stored _ _ Hok k (ra_stored _ _ _ _ _ Hra)) as Hk. clear Hfuel Hkey.
  unfold in_store in *. unfold entry_at at 1, with_data. cbn.
  destruct (Z.eqb_spec j k) as [->|].
  - apply list_lookup_total_insert_eq. lia.
  - apply list_lookup_total_insert_ne. lia.
Qed.

Lemma with_data_ok : hash_ok L (with_data h k data).
Proof.
  pose proof (hk_stored _ _ Hok k (ra_stored _ _ _ _ _ Hra)) as Hk.
  pose proof (hk_store _ _ Hok) as Hst.
  assert (Hin : forall j, in_store (with_data h k data) j <-> in_store h j)
    by (intros j; unfold in_store, with_data; cbn; by rewrite length_insert).
  destruct Hok as [H1 H2 [T1 T2 T3 T4] H4 H6 H7 H8 H9 H10 H11 H12 [Hn Hf] H13]. split; try done.
  - split; try done.
    + intros e He. apply list_elem_of_lookup in He as [j Hj].
      apply list_lookup_insert_Some in Hj as [(_ & <- & _)|[_ Hj]].
      * cbn. apply entry_length; done.
      * apply T2. by eapply list_elem_of_lookup_2.
    + cbn. by rewrite length_insert.
  - by apply Hin.
  - intros j Hj. by apply Hin, H7.
  - split; [done|]. intros j Hj. rewrite Hin. by apply Hf.
Qed.

Lemma add_existing_run :
  __rte_hash_add_key_with_hash (Datatypes.S fuel) h key hash data = Ret (with_data h k data, k - 1).
Proof.
  pose proof (hk_lock _ _ Hok) as Hl.
  unfold __rte_hash_add_key_with_hash, get_prim_bucket_index, get_alt_bucket_index.
  rewrite (hk_mask _ _ Hok). fold k0 (prim_of (2 ^ k0 - 1) hash). fold p. fold s.
  fold (alt_of (2 ^ k0 - 1) p s). fold q.
  pose proof (lock_st fuel h Hl (buckets h) (tbl_chng_cnt h)) as E1.
  rewrite st_same in E1. fold lk in E1. fold hl in E1. rewrite E1. cbn [mbind outcome_bind].
  rewrite search_stored. cbn [mbind outcome_bind].
  pose proof (unlock_st (with_data h k data) Hl (buckets h) (tbl_chng_cnt h)) as E2.
  change (__hash_rw_writer_unlock (with_data hl k data) = with_data h k data) in E2.
  by rewrite E2.
Qed.
End Existing.

(** ** The table against a finite map

    [ix_map]: each stored key with its index and its data; [ix_free]: the free
    indices in the order in which the ring hands them out; [ix_ext]: how many extendable
    buckets are left, in a table that has them. *)
Record index := Idx { ix_map : gmap (list Z) (Z * Z); ix_free : list Z; ix_ext : option nat }.

Definition stored (I : index) (k : Z) : Prop := exists key d, ix_map I !! key = Some (k, d).

(** A new key takes an extendable bucket at most. *)
Definition spends (ext ext' : option nat) : Prop := ext' = ext \/ exists n, ext = Some (Datatypes.S n) /\ ext' = Some n.

(** What one insertion may do to the map, and the value it returns. Without extendable
    buckets a new key is refused only when no path of moves frees a slot for it, and its
    index is free again; with them, only when none is left, and then the index is lost. *)
Inductive add_step : index -> list Z * Z -> Z -> index -> Prop :=
  | add_known m free ext key data k d :
      m !! key = Some (k, d) ->
      add_step (Idx m free ext) (key, data) (k - 1) (Idx (<[key := (k, data)]> m) free ext)
  | add_new m free ext ext' key data k :
      m !! key = None -> spends ext ext' ->
      add_step (Idx m (k :: free) ext) (key, data) (k - 1) (Idx (<[key := (k, data)]> m) free ext')
  | add_refused m free key data k :
      m !! key = None ->
      add_step (Idx m (k :: free) None) (key, data) (- ENOSPC) (Idx m (free ++ [k]) None)
  | add_dropped m free key data k :
      m !! key = None ->
      add_step (Idx m (k :: free) (Some 0%nat)) (key, data) (- ENOSPC) (Idx m free (Some 0%nat)).

Inductive add_steps : index -> list (list Z * Z) -> list Z -> index -> Prop :=
  | steps_nil I : add_steps I [] [] I
  | steps_cons I op r I1 ops rs I2 :
      add_step I op r I1 -> add_steps I1 ops rs I2 -> add_steps I (op :: ops) (r :: rs) I2.

(** A history of insertions of pairs of a key and its data, [hash_func] being the
    table's hash function. *)
Fixpoint run_adds (fuel : nat) (hash_func : list Z -> Z -> Z -> Z) (h : rte_hash)
    (ops : list (list Z * Z)) : outcome (rte_hash * list Z) :=
  match ops with
  | [] => Ret (h, [])
  | (key, data) :: ops =>
      '(h, ret) ← __rte_hash_add_key_with_hash fuel h key (rte_hash_hash hash_func h key) data;
      '(h, rets) ← run_adds fuel hash_func h ops;
      Ret (h, ret :: rets)
  end.

Section Refinement.
Context (fuel : nat) (hash_func : list Z -> Z -> Z -> Z) (dummy : list Z).

(** The table holds the map: its keys have eight bytes, [dummy] being those of the
    reserved entry 0. *)
Record represents (h : rte_hash) (I : index) : Prop := {
  rp_ok : exists L, hash_ok L h /\ (forall k, stored_in L k <-> stored I k) /\
    forall key k d, ix_map I !! key = Some (k, d) -> ly_hash L k = rte_hash_hash hash_func h key;
  rp_len : key_len h = 8;
  rp_free : contents 4 (free_slots h) = ix_free I;
  rp_ext : length <$> ext_left h = ix_ext I;
  rp_dummy : prefix8 (k_key (entry_at h 0)) = dummy;
  rp_entry : forall key k d, ix_map I !! key = Some (k, d) ->
    k_pdata (entry_at h k) = d /\ prefix8 (k_key (entry_at h k)) = key;
}.

(** A key the caller may insert. *)
Definition key_ok (key : list Z) : Prop := length key = 8%nat /\ key <> dummy.

Lemma prefix8_key key : length key = 8%nat -> prefix8 key = key.
Proof. intros E. apply take_ge. lia. Qed.

Lemma distinct_slots h I key1 key2 k d1 d2 :
  represents h I -> ix_map I !! key1 = Some (k, d1) -> ix_map I !! key2 = Some (k, d2) -> key1 = key2.
Proof. intros Hr H1 H2. destruct (rp_entry _ _ Hr _ _ _ H1), (rp_entry _ _ Hr _ _ _ H2). congruence. Qed.

Lemma stored_bound h I key k d : represents h I -> ix_map I !! key = Some (k, d) -> 0 < k.
Proof.
  intros Hr Hm. destruct (rp_ok _ _ Hr) as (L & Hok & HS & _).
  assert (Hk : stored_in L k) by (apply HS; by exists key, d).
  pose proof (hk_stored _ _ Hok k Hk) as [? _].
  destruct (hk_table _ _ Hok) as [_ [_ _ _ Hz]]. pose proof (ep_nonzero _ _ _ _ _ (hk_ext _ _ Hok)) as Hz'.
  assert (k <> 0) by (destruct Hk; by intros ->). lia.
Qed.

(** A key the map has: its data change, and nothing else. *)
Lemma known_reads h I L key k d :
  represents h I -> key_ok key -> ix_map I !! key = Some (k, d) -> hash_ok L h -> (forall k, stored_in L k <-> stored I k) ->
  (forall key k d, ix_map I !! key = Some (k, d) -> ly_hash L k = rte_hash_hash hash_func h key) ->
  reads_as L h key (rte_hash_hash hash_func h key) k.
Proof.
  intros Hr [Hl Hd] Hm Hok HS Hh. destruct Hr as [_ Hlen Hfree _ Hdum Hent].
  destruct (Hent _ _ _ Hm) as [_ Hpx]. pose proof (Hh _ _ _ Hm) as Ehs.
  split; rewrite ?Ehs, ?(prefix8_key key) by done; try done.
  - apply HS. by exists key, d.
  - by rewrite Hdum.
  - intros j Hj Hjx. apply HS in Hj as (key' & d' & Hm').
    destruct (Hent _ _ _ Hm') as [_ Hpx']. rewrite Hpx' in Hjx. subst key'. congruence.
Qed.

Lemma add_known_step h I key data k d :
  represents h I -> (length (buckets_ext h) <= fuel)%nat -> key_ok key -> ix_map I !! key = Some (k, d) ->
  exists h', __rte_hash_add_key_with_hash (Datatypes.S fuel) h key (rte_hash_hash hash_func h key) data =
      Ret (h', k - 1) /\ length (buckets_ext h') = length (buckets_ext h) /\
    represents h' (Idx (<[key := (k, data)]> (ix_map I)) (ix_free I) (ix_ext I)).
Proof.
  intros Hr Hf [Hl Hd] Hm. pose proof Hr as [(L & Hok & HS & Hh) Hlen Hfree Hext Hdum Hent].
  pose proof (known_reads h I L key k d Hr (conj Hl Hd) Hm Hok HS Hh) as Hra.
  exists (with_data h k data). split.
  { apply (add_existing_run fuel L); (done || lia). }
  split; [done|]. pose proof (with_data_at L h key data _ k Hok Hra) as Hat.
  pose proof (hk_stored _ _ Hok) as Hin.
  split; try done.
  - exists L. split; [by eapply with_data_ok|]. cbn [ix_map]. split.
    + intros j. rewrite HS. unfold stored; cbn. split; intros (key' & d' & Hm').
      * destruct (decide (key' = key)) as [->|Hne].
        -- exists key, data. rewrite Hm in Hm'. injection Hm' as <- _. by rewrite lookup_insert_eq.
        -- exists key', d'. by rewrite lookup_insert_ne.
      * apply lookup_insert_Some in Hm' as [[<- [= <- _]]|[_ Hm']]; [by exists key, d|by exists key', d'].
    + intros key' k' d' Hm'. change (rte_hash_hash hash_func (with_data h k data) key')
        with (rte_hash_hash hash_func h key').
      apply lookup_insert_Some in Hm' as [[<- [= <- _]]|[_ Hm']]; by eapply Hh.
  - rewrite Hat by (apply (hk_zero _ _ Hok)). by destruct (Z.eqb_spec 0 k) as [<-|].
  - cbn [ix_map]. intros key' k' d' Hm'. destruct (Hent _ _ _ Hm) as [_ Hpx].
    apply lookup_insert_Some in Hm' as [[<- [= <- <-]]|[Hne Hm']].
    + rewrite Hat by (apply Hin, HS; by exists key, d). rewrite Z.eqb_refl. done.
    + rewrite Hat by (apply Hin, HS; by exists key', d').
      destruct (Z.eqb_spec k' k) as [->|]; [|by apply Hent]. exfalso. apply Hne. by eapply distinct_slots.
Qed.

(** A key the map has not: the head of the free list, or a refusal. *)
Lemma not_stored_fresh h I L key :
  represents h I -> key_ok key -> ix_map I !! key = None ->
  (forall k, stored_in L k <-> stored I k) ->
  fresh_key (ly_bits L) (ly_hash L) (stored_in L) h key (rte_hash_hash hash_func h key).
Proof.
  intros Hr [Hl Hd] Hm HS. destruct Hr as [_ _ _ _ Hdum Hent]. split.
  - by rewrite Hdum, prefix8_key.
  - intros k Hk _ _ Hpx. apply HS in Hk as (key' & d' & Hm').
    destruct (Hent _ _ _ Hm') as [_ Hpx']. rewrite (prefix8_key key Hl), Hpx' in Hpx.
    subst key'. congruence.
Qed.

Lemma prefix8_new h slot data key :
  key_len h = 8 -> length key = 8%nat -> prefix8 (k_key (new_entry h slot data key)) = key.
Proof.
  intros Hlen Hl. unfold new_entry, prefix8; cbn [k_key]. rewrite Hlen.
  change (Z.to_nat 8) with 8%nat. rewrite (take_ge key) by lia. by rewrite <- Hl, take_app_length.
Qed.

Section NewKey.
Context (h : rte_hash) (I : index) (key : list Z) (data : Z) (L : layout) (slot : Z) (rest : list Z) (h' : rte_hash).
Hypotheses (Hr : represents h I) (Hkey : key_ok key) (Hm : ix_map I !! key = None) (Hok : hash_ok L h).
Hypothesis HS : forall k, stored_in L k <-> stored I k.
Hypothesis Hh : forall key k d, ix_map I !! key = Some (k, d) -> ly_hash L k = rte_hash_hash hash_func h key.
Hypotheses (Hslot : in_store h slot) (Hne : slot <> 0) (HnS : ~ stored_in L slot).

Lemma not_slot key' k' d' : ix_map I !! key' = Some (k', d') -> k' <> slot.
Proof. intros Hm' ->. apply HnS, HS. by exists key', d'. Qed.

Lemma represents_added :
  add_ok L h key data (rte_hash_hash hash_func h key) slot rest h' ->
  exists ext', spends (ix_ext I) ext' /\ represents h' (Idx (<[key := (slot, data)]> (ix_map I)) rest ext').
Proof.
  intros ((Pl & Pi & Pin & _) & Hold & (L' & Hg & Hok') & Hc' & Hnew & Hex).
  destruct Hr as [_ Hlen _ Hext Hdum Hent]. destruct Hkey as [Hl Hd].
  assert (Hhash : forall key, rte_hash_hash hash_func h' key = rte_hash_hash hash_func h key)
    by (intros; unfold rte_hash_hash; by rewrite Pl, Pi).
  exists (length <$> ext_left h'). split.
  { unfold spends. rewrite <- Hext. destruct Hex as [->|(id & ids & -> & ->)]; [by left|right]. by exists (length ids). }
  split; cbn [ix_map ix_free ix_ext]; [|congruence|done|done|..].
  - exists L'. split; [done|]. split.
    + intros j. rewrite (gr_stored _ _ _ _ Hg), HS. unfold stored; cbn. split.
      * intros [(key' & d' & Hm')| ->].
        -- exists key', d'. rewrite lookup_insert_ne; [done|]. congruence.
        -- exists key, data. by rewrite lookup_insert_eq.
      * intros (key' & d' & Hm').
        apply lookup_insert_Some in Hm' as [[<- [= <- _]]|[_ Hm']]; [by right|left; by exists key', d'].
    + intros key' k' d' Hm'. rewrite Hhash, (gr_hash _ _ _ _ Hg).
      apply lookup_insert_Some in Hm' as [[<- [= <- _]]|[_ Hm']].
      * by rewrite Z.eqb_refl.
      * rewrite (proj2 (Z.eqb_neq _ _)) by (by eapply not_slot). eauto.
  - rewrite Hold; [done|apply (hk_zero _ _ Hok)|done].
  - intros key' k' d' Hm'. apply lookup_insert_Some in Hm' as [[<- [= <- <-]]|[_ Hm']].
    + rewrite Hnew. split; [done|]. by apply prefix8_new.
    + rewrite Hold; [by apply Hent| |by eapply not_slot].
      apply (hk_stored _ _ Hok), HS. by exists key', d'.
Qed.

(** A refusal: the free indices are [free'] afterwards. *)
Lemma represents_refused free' : same_params h h' -> same_entries h slot h' -> hash_ok L h' ->
  contents 4 (free_slots h') = free' -> ext_left h' = ext_left h -> represents h' (Idx (ix_map I) free' (ix_ext I)).
Proof.
  intros (Pl & Pi & Pin & _) Hold Hok' Hc' Hex. destruct Hr as [_ Hlen _ Hext Hdum Hent].
  split; cbn [ix_map ix_free ix_ext]; [|congruence|done|by rewrite Hex|..].
  - exists L. split; [done|]. split; [done|]. intros key' k' d' Hm'.
    unfold rte_hash_hash. rewrite Pl, Pi. by eapply Hh.
  - rewrite Hold; [done|apply (hk_zero _ _ Hok)|done].
  - intros key' k' d' Hm'. rewrite Hold; [by apply Hent|..|by eapply not_slot].
    apply (hk_stored _ _ Hok), HS. by exists key', d'.
Qed.
End NewKey.

(** One insertion is one step of the map, as long as a free index is left. *)
Lemma add_one_step h I key data :
  represents h I -> (length (buckets_ext h) <= fuel)%nat -> key_ok key -> ix_free I <> [] ->
  exists h' r I',
    __rte_hash_add_key_with_hash (Datatypes.S fuel) h key (rte_hash_hash hash_func h key) data =
      Ret (h', r) /\ add_step I (key, data) r I' /\ represents h' I' /\ length (buckets_ext h') = length (buckets_ext h).
Proof.
  intros Hr Hf Hkey Hfr. destruct I as [m [|slot rest] ext]; [done|]. clear Hfr.
  destruct (m !! key) as [[k d]|] eqn:Hm.
  - destruct (add_known_step _ _ key data k d Hr Hf Hkey Hm) as (h' & E & Hl & Hr').
    exists h', (k - 1). eexists. split; [done|]. split; [|done]. by eapply add_known.
  - pose proof Hr as [(L & Hok & HS & Hh) Hlen Hfree Hext _ _].
    pose proof (not_stored_fresh _ _ L _ Hr Hkey Hm HS) as Hfresh.
    assert (H8 : (8 <= length key)%nat) by (destruct Hkey; lia).
    assert (Hkl : key_len h <= Z.of_nat (length key)) by lia.
    destruct (slot_free L h Hok slot rest Hfree) as (Hslot & Hne & HnS & _).
    destruct (add_key_new_cases fuel L h key data _ Hok Hf H8 Hkl Hfresh slot rest Hfree)
      as (h' & ret & E & [[-> Hadd]|[-> [(Hp & He & Hok' & Hc & Hx & Hx' & _)|(Hp & He & Hok' & Hc & Hx & Hx')]]]); exists h'.
    + pose proof Hadd as (Hp & _).
      destruct (represents_added h (Idx m (slot :: rest) ext) key data L slot rest h' Hr Hkey Hm Hok HS Hh Hne HnS Hadd)
        as (ext' & Hsp & Hr').
      exists (slot - 1). eexists. split; [done|]. split; [by apply add_new|]. split; [exact Hr'|apply Hp].
    + exists (- ENOSPC). cbn in Hext. rewrite Hx in Hext. subst ext. eexists. split; [done|]. split; [by apply add_refused|]. split; [|apply Hp].
      apply (represents_refused h (Idx m (slot :: rest) None) L slot h' Hr Hok HS Hh Hne HnS); try done. congruence.
    + exists (- ENOSPC). cbn in Hext. rewrite Hx in Hext. subst ext. eexists. split; [done|]. split; [by apply add_dropped|]. split; [|apply Hp].
      apply (represents_refused h (Idx m (slot :: rest) (Some 0%nat)) L slot h' Hr Hok HS Hh Hne HnS); try done. congruence.
Qed.

Lemma add_step_free I op r I' :
  add_step I op r I' -> (length (ix_free I) <= Datatypes.S (length (ix_free I')))%nat.
Proof. inversion_clear 1; cbn; rewrite ?length_app; lia. Qed.

(** A whole history. *)
Lemma run_adds_steps h I ops :
  represents h I -> (length (buckets_ext h) <= fuel)%nat -> Forall (fun op => key_ok (fst op)) ops ->
  (length ops <= length (ix_free I))%nat ->
  exists h' rs I',
    run_adds (Datatypes.S fuel) hash_func h ops = Ret (h', rs) /\
    add_steps I ops rs I' /\ represents h' I'.
Proof.
  intros Hr Hf Hops. revert h I Hr Hf. induction Hops as [|[key data] ops Hk _ IH]; intros h I Hr Hf Hl.
  - exists h, [], I. split; [done|]. split; [constructor|done].
  - cbn in Hl. assert (Hfr : ix_free I <> []) by (intros E; rewrite E in Hl; cbn in Hl; lia).
    destruct (add_one_step _ _ key data Hr Hf Hk Hfr) as (h1 & r & I1 & E & Hst & Hr1 & Hl1).
    pose proof (add_step_free _ _ _ _ Hst).
    destruct (IH h1 I1 Hr1) as (h' & rs & I' & E' & Hsts & Hr'); [lia|lia|].
    exists h', (r :: rs), I'. split; [|split; [by econstructor|done]].
    cbn [run_adds]. rewrite E. cbn [mbind outcome_bind]. by rewrite E'.
Qed.
End Refinement.
