(* ===== verification/CuckooProps.v ===== *)
(** * The cuckoo hash table: its theorems, and a table on which they are run *)

From stdpp Require Import gmap.
From S2P Require Import Prelude Common Atomic RingCore RingCopy RingElem RingSpec.
From S2P Require Import Locks Cuckoo CuckooSpec CuckooExt CuckooTable CuckooMap.

Open Scope Z_scope.

(** ** A table with no free index *)

Section NoSlot.
Context (fuel : nat) (L : layout) (h : rte_hash).
Context (key : list Z) (data hash : Z).
Hypothesis Hok : hash_ok L h.
Hypothesis Hfuel : (length (buckets_ext h) <= fuel)%nat.
Hypothesis Hempty : contents 4 (free_slots h) = [].
Hypothesis Hkey : (8 <= length key)%nat.
Hypothesis Hlen : key_len h <= Z.of_nat (length key).
Let k0 := ly_bits L.
Let s := get_short_sig hash.
Let p := prim_of (2 ^ k0 - 1) hash.
Let q := alt_of (2 ^ k0 - 1) p s.
Hypothesis Hsig : forall b i, b = p \/ b = q -> 0 <= i < 8 -> sig_at (buckets h) b i <> s.
Hypothesis Hsigx : forall e i, in_chain k0 (ly_chain L) q e i -> sig_at (buckets_ext h) e i <> s.
Let h1 := with_entry h 0 data key.

Lemma nosig_search h' l :
  store_ok h' -> (forall k, in_store h k -> in_store h' k) -> buckets h' = buckets h -> buckets_ext h' = buckets_ext h ->
  search_both (Datatypes.S fuel) (set_lock l h') data key (Main p) (Main q) s =
  Ret (set_lock l h', None).
Proof.
  intros Hst Hin HBe HEe. pose proof (hk_size _ _ Hok) as Hk0.
  destruct (two_buckets k0 hash Hk0) as [Hp Hq]. fold p in Hp, Hq. fold s q in Hq.
  destruct (hk_table _ _ Hok) as [HB HP]. pose proof (hk_chains _ _ Hok) as HC.
  assert (HB' : table_shape (2 ^ k0) (first_ext L) (buckets (set_lock l h'))) by (cbn; by rewrite HBe).
  assert (Hmiss : forall b, b = p \/ b = q ->
    search_and_update (set_lock l h') data key (Main b) s = Ret (set_lock l h', -1)).
  { intros b Hb. assert (Hbr : 0 <= b < 2 ^ k0) by (destruct Hb; subst b; done).
    apply (search_miss _ _ _ _ (Main b) (buckets h) b); [| |by destruct Hst|done|..].
    - intros i Hi. rewrite <- HBe. by apply (get_sig_at _ _ (set_lock l h') HB').
    - intros i Hi. rewrite <- HBe. by apply (get_idx_at _ _ (set_lock l h') HB').
    - intros i Hi. apply Hin. apply (inv_idx k0 (first_ext L) (ly_hash L) (ly_main L) h); [apply (hk_zero _ _ Hok)| |done|done].
      intros j Hj. apply (hk_stored _ _ Hok). by left.
    - intros i Hi [Hs1 _]. by apply (Hsig b i). }
  unfold search_both. rewrite Hmiss by auto. cbn [mbind outcome_bind].
  change (negb (-1 =? -1)) with false. cbn [for_each_bucket]. rewrite Hmiss by auto.
  cbn [mbind outcome_bind]. change (negb (-1 =? -1)) with false. cbv iota. unfold get_bkt.
  rewrite (rd_bkt _ _ _ HB') by done. cbn [mbind outcome_bind].
  destruct (bkt_shape _ _ _ HB' q Hq) as (_ & _ & ->).
  assert (HCx : chains_ok (2 ^ k0) (ly_chain L) (buckets_ext (set_lock l h'))) by (cbn; by rewrite HEe).
  apply walk_none; [by apply (ch_linked _ _ _ HCx)| |].
  - pose proof (chain_bound _ _ _ q HC Hq). lia.
  - intros e He. rewrite search_ext_miss; [done|apply (ch_slots _ _ _ HCx)|by destruct Hst|done| | |].
    + apply (linked_in _ (ly_chain L q)); [by apply (ch_linked _ _ _ HCx)|done].
    + intros i Hi. change (buckets_ext (set_lock l h')) with (buckets_ext h'). rewrite HEe. apply Hin.
      destruct (Z.eq_dec (idx_at (buckets_ext h) e i) 0) as [->|H0]; [apply (hk_zero _ _ Hok)|].
      apply (hk_stored _ _ Hok). right. by apply (ep_valid _ _ _ _ _ (hk_ext _ _ Hok) q e i).
    + intros i Hi [Hs1 _]. cbn in Hs1. rewrite HEe in Hs1. by apply (Hsigx e i).
Qed.

Lemma st_lock (g : rte_hash) l : st g (buckets g) (tbl_chng_cnt g) l = set_lock l g.
Proof. by destruct g. Qed.

Lemma noslot_insert :
  (exists i, 0 <= i < 8 /\ idx_at (buckets h) p i = 0) ->
  exists B', rte_hash_cuckoo_insert_mw (Datatypes.S fuel) h1 (Main p) (Main q) key data s 0 =
    Ret (st h1 B' (tbl_chng_cnt h) (h_lock h), 0, 0) /\
    forall b i, in_table (2 ^ k0) b i -> idx_at B' b i = idx_at (buckets h) b i.
Proof.
  intros (i & Hi & Hi0). pose proof (hk_store _ _ Hok) as Hst.
  pose proof (hk_size _ _ Hok) as Hk0. pose proof (hk_zero _ _ Hok) as Hz.
  destruct (two_buckets k0 hash Hk0) as [Hp _]. fold p in Hp.
  destruct (hk_table _ _ Hok) as [HB _]. pose proof (hk_lock _ _ Hok) as Hl.
  assert (Hst1 : store_ok h1) by by apply with_entry_ok.
  unfold rte_hash_cuckoo_insert_mw.
  pose proof (lock_st fuel h1 Hl (buckets h1) (tbl_chng_cnt h1)) as E1.
  rewrite !st_lock in E1. replace (set_lock (h_lock h1) h1) with h1 in E1 by (by destruct h).
  rewrite E1. cbn [mbind outcome_bind].
  rewrite nosig_search by (done || (intros k; apply with_entry_store)). cbn [mbind outcome_bind].
  rewrite <- st_lock.
  pose proof (place_first k0 (first_ext L) h1 key data Hk0 Hkey (fun i => i) (buckets h1) (tbl_chng_cnt h1)
    (if writer_takes_lock h1 then -1 else h_lock h1) p s 0 HB Hp) as Hpf. cbv beta zeta in Hpf.
  destruct Hpf as [(m & B' & Hin & H0 & E & HB' & Hpt)|[Hno _]]; [|by destruct (Hno i)].
  rewrite E. cbn [mbind outcome_bind]. rewrite (unlock_st h1 Hl). exists B'. split; [done|].
  intros b' i' Hin'. destruct (Hpt b' i' Hin') as [-> _].
  destruct (Z.eqb_spec b' p) as [->|]; [|done]. by destruct (Z.eqb_spec i' m) as [->|].
Qed.

(** C40: running out of indices: when the ring of free indices of a well-formed table is empty, the
    insertion of a new key - one whose short signature is in neither of its buckets nor in the
    chain of the second, so that no stored key is compared - whose primary bucket has an empty slot
    does not return [-ENOSPC]: it prints a message and goes on with index 0,
    overwrites the reserved entry 0 of the key store with the caller's key, writes the
    key's short signature with index 0 (the mark of an empty slot) in the primary
    bucket, and returns -1. No stored index is lost, and the ring stays empty. *)
Theorem add_without_free_slot :
  (exists i, 0 <= i < 8 /\ idx_at (buckets h) p i = 0) ->
  exists h',
    __rte_hash_add_key_with_hash (Datatypes.S fuel) h key hash data = Ret (h', -1) /\
    entry_at h' 0 = HKey data (take (Z.to_nat (key_len h)) key ++
                               drop (Z.to_nat (key_len h)) (k_key (entry_at h 0))) /\
    free_slots h' = free_slots h /\
    forall b i, in_table (2 ^ k0) b i -> idx_at (buckets h') b i = idx_at (buckets h) b i.
Proof.
  intros Hfree. pose proof (hk_store _ _ Hok) as Hst.
  pose proof (hk_zero _ _ Hok) as Hz. destruct (hk_ring _ _ Hok) as [Hwf Hsy].
  pose proof (hk_lock _ _ Hok) as Hl.
  unfold __rte_hash_add_key_with_hash, get_prim_bucket_index, get_alt_bucket_index.
  rewrite (hk_mask _ _ Hok). fold k0 (prim_of (2 ^ k0 - 1) hash). fold p. fold s.
  fold (alt_of (2 ^ k0 - 1) p s). fold q.
  pose proof (lock_st fuel h Hl (buckets h) (tbl_chng_cnt h)) as E1. rewrite st_same, st_lock in E1.
  rewrite E1. cbn [mbind outcome_bind]. rewrite nosig_search by done. cbn [mbind outcome_bind].
  rewrite <- st_lock, (unlock_st h Hl), st_same.
  pose proof (alloc_slot_cases (Datatypes.S fuel) h Hwf Hsy) as Hal. rewrite Hempty in Hal.
  rewrite Hal. cbn [mbind outcome_bind]. change EMPTY_SLOT with 0.
  destruct (write_entry h 0 data key Hst Hz Hlen) as (-> & W2 & W3 & W4).
  cbn [mbind outcome_bind]. rewrite W2. cbn [mbind outcome_bind]. rewrite W3.
  cbn [mbind outcome_bind]. rewrite W4. cbn [mbind outcome_bind].
  change (set_key_store (key_store (with_entry h 0 data key)) h) with h1.
  destruct (noslot_insert Hfree) as (B' & -> & Hpt). eexists. split; [done|].
  split; [exact (with_entry_at h 0 data key Hz 0 Hz)|]. done.
Qed.
End NoSlot.

(** ** New and stored keys *)

(** C16: for a well-formed table, with or without extendable buckets, a key that is not
    stored and a free index [slot], the insertion terminates without undefined behaviour
    and either returns [slot - 1] - then [slot] is stored with the key's hash, in one of its
    two buckets or in the chain of the second, at the cost of one extendable bucket at most,
    entry [slot] holds data and key, every index stored before is still in its own place
    under its own signature, even when entries were moved along a cuckoo path, no index is
    stored twice, and no other entry changed - or it returns [-ENOSPC], the same indices
    being stored: in a table without extendable buckets only if all eight slots of the
    primary bucket were taken, and [slot] goes back to the free ring; in a table with them
    only if none was left, and then [slot] is lost, neither stored nor free. *)
Theorem add_new_key fuel L h key data hash slot rest :
  hash_ok L h -> (length (buckets_ext h) <= fuel)%nat -> (8 <= length key)%nat -> key_len h <= Z.of_nat (length key) ->
  fresh_key (ly_bits L) (ly_hash L) (stored_in L) h key hash -> contents 4 (free_slots h) = slot :: rest ->
  exists h' ret, __rte_hash_add_key_with_hash (Datatypes.S fuel) h key hash data = Ret (h', ret) /\
    (forall k, in_store h k -> k <> slot -> entry_at h' k = entry_at h k) /\
    (ret = slot - 1 /\ (exists L', grows L slot hash L' /\ hash_ok L' h') /\
     contents 4 (free_slots h') = rest /\ entry_at h' slot = new_entry h slot data key /\
     (ext_left h' = ext_left h \/ exists id ids, ext_left h = Some (id :: ids) /\ ext_left h' = Some ids) \/
     ret = - ENOSPC /\ hash_ok L h' /\
     (ext_left h = None /\ contents 4 (free_slots h') = rest ++ [slot] /\
      (forall i, 0 <= i < 8 -> idx_at (buckets h) (get_prim_bucket_index h hash) i <> 0) \/
      ext_left h = Some [] /\ contents 4 (free_slots h') = rest)).
Proof.
  intros Hok Hfu Hk Hl Hf Hc.
  destruct (add_key_new_cases fuel L h key data hash Hok Hfu Hk Hl Hf slot rest Hc)
    as (h' & ret & E & [[-> (_ & He & Hg & Hc' & Hn & Hx)]|[-> [(_ & He & Hok' & Hc' & Hx & _ & Hfull)|(_ & He & Hok' & Hc' & Hx & _)]]]);
    exists h'; eexists; (split; [exact E|]); (split; [exact He|]); [by left|right..].
  - split; [done|]. split; [done|]. left. split; [done|]. split; [done|]. unfold get_prim_bucket_index.
    rewrite (hk_mask _ _ Hok). exact Hfull.
  - split; [done|]. split; [done|]. by right.
Qed.

(** C17: for a well-formed table, a key that reads as the stored entry [k] (its hash names
    the same buckets and signature, its first eight bytes are those of entry [k] and of no
    other) is found in whichever of its two buckets, or of the chain of the second, holds it: the insertion returns the
    position [k - 1], replaces the data pointer of entry [k] and leaves the key bytes,
    every other entry, the buckets and the free ring as they were. The bytes after the
    eighth are not compared, so a different key with the same first eight bytes is taken
    for the stored one. *)
Theorem add_stored_key fuel L h key data hash k :
  hash_ok L h -> (length (buckets_ext h) <= fuel)%nat -> (8 <= length key)%nat -> reads_as L h key hash k ->
  exists h', __rte_hash_add_key_with_hash (Datatypes.S fuel) h key hash data = Ret (h', k - 1) /\
    hash_ok L h' /\
    (forall j, in_store h j -> entry_at h' j =
       if j =? k then HKey data (k_key (entry_at h k)) else entry_at h j) /\
    buckets h' = buckets h /\ buckets_ext h' = buckets_ext h /\ free_slots h' = free_slots h.
Proof.
  intros Hok Hf Hk Hra. exists (with_data h k data).
  split; [by apply (add_existing_run fuel L)|].
  split; [by eapply with_data_ok|]. split; [|done].
  intros j Hj. by eapply with_data_at.
Qed.

(** [rte_hash_cmp_eq] compares exactly the first eight bytes of two keys, [sizeof] of
    its pointer parameter, whatever the table's key length; a key of fewer bytes that
    agrees as far as it goes is read out of bounds. *)
Theorem rte_hash_cmp_eq_prefix key1 key2 :
  ((8 <= length key1)%nat -> (8 <= length key2)%nat ->
   exists c, rte_hash_cmp_eq key1 key2 = Ret c /\ (c = 0 <-> take 8 key1 = take 8 key2)) /\
  ((length key1 < 8)%nat -> rte_hash_cmp_eq key1 (key1 ++ key2) = Undef).
Proof.
  split; [intros H1 H2; by apply memcmp_spec|].
  unfold rte_hash_cmp_eq. change (Z.to_nat sizeof_ptr) with 8%nat. generalize 8%nat as n.
  induction key1 as [|x l IH]; intros [|n] Hl; cbn in *; try lia; [by destruct key2|].
  rewrite Z.eqb_refl. apply IH. lia.
Qed.

(** The alternative bucket is an involution: in a table of [2^k] buckets,
    [get_alt_bucket_index] of the alternative bucket under the same signature is the
    bucket one came from, so an entry can always be moved back; both indices of a hash
    are within the bucket array. *)
Theorem get_alt_bucket_index_involutive k h b sig hash :
  0 <= k -> bucket_bitmask h = 2 ^ k - 1 -> 0 <= b < 2 ^ k ->
  get_alt_bucket_index h (get_alt_bucket_index h b sig) sig = b /\
  0 <= get_alt_bucket_index h b sig < 2 ^ k /\ 0 <= get_prim_bucket_index h hash < 2 ^ k.
Proof.
  intros Hk Hm Hb. unfold get_alt_bucket_index, get_prim_bucket_index. rewrite Hm.
  split; [by apply alt_of_involutive|]. split; by apply mask_range.
Qed.

(** ** Histories *)

Lemma add_step_keeps I op r I' key k d :
  add_step I op r I' -> ix_map I !! key = Some (k, d) -> exists d', ix_map I' !! key = Some (k, d').
Proof.
  intros [m free ext key' data k' d0 Hm|m free ext ext' key' data k' Hm _|m free key' data k' Hm|m free key' data k' Hm] Hk;
    cbn in *; [| |by exists d..].
  - destruct (decide (key' = key)) as [->|].
    + rewrite lookup_insert_eq. exists data. congruence.
    + exists d. by rewrite lookup_insert_ne.
  - exists d. rewrite lookup_insert_ne by congruence. done.
Qed.

Lemma add_step_accepts I key data r I' :
  add_step I (key, data) r I' -> 0 <= r -> exists d, ix_map I' !! key = Some (r + 1, d).
Proof.
  inversion_clear 1; intros Hr; cbn; [| |by vm_compute in Hr..];
    rewrite lookup_insert_eq; exists data; do 2 f_equal; lia.
Qed.

Lemma add_steps_keep I ops rs I' key k d :
  add_steps I ops rs I' -> ix_map I !! key = Some (k, d) -> exists d', ix_map I' !! key = Some (k, d').
Proof.
  intros H. revert d. induction H as [|I op r I1 ops rs I2 Hst _ IH]; intros d Hk; [by exists d|].
  destruct (add_step_keeps _ _ _ _ _ _ _ Hst Hk) as [d' Hk']. by eapply IH.
Qed.

Lemma add_steps_at I ops rs I' i key data r :
  add_steps I ops rs I' -> ops !! i = Some (key, data) -> rs !! i = Some r -> 0 <= r ->
  exists d, ix_map I' !! key = Some (r + 1, d).
Proof.
  intros H. revert i. induction H as [|I op r1 I1 ops rs I2 Hst Hsts IH]; intros [|i] Ho Hr H0;
    try done.
  - injection Ho as ->. injection Hr as ->.
    destruct (add_step_accepts _ _ _ _ _ Hst H0) as [d Hd]. by eapply add_steps_keep.
  - by eapply IH.
Qed.

(** C4: the table of eight-byte keys (other than the bytes of the reserved entry 0, with which the
    code compares empty slots too), with or without extendable buckets, is a finite map:
    any history of insertions no longer than the free list runs to completion, and each
    insertion is a step of the map - a stored key keeps its index and gets the new data, a
    new key takes the head of the free list, or is refused with [-ENOSPC]: without
    extendable buckets its index then goes to the end of the list, with them the refusal
    happens only when none is left, and the index is dropped - and the final table
    represents the final map. *)
Theorem hash_refines_map fuel hash_func dummy h I ops :
  represents hash_func dummy h I -> (length (buckets_ext h) <= fuel)%nat -> Forall (fun op => key_ok dummy (fst op)) ops ->
  (length ops <= length (ix_free I))%nat ->
  exists h' rs I',
    run_adds (Datatypes.S fuel) hash_func h ops = Ret (h', rs) /\
    add_steps I ops rs I' /\ represents hash_func dummy h' I'.
Proof. apply run_adds_steps. Qed.


(** ** A concrete table: two buckets, four usable entries of eight-byte keys *)

Definition demo_hash (key : list Z) (len init : Z) : Z := hd 0 key * 65537.
Definition demo_key (x : Z) : list Z := [x; 2; 3; 4; 5; 6; 7; 8].
Definition demo_free (head tail : Z) : rte_ring :=
  Ring "HT_demo" 0 None 8 7 7 (HT tail tail RTE_RING_SYNC_MT 0 0 0)
    (HT head head RTE_RING_SYNC_MT 0 0 0) [1; 2; 3; 4; 0; 0; 0; 0].
Definition demo_bucket (sig idx : Z) : rte_hash_bucket :=
  Bucket (sig :: repeat 0 7) (idx :: repeat 0 7) None.
Definition demo (r : rte_ring) (entry1 : rte_hash_key) (b1 : rte_hash_bucket) : rte_hash :=
  Hash 8 false false false true 0 1 16 r
    (HKey 0 (repeat 0 8) :: entry1 :: repeat (HKey 0 (repeat 0 8)) 3)
    [demo_bucket 0 0; b1] 0 [] (demo_free 0 0) 0.

(** Nothing stored; then the key of first byte 9 stored as entry 1. *)
Definition demo0 : rte_hash := demo (demo_free 0 4) (HKey 0 (repeat 0 8)) (demo_bucket 0 0).
Definition demo1 : rte_hash := demo (demo_free 1 4) (HKey 55 (demo_key 9)) (demo_bucket 9 1).
(** The same with its free ring empty. *)
Definition demo_none : rte_hash := demo (demo_free 4 4) (HKey 55 (demo_key 9)) (demo_bucket 9 1).

Ltac slot_cases b i :=
  let Hb := fresh in let Hi := fresh in
  assert (Hb : b = 0 \/ b = 1) by lia;
  assert (Hi : i = 0 \/ i = 1 \/ i = 2 \/ i = 3 \/ i = 4 \/ i = 5 \/ i = 6 \/ i = 7) by lia;
  destruct Hb; subst b; repeat destruct Hi as [Hi|Hi]; subst i.

Lemma demo_free_ok head : head = 0 \/ head = 1 \/ head = 4 ->
  ring_wf 4 (demo_free head 4) /\ plain_sync (demo_free head 4).
Proof.
  intros Hin. split; [|split; cbn; congruence].
  destruct Hin as [-> |[-> | ->]];
    (split; [split|..]; try (by vm_compute); try (vm_compute; intuition congruence);
     exists 3; split; [lia|reflexivity]).
Qed.

Lemma demo_store_ok r e b : length (k_key e) = 8%nat -> store_ok (demo r e b).
Proof.
  intros He. split; try (vm_compute; intuition congruence).
  intros x Hx. cbn in Hx. rewrite !elem_of_cons in Hx.
  destruct Hx as [->|[->|Hx]]; cbn; [done|by rewrite He|].
  rewrite elem_of_nil in Hx. destruct Hx as [->|[->|[->|[]]]]; done.
Qed.

Lemma demo_shape r e sig idx : table_shape (2 ^ 1) (fun _ => None) (buckets (demo r e (demo_bucket sig idx))).
Proof. split; [done|]. intros b Hb. assert (E : b = 0 \/ b = 1) by lia. by destruct E as [->| ->]. Qed.

Definition demo1_layout : layout := Layout 1 (fun _ => []) (fun _ => 9 * 65537) (fun k => k = 1) (fun _ => False).

Lemma demo0_ok : hash_ok (empty_layout 1) demo0.
Proof.
  destruct (demo_free_ok 0) as [Hwf Hsy]; [by left|].
  split; try done.
  - by apply demo_store_ok.
  - by intros k [[]|[]].
  - split; [apply demo_shape|]. change (ly_bits (empty_layout 1)) with 1. split; try done.
    + intros b i [Hb Hi] _ Hn. exfalso. apply Hn. by slot_cases b i.
    + intros b i b' i' [Hb Hi] _ _ _ Hn. exfalso. apply Hn. by slot_cases b i.
    + by intros [].
  - apply no_ext_buckets.
  - apply no_ext_placed.
  - split; [apply (bool_decide_unpack _); by vm_compute|]. intros k Hk.
    change (contents 4 (free_slots demo0)) with [1; 2; 3; 4] in Hk.
    rewrite !elem_of_cons, elem_of_nil in Hk. unfold in_store. cbn. split; [lia|]. split; [lia|]. by intros [[]|[]].
Qed.

Lemma demo1_placed r e : inv 1 (fun _ => None) (fun _ => 9 * 65537) (fun k => k = 1)
  (buckets (demo r e (demo_bucket 9 1))).
Proof.
  split; [apply demo_shape|]. split; try done.
  - intros b i [Hb Hi] _ Hn. slot_cases b i; try (exfalso; by apply Hn).
    split; [done|]. split; [done|]. by left.
  - intros k ->. by exists 1, 0.
  - intros b i b' i' [Hb Hi] [Hb' Hi'] _ _ Hn E.
    assert (Hone : forall b i, 0 <= b < 2 ^ 1 -> 0 <= i < 8 ->
      idx_at (buckets (demo r e (demo_bucket 9 1))) b i <> 0 -> b = 1 /\ i = 0).
    { intros c j Hc Hj Hne. slot_cases c j; try done; exfalso; by apply Hne. }
    destruct (Hone b i Hb Hi Hn) as [-> ->].
    destruct (Hone b' i' Hb' Hi') as [-> ->]; [by rewrite <- E|done].
Qed.

Lemma demo1_ok head : head = 1 \/ head = 4 ->
  hash_ok demo1_layout (demo (demo_free head 4) (HKey 55 (demo_key 9)) (demo_bucket 9 1)).
Proof.
  intros Hh. destruct (demo_free_ok head) as [Hwf Hsy]; [tauto|].
  split; try done.
  - by apply demo_store_ok.
  - by intros k [->|[]].
  - apply demo1_placed.
  - apply no_ext_buckets.
  - apply no_ext_placed.
  - by intros k _ [].
  - destruct Hh; subst head; (split; [apply (bool_decide_unpack _); by vm_compute|]); intros k Hk.
    + change (contents 4 _) with [2; 3; 4] in Hk.
      rewrite !elem_of_cons, elem_of_nil in Hk. unfold in_store. cbn. split; [lia|]. split; [lia|].
      intros [E|[]]. cbn in E. lia.
    + change (contents 4 _) with (@nil Z) in Hk. by apply elem_of_nil in Hk.
Qed.

Lemma demo0_fresh x : x <> 0 -> fresh_key 1 (fun _ => 0) (stored_in (empty_layout 1)) demo0 (demo_key x) (x * 65537).
Proof. intros Hx. split; [cbn; by intros [=]|by intros k [[]|[]]]. Qed.

Lemma demo1_reads head : head = 1 \/ head = 4 ->
  reads_as demo1_layout (demo (demo_free head 4) (HKey 55 (demo_key 9)) (demo_bucket 9 1)) (demo_key 9 ++ [99]) (9 * 65537) 1.
Proof. intros _. split; try done. - by left. - by intros j [E|[]]. Qed.

Lemma demo0_represents :
  represents demo_hash (repeat 0 8) demo0 (Idx ∅ [1; 2; 3; 4] None).
Proof.
  split; try done. exists (empty_layout 1). split; [apply demo0_ok|]. split; [|done].
  intros k. split; [by intros [[]|[]]|]. by intros (key & d & E).
Qed.

(** Insert two keys, update the first, insert a third. *)
Definition demo_ops : list (list Z * Z) :=
  [(demo_key 9, 55); (demo_key 4, 66); (demo_key 9, 77); (demo_key 7, 88)].

Lemma demo_ops_ok : Forall (fun op => key_ok (repeat 0 8) (fst op)) demo_ops.
Proof. repeat constructor; done. Qed.

(** ** A table of one bucket with one extendable bucket *)

Definition demo_ring (n : nat) : rte_ring :=
  Ring "HT_demo" 0 None 32 31 31 (HT (Z.of_nat n) (Z.of_nat n) RTE_RING_SYNC_MT 0 0 0)
    (HT 0 0 RTE_RING_SYNC_MT 0 0 0) (seqZ 1 (Z.of_nat n) ++ repeat 0 (32 - n)).
Definition demo_ext : rte_hash :=
  Hash 8 false true false true 0 0 16 (demo_ring 18) (repeat (HKey 0 (repeat 0 8)) 19)
    [demo_bucket 0 0] 0 [demo_bucket 0 0] (demo_ring 1) 0.

Lemma demo_ring_ok n : (n = 1 \/ n = 18)%nat -> ring_wf 4 (demo_ring n) /\ plain_sync (demo_ring n).
Proof.
  intros Hn. split; [|split; cbn; congruence].
  destruct Hn as [-> | ->];
    (split; [split|..]; try (by vm_compute); try (vm_compute; intuition congruence);
     exists 5; split; [lia|reflexivity]).
Qed.

Lemma demo_bucket_shape (nx : Z -> option bref) : nx 0 = None -> table_shape 1 nx [demo_bucket 0 0].
Proof. intros Hn. split; [done|]. intros b Hb. assert (b = 0) as -> by lia. by rewrite Hn. Qed.

Lemma demo_bucket_empty b i : 0 <= b < 1 -> 0 <= i < 8 -> idx_at [demo_bucket 0 0] b i = 0.
Proof. intros Hb Hi. assert (b < 1) by lia. slot_cases b i; (lia || reflexivity). Qed.

Lemma demo_ext_ok : hash_ok (empty_layout 0) demo_ext.
Proof.
  destruct (demo_ring_ok 18) as [Hwf Hsy]; [by right|].
  split; try done.
  - split; try (vm_compute; intuition congruence).
    intros x Hx. apply list_elem_of_In, repeat_spec in Hx. subst x; reflexivity.
  - by intros k [[]|[]].
  - split; [by apply demo_bucket_shape|]. change (ly_bits (empty_layout 0)) with 0. split; try done.
    + intros b i [Hb Hi] _ Hn. exfalso. by apply Hn, demo_bucket_empty.
    + intros b i b' i' [Hb Hi] _ _ _ Hn. exfalso. by apply Hn, demo_bucket_empty.
    + by intros [].
  - apply (no_chains _ (fun _ => None)). by apply demo_bucket_shape.
  - apply no_ext_placed.
  - split; [apply (bool_decide_unpack _); by vm_compute|]. intros k Hk.
    change (contents 4 (free_slots demo_ext)) with (seqZ 1 18) in Hk.
    apply elem_of_seqZ in Hk. unfold in_store. cbn. split; [lia|]. split; [lia|]. by intros [[]|[]].
  - destruct (demo_ring_ok 1) as [Hwf1 Hsy1]; [by left|]. split; [done|]. split; [done|].
    change (contents 4 (free_ext_bkts demo_ext)) with [1]. split.
    + apply NoDup_singleton.
    + intros id ->%list_elem_of_singleton. cbn. lia.
    + by intros id b _ _ ?%elem_of_nil.
    + intros id ->%list_elem_of_singleton. split; [done|]. intros i Hi. by apply demo_bucket_empty.
Qed.

Lemma demo_ext_represents :
  represents demo_hash (repeat 0 8) demo_ext (Idx ∅ (seqZ 1 18) (Some 1%nat)).
Proof.
  split; try done. exists (empty_layout 0). split; [apply demo_ext_ok|]. split; [|done].
  intros k. split; [by intros [[]|[]]|]. by intros (key & d & E).
Qed.

(** Eight keys fill the bucket, eight more the extendable one, the seventeenth is
    refused, and the tenth is then found again. *)
Definition ext_ops : list (list Z * Z) :=
  map (fun x => (demo_key x, x + 100)) (seqZ 1 17) ++ [(demo_key 10, 7)].

Lemma ext_ops_run :
  match run_adds 2 demo_hash demo_ext ext_ops with Ret (_, rs) => rs | _ => [] end = seqZ 0 16 ++ [- ENOSPC; 9].
Proof. vm_compute. reflexivity. Qed.

Lemma ext_ops_ok : Forall (fun op => key_ok (repeat 0 8) (fst op)) ext_ops.
Proof. repeat constructor; done. Qed.

Lemma hash_refines_map_witness :
  (length demo_ops <= 4)%nat /\
  (exists h' rs I', run_adds 1 demo_hash demo0 demo_ops = Ret (h', rs) /\
    add_steps (Idx ∅ [1; 2; 3; 4] None) demo_ops rs I' /\ represents demo_hash (repeat 0 8) h' I') /\
  exists h' rs I', run_adds 2 demo_hash demo_ext ext_ops = Ret (h', rs) /\
    rs = seqZ 0 16 ++ [- ENOSPC; 9] /\
    add_steps (Idx ∅ (seqZ 1 18) (Some 1%nat)) ext_ops rs I' /\ represents demo_hash (repeat 0 8) h' I'.
Proof.
  split; [vm_compute; lia|]. split.
  - exact (hash_refines_map 0 demo_hash (repeat 0 8) demo0 (Idx ∅ [1; 2; 3; 4] None) demo_ops
      demo0_represents (le_n 0) demo_ops_ok (le_n 4)).
  - destruct (hash_refines_map 1 demo_hash (repeat 0 8) demo_ext (Idx ∅ (seqZ 1 18) (Some 1%nat)) ext_ops
      demo_ext_represents (le_n 1) ext_ops_ok (le_n 18)) as (h' & rs & I' & E & Hs & Hr).
    exists h', rs, I'. split; [exact E|]. split; [|split; [exact Hs|exact Hr]].
    pose proof ext_ops_run as Hrun. rewrite E in Hrun. exact Hrun.
Defined.


Lemma add_new_key_witness :
  exists h', __rte_hash_add_key_with_hash 1 demo0 (demo_key 9) (9 * 65537) 55 = Ret (h', 0) /\
    contents 4 (free_slots h') = [2; 3; 4].
Proof.
  destruct (add_new_key 0 (empty_layout 1) demo0 (demo_key 9) 55 (9 * 65537) 1 [2; 3; 4])
    as (h' & ret & E & _ & [(-> & _ & Hc & _)|(_ & _ & [(_ & _ & Hf)|[Hf _]])]).
  - exact demo0_ok.
  - exact (le_n 0).
  - cbn; lia.
  - cbn; lia.
  - apply demo0_fresh; lia.
  - reflexivity.
  - exists h'. split; [exact E|exact Hc].
  - exfalso. apply (Hf 0); [lia|reflexivity].
  - discriminate Hf.
Defined.

Lemma add_stored_key_witness :
  exists h', __rte_hash_add_key_with_hash 1 demo1 (demo_key 9 ++ [99]) (9 * 65537) 77 = Ret (h', 0) /\
    entry_at h' 1 = HKey 77 (demo_key 9).
Proof.
  destruct (add_stored_key 0 demo1_layout demo1 (demo_key 9 ++ [99]) 77
    (9 * 65537) 1 (demo1_ok 1 (or_introl eq_refl)) (le_n 0)) as (h' & E & _ & He & _).
  - cbn; lia.
  - apply (demo1_reads 1); lia.
  - exists h'. split; [exact E|]. exact (He 1 ltac:(split; [lia|reflexivity])).
Defined.

Lemma add_without_free_slot_witness :
  exists h', __rte_hash_add_key_with_hash 1 demo_none (demo_key 8) (8 * 65537) 11 = Ret (h', -1) /\
    entry_at h' 0 = HKey 11 (demo_key 8).
Proof.
  destruct (add_without_free_slot 0 demo1_layout demo_none (demo_key 8) 11
    (8 * 65537) (demo1_ok 4 (or_intror eq_refl)) (le_n 0)) as (h' & E & He & _).
  - reflexivity.
  - cbn; lia.
  - cbn; lia.
  - intros b i Hb Hi. assert (Hbb : 0 <= b < 2) by (vm_compute in Hb; lia).
    slot_cases b i; by vm_compute.
  - by intros e i (_ & ?%elem_of_nil & _).
  - exists 0. split; [lia|reflexivity].
  - exists h'. split; [exact E|exact He].
Defined.

Lemma rte_hash_cmp_eq_prefix_witness :
  rte_hash_cmp_eq [1; 2; 3; 4] [1; 2; 3; 4; 5; 6] = Undef.
Proof. exact (proj2 (rte_hash_cmp_eq_prefix [1; 2; 3; 4] [5; 6]) ltac:(cbn; lia)). Defined.

Lemma get_alt_bucket_index_involutive_witness :
  get_alt_bucket_index demo1 (get_alt_bucket_index demo1 1 9) 9 = 1.
Proof. apply (get_alt_bucket_index_involutive 1 demo1 1 9 0); [lia|reflexivity|lia]. Defined.
