(* ===== verification/CuckooConc.v ===== *)
(** * Several threads inserting into one table

    [__rte_hash_add_key_with_hash] cut into the pieces between which another thread can run:
    in a table made for several writers each section under the writer lock is one piece (the
    lock excludes other sections, see [LockConc]). The ring of free indices is used without
    the lock by its single-consumer and single-producer operations; each is two pieces, the
    loads that reserve a place and the stores that take it. Each load of the breadth-first
    search, which reads the buckets without the lock, is one piece whose value [seen] is
    whatever the search happens to read. A thread that runs alone computes what the function
    computes ([alone_computes]). *)

From S2P Require Import Prelude Common Atomic RingCore RingCopy RingElem Locks Cuckoo.

Open Scope Z_scope.

(** ** The pieces of an insertion *)

(** The arguments of an insertion and the locals it computes first. *)
(* rte_lib/rte_cuckoo_hash.c:459-480 __rte_hash_add_key_with_hash *)
Record add_call := Call {
  c_key : list Z;
  c_data : Z;
  c_sig : Z;
  c_prim : Z;
  c_sec : Z;
}.

(* rte_lib/rte_cuckoo_hash.c:476-480 __rte_hash_add_key_with_hash *)
Definition begin_add (h : rte_hash) (key : list Z) (sig data : Z) : add_call :=
  let short_sig := get_short_sig sig in
  let prim_bucket_idx := get_prim_bucket_index h sig in
  Call key data short_sig prim_bucket_idx (get_alt_bucket_index h prim_bucket_idx short_sig).

(** A search: from the secondary bucket or from the primary one, the queue so far, the node
    at [tail] and its slot [i]. *)
(* rte_lib/rte_cuckoo_hash.c:403-414 rte_hash_cuckoo_make_space_mw *)
Record search := Search {
  se_second : bool;
  se_queue : list queue_node;
  se_tail : Z;
  se_i : Z;
}.

(** Where a thread is; [slot] is the index it has taken from the free ring. *)
(* rte_lib/rte_cuckoo_hash.c:459-656 __rte_hash_add_key_with_hash *)
Inductive add_pc :=
  | AddCheck
  | AddAlloc
  | AddTake (n old_head new_head : Z)
  | AddWrite (slot : Z)
  | AddInsert (slot : Z)
  | AddLook (slot : Z) (se : search)
  | AddMove (slot : Z) (se : search)
  | AddPush (slot : Z) (se : search)
  | AddExt (slot : Z)
  | AddGive (slot ret : Z)
  | AddPut (slot ret n old_head new_head : Z)
  | AddDone (ret : Z).

Section Pieces.
Context (fuel : nat).

(** The halves of [alloc_slot]: the loads of the head and of the other side's tail, by which
    the place is chosen, and what is done with it. *)
(* rte_lib/ring/rte_ring_generic_pvt.h:138-175 __rte_ring_move_cons_head *)
Definition take_place (h : rte_hash) : outcome add_pc :=
  '(_, n, old_head, new_head, _) ← __rte_ring_move_cons_head fuel (free_slots h) (sync_num RTE_RING_SYNC_ST) 1
    RTE_RING_QUEUE_FIXED;
  Ret (AddTake n old_head new_head).

(* rte_lib/rte_cuckoo_hash.c:89-100 alloc_slot *)
Definition take_index (h : rte_hash) (n old_head new_head : Z) : outcome (rte_hash * Z) :=
  if n =? 0 then Ret (h, EMPTY_SLOT)
  else
    let r := set_cons (set_w0 new_head (r_cons (free_slots h))) (free_slots h) in
    obj ← dequeue_elems r old_head [0] 4 n;
    ht ← __rte_ring_update_tail fuel (r_cons r) old_head new_head (sync_num RTE_RING_SYNC_ST);
    slot_id ← rd obj 0;
    Ret (set_free_slots (set_cons ht r) h, slot_id).

(** The halves of [enqueue_slot_back]. *)
(* rte_lib/ring/rte_ring_generic_pvt.h:68-113 __rte_ring_move_prod_head *)
Definition put_place (h : rte_hash) (slot ret : Z) : outcome add_pc :=
  '(_, n, old_head, new_head, _) ← __rte_ring_move_prod_head fuel (free_slots h) (sync_num RTE_RING_SYNC_ST) 1
    RTE_RING_QUEUE_FIXED;
  Ret (AddPut slot ret n old_head new_head).

(* rte_lib/rte_cuckoo_hash.c:171-178 enqueue_slot_back *)
Definition put_index (h : rte_hash) (slot n old_head new_head : Z) : outcome rte_hash :=
  if n =? 0 then Ret h
  else
    let r := set_prod (set_w0 new_head (r_prod (free_slots h))) (free_slots h) in
    r ← enqueue_elems r old_head [slot] 4 n;
    ht ← __rte_ring_update_tail fuel (r_prod r) old_head new_head (sync_num RTE_RING_SYNC_ST);
    Ret (set_free_slots (set_prod ht r) h).

(** The two buckets in the order in which a search takes them. *)
(* rte_lib/rte_cuckoo_hash.c:547-559 __rte_hash_add_key_with_hash *)
Definition search_buckets (c : add_call) (second : bool) : bref * bref :=
  if second then (Main (c_sec c), Main (c_prim c)) else (Main (c_prim c), Main (c_sec c)).

(** The condition of the outer loop; a search that fails is followed by the other one, and
    that by the extendable buckets or by the refusal. *)
(* rte_lib/rte_cuckoo_hash.c:416-419 rte_hash_cuckoo_make_space_mw *)
Definition search_on (queue : list queue_node) (tail : Z) : bool :=
  let head := Z.of_nat (length queue) in
  negb (tail =? head) && (head <? RTE_HASH_BFS_QUEUE_MAX_LEN - RTE_HASH_BUCKET_ENTRIES).

(* rte_lib/rte_cuckoo_hash.c:556-575 __rte_hash_add_key_with_hash *)
Definition search_failed (h : rte_hash) (c : add_call) (slot ret : Z) (second : bool) : add_pc :=
  if second then
    if negb (ext_table_support h) then AddGive slot ret else AddExt slot
  else AddLook slot (Search true [Node (Main (c_sec c)) (c_sec c) None (-1)] 0 0).

(** The next slot of the node, or the next node. *)
(* rte_lib/rte_cuckoo_hash.c:416-446 rte_hash_cuckoo_make_space_mw *)
Definition search_next (h : rte_hash) (c : add_call) (slot : Z) (se : search) : add_pc :=
  if se_i se + 1 <? RTE_HASH_BUCKET_ENTRIES
  then AddLook slot (Search (se_second se) (se_queue se) (se_tail se) (se_i se + 1))
  else if search_on (se_queue se) (se_tail se + 1)
  then AddLook slot (Search (se_second se) (se_queue se) (se_tail se + 1) 0)
  else search_failed h c slot (- ENOSPC) (se_second se).

(** What an attempt that stored the key, or found it, is followed by. *)
(* rte_lib/rte_cuckoo_hash.c:537-566 __rte_hash_add_key_with_hash *)
Definition add_end (slot ret ret_val : Z) (other : add_pc) : add_pc :=
  if ret =? 0 then AddDone (i32 (slot - 1)) else if ret =? 1 then AddGive slot ret_val else other.

(* rte_lib/rte_cuckoo_hash.c:459-656 __rte_hash_add_key_with_hash *)
Definition add_piece (h : rte_hash) (c : add_call) (pc : add_pc) (seen : Z) : outcome (rte_hash * add_pc) :=
  let prim_bkt := Main (c_prim c) in
  let sec_bkt := Main (c_sec c) in
  match pc with
  | AddCheck =>
      h ← __hash_rw_writer_lock fuel h;
      '(h, dup) ← search_both fuel h (c_data c) (c_key c) prim_bkt sec_bkt (c_sig c);
      Ret (__hash_rw_writer_unlock h, match dup with Some ret => AddDone ret | None => AddAlloc end)
  | AddAlloc => pc ← take_place h; Ret (h, pc)
  | AddTake n old_head new_head =>
      '(h, slot) ← take_index h n old_head new_head;
      Ret (h, AddWrite slot)
  | AddWrite slot =>
      p ← key_slot h slot;
      k ← rd (key_store h) p;
      bytes ← copy_key (k_key k) (c_key c) (key_len h);
      ks ← wr (key_store h) p (HKey (c_data c) bytes);
      Ret (set_key_store ks h, AddInsert slot)
  | AddInsert slot =>
      '(h, ret, ret_val) ← rte_hash_cuckoo_insert_mw fuel h prim_bkt sec_bkt (c_key c) (c_data c) (c_sig c) slot;
      Ret (h, add_end slot ret ret_val
        (AddLook slot (Search false [Node prim_bkt (c_prim c) None (-1)] 0 0)))
  | AddLook slot se =>
      node ← rd (se_queue se) (se_tail se);
      _ ← get_idx h (n_bkt node) (se_i se);
      Ret (h, if seen =? EMPTY_SLOT then AddMove slot se else AddPush slot se)
  | AddMove slot se =>
      let '(bkt, alt_bkt) := search_buckets c (se_second se) in
      '(h, ret, ret_val) ← rte_hash_cuckoo_move_insert_mw fuel h bkt alt_bkt (c_key c) (c_data c)
        (se_queue se) (se_tail se) (se_i se) (c_sig c) slot;
      Ret (h, if negb (ret =? -1) then add_end slot ret ret_val (search_failed h c slot ret (se_second se))
              else AddPush slot se)
  | AddPush slot se =>
      node ← rd (se_queue se) (se_tail se);
      _ ← get_sig h (n_bkt node) (se_i se);
      let alt_idx := get_alt_bucket_index h (n_cur_bkt_idx node) seen in
      if Z.of_nat (length (se_queue se)) <? RTE_HASH_BFS_QUEUE_MAX_LEN
      then
        let queue := se_queue se ++ [Node (Main alt_idx) alt_idx (Some (se_tail se)) (se_i se)] in
        Ret (h, search_next h c slot (Search (se_second se) queue (se_tail se) (se_i se)))
      else Undef
  | AddExt slot =>
      '(h, ret) ← add_ext fuel h (c_key c) (c_data c) (c_sig c) slot prim_bkt sec_bkt;
      Ret (h, AddDone ret)
  | AddGive slot ret => pc ← put_place h slot ret; Ret (h, pc)
  | AddPut slot ret n old_head new_head =>
      h ← put_index h slot n old_head new_head;
      Ret (h, AddDone ret)
  | AddDone ret => Undef
  end.

(** ** A thread that runs alone *)

(** The load of a search reads what is in the bucket. *)
Definition loaded (h : rte_hash) (pc : add_pc) : outcome Z :=
  match pc with
  | AddLook _ se => node ← rd (se_queue se) (se_tail se); get_idx h (n_bkt node) (se_i se)
  | AddPush _ se => node ← rd (se_queue se) (se_tail se); get_sig h (n_bkt node) (se_i se)
  | _ => Ret 0
  end.

Definition alone (c : add_call) (s s' : rte_hash * add_pc) : Prop :=
  exists v, loaded s.1 s.2 = Ret v /\ add_piece s.1 c s.2 v = Ret s'.

(** *** The ring of free indices *)
Lemma move_cons_single r r' n old new e :
  __rte_ring_move_cons_head fuel r (sync_num RTE_RING_SYNC_ST) 1 RTE_RING_QUEUE_FIXED = Ret (r', n, old, new, e) ->
  r' = if n =? 0 then r else set_cons (set_w0 new (r_cons r)) r.
Proof.
  unfold __rte_ring_move_cons_head. change (sync_num RTE_RING_SYNC_ST =? 0) with false.
  destruct (Z.eqb_spec (clip RTE_RING_QUEUE_FIXED 1 (ht_tail (r_prod r) - ht_w0 (r_cons r))%u32) 0) as [E|E].
  - erewrite do_while_once; [|rewrite E; reflexivity]. intros [= <- <- _ _ _]. done.
  - erewrite do_while_once; [|by rewrite (proj2 (Z.eqb_neq _ _) E)]. intros [= <- <- _ <- _].
    by rewrite (proj2 (Z.eqb_neq _ _) E).
Qed.

Lemma move_prod_single r r' n old new e :
  __rte_ring_move_prod_head fuel r (sync_num RTE_RING_SYNC_ST) 1 RTE_RING_QUEUE_FIXED = Ret (r', n, old, new, e) ->
  r' = if n =? 0 then r else set_prod (set_w0 new (r_prod r)) r.
Proof.
  unfold __rte_ring_move_prod_head. change (sync_num RTE_RING_SYNC_ST =? 0) with false.
  destruct (Z.eqb_spec (clip RTE_RING_QUEUE_FIXED 1 (u32 (r_capacity r + ht_tail (r_cons r) - ht_w0 (r_prod r)))) 0) as [E|E].
  - erewrite do_while_once; [|rewrite E; reflexivity]. intros [= <- <- _ _ _]. done.
  - erewrite do_while_once; [|by rewrite (proj2 (Z.eqb_neq _ _) E)]. intros [= <- <- _ <- _].
    by rewrite (proj2 (Z.eqb_neq _ _) E).
Qed.

Lemma set_free_same h : set_free_slots (free_slots h) h = h.
Proof. by destruct h. Qed.

Lemma alloc_halves h h' slot :
  alloc_slot fuel h = Ret (h', slot) ->
  exists n old new, take_place h = Ret (AddTake n old new) /\ take_index h n old new = Ret (h', slot).
Proof.
  unfold alloc_slot, rte_ring_sc_dequeue_elem, rte_ring_sc_dequeue_bulk_elem, __rte_ring_do_dequeue_elem, take_place.
  intros H. apply bind_Ret_inv in H as ([[r obj] ret] & H & Hs). apply bind_Ret_inv in H as ([[[r1 o1] n1] a1] & H & Hr).
  apply bind_Ret_inv in H as ([[[[r2 n] old] new] e] & Em & H). exists n, old, new. rewrite Em. split; [done|].
  pose proof (move_cons_single _ _ _ _ _ _ Em) as ->. unfold take_index. destruct (n =? 0) eqn:En.
  - injection H as <- <- <- _. injection Hr as <- <- <-. rewrite En in Hs. cbn in Hs.
    injection Hs as <- <-. by rewrite set_free_same.
  - apply bind_Ret_inv in H as (o & Eo & H). apply bind_Ret_inv in H as (ht & Eh & H).
    injection H as <- <- <- _. injection Hr as <- <- <-. rewrite En in Hs. cbn [negb Z.eqb] in Hs.
    apply bind_Ret_inv in Hs as (v & Ev & Hs). injection Hs as <- <-.
    rewrite Eo. cbn [mbind outcome_bind]. rewrite Eh. cbn [mbind outcome_bind]. by rewrite Ev.
Qed.

Lemma give_halves h h' slot ret :
  enqueue_slot_back fuel h slot = Ret h' ->
  exists n old new, put_place h slot ret = Ret (AddPut slot ret n old new) /\ put_index h slot n old new = Ret h'.
Proof.
  unfold enqueue_slot_back, rte_ring_sp_enqueue_elem, rte_ring_sp_enqueue_bulk_elem, __rte_ring_do_enqueue_elem, put_place.
  intros H. apply bind_Ret_inv in H as ([r o] & H & Hs). apply bind_Ret_inv in H as ([[r1 n1] a1] & H & Hr).
  apply bind_Ret_inv in H as ([[[[r2 n] old] new] e] & Em & H). exists n, old, new. rewrite Em. split; [done|].
  pose proof (move_prod_single _ _ _ _ _ _ Em) as ->. unfold put_index. destruct (n =? 0) eqn:En.
  - injection H as <- <- _. injection Hr as <- <-. injection Hs as <-. by rewrite set_free_same.
  - apply bind_Ret_inv in H as (m & Eo & H). apply bind_Ret_inv in H as (ht & Eh & H).
    injection H as <- <- _. injection Hr as <- <-. injection Hs as <-.
    rewrite Eo. cbn [mbind outcome_bind]. by rewrite Eh.
Qed.

(** *** The search *)
Section Alone.
Context (c : add_call) (slot : Z) (second : bool) (bkt alt_bkt : bref).
Hypothesis Hb : search_buckets c second = (bkt, alt_bkt).
Let slot_run := bfs_slot fuel bkt alt_bkt (c_key c) (c_data c) (c_sig c) slot.
Let slots_run n := bfs_slots fuel n bkt alt_bkt (c_key c) (c_data c) (c_sig c) slot.
Let loop_run n := bfs_loop fuel n bkt alt_bkt (c_key c) (c_data c) (c_sig c) slot.

Lemma alone_step h pc v h' pc' s :
  loaded h pc = Ret v -> add_piece h c pc v = Ret (h', pc') -> rtc (alone c) (h', pc') s -> rtc (alone c) (h, pc) s.
Proof. intros Hl Hp Hr. eapply rtc_l; [|exact Hr]. by exists v. Qed.

Lemma alone_slot h h' queue queue' tail i node res :
  rd queue tail = Ret node ->
  slot_run tail (n_bkt node) (n_cur_bkt_idx node) h queue i = Ret (h', queue', res) ->
  rtc (alone c) (h, AddLook slot (Search second queue tail i))
    (h', match res with
         | Some (ret, ret_val) => add_end slot ret ret_val (search_failed h' c slot ret second)
         | None => search_next h' c slot (Search second queue' tail i)
         end) /\ (res = None -> exists nd, queue' = queue ++ [nd]).
Proof.
  intros Hnode H. unfold slot_run, bfs_slot in H. apply bind_Ret_inv in H as (k & Ek & H).
  set (t := match res with Some _ => _ | None => _ end).
  assert (Hpush : forall g, (s ← get_sig g (n_bkt node) i;
      if Z.of_nat (length queue) <? RTE_HASH_BFS_QUEUE_MAX_LEN
      then Ret (g, queue ++ [Node (Main (get_alt_bucket_index g (n_cur_bkt_idx node) s))
        (get_alt_bucket_index g (n_cur_bkt_idx node) s) (Some tail) i], @None (Z * Z)) else Undef) = Ret (h', queue', res) ->
    rtc (alone c) (g, AddPush slot (Search second queue tail i)) (h', t) /\ (res = None -> exists nd, queue' = queue ++ [nd])).
  { intros g Hg. apply bind_Ret_inv in Hg as (s & Es & Hg).
    destruct (Z.of_nat (length queue) <? RTE_HASH_BFS_QUEUE_MAX_LEN) eqn:El; [|done].
    injection Hg as <- <- <-. split; [|by eexists].
    eapply (alone_step _ _ s); [cbn; by rewrite Hnode| |apply rtc_refl].
    cbn. rewrite Hnode. cbn. rewrite Es. cbn. by rewrite El. }
  destruct (Z.eqb_spec k EMPTY_SLOT) as [->|Hk].
  - apply bind_Ret_inv in H as ([g r] & Hm & H).
    apply bind_Ret_inv in Hm as ([[g1 ret] rv] & Em & Hm). injection Hm as <- <-.
    assert (Hmove : forall pc s, pc = (if negb (ret =? -1) then add_end slot ret rv (search_failed g1 c slot ret second)
          else AddPush slot (Search second queue tail i)) -> rtc (alone c) (g1, pc) s ->
        rtc (alone c) (h, AddLook slot (Search second queue tail i)) s).
    { intros pc s -> Hs. eapply (alone_step _ _ EMPTY_SLOT); [cbn; by rewrite Hnode| |].
      { cbn. rewrite Hnode. cbn. by rewrite Ek. }
      eapply (alone_step _ _ 0); [done| |exact Hs]. cbn. rewrite Hb. cbn. rewrite Em. done. }
    destruct (negb (ret =? -1)) eqn:Er.
    + injection H as <- <- <-. split; [|done]. eapply Hmove; [reflexivity|]. apply rtc_refl.
    + destruct (Hpush g1 H) as [Hp Hq]. split; [|exact Hq]. eapply Hmove; [reflexivity|exact Hp].
  - cbn [mbind outcome_bind] in H. destruct (Hpush h H) as [Hp Hq]. split; [|exact Hq].
    eapply (alone_step _ _ k); [cbn; by rewrite Hnode| |exact Hp].
    cbn. rewrite Hnode. cbn. rewrite Ek. cbn. by rewrite (proj2 (Z.eqb_neq _ _) Hk).
Qed.

Lemma rd_snoc {A} (l : list A) x i v : rd l i = Ret v -> rd (l ++ [x]) i = Ret v.
Proof.
  unfold rd. destruct (0 <=? i); [|done]. destruct (l !! Z.to_nat i) eqn:E; [|done].
  by rewrite (lookup_app_l_Some _ _ _ _ E).
Qed.

Lemma alone_slots n h h' queue queue' tail i node res :
  rd queue tail = Ret node -> i + Z.of_nat n = 7 ->
  slots_run (S n) tail (n_bkt node) (n_cur_bkt_idx node) h queue i = Ret (h', queue', res) ->
  rtc (alone c) (h, AddLook slot (Search second queue tail i))
    (h', match res with
         | Some (ret, ret_val) => add_end slot ret ret_val (search_failed h' c slot ret second)
         | None => if search_on queue' (tail + 1) then AddLook slot (Search second queue' (tail + 1) 0)
                   else search_failed h' c slot (- ENOSPC) second
         end).
Proof.
  unfold slots_run. revert h queue i. induction n as [|n IH]; intros h queue i Hnode Hi H; cbn [bfs_slots] in H;
    apply bind_Ret_inv in H as ([[g q] r] & E & H); destruct (alone_slot _ _ _ _ _ _ _ _ Hnode E) as [Hr Hq].
  - destruct r as [[ret rv]|]; injection H as <- <- <-; [exact Hr|].
    unfold search_next in Hr. cbn [se_i se_queue se_tail se_second] in Hr.
    rewrite (proj2 (Z.ltb_ge (i + 1) RTE_HASH_BUCKET_ENTRIES)) in Hr by (change RTE_HASH_BUCKET_ENTRIES with 8; lia). exact Hr.
  - destruct r as [[ret rv]|]; [injection H as <- <- <-; exact Hr|].
    etransitivity; [exact Hr|]. unfold search_next. cbn [se_i se_queue se_tail se_second].
    rewrite (proj2 (Z.ltb_lt (i + 1) RTE_HASH_BUCKET_ENTRIES)) by (change RTE_HASH_BUCKET_ENTRIES with 8; lia).
    destruct (Hq eq_refl) as [nd ->]. apply IH; [by apply rd_snoc|lia|exact H].
Qed.

Lemma alone_loop n h h' queue tail ret ret_val :
  search_on queue tail = true -> loop_run n tail h queue = Ret (h', ret, ret_val) ->
  rtc (alone c) (h, AddLook slot (Search second queue tail 0))
    (h', add_end slot ret ret_val (search_failed h' c slot ret second)).
Proof.
  unfold loop_run. revert h queue tail. induction n as [|n IH]; intros h queue tail Hon H; cbn [bfs_loop] in H;
    unfold search_on in Hon; rewrite Hon in H; [done|].
  apply bind_Ret_inv in H as (node & Hnode & H). apply bind_Ret_inv in H as ([[g q] r] & E & H).
  etransitivity; [apply (alone_slots 7 h g queue q tail 0 node r Hnode eq_refl E)|].
  destruct r as [[ret' rv']|].
  - injection H as <- <- <-. apply rtc_refl.
  - destruct (search_on q (tail + 1)) eqn:Eon; [by apply IH|].
    assert (E2 : bfs_loop fuel n bkt alt_bkt (c_key c) (c_data c) (c_sig c) slot (tail + 1) g q = Ret (g, - ENOSPC, 0)).
    { unfold search_on in Eon. destruct n; cbn [bfs_loop]; by rewrite Eon. }
    rewrite E2 in H. injection H as <- <- <-. apply rtc_refl.
Qed.
End Alone.

(** Run by one thread, the pieces compute what the function computes. *)
Lemma alone_computes h key sig data h' ret :
  __rte_hash_add_key_with_hash fuel h key sig data = Ret (h', ret) ->
  rtc (alone (begin_add h key sig data)) (h, AddCheck) (h', AddDone ret).
Proof.
  intros H. unfold __rte_hash_add_key_with_hash in H. set (c := begin_add h key sig data).
  change (get_short_sig sig) with (c_sig c) in H. change (get_prim_bucket_index h sig) with (c_prim c) in H.
  change (get_alt_bucket_index h (c_prim c) (c_sig c)) with (c_sec c) in H.
  change key with (c_key c) in H. change data with (c_data c) in H. clearbody c.
  apply bind_Ret_inv in H as (h1 & E1 & H). apply bind_Ret_inv in H as ([h2 dup] & E2 & H).
  set (u := __hash_rw_writer_unlock h2) in *.
  eapply (alone_step _ _ _ 0); [done|cbn; rewrite E1; cbn; rewrite E2; reflexivity|]. fold u.
  destruct dup as [r|]; [injection H as <- <-; apply rtc_refl|].
  apply bind_Ret_inv in H as ([h3 slot] & E3 & H).
  destruct (alloc_halves _ _ _ E3) as (n & old & new & Ea & Eb).
  eapply (alone_step _ _ _ 0); [done|cbn; rewrite Ea; reflexivity|].
  eapply (alone_step _ _ _ 0); [done|cbn; rewrite Eb; reflexivity|].
  apply bind_Ret_inv in H as (p & E4 & H). apply bind_Ret_inv in H as (k & E5 & H).
  apply bind_Ret_inv in H as (bytes & E6 & H). apply bind_Ret_inv in H as (ks & E7 & H).
  eapply (alone_step _ _ _ 0); [done|cbn; rewrite E4; cbn; rewrite E5; cbn; rewrite E6; cbn; rewrite E7; reflexivity|].
  apply bind_Ret_inv in H as ([[h5 r5] v5] & E8 & H).
  eapply (alone_step _ _ _ 0); [done|cbn; rewrite E8; reflexivity|].
  assert (Hgive : forall g g' r, enqueue_slot_back fuel g slot = Ret g' -> rtc (alone c) (g, AddGive slot r) (g', AddDone r)).
  { intros g g' r Eg. destruct (give_halves _ _ _ r Eg) as (n0 & old0 & new0 & Ea0 & Eb0).
    eapply (alone_step _ _ _ 0); [done|cbn; rewrite Ea0; reflexivity|].
    eapply (alone_step _ _ _ 0); [done|cbn; rewrite Eb0; reflexivity|apply rtc_refl]. }
  assert (Hend : forall g ret0 rv pc (W : outcome (rte_hash * Z)),
    (W = Ret (h', ret) -> rtc (alone c) (g, pc) (h', AddDone ret)) ->
    (if ret0 =? 0 then Ret (g, i32 (slot - 1)) else if ret0 =? 1 then h ← enqueue_slot_back fuel g slot; Ret (h, rv) else W) =
      Ret (h', ret) -> rtc (alone c) (g, add_end slot ret0 rv pc) (h', AddDone ret)).
  { intros g ret0 rv pc W HW Hg. unfold add_end. destruct (ret0 =? 0); [injection Hg as <- <-; apply rtc_refl|].
    destruct (ret0 =? 1); [|by apply HW]. apply bind_Ret_inv in Hg as (g' & Eg & Hg). injection Hg as <- <-. by apply Hgive. }
  eapply Hend; [clear H; intros H|exact H].
  apply bind_Ret_inv in H as ([[h6 r6] v6] & E9 & H).
  etransitivity; [eapply (alone_loop c slot false (Main (c_prim c)) (Main (c_sec c)) eq_refl); [reflexivity|exact E9]|].
  eapply Hend; [clear H; intros H|exact H]. unfold search_failed.
  apply bind_Ret_inv in H as ([[h7 r7] v7] & E10 & H).
  etransitivity; [eapply (alone_loop c slot true (Main (c_sec c)) (Main (c_prim c)) eq_refl); [reflexivity|exact E10]|].
  eapply Hend; [clear H; intros H|exact H]. unfold search_failed.
  destruct (negb (ext_table_support h7)).
  - apply bind_Ret_inv in H as (g & Eg & H). injection H as <- <-. by apply Hgive.
  - eapply (alone_step _ _ _ 0); [done|cbn; rewrite H; reflexivity|apply rtc_refl].
Qed.
End Pieces.

(** ** The system *)

Record add_sys := AddSys { ay_h : rte_hash; ay_pcs : list add_pc }.

Section System.
Context (fuel : nat) (calls : list add_call).

(** Any thread goes on, in a table whose writers take the lock. *)
Inductive writer_step : add_sys -> add_sys -> Prop :=
  | writer_goes i c pc seen h h' pc' pcs :
      writer_takes_lock h = true -> calls !! i = Some c -> pcs !! i = Some pc ->
      add_piece fuel h c pc seen = Ret (h', pc') ->
      writer_step (AddSys h pcs) (AddSys h' (<[i := pc']> pcs)).

(** Between the two halves of an operation on the ring of free indices. *)
Definition index_op (pc : add_pc) : bool :=
  match pc with AddTake _ _ _ | AddPut _ _ _ _ _ => true | _ => false end.

(** One thread at most is there. The code does nothing to ensure it. *)
Definition one_index_op (s : add_sys) : Prop :=
  forall i j p q, ay_pcs s !! i = Some p -> ay_pcs s !! j = Some q -> index_op p = true -> index_op q = true -> i = j.

Definition exclusive_step (s s' : add_sys) : Prop := writer_step s s' /\ one_index_op s'.

Definition in_index_op (pc : add_pc) : list unit := if index_op pc then [tt] else [].
Definition alone_in_op (s : add_sys) : bool := bool_decide (length (all_owned in_index_op (ay_pcs s)) <= 1)%nat.

Lemma alone_in_op_ok s : alone_in_op s = true -> one_index_op s.
Proof.
  intros H%bool_decide_eq_true i j p q Hi Hj Hp Hq. destruct (decide (j = i)) as [|Hne]; [done|].
  destruct (owned_split in_index_op _ _ _ Hi) as (rest & Hperm & _ & Hoth).
  assert (Hin : tt ∈ rest) by (apply (Hoth j q tt Hne Hj); unfold in_index_op; rewrite Hq; left).
  rewrite Hperm in H. unfold in_index_op in H at 1. rewrite Hp in H. cbn in H. destruct rest; [by apply elem_of_nil in Hin|cbn in H; lia].
Qed.

(** A schedule: which thread goes on, and what its load reads; with [excl], one that no two
    threads are within an operation on the ring in. *)
Fixpoint run_schedule (excl : bool) (s : add_sys) (sched : list (nat * Z)) : option add_sys :=
  match sched with
  | [] => Some s
  | (i, seen) :: sched =>
      match writer_takes_lock (ay_h s), calls !! i, ay_pcs s !! i with
      | true, Some c, Some pc =>
          match add_piece fuel (ay_h s) c pc seen with
          | Ret (h', pc') =>
              let s' := AddSys h' (<[i := pc']> (ay_pcs s)) in
              if negb excl || alone_in_op s' then run_schedule excl s' sched else None
          | _ => None
          end
      | _, _, _ => None
      end
  end.

Lemma schedule_steps excl sched s s' : run_schedule excl s sched = Some s' ->
  rtc (if excl then exclusive_step else writer_step) s s'.
Proof.
  revert s. induction sched as [|[i seen] sched IH]; intros s H; cbn in H; [injection H as ->; apply rtc_refl|].
  destruct s as [h pcs]. cbn [ay_h ay_pcs] in H. destruct (writer_takes_lock h) eqn:Hl; [|done].
  destruct (calls !! i) as [c|] eqn:Hc; [|done]. destruct (pcs !! i) as [pc|] eqn:Hp; [|done].
  destruct (add_piece fuel h c pc seen) as [[h' pc']| |] eqn:E; [|done..].
  destruct (negb excl || _) eqn:Hx; [|done].
  assert (Hst : writer_step (AddSys h pcs) (AddSys h' (<[i := pc']> pcs))) by by eapply writer_goes.
  eapply rtc_l; [|by apply IH]. destruct excl; [|done]. split; [done|]. by apply alone_in_op_ok.
Qed.
End System.
