(* ===== verification/CuckooConcSpec.v ===== *)
(** * Several threads inserting: what one piece does

    A table that several writers share ([table_ok]: the map it holds, and the indices that
    threads have taken), and what each piece of an insertion does to it and to the thread
    ([effect], [thread_goes]). *)

From stdpp Require Import gmap.
From S2P Require Import Prelude Common Atomic RingCore RingCopy RingElem RingSpec.
From S2P Require Import Locks Cuckoo CuckooSpec CuckooExt CuckooTable CuckooMap CuckooConc.

Open Scope Z_scope.

(** ** Rebuilding a table's invariant *)

(** Buckets, change count and ring of free indices replaced, the chains as they were. *)
Lemma hash_ok_update L L' g r B c :
  hash_ok L g -> ly_bits L' = ly_bits L -> ly_chain L' = ly_chain L -> ly_ext L' = ly_ext L ->
  (forall k, ly_ext L k -> ly_hash L' k = ly_hash L k) ->
  (forall k, ly_main L' k -> in_store g k /\ ~ ly_ext L k) ->
  inv (ly_bits L) (first_ext L) (ly_hash L') (ly_main L') B ->
  ring_wf 4 r -> plain_sync r -> NoDup (contents 4 r) ->
  (forall k, k ∈ contents 4 r -> in_store g k /\ k <> 0 /\ ~ stored_in L' k) ->
  hash_ok L' (set_free_slots r (st g B c (h_lock g))).
Proof.
  intros Hok Hb Hc He Hh Hm Hinv Hw Hs Hn Hf. destruct Hok as [H1 H2 H3 H4 H5 H6 H7 H8 H9 H10 H11 H12 H13].
  assert (Hst : store_ok (set_free_slots r (st g B c (h_lock g)))) by by destruct H3.
  split; rewrite ?Hb, ?Hc, ?He; try done.
  - intros k [Hk|Hk]; [by apply Hm|]. apply H6. right. by rewrite He in Hk.
  - unfold first_ext. rewrite Hc. exact Hinv.
  - by eapply ext_placed_hash.
  - intros k Hk. by apply Hm.
Qed.

(** ** Tables shared by writers

    [m]: the map the table holds; [own]: the indices that threads have taken and not yet
    stored or given back. The table has [2 ^ k0] buckets, [init] is the initial value of its
    hash function and [hs] the function of its keys. *)
Section Shared.
Context (k0 init : Z) (hs : list Z -> Z) (dummy : list Z).

Record table_ok (h : rte_hash) (m : gmap (list Z) (Z * Z)) (own : list Z) : Prop := {
  tk_ok : exists L, hash_ok L h /\ ly_bits L = k0 /\
    (forall k, stored_in L k <-> exists key d, m !! key = Some (k, d)) /\
    forall key k d, m !! key = Some (k, d) -> ly_hash L k = hs key;
  tk_ext : ext_table_support h = false;
  tk_lock : writer_takes_lock h = true;
  tk_len : key_len h = 8;
  tk_init : hash_func_init_val h = init;
  tk_dummy : prefix8 (k_key (entry_at h 0)) = dummy;
  tk_entry : forall key k d, m !! key = Some (k, d) ->
    k_pdata (entry_at h k) = d /\ prefix8 (k_key (entry_at h k)) = key;
  tk_spare : NoDup (contents 4 (free_slots h) ++ own);
  tk_own : forall k, k ∈ own -> in_store h k /\ k <> 0 /\ forall key d, m !! key <> Some (k, d);
  tk_room : Z.of_nat (length (contents 4 (free_slots h) ++ own)) <= r_capacity (free_slots h);
}.

Lemma table_ok_perm h m own own' : own ≡ₚ own' -> table_ok h m own -> table_ok h m own'.
Proof. intros Hp [H1 H2 H3 H4 H5 H6 H7 H8 H9 H10]. split; try done; setoid_rewrite <- Hp; done. Qed.

Lemma entry_distinct h m own key1 key2 k d1 d2 :
  table_ok h m own -> m !! key1 = Some (k, d1) -> m !! key2 = Some (k, d2) -> key1 = key2.
Proof. intros Ht H1 H2. destruct (tk_entry _ _ _ Ht _ _ _ H1), (tk_entry _ _ _ Ht _ _ _ H2). congruence. Qed.

(** A key the map has. *)
Lemma table_reads h m own L key k d :
  table_ok h m own -> length key = 8%nat -> key <> dummy -> m !! key = Some (k, d) ->
  (forall k, stored_in L k <-> exists key d, m !! key = Some (k, d)) ->
  (forall key k d, m !! key = Some (k, d) -> ly_hash L k = hs key) ->
  reads_as L h key (hs key) k.
Proof.
  intros Ht Hl Hd Hm HS Hh. destruct (tk_entry _ _ _ Ht _ _ _ Hm) as [_ Hpx].
  split; rewrite ?(Hh _ _ _ Hm), ?(prefix8_key key Hl); try done.
  - apply HS. by exists key, d.
  - by rewrite (tk_dummy _ _ _ Ht).
  - intros j Hj Hjx. apply HS in Hj as (key' & d' & Hm'). destruct (tk_entry _ _ _ Ht _ _ _ Hm') as [_ Hpx'].
    rewrite Hpx' in Hjx. subst key'. congruence.
Qed.

(** A key the map has not. *)
Lemma table_fresh h m own L key :
  table_ok h m own -> length key = 8%nat -> key <> dummy -> m !! key = None ->
  (forall k, stored_in L k -> exists key d, m !! key = Some (k, d)) ->
  fresh_key k0 (ly_hash L) (ly_main L) h key (hs key).
Proof.
  intros Ht Hl Hd Hm HS. split.
  - by rewrite (tk_dummy _ _ _ Ht), prefix8_key.
  - intros k Hk _ _ Hpx. destruct (HS k) as (key' & d' & Hm'); [by left|].
    destruct (tk_entry _ _ _ Ht _ _ _ Hm') as [_ Hpx']. rewrite (prefix8_key key Hl), Hpx' in Hpx. subst key'. congruence.
Qed.

(** *** The data of a stored key replaced *)
Lemma table_updated h m own key data k d :
  table_ok h m own -> length key = 8%nat -> key <> dummy -> m !! key = Some (k, d) ->
  table_ok (with_data h k data) (<[key := (k, data)]> m) own /\
  forall j, in_store h j -> j <> k -> entry_at (with_data h k data) j = entry_at h j.
Proof.
  intros Ht Hl Hd Hm. pose proof Ht as [(L & Hok & Hk0 & HS & Hh) Hx Hlk Hlen Hini Hdum Hent Hsp Hown Hroom].
  pose proof (table_reads _ _ _ L key k d Ht Hl Hd Hm HS Hh) as Hra.
  pose proof (with_data_at L h key data _ k Hok Hra) as Hat. pose proof (hk_stored _ _ Hok) as Hin.
  assert (Hsame : forall key' j d', <[key := (k, data)]> m !! key' = Some (j, d') -> exists d0, m !! key' = Some (j, d0)).
  { intros key' j d' [[<- [= <- _]]|[_ ?]]%lookup_insert_Some; [by exists d|by exists d']. }
  split; [|intros j Hj Hne; rewrite Hat by done; by rewrite (proj2 (Z.eqb_neq _ _) Hne)].
  split; try done.
  - exists L. split; [by eapply with_data_ok|]. split; [done|]. split.
    + intros j. rewrite HS. split; intros (key' & d' & Hm'); [|destruct (Hsame _ _ _ Hm') as [d0 ?]; by exists key', d0].
      destruct (decide (key' = key)) as [->|Hne].
      * exists key, data. rewrite lookup_insert_eq. congruence.
      * exists key', d'. by rewrite lookup_insert_ne.
    + intros key' k' d' Hm'. destruct (Hsame _ _ _ Hm') as [d0 ?]. by eapply Hh.
  - rewrite Hat by apply (hk_zero _ _ Hok). by destruct (Z.eqb_spec 0 k) as [<-|].
  - intros key' k' d' Hm'. destruct (Hsame _ _ _ Hm') as [d0 Hm0]. rewrite Hat by (apply Hin, HS; by exists key', d0).
    destruct (Z.eqb_spec k' k) as [->|Hne].
    + assert (key' = key) as -> by (by eapply entry_distinct). rewrite lookup_insert_eq in Hm'. injection Hm' as <-.
      split; [done|]. apply (proj2 (Hent _ _ _ Hm)).
    + apply lookup_insert_Some in Hm' as [[<- [= <- _]]|[_ Hm']]; [done|by apply Hent].
  - intros j Hj. destruct (Hown j Hj) as (Hi & Hn & Hno).
    split; [unfold in_store, with_data; cbn; by rewrite length_insert|]. split; [done|].
    intros key' d' Hm'. destruct (Hsame _ _ _ Hm') as [d0 Hm0]. by apply (Hno key' d0).
Qed.

(** *** The ring of free indices *)

(** Nothing spare is used. *)
Lemma spare_unused h m own k : table_ok h m own -> k ∈ contents 4 (free_slots h) ++ own ->
  in_store h k /\ k <> 0 /\ forall key d, m !! key <> Some (k, d).
Proof.
  intros Ht [Hk|Hk]%elem_of_app; [|by apply (tk_own _ _ _ Ht)].
  destruct (tk_ok _ _ _ Ht) as (L & Hok & _ & HS & _). destruct (hk_free _ _ Hok) as [_ Hf].
  destruct (Hf k Hk) as (? & ? & Hno). split; [done|]. split; [done|]. intros key d Hm. apply Hno, HS. by exists key, d.
Qed.

(** Indices go between the ring and the threads. *)
Lemma table_ring h m own own' r :
  table_ok h m own -> ring_wf 4 r -> plain_sync r -> r_capacity r = r_capacity (free_slots h) ->
  contents 4 r ++ own' ≡ₚ contents 4 (free_slots h) ++ own -> table_ok (set_free_slots r h) m own'.
Proof.
  intros Ht Hw Hs Hcap Hp. pose proof (spare_unused h m own) as Hun.
  pose proof Ht as [(L & Hok & Hk0 & HS & Hh) Hx Hlk Hlen Hini Hdum Hent Hsp Hown Hroom].
  assert (Hnd : NoDup (contents 4 r ++ own')) by by rewrite Hp.
  assert (Hin : forall k, k ∈ contents 4 r ++ own' -> k ∈ contents 4 (free_slots h) ++ own) by (intros k; by rewrite Hp).
  split; try done.
  - exists L. split; [|done]. replace (set_free_slots r h) with (set_free_slots r (st h (buckets h) (tbl_chng_cnt h) (h_lock h))) by (by rewrite st_same).
    apply hash_ok_update with (L := L); try done.
    + intros k Hk. split; [apply (hk_stored _ _ Hok); by left|by apply (hk_apart _ _ Hok)].
    + apply (hk_table _ _ Hok).
    + by apply NoDup_app in Hnd as [? _].
    + intros k Hk. destruct (Hun k Ht) as (? & ? & Hno); [apply Hin, elem_of_app; by left|].
      split; [done|]. split; [done|]. intros (key & d & Hm)%HS. by apply (Hno key d).
  - intros k Hk. apply (Hun k Ht), Hin, elem_of_app. by right.
  - cbn [free_slots set_free_slots]. by rewrite Hp, Hcap.
Qed.

(** *** A thread writes the entry of an index it has taken *)
Lemma table_written h m own slot key data :
  table_ok h m own -> slot ∈ own -> length key = 8%nat ->
  table_ok (with_entry h slot data key) m own /\
  entry_at (with_entry h slot data key) slot = new_entry h slot data key /\
  forall j, in_store h j -> j <> slot -> entry_at (with_entry h slot data key) j = entry_at h j.
Proof.
  intros Ht Hslot Hl. pose proof Ht as [(L & Hok & Hk0 & HS & Hh) Hx Hlk Hlen Hini Hdum Hent Hsp Hown Hroom].
  destruct (Hown slot Hslot) as (Hi & Hne & Hno). pose proof (with_entry_at h slot data key Hi) as Hat.
  assert (Hst : store_ok (with_entry h slot data key)) by (apply with_entry_ok; [apply (hk_store _ _ Hok)|done|lia]).
  assert (Hin : forall j, in_store (with_entry h slot data key) j <-> in_store h j) by (intros j; apply with_entry_store).
  assert (Hoth : forall j, in_store h j -> j <> slot -> entry_at (with_entry h slot data key) j = entry_at h j).
  { intros j Hj Hjs. rewrite Hat by done. by rewrite (proj2 (Z.eqb_neq _ _) Hjs). }
  split; [|split; [rewrite Hat by done; by rewrite Z.eqb_refl|done]]. split; try done.
  - exists L. split; [|done]. destruct Hok as [? ? _ ? ? H6 ? ? ? ? ? [? Hf] ?]. split; try done.
    + by apply Hin.
    + intros k Hk. by apply Hin, H6.
    + split; [done|]. intros k Hk. rewrite Hin. by apply Hf.
  - rewrite Hoth; [done|apply (hk_zero _ _ Hok)|done].
  - intros key' k d Hm. rewrite Hoth; [by apply Hent|apply (hk_stored _ _ Hok), HS; by exists key', d|].
    intros ->. by apply (Hno key' d).
  - intros k Hk. rewrite Hin. by apply Hown.
Qed.

(** *** The main buckets after a locked section *)
Lemma table_moved h m own L B c :
  table_ok h m own -> hash_ok L h -> ly_bits L = k0 ->
  (forall k, stored_in L k <-> exists key d, m !! key = Some (k, d)) ->
  (forall key k d, m !! key = Some (k, d) -> ly_hash L k = hs key) ->
  inv k0 (first_ext L) (ly_hash L) (ly_main L) B -> table_ok (st h B c (h_lock h)) m own.
Proof.
  intros Ht Hok Hk0 HS Hh HB. destruct (hk_free _ _ Hok) as [Hnd Hf]. destruct (hk_ring _ _ Hok) as [Hw Hs].
  pose proof Ht as [_ Hx Hlk Hlen Hini Hdum Hent Hsp Hown Hroom]. split; try done. exists L. split; [|done].
  change (st h B c (h_lock h)) with (set_free_slots (free_slots h) (st h B c (h_lock h))).
  apply hash_ok_update with (L := L); try done; [|by rewrite Hk0].
  intros k Hk. split; [apply (hk_stored _ _ Hok); by left|by apply (hk_apart _ _ Hok)].
Qed.

(** The key is stored: the map has it, and its index is no longer the thread's. *)
Lemma table_stored h m own slot L key data B c :
  table_ok h m (slot :: own) -> hash_ok L h -> ly_bits L = k0 ->
  (forall k, stored_in L k <-> exists key d, m !! key = Some (k, d)) ->
  (forall key k d, m !! key = Some (k, d) -> ly_hash L k = hs key) ->
  m !! key = None -> k_pdata (entry_at h slot) = data -> prefix8 (k_key (entry_at h slot)) = key ->
  inserted k0 (first_ext L) (ly_hash L) (ly_main L) (hs key) slot B ->
  table_ok (st h B c (h_lock h)) (<[key := (slot, data)]> m) own.
Proof.
  intros Ht Hok Hk0 HS Hh Hm He1 He2 HB. destruct (hk_free _ _ Hok) as [Hnd Hf]. destruct (hk_ring _ _ Hok) as [Hw Hs].
  pose proof Ht as [_ Hx Hlk Hlen Hini Hdum Hent Hsp Hown Hroom].
  destruct (Hown slot ltac:(left)) as (Hi & Hne & Hno).
  rewrite <- Permutation_middle in Hsp. apply NoDup_cons in Hsp as [Hnin Hsp]. rewrite elem_of_app in Hnin.
  assert (HnS : ~ stored_in L slot) by (intros (key' & d & Hk)%HS; by apply (Hno key' d)).
  assert (Hsame : forall key' k d, <[key := (slot, data)]> m !! key' = Some (k, d) ->
    key' = key /\ k = slot /\ d = data \/ key' <> key /\ k <> slot /\ m !! key' = Some (k, d)).
  { intros key' k d [[<- [= <- <-]]|[Hk Hm']]%lookup_insert_Some; [by left|right].
    split; [congruence|]. split; [|done]. intros ->. by apply (Hno key' d). }
  split; try done.
  - exists (Layout k0 (ly_chain L) (fun j => if j =? slot then hs key else ly_hash L j) (fun k => ly_main L k \/ k = slot) (ly_ext L)).
    split; [|split; [done|split]].
    + change (st h B c (h_lock h)) with (set_free_slots (free_slots h) (st h B c (h_lock h))).
      apply hash_ok_update with (L := L); cbn [ly_bits ly_chain ly_hash ly_main ly_ext]; try done.
      * intros k Hk. destruct (Z.eqb_spec k slot) as [->|]; [|done]. destruct HnS. by right.
      * intros k [Hk| ->].
        -- split; [apply (hk_stored _ _ Hok); by left|by apply (hk_apart _ _ Hok)].
        -- split; [done|]. intros Hk. apply HnS. by right.
      * rewrite Hk0. exact HB.
      * intros k Hk. destruct (Hf k Hk) as (? & ? & Hs2). split; [done|]. split; [done|].
        intros [[?| ->]|?]; [apply Hs2; by left|apply Hnin; by left|apply Hs2; by right].
    + intros k. unfold stored_in. cbn. split.
      * intros [[Hk| ->]|Hk].
        -- destruct (proj1 (HS k) (or_introl Hk)) as (key' & d & Hm'). exists key', d. rewrite lookup_insert_ne; [done|congruence].
        -- exists key, data. by rewrite lookup_insert_eq.
        -- destruct (proj1 (HS k) (or_intror Hk)) as (key' & d & Hm'). exists key', d. rewrite lookup_insert_ne; [done|congruence].
      * intros (key' & d & Hm'). destruct (Hsame _ _ _ Hm') as [(_ & -> & _)|(_ & _ & Hm0)]; [left; by right|].
        destruct (proj2 (HS k)) as [Hk|Hk]; [by exists key', d|left; by left|by right].
    + cbn [ly_hash]. intros key' k d Hm'. destruct (Hsame _ _ _ Hm') as [(-> & -> & _)|(_ & Hk & Hm0)].
      * by rewrite Z.eqb_refl.
      * rewrite (proj2 (Z.eqb_neq _ _) Hk). by eapply Hh.
  - intros key' k d Hm'. destruct (Hsame _ _ _ Hm') as [(-> & -> & ->)|(_ & _ & Hm0)]; [done|by apply Hent].
  - intros k Hk. destruct (Hown k ltac:(by right)) as (? & ? & Hno'). split; [done|]. split; [done|].
    intros key' d Hm'. destruct (Hsame _ _ _ Hm') as [(_ & -> & _)|(_ & _ & Hm0)]; [apply Hnin; by right|by apply (Hno' key' d)].
  - rewrite length_app in *. cbn in Hroom |- *. lia.
Qed.

(** ** The sections under the lock *)

(** An insertion of a table of [2 ^ k0] buckets whose keys have the hashes [hs]. *)
Definition call_of (op : list Z * Z) : add_call :=
  let hash := hs (fst op) in
  let p := prim_of (2 ^ k0 - 1) hash in
  Call (fst op) (snd op) (get_short_sig hash) p (alt_of (2 ^ k0 - 1) p (get_short_sig hash)).

Lemma begin_add_call h key data : bucket_bitmask h = 2 ^ k0 - 1 -> begin_add h key (hs key) data = call_of (key, data).
Proof. intros Hm. unfold begin_add, get_prim_bucket_index, get_alt_bucket_index. by rewrite Hm. Qed.

Definition search_ok (key : list Z) (se : search) : Prop :=
  let hash := hs key in
  let p := prim_of (2 ^ k0 - 1) hash in
  queue_ok k0 (if se_second se then alt_of (2 ^ k0 - 1) p (get_short_sig hash) else p) (se_queue se) /\
  0 <= se_tail se < Z.of_nat (length (se_queue se)) /\ 0 <= se_i se < 8 /\
  Z.of_nat (length (se_queue se)) <= 991 + se_i se.

Section Sections.
Context (fuel : nat) (h : rte_hash) (m : gmap (list Z) (Z * Z)) (own : list Z) (L : layout) (key : list Z) (data : Z).
Hypotheses (Ht : table_ok h m own) (Hok : hash_ok L h) (Hk0 : ly_bits L = k0).
Hypothesis HS : forall k, stored_in L k <-> exists key d, m !! key = Some (k, d).
Hypothesis Hh : forall key k d, m !! key = Some (k, d) -> ly_hash L k = hs key.
Hypotheses (Hl : length key = 8%nat) (Hd : key <> dummy).
Let s := get_short_sig (hs key).
Let p := prim_of (2 ^ k0 - 1) (hs key).
Let q := alt_of (2 ^ k0 - 1) p s.
Let lk := if writer_takes_lock h then -1 else h_lock h.
Let hl := st h (buckets h) (tbl_chng_cnt h) lk.

Lemma no_chain b : 0 <= b < 2 ^ k0 -> ly_chain L b = [].
Proof. pose proof (hk_spare _ _ Hok) as H. rewrite (tk_ext _ _ _ Ht), Hk0 in H. apply H. Qed.

Lemma call_buckets : 0 <= p < 2 ^ k0 /\ 0 <= q < 2 ^ k0.
Proof. apply two_buckets. rewrite <- Hk0. apply (hk_size _ _ Hok). Qed.

Lemma all_main k : stored_in L k -> ly_main L k.
Proof.
  intros [Hk|Hk]; [done|]. destruct (ep_cover _ _ _ _ _ (hk_ext _ _ Hok) k Hk) as (b & e & i & (Hb & He & _) & _).
  rewrite Hk0 in Hb. rewrite no_chain in He by done. by apply elem_of_nil in He.
Qed.

Lemma lock_section : __hash_rw_writer_lock (S fuel) h = Ret hl /\ __hash_rw_writer_unlock hl = h.
Proof.
  pose proof (lock_st fuel h (hk_lock _ _ Hok) (buckets h) (tbl_chng_cnt h)) as E1. rewrite st_same in E1.
  split; [exact E1|]. unfold hl, lk. rewrite (unlock_st h (hk_lock _ _ Hok)). apply st_same.
Qed.

Lemma no_walk B c l b : b = p \/ b = q ->
  for_each_bucket fuel (st h B c l) (first_ext L b) (check_dup key data (hs key)) = Ret (st h B c l, None).
Proof.
  intros Hb. unfold first_ext. rewrite no_chain by (destruct call_buckets, Hb; subst b; done). by destruct fuel.
Qed.

(** A search of this insertion: a queue of well-formed nodes with room for what is left of
    the node at [tail]. *)
Lemma search_start se : search_ok key se ->
  exists node, rd (se_queue se) (se_tail se) = Ret node /\ se_queue se !! Z.to_nat (se_tail se) = Some node /\
    n_bkt node = Main (n_cur_bkt_idx node) /\ in_table (2 ^ k0) (n_cur_bkt_idx node) (se_i se) /\
    forall B c l, table_shape (2 ^ k0) (first_ext L) B ->
      get_idx (st h B c l) (n_bkt node) (se_i se) = Ret (idx_at B (n_cur_bkt_idx node) (se_i se)) /\
      get_sig (st h B c l) (n_bkt node) (se_i se) = Ret (sig_at B (n_cur_bkt_idx node) (se_i se)).
Proof.
  intros (Hq & Htl & Hi & _). destruct (lookup_lt_is_Some_2 (se_queue se) (Z.to_nat (se_tail se))) as [node Hnode]; [lia|].
  pose proof (Hq _ _ Hnode) as (Hb & Hr & _). exists node. split; [by apply rd_Ret; [lia|]|]. split; [done|]. split; [done|].
  assert (Hin : in_table (2 ^ k0) (n_cur_bkt_idx node) (se_i se)) by done. split; [done|]. intros B c l HB. rewrite Hb.
  split; [by apply (get_idx_at _ _ (st h B c l) HB)|by apply (get_sig_at _ _ (st h B c l) HB)].
Qed.

(** How a path is tried: if the slot at its end is no longer empty, not at all. *)
Lemma move_start slot se seen : search_ok key se ->
  exists node b1 b2, rd (se_queue se) (se_tail se) = Ret node /\ (b1 = p /\ b2 = q \/ b1 = q /\ b2 = p) /\
    b1 = (if se_second se then q else p) /\
    get_idx hl (n_bkt node) (se_i se) = Ret (idx_at (buckets h) (n_cur_bkt_idx node) (se_i se)) /\
    let run := rte_hash_cuckoo_move_insert_mw (S fuel) h (Main b1) (Main b2) key data
      (se_queue se) (se_tail se) (se_i se) s slot in
    add_piece (S fuel) h (call_of (key, data)) (AddMove slot se) seen =
    ('(h, ret, ret_val) ← run;
     Ret (h, if negb (ret =? -1) then add_end slot ret ret_val (search_failed h (call_of (key, data)) slot ret (se_second se))
             else AddPush slot se)) /\
    (idx_at (buckets h) (n_cur_bkt_idx node) (se_i se) <> 0 -> run = Ret (h, -1, 0)).
Proof.
  intros Hse. destruct (search_start se Hse) as (node & Hnode & _ & _ & _ & Hacc).
  destruct (hk_table _ _ Hok) as [HB _]. rewrite Hk0 in HB.
  destruct (Hacc (buckets h) (tbl_chng_cnt h) lk HB) as [Hgi _]. fold hl in Hgi.
  destruct lock_section as [E Eu]. exists node, (if se_second se then q else p), (if se_second se then p else q).
  split; [done|]. split; [destruct (se_second se); auto|]. split; [done|]. split; [done|]. cbv zeta. split.
  - cbn [add_piece]. by destruct (se_second se).
  - intros Hne. unfold rte_hash_cuckoo_move_insert_mw. rewrite Hnode. cbn [mbind outcome_bind]. rewrite E.
    cbn [mbind outcome_bind]. rewrite Hgi. cbn [mbind outcome_bind]. change EMPTY_SLOT with 0.
    rewrite (proj2 (Z.eqb_neq _ _) Hne). cbn [negb]. by rewrite Eu.
Qed.

(** *** The key is there *)
Section Known.
Context (k d : Z).
Hypothesis Hm : m !! key = Some (k, d).

Lemma known_index : i32 (k - 1) = k - 1 /\ k - 1 <> -1 /\ 0 <= k - 1.
Proof.
  assert (Hk : stored_in L k) by (apply HS; by exists key, d).
  pose proof (hk_stored _ _ Hok k Hk) as Hin. pose proof (in_store_bound _ _ (hk_store _ _ Hok) Hin).
  pose proof (table_reads _ _ _ L key k d Ht Hl Hd Hm HS Hh) as Hra.
  pose proof (stored_nonzero L h key (hs key) k Hok Hra). rewrite i32_pos by lia. lia.
Qed.

Lemma search_known b1 b2 : b1 = p /\ b2 = q \/ b1 = q /\ b2 = p ->
  search_both (S fuel) hl data key (Main b1) (Main b2) s = Ret (with_data hl k data, Some (k - 1)).
Proof.
  intros Hb. pose proof (table_reads _ _ _ L key k d Ht Hl Hd Hm HS Hh) as Hra.
  destruct (stored_main L h key (hs key) k Hok Hra) as (b & i & Hin & Hbb & E & Hsm); [apply all_main, HS; by exists key, d|].
  rewrite Hk0 in Hin, Hbb. fold p q in Hbb. destruct known_index as (_ & Hn & _).
  assert (Hf : (length (buckets_ext h) <= length (buckets_ext h))%nat) by done.
  assert (H8 : (8 <= length key)%nat) by lia.
  pose proof (main_hit (length (buckets_ext h)) L h key data (hs key) k Hok Hf H8 Hra b i) as Hhit. rewrite Hk0 in Hhit.
  specialize (Hhit Hin E Hsm). fold lk hl s in Hhit. fold s in Hbb.
  assert (Hmiss : forall b', 0 <= b' < 2 ^ k0 -> b' <> b -> search_and_update hl data key (Main b') s = Ret (hl, -1)).
  { intros b' Hb' Hne. apply (main_miss L h key data (hs key) Hok H8); [by rewrite Hk0|]. intros j Hj Hmj.
    pose proof (main_only L h key (hs key) k Hok Hra b i b' j) as Ho. rewrite Hk0 in Ho.
    specialize (Ho Hin E (conj Hb' Hj) Hmj). congruence. }
  destruct call_buckets as [Hp Hq]. assert (Hbor : b = b1 \/ b = b2) by (destruct Hb as [[-> ->]|[-> ->]], Hbb; auto).
  unfold search_both. destruct (Z.eq_dec b1 b) as [->|Hne].
  - rewrite Hhit. cbn [mbind outcome_bind]. by rewrite (proj2 (Z.eqb_neq (k - 1) (-1)) Hn).
  - destruct Hbor as [->|<-]; [done|]. rewrite Hmiss; [|destruct Hb as [[-> ->]|[-> ->]]; done|done].
    cbn [mbind outcome_bind]. change (negb (-1 =? -1)) with false. cbn [for_each_bucket]. rewrite Hhit.
    cbn [mbind outcome_bind]. by rewrite (proj2 (Z.eqb_neq (k - 1) (-1)) Hn).
Qed.

Lemma unlock_known : __hash_rw_writer_unlock (with_data hl k data) = with_data h k data.
Proof.
  pose proof (unlock_st (with_data h k data) (hk_lock _ _ Hok) (buckets h) (tbl_chng_cnt h)) as E.
  exact E.
Qed.

Lemma check_known seen : add_piece (S fuel) h (call_of (key, data)) AddCheck seen = Ret (with_data h k data, AddDone (k - 1)).
Proof.
  destruct lock_section as [E _]. cbn [add_piece]. rewrite E. cbn [mbind outcome_bind call_of c_key c_data c_sig c_prim c_sec fst snd].
  fold s p q. rewrite search_known by auto. cbn [mbind outcome_bind]. by rewrite unlock_known.
Qed.

Lemma insert_known slot seen :
  add_piece (S fuel) h (call_of (key, data)) (AddInsert slot) seen = Ret (with_data h k data, AddGive slot (k - 1)).
Proof.
  destruct lock_section as [E _]. cbn [add_piece]. unfold rte_hash_cuckoo_insert_mw. rewrite E.
  cbn [mbind outcome_bind call_of c_key c_data c_sig c_prim c_sec fst snd].
  fold s p q. rewrite search_known by auto. cbn [mbind outcome_bind]. by rewrite unlock_known.
Qed.

(** A path is tried: the key is found, or the slot is no longer empty. *)
Lemma move_known slot se seen : search_ok key se ->
  add_piece (S fuel) h (call_of (key, data)) (AddMove slot se) seen = Ret (with_data h k data, AddGive slot (k - 1)) \/
  add_piece (S fuel) h (call_of (key, data)) (AddMove slot se) seen = Ret (h, AddPush slot se).
Proof.
  intros Hse. destruct (move_start slot se seen Hse) as (node & b1 & b2 & Hnode & Hb & _ & Hgi & Hrun & Hne).
  cbv zeta in Hrun, Hne. rewrite Hrun.
  destruct (Z.eq_dec (idx_at (buckets h) (n_cur_bkt_idx node) (se_i se)) 0) as [E0|E0]; [left|right; by rewrite Hne].
  unfold rte_hash_cuckoo_move_insert_mw. rewrite Hnode. cbn [mbind outcome_bind]. destruct lock_section as [E _].
  rewrite E. cbn [mbind outcome_bind]. rewrite Hgi, E0. cbn [mbind outcome_bind]. change (negb (0 =? EMPTY_SLOT)) with false.
  cbv iota. rewrite search_known by done. cbn [mbind outcome_bind]. by rewrite unlock_known.
Qed.
End Known.

(** *** The key is not there *)
Section Absent.
Hypothesis Hm : m !! key = None.
Context (slot : Z).
Hypotheses (Hne : slot <> 0) (HnS : ~ stored_in L slot) (Hin : in_store h slot).

Lemma absent_fresh : fresh_key k0 (ly_hash L) (ly_main L) h key (hs key).
Proof. by apply (table_fresh h m own L key Ht Hl Hd Hm); intros k ?%HS. Qed.

Lemma absent_inv : inv k0 (first_ext L) (ly_hash L) (ly_main L) (buckets h).
Proof. rewrite <- Hk0. apply (hk_table _ _ Hok). Qed.

Lemma main_stored k : ly_main L k -> in_store h k.
Proof. intros Hk. apply (hk_stored _ _ Hok). by left. Qed.

Lemma search_absent b1 b2 : b1 = p \/ b1 = q -> b2 = p \/ b2 = q ->
  search_both (S fuel) hl data key (Main b1) (Main b2) s = Ret (hl, None).
Proof.
  apply (search_both_miss fuel k0 (first_ext L) (ly_hash L) (ly_main L) h key data (hs key)).
  - rewrite <- Hk0. apply (hk_size _ _ Hok).
  - apply (hk_store _ _ Hok).
  - lia.
  - apply (hk_zero _ _ Hok).
  - apply main_stored.
  - apply absent_fresh.
  - apply no_walk.
  - apply absent_inv.
Qed.

Lemma check_absent seen : add_piece (S fuel) h (call_of (key, data)) AddCheck seen = Ret (h, AddAlloc).
Proof.
  destruct lock_section as [E Eu]. cbn [add_piece]. rewrite E. cbn [mbind outcome_bind call_of c_key c_data c_sig c_prim c_sec fst snd].
  fold s p q. rewrite search_absent by auto. cbn [mbind outcome_bind]. by rewrite Eu.
Qed.

Lemma slot_position : i32 (slot - 1) = slot - 1.
Proof. pose proof (in_store_bound _ _ (hk_store _ _ Hok) Hin). apply i32_pos. lia. Qed.

Let inserted_L := inserted k0 (first_ext L) (ly_hash L) (ly_main L) (hs key) slot.
Let inv_L := inv k0 (first_ext L) (ly_hash L) (ly_main L).

Lemma insert_absent seen :
  (exists B c, add_piece (S fuel) h (call_of (key, data)) (AddInsert slot) seen =
     Ret (st h B c (h_lock h), AddDone (slot - 1)) /\ inserted_L B) \/
  add_piece (S fuel) h (call_of (key, data)) (AddInsert slot) seen =
    Ret (h, AddLook slot (Search false [Node (Main p) p None (-1)] 0 0)).
Proof.
  destruct (insert_mw_cases fuel k0 (first_ext L) (ly_hash L) (ly_main L) h key data (hs key) slot) with (B := buckets h) (c := tbl_chng_cnt h)
    as [(B & E & Hins)|[E _]].
  - rewrite <- Hk0. apply (hk_size _ _ Hok).
  - apply (hk_store _ _ Hok).
  - lia.
  - apply (hk_lock _ _ Hok).
  - apply (hk_zero _ _ Hok).
  - apply main_stored.
  - apply absent_fresh.
  - done.
  - intros ?. apply HnS. by left.
  - apply no_walk.
  - apply absent_inv.
  - left. exists B, (tbl_chng_cnt h). split; [|done]. cbn [add_piece call_of c_key c_data c_sig c_prim c_sec fst snd].
    rewrite st_same in E. fold s p q in E. fold s p q. rewrite E. cbn [mbind outcome_bind]. unfold add_end. cbn [Z.eqb].
    by rewrite slot_position.
  - right. cbn [add_piece call_of c_key c_data c_sig c_prim c_sec fst snd].
    rewrite st_same in E. fold s p q in E. fold s p q. by rewrite E.
Qed.

Lemma move_absent se seen : search_ok key se ->
  (exists B c, add_piece (S fuel) h (call_of (key, data)) (AddMove slot se) seen =
     Ret (st h B c (h_lock h), AddDone (slot - 1)) /\ inserted_L B) \/
  (exists B c, add_piece (S fuel) h (call_of (key, data)) (AddMove slot se) seen =
     Ret (st h B c (h_lock h), AddPush slot se) /\ inv_L B).
Proof.
  intros Hse. destruct (move_start slot se seen Hse) as (node & b1 & b2 & Hnode & Hb & Hroot & Hgi & Hrun & Hfull).
  cbv zeta in Hrun, Hfull. rewrite Hrun. pose proof Hse as (Hq & Htl & Hi & _).
  destruct (Z.eq_dec (idx_at (buckets h) (n_cur_bkt_idx node) (se_i se)) 0) as [E0|E0].
  2:{ right. exists (buckets h), (tbl_chng_cnt h). rewrite st_same, Hfull by done. split; [done|apply absent_inv]. }
  destruct (search_start se Hse) as (node' & Hnode' & Hlook & _). rewrite Hnode in Hnode'. injection Hnode' as <-.
  destruct (move_insert_cases fuel k0 (first_ext L) (ly_hash L) (ly_main L) h key data (hs key) slot)
    with (root := b1) (queue := se_queue se) (B := buckets h) (c := tbl_chng_cnt h) (b1 := b1) (b2 := b2)
      (leaf := Z.to_nat (se_tail se)) (node := node) (i := se_i se) as (B' & c' & [[E Hins]|[E Hinv]]);
    try (rewrite st_same, Z2Nat.id in E by lia; fold s in E; rewrite E).
  - rewrite <- Hk0. apply (hk_size _ _ Hok).
  - rewrite <- Hk0. apply (hk_mask _ _ Hok).
  - apply (hk_store _ _ Hok).
  - lia.
  - apply (hk_lock _ _ Hok).
  - apply (hk_zero _ _ Hok).
  - apply main_stored.
  - apply absent_fresh.
  - done.
  - intros ?. apply HnS. by left.
  - apply no_walk.
  - apply absent_inv.
  - rewrite Hroot. exact Hq.
  - done.
  - done.
  - fold s p q. destruct Hb as [[-> _]|[-> _]]; auto.
  - fold s p q. destruct Hb as [[_ ->]|[_ ->]]; auto.
  - fold s p q. destruct Hb as [[-> _]|[-> _]]; auto.
  - done.
  - left. exists B', c'. split; [|done]. cbn [mbind outcome_bind]. unfold add_end. cbn [negb Z.eqb]. by rewrite slot_position.
  - right. exists B', c'. split; [|done]. cbn [mbind outcome_bind]. done.
Qed.
End Absent.
End Sections.

(** ** What a thread holds and knows *)

Definition slot_of (pc : add_pc) : list Z :=
  match pc with
  | AddWrite slot | AddInsert slot | AddLook slot _ | AddMove slot _ | AddPush slot _ | AddExt slot
  | AddGive slot _ | AddPut slot _ _ _ _ => [slot]
  | _ => []
  end.
Definition waiting (pc : add_pc) : list unit :=
  match pc with AddCheck | AddAlloc | AddTake _ _ _ => [tt] | _ => [] end.
Definition written (pc : add_pc) : option Z :=
  match pc with AddInsert slot | AddLook slot _ | AddMove slot _ | AddPush slot _ => Some slot | _ => None end.
Definition search_of (pc : add_pc) : option search :=
  match pc with AddLook _ se | AddMove _ se | AddPush _ se => Some se | _ => None end.
(** What it will return, once that is settled. *)
Definition result_of (pc : add_pc) : option Z :=
  match pc with AddGive _ ret | AddPut _ ret _ _ _ | AddDone ret => Some ret | _ => None end.
Definition add_done (pc : add_pc) : bool := match pc with AddDone _ => true | _ => false end.

Context (fuel : nat).

Record thread_ok (h : rte_hash) (m : gmap (list Z) (Z * Z)) (op : list Z * Z) (pc : add_pc) : Prop := {
  to_written : forall slot, written pc = Some slot ->
    k_pdata (entry_at h slot) = snd op /\ prefix8 (k_key (entry_at h slot)) = fst op;
  to_search : forall se, search_of pc = Some se -> search_ok (fst op) se;
  to_result : forall r, result_of pc = Some r -> r = - ENOSPC \/ exists k d, r = k - 1 /\ 0 < k /\ m !! fst op = Some (k, d);
  to_take : forall n old new, pc = AddTake n old new -> take_place (S fuel) h = Ret pc;
  to_put : forall slot ret n old new, pc = AddPut slot ret n old new -> put_place (S fuel) h slot ret = Ret pc;
  to_main : forall slot, pc <> AddExt slot;
}.

(** *** An insertion as one step on the map *)
Inductive atomic_add : gmap (list Z) (Z * Z) -> list Z * Z -> Z -> gmap (list Z) (Z * Z) -> Prop :=
  | at_known m key data k d : m !! key = Some (k, d) ->
      atomic_add m (key, data) (k - 1) (<[key := (k, data)]> m)
  | at_new m key data k : m !! key = None -> 0 < k -> (forall key' d, m !! key' <> Some (k, d)) ->
      atomic_add m (key, data) (k - 1) (<[key := (k, data)]> m)
  | at_refused m op : atomic_add m op (- ENOSPC) m.

(** What one piece does: [rest] are the indices the other threads hold. *)
Record effect (h : rte_hash) (m : gmap (list Z) (Z * Z)) (op : list Z * Z) (pc : add_pc) (rest : list Z)
    (h' : rte_hash) (m' : gmap (list Z) (Z * Z)) (pc' : add_pc) : Prop := {
  ef_table : table_ok h' m' (slot_of pc' ++ rest);
  ef_thread : thread_ok h' m' op pc';
  ef_entries : forall slot, slot ∈ rest -> entry_at h' slot = entry_at h slot;
  ef_ring : free_slots h' = free_slots h \/ index_op pc = true;
  ef_wait : (length (waiting pc') + length (contents 4 (free_slots h)) <=
    length (contents 4 (free_slots h')) + length (waiting pc))%nat;
  ef_result : result_of pc' = result_of pc /\ m' = m \/
    exists r, result_of pc = None /\ result_of pc' = Some r /\ atomic_add m op r m';
}.

(** Pieces that leave the table alone. *)
Lemma effect_local h m op pc rest pc' :
  table_ok h m (slot_of pc ++ rest) -> slot_of pc' = slot_of pc -> thread_ok h m op pc' ->
  (length (waiting pc') <= length (waiting pc))%nat ->
  (result_of pc' = result_of pc \/ result_of pc = None /\ result_of pc' = Some (- ENOSPC)) ->
  effect h m op pc rest h m pc'.
Proof.
  intros Ht Hs Hto Hw Hr. split; try done; [by rewrite Hs|by left|lia|].
  destruct Hr as [?|[? ?]]; [by left|right]. exists (- ENOSPC). split; [done|]. split; [done|]. constructor.
Qed.

Definition goes (h : rte_hash) (m : gmap (list Z) (Z * Z)) (op : list Z * Z) (pc : add_pc) (rest : list Z) : Prop :=
  forall seen, exists h' m' pc', add_piece (S fuel) h (call_of op) pc seen = Ret (h', pc') /\ effect h m op pc rest h' m' pc'.

Section Effects.
Context (h : rte_hash) (m : gmap (list Z) (Z * Z)) (key : list Z) (data : Z) (rest : list Z).
Hypotheses (Hl : length key = 8%nat) (Hd : key <> dummy).

(** The key was found, under the lock: its data are replaced. *)
Lemma effect_known pc pc' own k d :
  table_ok h m own -> own ≡ₚ slot_of pc ++ rest -> m !! key = Some (k, d) ->
  slot_of pc' = slot_of pc -> result_of pc = None -> result_of pc' = Some (k - 1) -> written pc' = None ->
  search_of pc' = None -> index_op pc' = false -> (forall slot, pc' <> AddExt slot) -> (length (waiting pc') <= length (waiting pc))%nat ->
  effect h m (key, data) pc rest (with_data h k data) (<[key := (k, data)]> m) pc'.
Proof.
  intros Ht Hp Hm Hs Hr0 Hr Hw Hse Hi Hx Hwt. destruct (table_updated _ _ own key data k d Ht Hl Hd Hm) as [Ht' Hent].
  destruct (tk_ok _ _ _ Ht) as (L & Hok & Hk0 & HS & Hh).
  destruct (known_index h m own L key Ht Hok HS Hh Hl Hd k d Hm) as (_ & _ & Hpos).
  pose proof (table_reads _ _ _ L key k d Ht Hl Hd Hm HS Hh) as Hra.
  pose proof (stored_nonzero L h key (hs key) k Hok Hra) as Hne.
  pose proof (hk_stored _ _ Hok k (ra_stored _ _ _ _ _ Hra)) as [Hk _].
  split.
  - apply (table_ok_perm _ _ own); [by rewrite Hs|done].
  - split; rewrite ?Hw, ?Hse, ?Hr; try done.
    + intros r [= <-]. right. exists k, data. split; [done|]. split; [lia|]. by rewrite lookup_insert_eq.
    + by intros n old new ->.
    + by intros slot ret n old new ->.
  - intros slot Hsl. assert (Ho : slot ∈ own) by (rewrite Hp; apply elem_of_app; by right).
    destruct (tk_own _ _ _ Ht slot Ho) as (Hin & _ & Hno). apply Hent; [done|]. intros ->. by apply (Hno key d).
  - by left.
  - cbn. lia.
  - right. exists (k - 1). split; [done|]. split; [done|]. by eapply at_known.
Qed.

Lemma effect_check : table_ok h m rest -> goes h m (key, data) AddCheck rest.
Proof.
  intros Ht seen. destruct (tk_ok _ _ _ Ht) as (L & Hok & Hk0 & HS & Hh). destruct (m !! key) as [[k d]|] eqn:Hm.
  - exists (with_data h k data), (<[key := (k, data)]> m), (AddDone (k - 1)).
    split; [by apply (check_known fuel h m rest L key data Ht Hok Hk0 HS Hh Hl Hd k d)|].
    apply (effect_known _ _ rest k d); done || (cbn; lia).
  - exists h, m, AddAlloc. split; [by apply (check_absent fuel h m rest L key data Ht Hok Hk0 HS Hl Hd)|].
    apply effect_local; done || (by left) || by split.
Qed.

(** Taking an index: the loads, and the stores if the ring is as it was. *)
Lemma alloc_runs : table_ok h m rest -> contents 4 (free_slots h) <> [] ->
  exists slot free r n old new, contents 4 (free_slots h) = slot :: free /\
    take_place (S fuel) h = Ret (AddTake n old new) /\ take_index (S fuel) h n old new = Ret (set_free_slots r h, slot) /\
    ring_wf 4 r /\ plain_sync r /\ contents 4 r = free /\ r_capacity r = r_capacity (free_slots h).
Proof.
  intros Ht Hc. destruct (tk_ok _ _ _ Ht) as (L & Hok & _). destruct (hk_ring _ _ Hok) as [Hw Hs].
  pose proof (alloc_slot_cases (S fuel) h Hw Hs) as Ha. destruct (contents 4 (free_slots h)) as [|slot free] eqn:E; [done|].
  destruct Ha as (r & Ea & Hr). destruct (alloc_halves _ _ _ _ Ea) as (n & old & new & E1 & E2).
  by exists slot, free, r, n, old, new.
Qed.

Lemma effect_alloc : table_ok h m rest -> contents 4 (free_slots h) <> [] -> goes h m (key, data) AddAlloc rest.
Proof.
  intros Ht Hc seen. destruct (alloc_runs Ht Hc) as (slot & free & r & n & old & new & _ & Et & _).
  exists h, m, (AddTake n old new). split; [cbn [add_piece]; by rewrite Et|].
  apply effect_local; done || by left.
Qed.

Lemma effect_take n old new : table_ok h m rest -> contents 4 (free_slots h) <> [] ->
  take_place (S fuel) h = Ret (AddTake n old new) -> goes h m (key, data) (AddTake n old new) rest.
Proof.
  intros Ht Hc Hp seen. destruct (alloc_runs Ht Hc) as (slot & free & r & n' & old' & new' & Ec & Et & Ei & Hw & Hs & Hcr & Hcap).
  rewrite Et in Hp. injection Hp as -> -> ->. exists (set_free_slots r h), m, (AddWrite slot).
  split; [cbn [add_piece]; by rewrite Ei|].
  split; [|by split|done|by right| |by left].
  - apply (table_ring h m rest); [done..|]. rewrite Hcr, Ec. cbn. by rewrite <- Permutation_middle.
  - cbn. rewrite Hcr, Ec. cbn. lia.
Qed.

(** Writing the entry. *)
Lemma effect_write slot : table_ok h m (slot :: rest) -> goes h m (key, data) (AddWrite slot) rest.
Proof.
  intros Ht seen. destruct (table_written h m (slot :: rest) slot key data Ht ltac:(left) Hl) as (Ht' & Hat & Hoth).
  destruct (tk_ok _ _ _ Ht) as (L & Hok & _). destruct (tk_own _ _ _ Ht slot ltac:(left)) as (Hin & Hne & Hno).
  pose proof (tk_len _ _ _ Ht) as Hlen.
  destruct (write_entry h slot data key (hk_store _ _ Hok) Hin) as (W1 & W2 & W3 & W4); [lia|].
  exists (with_entry h slot data key), m, (AddInsert slot). split.
  { cbn [add_piece call_of c_key c_data fst snd]. rewrite W1. cbn [mbind outcome_bind]. rewrite W2. cbn [mbind outcome_bind].
    rewrite W3. cbn [mbind outcome_bind]. by rewrite W4. }
  split; [done| | |by left|cbn; lia|by left].
  - split; try done. intros slot' [= <-]. rewrite Hat. split; [done|]. by apply prefix8_new.
  - intros slot' Hs. destruct (tk_own _ _ _ Ht slot' ltac:(by right)) as (Hi' & _). apply Hoth; [done|]. intros ->.
    pose proof (tk_spare _ _ _ Ht) as Hnd. apply NoDup_app in Hnd as (_ & _ & Hnd). by apply NoDup_cons in Hnd as [? _].
Qed.

(** *** A thread that holds [slot], whose entry it has written *)
Section Holding.
Context (slot : Z).
Hypothesis Ht : table_ok h m (slot :: rest).

Lemma held : in_store h slot /\ slot <> 0 /\ (forall key d, m !! key <> Some (slot, d)) /\ ~ (slot ∈ rest).
Proof.
  destruct (tk_own _ _ _ Ht slot ltac:(left)) as (? & ? & ?). do 3 (split; [done|]).
  pose proof (tk_spare _ _ _ Ht) as Hnd. apply NoDup_app in Hnd as (_ & _ & Hnd). by apply NoDup_cons in Hnd as [? _].
Qed.

Lemma effect_stored pc L B c :
  hash_ok L h -> ly_bits L = k0 -> (forall k, stored_in L k <-> exists key d, m !! key = Some (k, d)) ->
  (forall key k d, m !! key = Some (k, d) -> ly_hash L k = hs key) -> m !! key = None ->
  thread_ok h m (key, data) pc -> slot_of pc = [slot] -> written pc = Some slot -> result_of pc = None ->
  inserted k0 (first_ext L) (ly_hash L) (ly_main L) (hs key) slot B ->
  effect h m (key, data) pc rest (st h B c (h_lock h)) (<[key := (slot, data)]> m) (AddDone (slot - 1)).
Proof.
  intros Hok Hk0 HS Hh Hm Hto Hs Hw Hr HB. destruct (to_written _ _ _ _ Hto slot Hw) as [He1 He2]. cbn [fst snd] in He1, He2.
  destruct held as (Hin & Hne & Hno & _). assert (0 < slot) by (unfold in_store in Hin; lia).
  split; [by apply (table_stored h m rest slot L)| |done|by left|cbn; lia|].
  - split; try done. intros r [= <-]. right. exists slot, data. split; [done|]. split; [done|]. by rewrite lookup_insert_eq.
  - right. exists (slot - 1). split; [done|]. split; [done|]. by apply at_new.
Qed.

(** A thread that goes on with its search. *)
Lemma thread_search h' m' pc : (forall k, written pc = Some k -> k = slot) ->
  k_pdata (entry_at h' slot) = data -> prefix8 (k_key (entry_at h' slot)) = key ->
  (forall se, search_of pc = Some se -> search_ok key se) -> result_of pc = None -> index_op pc = false ->
  (forall slot, pc <> AddExt slot) -> thread_ok h' m' (key, data) pc.
Proof.
  intros Hw He1 He2 Hse Hr Hi Hx. split; rewrite ?Hr; try done.
  - by intros k ->%Hw.
  - by intros n old new ->.
  - by intros s r n old new ->.
Qed.

Lemma effect_insert : thread_ok h m (key, data) (AddInsert slot) -> goes h m (key, data) (AddInsert slot) rest.
Proof.
  intros Hto seen. destruct (tk_ok _ _ _ Ht) as (L & Hok & Hk0 & HS & Hh). destruct held as (Hin & Hne & Hno & _).
  destruct (to_written _ _ _ _ Hto slot eq_refl) as [He1 He2].
  destruct (m !! key) as [[k d]|] eqn:Hm.
  - exists (with_data h k data), (<[key := (k, data)]> m), (AddGive slot (k - 1)).
    split; [by apply (insert_known fuel h m _ L key data Ht Hok Hk0 HS Hh Hl Hd k d)|].
    apply (effect_known _ _ (slot :: rest) k d); done || (cbn; lia).
  - assert (HnS : ~ stored_in L slot) by (intros (key' & d & Hk)%HS; by apply (Hno key' d)).
    destruct (insert_absent fuel h m _ L key data Ht Hok Hk0 HS Hl Hd Hm slot Hne HnS Hin seen) as [(B & c & E & HB)|E].
    + exists (st h B c (h_lock h)), (<[key := (slot, data)]> m), (AddDone (slot - 1)). split; [exact E|]. by apply (effect_stored _ L).
    + eexists h, m, _. split; [exact E|]. apply effect_local; try done; [|by left].
      apply thread_search; try done; [by intros k [= ->]|]. intros se [= <-].
      split; [|cbn; lia]. intros j node [-> <-]%list_lookup_singleton_Some. split; [done|].
      split; [|done]. rewrite <- Hk0. apply two_buckets, (hk_size _ _ Hok).
Qed.

Lemma effect_look se : thread_ok h m (key, data) (AddLook slot se) -> goes h m (key, data) (AddLook slot se) rest.
Proof.
  intros Hto seen. destruct (tk_ok _ _ _ Ht) as (L & Hok & Hk0 & _).
  pose proof (to_search _ _ _ _ Hto se eq_refl) as Hse. destruct (to_written _ _ _ _ Hto slot eq_refl) as [He1 He2].
  destruct (search_start h L key Hl se Hse) as (node & Hnode & _ & _ & _ & Hacc).
  destruct (hk_table _ _ Hok) as [HB _]. rewrite Hk0 in HB.
  destruct (Hacc (buckets h) (tbl_chng_cnt h) (h_lock h) HB) as [Hgi _]. rewrite st_same in Hgi.
  exists h, m, (if seen =? EMPTY_SLOT then AddMove slot se else AddPush slot se). split.
  { cbn [add_piece]. rewrite Hnode. cbn [mbind outcome_bind]. by rewrite Hgi. }
  destruct (seen =? EMPTY_SLOT); apply effect_local; try done; try (by left);
    apply thread_search; try done; by intros ? [= <-].
Qed.

Lemma effect_move se : thread_ok h m (key, data) (AddMove slot se) -> goes h m (key, data) (AddMove slot se) rest.
Proof.
  intros Hto seen. destruct (tk_ok _ _ _ Ht) as (L & Hok & Hk0 & HS & Hh). destruct held as (Hin & Hne & Hno & _).
  pose proof (to_search _ _ _ _ Hto se eq_refl) as Hse. destruct (to_written _ _ _ _ Hto slot eq_refl) as [He1 He2].
  assert (Hpush : forall B c, thread_ok (st h B c (h_lock h)) m (key, data) (AddPush slot se))
    by (intros B c; apply thread_search; try done; by intros ? [= <-]).
  destruct (m !! key) as [[k d]|] eqn:Hm.
  - destruct (move_known fuel h m _ L key data Ht Hok Hk0 HS Hh Hl Hd k d Hm slot se seen Hse) as [E|E].
    + exists (with_data h k data), (<[key := (k, data)]> m), (AddGive slot (k - 1)). split; [exact E|].
      apply (effect_known _ _ (slot :: rest) k d); done || (cbn; lia).
    + exists h, m, (AddPush slot se). split; [exact E|]. apply effect_local; try done; [|by left].
      specialize (Hpush (buckets h) (tbl_chng_cnt h)). by rewrite st_same in Hpush.
  - assert (HnS : ~ stored_in L slot) by (intros (key' & d & Hk)%HS; by apply (Hno key' d)).
    destruct (move_absent fuel h m _ L key data Ht Hok Hk0 HS Hl Hd Hm slot Hne HnS Hin se seen Hse)
      as [(B & c & E & HB)|(B & c & E & HB)].
    + exists (st h B c (h_lock h)), (<[key := (slot, data)]> m), (AddDone (slot - 1)). split; [exact E|]. by apply (effect_stored _ L).
    + exists (st h B c (h_lock h)), m, (AddPush slot se). split; [exact E|].
      split; [by apply (table_moved h m _ L)|apply Hpush|done|by left|cbn; lia|by left].
Qed.

(** The node of the slot just read is appended, and the search goes to the next slot, to the
    next node, to the other bucket, or gives up. *)
Lemma effect_push se : thread_ok h m (key, data) (AddPush slot se) -> goes h m (key, data) (AddPush slot se) rest.
Proof.
  intros Hto seen. destruct (tk_ok _ _ _ Ht) as (L & Hok & Hk0 & _).
  pose proof (to_search _ _ _ _ Hto se eq_refl) as Hse. destruct (to_written _ _ _ _ Hto slot eq_refl) as [He1 He2].
  destruct (search_start h L key Hl se Hse) as (node & Hnode & _ & _ & Hin & Hacc).
  destruct (hk_table _ _ Hok) as [HB _]. rewrite Hk0 in HB.
  destruct (Hacc (buckets h) (tbl_chng_cnt h) (h_lock h) HB) as [_ Hgs]. rewrite st_same in Hgs.
  pose proof Hse as (Hq & Htl & Hi & Hlen). set (alt := get_alt_bucket_index h (n_cur_bkt_idx node) seen).
  set (queue := se_queue se ++ [Node (Main alt) alt (Some (se_tail se)) (se_i se)]).
  assert (Hk0' : 0 <= k0) by (rewrite <- Hk0; apply (hk_size _ _ Hok)).
  assert (Hql : Z.of_nat (length queue) = Z.of_nat (length (se_queue se)) + 1) by (unfold queue; rewrite length_app; cbn; lia).
  assert (Hqo : queue_ok k0 (if se_second se then alt_of (2 ^ k0 - 1) (prim_of (2 ^ k0 - 1) (hs key)) (get_short_sig (hs key))
      else prim_of (2 ^ k0 - 1) (hs key)) queue).
  { apply (queue_ok_snoc k0 h key data Hk0' ltac:(lia)); [exact Hq|]. split; [done|]. split; [|cbn; lia].
    cbn. unfold alt, get_alt_bucket_index. rewrite (hk_mask _ _ Hok), Hk0. by apply mask_range. }
  assert (Hrun : add_piece (S fuel) h (call_of (key, data)) (AddPush slot se) seen =
    Ret (h, search_next h (call_of (key, data)) slot (Search (se_second se) queue (se_tail se) (se_i se)))).
  { cbn [add_piece]. rewrite Hnode. cbn [mbind outcome_bind]. rewrite Hgs. cbn [mbind outcome_bind].
    rewrite (proj2 (Z.ltb_lt _ _)); [done|]. change RTE_HASH_BFS_QUEUE_MAX_LEN with 1000. lia. }
  exists h, m, (search_next h (call_of (key, data)) slot (Search (se_second se) queue (se_tail se) (se_i se))). split; [exact Hrun|].
  assert (Hlook : forall se', search_ok key se' -> effect h m (key, data) (AddPush slot se) rest h m (AddLook slot se')).
  { intros se' Hse'. apply effect_local; try done; [|by left]. apply thread_search; try done; by intros ? [= <-]. }
  unfold search_next. cbn [se_i se_queue se_tail se_second]. change RTE_HASH_BUCKET_ENTRIES with 8.
  destruct (Z.ltb_spec (se_i se + 1) 8); [apply Hlook; split; [exact Hqo|cbn; lia]|].
  destruct (search_on queue (se_tail se + 1)) eqn:Hon.
  - unfold search_on in Hon. apply andb_prop in Hon as [_ Hon]. apply Z.ltb_lt in Hon.
    change (RTE_HASH_BFS_QUEUE_MAX_LEN - RTE_HASH_BUCKET_ENTRIES) with 992 in Hon.
    apply Hlook. split; [exact Hqo|cbn; lia].
  - unfold search_failed. rewrite (tk_ext _ _ _ Ht). destruct (se_second se); cbn [negb].
    + apply effect_local; try done; [|by right]. split; try done. intros r [= <-]. by left.
    + apply Hlook. split; [|cbn; lia]. cbn [se_second se_queue].
      intros j nd [-> <-]%list_lookup_singleton_Some. split; [done|]. split; [|done].
      apply (two_buckets k0 (hs key) Hk0').
Qed.

(** Giving an index back. *)
Lemma give_runs ret :
  exists r n old new, put_place (S fuel) h slot ret = Ret (AddPut slot ret n old new) /\
    put_index (S fuel) h slot n old new = Ret (set_free_slots r h) /\
    ring_wf 4 r /\ plain_sync r /\ contents 4 r = contents 4 (free_slots h) ++ [slot] /\ r_capacity r = r_capacity (free_slots h).
Proof.
  destruct (tk_ok _ _ _ Ht) as (L & Hok & _). destruct (hk_ring _ _ Hok) as [Hw Hs].
  pose proof (tk_room _ _ _ Ht) as Hr. rewrite length_app in Hr. cbn in Hr.
  destruct (enqueue_word (S fuel) (free_slots h) slot Hw Hs) as (r & E & Hrest); [lia|].
  assert (Eg : enqueue_slot_back (S fuel) h slot = Ret (set_free_slots r h)) by (unfold enqueue_slot_back; by rewrite E).
  destruct (give_halves _ _ _ _ ret Eg) as (n & old & new & E1 & E2). by exists r, n, old, new.
Qed.

Lemma effect_give ret : thread_ok h m (key, data) (AddGive slot ret) -> goes h m (key, data) (AddGive slot ret) rest.
Proof.
  intros Hto seen. destruct (give_runs ret) as (r & n & old & new & Ep & _).
  exists h, m, (AddPut slot ret n old new). split; [cbn [add_piece]; by rewrite Ep|].
  apply effect_local; try done; [|by left]. split; try done; [apply (to_result _ _ _ _ Hto)|].
  intros slot' ret' n' old' new' [= <- <- <- <- <-]. exact Ep.
Qed.

Lemma effect_put ret n old new : thread_ok h m (key, data) (AddPut slot ret n old new) ->
  goes h m (key, data) (AddPut slot ret n old new) rest.
Proof.
  intros Hto seen. destruct (give_runs ret) as (r & n' & old' & new' & Ep & Ei & Hw & Hs & Hc & Hcap).
  pose proof (to_put _ _ _ _ Hto slot ret n old new eq_refl) as Ep'. rewrite Ep in Ep'. injection Ep' as -> -> ->.
  exists (set_free_slots r h), m, (AddDone ret). split; [cbn [add_piece]; by rewrite Ei|].
  split; [|by split; try done; apply (to_result _ _ _ _ Hto)|done|by right|cbn; rewrite Hc, length_app; cbn; lia|by left].
  apply (table_ring h m (slot :: rest)); [done..|]. rewrite Hc. cbn. by rewrite <- app_assoc.
Qed.
End Holding.
End Effects.

(** Every thread that is not done can go on, whatever its load reads, and what it does is
    one of the effects. *)
Lemma thread_goes h m op pc rest :
  length (fst op) = 8%nat -> fst op <> dummy -> table_ok h m (slot_of pc ++ rest) -> thread_ok h m op pc ->
  (waiting pc <> [] -> contents 4 (free_slots h) <> []) -> add_done pc = false -> goes h m op pc rest.
Proof.
  intros Hl Hd Ht Hto Hw Hpc. destruct op as [key data]. cbn [fst] in Hl, Hd. destruct pc; cbn [slot_of app] in Ht.
  - by apply effect_check.
  - apply effect_alloc; try done. by apply Hw.
  - apply effect_take; try done; [by apply Hw|by eapply to_take].
  - by apply effect_write.
  - by apply effect_insert.
  - by apply effect_look.
  - by apply effect_move.
  - by apply effect_push.
  - by destruct (to_main _ _ _ _ Hto slot).
  - by apply effect_give.
  - by apply effect_put.
  - done.
Qed.
End Shared.
