(* ===== verification/CuckooLin.v ===== *)
(** * Several threads inserting: linearization, termination, and a race

    When no two threads are within an operation on the ring of free indices at once,
    concurrent insertions into a table without extendable buckets act as if each happened at
    one moment ([concurrent_adds_linearize]), and they end ([concurrent_adds_end]). The code
    does not ensure the condition, and without it two keys can get the same index
    ([writers_race_for_index]). *)

From stdpp Require Import gmap.
From S2P Require Import Prelude Common Atomic RingCore RingCopy RingElem RingSpec.
From S2P Require Import Locks Cuckoo CuckooSpec CuckooExt CuckooTable CuckooMap CuckooProps CuckooConc CuckooConcSpec.

Open Scope Z_scope.

(** ** The threads together *)

(** Insertions [ops], one thread each: [hist] lists those that have taken effect, in order,
    with the value each returns. *)
Inductive atomic_adds (ops : list (list Z * Z)) : gmap (list Z) (Z * Z) -> list (nat * Z) -> gmap (list Z) (Z * Z) -> Prop :=
  | adds_nil m : atomic_adds ops m [] m
  | adds_cons m i op r m1 hist m2 : ops !! i = Some op -> atomic_add m op r m1 -> atomic_adds ops m1 hist m2 ->
      atomic_adds ops m ((i, r) :: hist) m2.

Lemma atomic_adds_app ops m hist m1 more m2 :
  atomic_adds ops m hist m1 -> atomic_adds ops m1 more m2 -> atomic_adds ops m (hist ++ more) m2.
Proof. induction 1; [done|]. intros. econstructor; eauto. Qed.

Lemma atomic_add_keeps m op r m' key k d :
  atomic_add m op r m' -> m !! key = Some (k, d) -> exists d', m' !! key = Some (k, d').
Proof.
  intros [m1 key' data k' d0 Hm|m1 key' data k' Hm _ _|m1 op1] Hk; [| |by exists d].
  - destruct (decide (key' = key)) as [->|]; [exists data; rewrite lookup_insert_eq; congruence|].
    exists d. by rewrite lookup_insert_ne.
  - exists d. rewrite lookup_insert_ne; [done|congruence].
Qed.

Section Threads.
Context (k0 init : Z) (hs : list Z -> Z) (dummy : list Z) (fuel : nat) (ops : list (list Z * Z)).
Hypothesis Hops : forall i op, ops !! i = Some op -> key_ok dummy (fst op).
Let calls := call_of k0 hs <$> ops.
Let table_ok := table_ok k0 init hs dummy.

Record conc_inv (s : add_sys) (m : gmap (list Z) (Z * Z)) (hist : list (nat * Z)) : Prop := {
  cv_table : table_ok (ay_h s) m (all_owned slot_of (ay_pcs s));
  cv_len : length (ay_pcs s) = length ops;
  cv_threads : forall i op pc, ops !! i = Some op -> ay_pcs s !! i = Some pc -> thread_ok k0 hs fuel (ay_h s) m op pc;
  cv_wait : (length (all_owned waiting (ay_pcs s)) <= length (contents 4 (free_slots (ay_h s))))%nat;
  cv_one : one_index_op s;
  cv_hist : forall i r, (i, r) ∈ hist <-> exists pc, ay_pcs s !! i = Some pc /\ result_of pc = Some r;
  cv_once : NoDup hist.*1;
}.

Lemma place_same h h' : free_slots h' = free_slots h ->
  take_place (S fuel) h' = take_place (S fuel) h /\ forall slot ret, put_place (S fuel) h' slot ret = put_place (S fuel) h slot ret.
Proof. intros E. unfold take_place, put_place. by rewrite E. Qed.

(** What another thread knows survives. *)
Lemma thread_kept h m op pc rest h' m' pc' op' q :
  effect k0 init hs dummy fuel h m op pc rest h' m' pc' -> thread_ok k0 hs fuel h m op' q ->
  (forall slot, slot ∈ slot_of q -> slot ∈ rest) -> (index_op pc = true -> index_op q = false) ->
  thread_ok k0 hs fuel h' m' op' q.
Proof.
  intros He [H1 H2 H3 H4 H5 H6] Hs Hi.
  assert (Hr : index_op q = true -> free_slots h' = free_slots h).
  { intros Hq. destruct (ef_ring _ _ _ _ _ _ _ _ _ _ _ _ _ He) as [?|Hp]; [done|]. by rewrite (Hi Hp) in Hq. }
  split; try done.
  - intros slot Hw. assert (Hsl : slot ∈ rest) by (apply Hs; destruct q; try discriminate Hw; injection Hw as ->; left).
    rewrite (ef_entries _ _ _ _ _ _ _ _ _ _ _ _ _ He slot Hsl). by apply H1.
  - intros r Hres. destruct (H3 r Hres) as [?|(k & d & -> & Hk & Hm)]; [by left|right].
    destruct (ef_result _ _ _ _ _ _ _ _ _ _ _ _ _ He) as [[_ ->]|(r' & _ & _ & Ha)]; [by exists k, d|].
    destruct (atomic_add_keeps _ _ _ _ _ _ _ Ha Hm) as [d' ?]. by exists k, d'.
  - intros n old new ->. destruct (place_same h h' (Hr eq_refl)) as [-> _]. by apply (H4 n old new).
  - intros slot ret n old new ->. destruct (place_same h h' (Hr eq_refl)) as [_ ->]. by apply (H5 slot ret n old new).
Qed.

Lemma waiting_left s m hist i pc : conc_inv s m hist -> ay_pcs s !! i = Some pc ->
  waiting pc <> [] -> contents 4 (free_slots (ay_h s)) <> [].
Proof.
  intros Hc Hi Hw E. pose proof (cv_wait _ _ _ Hc) as Hl. rewrite E in Hl.
  destruct (owned_split waiting _ _ _ Hi) as (rest & Hp & _). rewrite Hp, length_app in Hl. destruct (waiting pc); [done|cbn in Hl; lia].
Qed.

(** A thread that is not done goes on. *)
Lemma inv_goes s m hist i op pc : conc_inv s m hist -> ops !! i = Some op -> ay_pcs s !! i = Some pc -> add_done pc = false ->
  exists rest, all_owned slot_of (ay_pcs s) ≡ₚ slot_of pc ++ rest /\
    (forall p', all_owned slot_of (<[i := p']> (ay_pcs s)) ≡ₚ slot_of p' ++ rest) /\
    (forall j q x, j <> i -> ay_pcs s !! j = Some q -> x ∈ slot_of q -> x ∈ rest) /\
    goes k0 init hs dummy fuel (ay_h s) m op pc rest.
Proof.
  intros Hc Ho Hi Hd. destruct (owned_split slot_of _ _ _ Hi) as (rest & Hp & Hins & Hoth). exists rest. do 3 (split; [done|]).
  destruct (Hops i op Ho) as [Hl Hk]. apply thread_goes; try done.
  - eapply table_ok_perm; [exact Hp|apply (cv_table _ _ _ Hc)].
  - by eapply cv_threads.
  - intros Hw. by eapply waiting_left.
Qed.

Lemma hist_extended (pcs : list add_pc) (hist : list (nat * Z)) i pc pc' : pcs !! i = Some pc ->
  (forall j r, (j, r) ∈ hist <-> exists p, pcs !! j = Some p /\ result_of p = Some r) ->
  forall more, (result_of pc' = result_of pc /\ more = [] \/
     exists r, result_of pc = None /\ result_of pc' = Some r /\ more = [(i, r)]) ->
  forall j r, (j, r) ∈ hist ++ more <-> exists p, <[i := pc']> pcs !! j = Some p /\ result_of p = Some r.
Proof.
  intros Hi Hh more Hm j r. pose proof (lookup_lt_Some _ _ _ Hi) as Hlt. rewrite elem_of_app, Hh.
  destruct (decide (j = i)) as [->|Hne].
  - rewrite list_lookup_insert_eq by done. destruct Hm as [[E ->]|(r' & E1 & E2 & ->)].
    + rewrite elem_of_nil. split.
      * intros [(p & Hp & Hr)|[]]. exists pc'. split; [done|]. rewrite E. congruence.
      * intros (p & [= <-] & Hr). left. exists pc. split; [done|congruence].
    + rewrite list_elem_of_singleton. split.
      * intros [(p & Hp & Hr)|[= ->]]; [congruence|]. by exists pc'.
      * intros (p & [= <-] & Hr). right. congruence.
  - rewrite list_lookup_insert_ne by done. split.
    + intros [?|Hin]; [done|]. destruct Hm as [[_ ->]|(r' & _ & _ & ->)]; [by apply elem_of_nil in Hin|].
      apply list_elem_of_singleton in Hin. congruence.
    + by left.
Qed.

(** *** One step *)
Lemma step_inv s m hist s' : conc_inv s m hist -> exclusive_step (S fuel) calls s s' ->
  exists m' more, conc_inv s' m' (hist ++ more) /\ atomic_adds ops m more m'.
Proof.
  intros Hc [Hst Hone]. destruct Hst as [i c pc seen h h' pc' pcs _ Hci Hi Hrun].
  unfold calls in Hci. apply list_lookup_fmap_Some in Hci as (op & -> & Ho).
  assert (Hd : add_done pc = false) by (destruct pc; try done; discriminate Hrun).
  destruct (inv_goes _ _ _ i op pc Hc Ho Hi Hd) as (rest & Hp & Hins & Hoth & Hgo).
  destruct (Hgo seen) as (h2 & m' & pc2 & Hrun2 & He). cbn [ay_h ay_pcs] in *. rewrite Hrun in Hrun2. injection Hrun2 as <- <-.
  assert (Hmore : exists more, atomic_adds ops m more m' /\
    (result_of pc' = result_of pc /\ more = [] \/ exists r, result_of pc = None /\ result_of pc' = Some r /\ more = [(i, r)])).
  { destruct (ef_result _ _ _ _ _ _ _ _ _ _ _ _ _ He) as [[E ->]|(r & E1 & E2 & Ha)].
    - exists []. split; [constructor|by left].
    - exists [(i, r)]. split; [by econstructor; [|exact Ha|constructor]|right]. by exists r. }
  destruct Hmore as (more & Hadds & Hmore). exists m', more. split; [|done].
  pose proof Hc as [Ht Hlen Hth Hw H1 Hh Hn]. cbn [ay_h ay_pcs] in *. split; cbn [ay_h ay_pcs].
  - eapply table_ok_perm; [symmetry; apply Hins|apply (ef_table _ _ _ _ _ _ _ _ _ _ _ _ _ He)].
  - by rewrite length_insert.
  - intros j op' q Hj Hq. apply list_lookup_insert_Some in Hq as [(<- & <- & _)|[Hne Hq]].
    + assert (op' = op) as -> by congruence. apply (ef_thread _ _ _ _ _ _ _ _ _ _ _ _ _ He).
    + eapply thread_kept; [exact He|by eapply Hth| |].
      * intros slot Hs. by eapply (Hoth j).
      * intros Hpc. destruct (index_op q) eqn:Eq; [|done]. destruct Hne. by eapply (H1 i j).
  - destruct (owned_split waiting _ _ _ Hi) as (wr & Hwp & Hwi & _). rewrite Hwi, length_app. rewrite Hwp, length_app in Hw.
    pose proof (ef_wait _ _ _ _ _ _ _ _ _ _ _ _ _ He). lia.
  - exact Hone.
  - by eapply hist_extended.
  - destruct Hmore as [[_ ->]|(r & E1 & _ & ->)]; [by rewrite app_nil_r|].
    rewrite fmap_app. apply NoDup_app. split; [done|]. split; [|apply NoDup_singleton].
    intros j Hj Hji. apply list_elem_of_singleton in Hji. cbn in Hji. subst j.
    apply list_elem_of_fmap in Hj as ([j r'] & E & Hj). cbn in E. subst j.
    apply Hh in Hj as (p & Hp' & Hr). congruence.
Qed.

Lemma run_inv s m hist s' : conc_inv s m hist -> rtc (exclusive_step (S fuel) calls) s s' ->
  exists m' more, conc_inv s' m' (hist ++ more) /\ atomic_adds ops m more m'.
Proof.
  intros Hc Hr. revert m hist Hc. induction Hr as [s|s s1 s' Hs _ IH]; intros m hist Hc.
  - exists m, []. rewrite app_nil_r. split; [done|constructor].
  - destruct (step_inv _ _ _ _ Hc Hs) as (m1 & more1 & Hc1 & Ha1).
    destruct (IH _ _ Hc1) as (m' & more & Hc' & Ha). exists m', (more1 ++ more).
    rewrite app_assoc. split; [done|]. by eapply atomic_adds_app.
Qed.

(** *** The start *)
Lemma all_owned_nil {X : Type} (f : add_pc -> list X) pc n : f pc = [] -> all_owned f (repeat pc n) = [].
Proof. intros Hf. unfold all_owned. induction n as [|n IH]; [done|]. cbn. by rewrite Hf. Qed.

Lemma all_owned_one {X : Type} (f : add_pc -> list X) pc x n : f pc = [x] -> length (all_owned f (repeat pc n)) = n.
Proof. intros Hf. unfold all_owned. induction n as [|n IH]; [done|]. cbn. rewrite Hf. cbn. by rewrite IH. Qed.

Lemma adds_start_inv h m : table_ok h m [] -> (length ops <= length (contents 4 (free_slots h)))%nat ->
  conc_inv (AddSys h (repeat AddCheck (length ops))) m [].
Proof.
  intros Ht Hl. assert (Hall : forall i pc, repeat AddCheck (length ops) !! i = Some pc -> pc = AddCheck).
  { intros i pc Hi. apply list_elem_of_lookup_2, list_elem_of_In in Hi. by apply repeat_spec in Hi. }
  split; cbn [ay_h ay_pcs].
  - by rewrite all_owned_nil.
  - apply repeat_length.
  - intros i op pc _ ->%Hall. by split.
  - by rewrite (all_owned_one waiting AddCheck tt).
  - intros i j p q ->%Hall _ [=].
  - intros i r. rewrite elem_of_nil. split; [done|]. intros (pc & ->%Hall & [=]).
  - constructor.
Qed.
End Threads.

(** ** For the caller *)

(** One thread for each key and its data. *)
Definition insertions (hash_func : list Z -> Z -> Z -> Z) (h : rte_hash) (ops : list (list Z * Z)) : list add_call :=
  (fun op => begin_add h (fst op) (rte_hash_hash hash_func h (fst op)) (snd op)) <$> ops.
Definition start (h : rte_hash) (ops : list (list Z * Z)) : add_sys := AddSys h (repeat AddCheck (length ops)).

(** A state in which the insertions of [hist] have taken effect and made the map [m]. *)
Record linearized (fuel : nat) (hash_func : list Z -> Z -> Z -> Z) (dummy : list Z) (h0 : rte_hash)
    (ops : list (list Z * Z)) (s : add_sys) (m : gmap (list Z) (Z * Z)) (hist : list (nat * Z)) : Prop := {
  li_once : NoDup hist.*1;
  li_results : forall i r, (i, r) ∈ hist <-> exists pc, ay_pcs s !! i = Some pc /\ result_of pc = Some r;
  li_defined : forall i c pc seen, insertions hash_func h0 ops !! i = Some c -> ay_pcs s !! i = Some pc -> add_done pc = false ->
    exists h' pc', add_piece fuel (ay_h s) c pc seen = Ret (h', pc');
  li_positions : forall i j op1 op2 r1 r2, ops !! i = Some op1 -> ops !! j = Some op2 ->
    (i, r1) ∈ hist -> (j, r2) ∈ hist -> 0 <= r1 -> 0 <= r2 -> (r1 = r2 <-> fst op1 = fst op2);
  li_final : Forall (fun pc => add_done pc = true) (ay_pcs s) ->
    exists free, represents hash_func dummy (ay_h s) (Idx m free None);
}.

Section Caller.
Context (fuel : nat) (hash_func : list Z -> Z -> Z -> Z) (dummy : list Z) (h0 : rte_hash) (I : index) (ops : list (list Z * Z)).
Hypothesis Hrep : represents hash_func dummy h0 I.
Hypotheses (Hext : ext_table_support h0 = false) (Hlock : writer_takes_lock h0 = true).
Hypothesis Hops : Forall (fun op => key_ok dummy (fst op)) ops.
Hypothesis Hfree : (length ops <= length (ix_free I))%nat.
Let hs := rte_hash_hash hash_func h0.
Let init := hash_func_init_val h0.

Lemma op_ok i op : ops !! i = Some op -> key_ok dummy (fst op).
Proof. intros Hi. rewrite Forall_lookup in Hops. by apply (Hops i). Qed.

Lemma shared_start : exists k0, bucket_bitmask h0 = 2 ^ k0 - 1 /\ table_ok k0 init hs dummy h0 (ix_map I) [].
Proof.
  destruct Hrep as [(L & Hok & HS & Hh) Hlen Hf _ Hdum Hent]. exists (ly_bits L). split; [apply (hk_mask _ _ Hok)|].
  destruct (hk_free _ _ Hok) as [Hn _]. destruct (hk_ring _ _ Hok) as [Hw _].
  split; try done; rewrite ?app_nil_r; try done.
  - exists L. done.
  - by intros k ?%elem_of_nil.
  - pose proof (contents_length _ _ Hw) as Hl. pose proof (rw_used _ _ Hw). change (4 / 4) with 1 in Hl. lia.
Qed.

Lemma insertions_calls k0 : bucket_bitmask h0 = 2 ^ k0 - 1 -> insertions hash_func h0 ops = call_of k0 hs <$> ops.
Proof. intros Hm. apply list_fmap_ext. intros i [key data] _. by apply begin_add_call. Qed.

Lemma start_linear k0 : table_ok k0 init hs dummy h0 (ix_map I) [] ->
  conc_inv k0 init hs dummy fuel ops (start h0 ops) (ix_map I) [].
Proof. intros Ht. apply adds_start_inv; [done|]. by rewrite (rp_free _ _ _ _ Hrep). Qed.

Lemma shared_final k0 h m : table_ok k0 init hs dummy h m [] -> represents hash_func dummy h (Idx m (contents 4 (free_slots h)) None).
Proof.
  intros [(L & Hok & Hk0 & HS & Hh) Hx Hlk Hlen Hini Hdum Hent _ _ _].
  assert (Hhash : forall key, rte_hash_hash hash_func h key = hs key).
  { intros key. unfold hs, rte_hash_hash. by rewrite Hlen, Hini, (rp_len _ _ _ _ Hrep). }
  split; try done; cbn [ix_map ix_free ix_ext].
  - exists L. split; [done|]. split; [done|]. intros key k d Hm. rewrite Hhash. by eapply Hh.
  - unfold ext_left. by rewrite Hx.
Qed.

Lemma inv_linearized k0 s m hist : bucket_bitmask h0 = 2 ^ k0 - 1 -> conc_inv k0 init hs dummy fuel ops s m hist ->
  linearized (S fuel) hash_func dummy h0 ops s m hist.
Proof.
  intros Hm Hc. pose proof Hc as [Ht Hlen Hth Hw H1 Hh Hn]. split; try done.
  - intros i c pc seen Hci Hi Hd. rewrite (insertions_calls k0 Hm) in Hci.
    apply list_lookup_fmap_Some in Hci as (op & -> & Ho).
    destruct (inv_goes k0 init hs dummy fuel ops op_ok s m hist i op pc Hc Ho Hi Hd) as (rest & _ & _ & _ & Hgo).
    destruct (Hgo seen) as (h' & m' & pc' & E & _). by exists h', pc'.
  - assert (Hres : forall i op r, ops !! i = Some op -> (i, r) ∈ hist -> 0 <= r -> exists d, m !! fst op = Some (r + 1, d)).
    { intros i op r Ho (pc & Hi & Hr)%Hh H0. destruct (to_result _ _ _ _ _ _ _ (Hth i op pc Ho Hi) r Hr) as [->|(k & d & -> & _ & Hk)].
      - by vm_compute in H0.
      - exists d. by replace (k - 1 + 1) with k by lia. }
    intros i j op1 op2 r1 r2 Ho1 Ho2 Hi Hj Hr1 Hr2.
    destruct (Hres i op1 r1 Ho1 Hi Hr1) as [d1 E1]. destruct (Hres j op2 r2 Ho2 Hj Hr2) as [d2 E2]. split.
    + intros ->. by eapply (entry_distinct k0 init hs dummy).
    + intros E. rewrite E, E2 in E1. injection E1 as E1 _. lia.
  - intros Hall. exists (contents 4 (free_slots (ay_h s))). apply (shared_final k0).
    assert (E : all_owned slot_of (ay_pcs s) = []).
    { unfold all_owned. clear -Hall. induction Hall as [|pc pcs Hpc _ IH]; [done|]. cbn. rewrite IH. by destruct pc. }
    by rewrite <- E.
Qed.

Lemma run_linearized k0 s m hist s' : bucket_bitmask h0 = 2 ^ k0 - 1 -> conc_inv k0 init hs dummy fuel ops s m hist ->
  rtc (exclusive_step (S fuel) (insertions hash_func h0 ops)) s s' ->
  exists m' more, conc_inv k0 init hs dummy fuel ops s' m' (hist ++ more) /\ atomic_adds ops m more m'.
Proof. intros Hm Hc Hr. rewrite (insertions_calls k0 Hm) in Hr. by apply (run_inv k0 init hs dummy fuel ops op_ok s m hist s'). Qed.
End Caller.

(** C5: concurrent insertions linearize: let each of several threads insert one eight-byte key
    into a table that is made for several writers and has no extendable buckets, in any
    interleaving in which no two threads are within an operation on the ring of free indices at
    once, whatever the unlocked loads of the searches read; let there be at least as many free
    indices as insertions (with none left the code goes on with the reserved index 0 and
    overwrites its entry: [add_without_free_slot]), and let no key consist of the bytes of the
    reserved entry (with which the code compares empty slots too). Then no access is undefined, and
    the insertions take effect one after the other, each at a moment of its own execution
    ([hist] only grows at its end): a key that is there keeps its index and gets the new data,
    a new key gets an index that no key has, and an insertion refused because no way to an empty
    slot was found changes nothing. What each
    insertion returns is what it returns in that order, accepted insertions return the same
    position exactly when their keys are equal, and when all have returned the table
    represents the resulting map. *)
Theorem concurrent_adds_linearize fuel hash_func dummy h I ops s :
  represents hash_func dummy h I -> ext_table_support h = false -> writer_takes_lock h = true ->
  Forall (fun op => key_ok dummy (fst op)) ops -> (length ops <= length (ix_free I))%nat ->
  rtc (exclusive_step (S fuel) (insertions hash_func h ops)) (start h ops) s ->
  exists m hist, atomic_adds ops (ix_map I) hist m /\ linearized (S fuel) hash_func dummy h ops s m hist /\
    forall s', rtc (exclusive_step (S fuel) (insertions hash_func h ops)) s s' ->
      exists m' more, atomic_adds ops m more m' /\ linearized (S fuel) hash_func dummy h ops s' m' (hist ++ more).
Proof.
  intros Hrep Hx Hlk Hops Hf Hr. destruct (shared_start hash_func dummy h I ops Hrep Hx Hlk Hf) as (k0 & Hm & Ht).
  pose proof (start_linear fuel hash_func dummy h I ops Hrep Hf k0 Ht) as Hc.
  destruct (run_linearized fuel hash_func dummy h ops Hops k0 _ _ _ _ Hm Hc Hr) as (m & hist & Hc1 & Ha). cbn [app] in Hc1.
  exists m, hist. split; [done|]. split; [by eapply inv_linearized|]. intros s' Hr'.
  destruct (run_linearized fuel hash_func dummy h ops Hops k0 _ _ _ _ Hm Hc1 Hr') as (m' & more & Hc2 & Ha').
  exists m', more. split; [done|]. by eapply inv_linearized.
Qed.

(** ** Termination *)

(** A bound on the pieces a thread has left. *)
Definition search_left (se : search) : Z :=
  3 * ((1000 - se_tail se) * 8 - se_i se) + (if se_second se then 0 else 30000).
Definition pieces_left (pc : add_pc) : Z :=
  match pc with
  | AddCheck => 60005 | AddAlloc => 60004 | AddTake _ _ _ => 60003 | AddWrite _ => 60002 | AddInsert _ => 60001
  | AddLook _ se => search_left se + 5 | AddMove _ se => search_left se + 4 | AddPush _ se => search_left se + 3
  | AddExt _ => 1 | AddGive _ _ => 2 | AddPut _ _ _ _ _ => 1 | AddDone _ => 0
  end.
Definition all_left (pcs : list add_pc) : Z := foldr (fun pc n => pieces_left pc + n) 0 pcs.

Definition search_bounds (pc : add_pc) : Prop :=
  forall se, search_of pc = Some se -> 0 <= se_tail se < 999 /\ 0 <= se_i se < 8.

Lemma failed_left h c slot ret second se : se_second se = second -> 0 <= se_tail se < 999 -> 0 <= se_i se < 8 ->
  pieces_left (search_failed h c slot ret second) < search_left se + 3.
Proof.
  intros <- Ht Hi. unfold search_failed. destruct (se_second se) eqn:E; [|cbn; unfold search_left; rewrite E; cbn; lia].
  destruct (negb (ext_table_support h)); cbn; unfold search_left; rewrite E; lia.
Qed.

Lemma end_left slot ret rv other n : 2 < n -> pieces_left other < n -> pieces_left (add_end slot ret rv other) < n.
Proof. intros Hn Ho. unfold add_end. destruct (ret =? 0); [cbn; lia|]. destruct (ret =? 1); [cbn; lia|done]. Qed.

Lemma left_nonneg pc : search_bounds pc -> 0 <= pieces_left pc.
Proof.
  intros Hb. destruct pc as [| | | | |? se|? se|? se| | | |]; cbn; try lia;
    destruct (Hb se eq_refl); unfold search_left; destruct (se_second se); lia.
Qed.

Lemma piece_decreases fuel h c pc seen h' pc' :
  add_piece fuel h c pc seen = Ret (h', pc') -> search_bounds pc -> pieces_left pc' < pieces_left pc.
Proof.
  intros H Hb. destruct pc as [| |n old new|slot|slot|slot se|slot se|slot se|slot|slot ret|slot ret n old new|ret];
    cbn [add_piece] in H; unfold take_place, put_place in H.
  - inv_ret. case_match. inv_ret. case_match; cbn; lia.
  - inv_ret. repeat case_match. inv_ret. cbn. lia.
  - inv_ret. case_match. inv_ret. cbn. lia.
  - inv_ret. cbn. lia.
  - inv_ret. repeat case_match. inv_ret. apply end_left; [cbn; lia|cbn; unfold search_left; cbn; lia].
  - destruct (Hb se eq_refl) as [? ?]. inv_ret. destruct (seen =? EMPTY_SLOT); cbn; lia.
  - destruct (Hb se eq_refl) as [Ht Hi]. destruct (search_buckets c (se_second se)).
    apply bind_Ret_inv in H as ([[h1 r] v] & _ & H). injection H as <- <-.
    pose proof (failed_left h1 c slot r (se_second se) se eq_refl Ht Hi). destruct (negb (r =? -1)); [|cbn; lia].
    cbn [pieces_left]. apply end_left; [|lia]. unfold search_left. destruct (se_second se); lia.
  - destruct (Hb se eq_refl) as [Ht Hi]. inv_ret. destruct (Z.of_nat (length (se_queue se)) <? RTE_HASH_BFS_QUEUE_MAX_LEN); [|done].
    inv_ret. unfold search_next. cbn [se_i se_queue se_tail se_second]. change RTE_HASH_BUCKET_ENTRIES with 8.
    destruct (Z.ltb_spec (se_i se + 1) 8); [cbn; unfold search_left; cbn; lia|].
    match goal with |- context [search_on ?q ?t] => destruct (search_on q t) end.
    + cbn. unfold search_left. cbn. lia.
    + by apply failed_left.
  - inv_ret. case_match. inv_ret. cbn. lia.
  - inv_ret. repeat case_match. inv_ret. cbn. lia.
  - inv_ret. cbn. lia.
  - done.
Qed.

Lemma all_left_insert pcs i pc pc' : pcs !! i = Some pc ->
  all_left (<[i := pc']> pcs) = all_left pcs - pieces_left pc + pieces_left pc'.
Proof.
  revert i. induction pcs as [|p pcs IH]; intros [|i] Hi; try done.
  - injection Hi as ->. change (pieces_left pc' + all_left pcs = pieces_left pc + all_left pcs - pieces_left pc + pieces_left pc'). lia.
  - change (pieces_left p + all_left (<[i := pc']> pcs) = pieces_left p + all_left pcs - pieces_left pc + pieces_left pc').
    rewrite (IH i Hi). lia.
Qed.

(** The thread within an operation on the ring leaves it; any other enters alone. *)
Lemma goes_alone s i pc pc' h' : one_index_op s -> ay_pcs s !! i = Some pc ->
  (forall j q, ay_pcs s !! j = Some q -> index_op q = true -> j = i /\ index_op pc' = false) ->
  one_index_op (AddSys h' (<[i := pc']> (ay_pcs s))).
Proof.
  intros _ Hi Hone j k p q Hj Hk Hp Hq. cbn [ay_pcs] in *. pose proof (lookup_lt_Some _ _ _ Hi) as Hlt.
  apply list_lookup_insert_Some in Hj as [(<- & <- & _)|[Hne Hj]].
  - apply list_lookup_insert_Some in Hk as [(-> & _)|[Hne Hk]]; [done|]. destruct (Hone k q Hk Hq). congruence.
  - by destruct (Hone j p Hj Hp) as [-> _].
Qed.

Section Ending.
Context (k0 init : Z) (hs : list Z -> Z) (dummy : list Z) (fuel : nat) (ops : list (list Z * Z)).
Hypothesis Hops : forall i op, ops !! i = Some op -> key_ok dummy (fst op).
Let calls := call_of k0 hs <$> ops.
Let inv := conc_inv k0 init hs dummy fuel ops.

Lemma inv_bounds s m hist i pc : inv s m hist -> ay_pcs s !! i = Some pc -> search_bounds pc.
Proof.
  intros Hc Hi se Hse. pose proof (lookup_lt_Some _ _ _ Hi) as Hlt. rewrite (cv_len _ _ _ _ _ _ _ _ _ Hc) in Hlt.
  destruct (lookup_lt_is_Some_2 ops i Hlt) as [op Ho].
  destruct (to_search _ _ _ _ _ _ _ (cv_threads _ _ _ _ _ _ _ _ _ Hc i op pc Ho Hi) se Hse) as (_ & ? & ? & ?). lia.
Qed.

Lemma left_inv s m hist : inv s m hist -> 0 <= all_left (ay_pcs s).
Proof.
  intros Hc. assert (Hall : forall pc, pc ∈ ay_pcs s -> 0 <= pieces_left pc).
  { intros pc [i Hi]%list_elem_of_lookup. by eapply left_nonneg, inv_bounds. }
  clear Hc. unfold all_left. induction (ay_pcs s) as [|p pcs IH]; cbn; [done|].
  assert (0 <= pieces_left p) by (apply Hall; left). assert (forall pc, pc ∈ pcs -> 0 <= pieces_left pc) by (intros; apply Hall; by right).
  specialize (IH ltac:(done)). lia.
Qed.

Lemma step_left s m hist s' : inv s m hist -> exclusive_step (S fuel) calls s s' -> all_left (ay_pcs s') < all_left (ay_pcs s).
Proof.
  intros Hc [Hst _]. destruct Hst as [i c pc seen h h' pc' pcs _ _ Hi Hrun]. cbn [ay_pcs].
  rewrite (all_left_insert _ _ _ _ Hi). pose proof (piece_decreases _ _ _ _ _ _ _ Hrun (inv_bounds _ _ _ i pc Hc Hi)). lia.
Qed.

Lemma steps_left n s m hist s' : inv s m hist -> nsteps (exclusive_step (S fuel) calls) n s s' ->
  Z.of_nat n + all_left (ay_pcs s') <= all_left (ay_pcs s) /\ 0 <= all_left (ay_pcs s').
Proof.
  intros Hc Hn. revert m hist Hc. induction Hn as [s|n s s1 s' Hs _ IH]; intros m hist Hc.
  - split; [lia|by eapply left_inv].
  - destruct (step_inv k0 init hs dummy fuel ops Hops _ _ _ _ Hc Hs) as (m1 & more & Hc1 & _).
    pose proof (step_left _ _ _ _ Hc Hs). destruct (IH _ _ Hc1). lia.
Qed.

Lemma stuck_done s m hist : inv s m hist -> (forall s', ~ exclusive_step (S fuel) calls s s') ->
  Forall (fun pc => add_done pc = true) (ay_pcs s).
Proof.
  intros Hc Hstuck. pose proof (cv_one _ _ _ _ _ _ _ _ _ Hc) as H1. destruct s as [h pcs].
  assert (Hgo : forall i pc, pcs !! i = Some pc -> add_done pc = false ->
    exists h' pc', writer_step (S fuel) calls (AddSys h pcs) (AddSys h' (<[i := pc']> pcs)) /\ (index_op pc = true -> index_op pc' = false)).
  { intros i pc Hi Hd. pose proof (lookup_lt_Some _ _ _ Hi) as Hlt. pose proof (cv_len _ _ _ _ _ _ _ _ _ Hc) as Hlen. cbn in Hlen.
    destruct (lookup_lt_is_Some_2 ops i) as [op Ho]; [lia|].
    destruct (inv_goes k0 init hs dummy fuel ops Hops _ _ _ i op pc Hc Ho Hi Hd) as (rest & _ & _ & _ & Hg).
    destruct (Hg 0) as (h' & m' & pc' & E & _). exists h', pc'. split.
    - apply (writer_goes _ _ i (call_of k0 hs op) pc 0); try done.
      + apply (tk_lock _ _ _ _ _ _ _ (cv_table _ _ _ _ _ _ _ _ _ Hc)).
      + unfold calls. by rewrite list_lookup_fmap, Ho.
    - intros Hp. destruct pc; try discriminate Hp; cbn [add_piece] in E; inv_ret; [case_match; inv_ret|]; done. }
  destruct (decide (Exists (fun pc => index_op pc = true) pcs)) as [Hex|Hno].
  - exfalso. apply Exists_exists in Hex as (pc & [i Hi]%list_elem_of_lookup & Hp).
    destruct (Hgo i pc Hi) as (h' & pc' & Hst & Hq); [by destruct pc|].
    apply (Hstuck (AddSys h' (<[i := pc']> pcs))). split; [done|]. apply (goes_alone (AddSys h pcs) i pc pc' h' H1 Hi).
    intros j q Hj Hqj. split; [by apply (H1 j i q pc)|by apply Hq].
  - apply Forall_lookup. intros i pc Hi. destruct (add_done pc) eqn:Hd; [done|]. exfalso.
    destruct (Hgo i pc Hi Hd) as (h' & pc' & Hst & _). apply (Hstuck (AddSys h' (<[i := pc']> pcs))). split; [done|].
    apply (goes_alone (AddSys h pcs) i pc pc' h' H1 Hi). intros j q Hj Hqj. destruct Hno.
    apply Exists_exists. exists q. split; [by eapply list_elem_of_lookup_2|done].
Qed.
End Ending.

(** C22: concurrent insertions end: under the same conditions, with as many free indices as
    insertions and no key of the bytes of the reserved entry, every execution of [n] insertions
    has at most 60005 [n] steps - at most 1000 nodes are visited by each of the two searches of
    an insertion, whatever they read - and one in which no thread can go on any more is one in
    which all have returned: no thread waits for another for ever. *)
Theorem concurrent_adds_end fuel hash_func dummy h I ops :
  represents hash_func dummy h I -> ext_table_support h = false -> writer_takes_lock h = true ->
  Forall (fun op => key_ok dummy (fst op)) ops -> (length ops <= length (ix_free I))%nat ->
  let step := exclusive_step (S fuel) (insertions hash_func h ops) in
  (forall n s, nsteps step n (start h ops) s -> Z.of_nat n <= 60005 * Z.of_nat (length ops)) /\
  (forall s, rtc step (start h ops) s -> (forall s', ~ step s s') -> Forall (fun pc => add_done pc = true) (ay_pcs s)).
Proof.
  intros Hrep Hx Hlk Hops Hf step. destruct (shared_start hash_func dummy h I ops Hrep Hx Hlk Hf) as (k0 & Hm & Ht).
  pose proof (start_linear fuel hash_func dummy h I ops Hrep Hf k0 Ht) as Hc.
  assert (Hok : forall i op, ops !! i = Some op -> key_ok dummy (fst op)) by (intros i op Hi; by eapply (op_ok dummy ops)).
  unfold step. rewrite (insertions_calls hash_func h ops k0 Hm). split.
  - intros n s Hn. destruct (steps_left _ _ _ _ _ _ Hok n _ _ _ _ Hc Hn) as [Hl H0].
    assert (E : all_left (ay_pcs (start h ops)) = 60005 * Z.of_nat (length ops)); [|lia].
    cbn [start ay_pcs]. clear. unfold all_left. induction ops as [|op ops IH]; cbn [length repeat foldr pieces_left]; lia.
  - intros s Hr Hs. destruct (run_inv _ _ _ _ _ _ Hok _ _ _ _ Hc Hr) as (m & hist & Hc1 & _). by eapply stuck_done.
Qed.

(** ** The race for an index *)

Definition race_ops : list (list Z * Z) := [(demo_key 9, 55); (demo_key 4, 66)].

(** Both threads load the head of the ring before either stores it. *)
Definition race_schedule : list (nat * Z) :=
  [(0%nat, 0); (1%nat, 0); (0%nat, 0); (1%nat, 0); (0%nat, 0); (1%nat, 0); (0%nat, 0); (1%nat, 0); (0%nat, 0); (1%nat, 0)].

(** C37: the ring of free indices is not safe for several writers: [alloc_slot] takes an index
    outside the lock with the single-consumer operation, so that in a table made for several
    writers ([RTE_HASH_EXTRA_FLAGS_MULTI_WRITER_ADD]), in order and with room for both, two
    threads that insert different keys can both be told that their key is at position 0; the
    first key is lost, and inserting it once more gives it another position. *)
Theorem writers_race_for_index :
  exists hash_func dummy h I op1 op2 s,
    represents hash_func dummy h I /\ ext_table_support h = false /\ writer_takes_lock h = true /\
    Forall (fun op => key_ok dummy (fst op)) [op1; op2] /\ (2 <= length (ix_free I))%nat /\ fst op1 <> fst op2 /\
    rtc (writer_step 1 (insertions hash_func h [op1; op2])) (start h [op1; op2]) s /\
    ay_pcs s = [AddDone 0; AddDone 0] /\
    exists h', __rte_hash_add_key_with_hash 1 (ay_h s) (fst op1) (rte_hash_hash hash_func h (fst op1)) (snd op1) = Ret (h', 1).
Proof.
  destruct (run_schedule 1 (insertions demo_hash demo0 race_ops) false (start demo0 race_ops) race_schedule) as [s|] eqn:E;
    [|by vm_compute in E].
  exists demo_hash, (repeat 0 8), demo0, (Idx ∅ [1; 2; 3; 4] None), (demo_key 9, 55), (demo_key 4, 66), s.
  split; [exact demo0_represents|]. split; [done|]. split; [done|]. split; [by repeat constructor|]. split; [cbn; lia|].
  split; [done|]. split; [exact (schedule_steps 1 _ false _ _ _ E)|].
  vm_compute in E. injection E as <-. split; [reflexivity|]. eexists. vm_compute. reflexivity.
Qed.

(** ** Runs *)

(** Three threads, two of them with the same key, all of which find it absent at first. *)
Definition conc_ops : list (list Z * Z) := [(demo_key 9, 55); (demo_key 4, 66); (demo_key 9, 77)].
Definition conc_schedule : list (nat * Z) :=
  map (fun i => (i, 0)) [0; 1; 2; 0; 0; 1; 1; 2; 2; 1; 0; 2; 0; 2; 1; 2; 2]%nat.

Lemma conc_ops_ok : Forall (fun op => key_ok (repeat 0 8) (fst op)) conc_ops.
Proof. by repeat constructor. Qed.

Lemma conc_run : match run_schedule 1 (insertions demo_hash demo0 conc_ops) true (start demo0 conc_ops) conc_schedule with
  | Some s => ay_pcs s | None => [] end = [AddDone 0; AddDone 1; AddDone 0].
Proof. vm_compute. reflexivity. Qed.

Lemma concurrent_adds_linearize_witness :
  exists s m hist, ay_pcs s = [AddDone 0; AddDone 1; AddDone 0] /\ atomic_adds conc_ops ∅ hist m /\
    linearized 1 demo_hash (repeat 0 8) demo0 conc_ops s m hist.
Proof.
  destruct (run_schedule 1 (insertions demo_hash demo0 conc_ops) true (start demo0 conc_ops) conc_schedule) as [s|] eqn:E.
  - destruct (concurrent_adds_linearize 0 demo_hash (repeat 0 8) demo0 (Idx ∅ [1; 2; 3; 4] None) conc_ops s
      demo0_represents eq_refl eq_refl conc_ops_ok ltac:(cbn; lia) (schedule_steps 1 _ true _ _ _ E)) as (m & hist & Ha & Hl & _).
    exists s, m, hist. split; [|split; [exact Ha|exact Hl]]. pose proof conc_run as H. rewrite E in H. exact H.
  - exfalso. pose proof conc_run as H. rewrite E in H. discriminate H.
Defined.

Lemma concurrent_adds_end_witness :
  exists n s, nsteps (exclusive_step 1 (insertions demo_hash demo0 conc_ops)) n (start demo0 conc_ops) s /\
    ay_pcs s = [AddDone 0; AddDone 1; AddDone 0] /\ Z.of_nat n <= 180015.
Proof.
  destruct (run_schedule 1 (insertions demo_hash demo0 conc_ops) true (start demo0 conc_ops) conc_schedule) as [s|] eqn:E.
  - destruct (proj1 (rtc_nsteps _ _) (schedule_steps 1 _ true _ _ _ E)) as [n Hn]. exists n, s. split; [exact Hn|]. split.
    + pose proof conc_run as H. rewrite E in H. exact H.
    + exact (proj1 (concurrent_adds_end 0 demo_hash (repeat 0 8) demo0 (Idx ∅ [1; 2; 3; 4] None) conc_ops
        demo0_represents eq_refl eq_refl conc_ops_ok ltac:(cbn; lia)) n s Hn).
  - exfalso. pose proof conc_run as H. rewrite E in H. discriminate H.
Defined.
