(* ===== verification/CStrings.v ===== *)
(** * Numerals and strings of the C library, [rte_string_fns.h] and [rte_str_to_size]

    What the program uses of [strtol], [atoi] and [strtoull] - the last with base 0, in which the
    numeral chooses octal, decimal or hexadecimal - and the functions of DPDK on top: bounded
    concatenation, and sizes with a unit. A string is its characters before the null byte. *)

From Stdlib Require Import Ascii String.
From stdpp Require Import strings pretty.
From S2P Require Import Prelude Common RingCore.

Open Scope Z_scope.

(** ** Signed numerals *)

(** [isdigit], [isspace] and the digits of [strtol], base 10. *)
Definition digit (c : ascii) : option Z :=
  let n := Z.of_nat (nat_of_ascii c) in
  if (48 <=? n) && (n <=? 57) then Some (n - 48) else None.
Definition is_space (c : ascii) : bool :=
  let n := Z.of_nat (nat_of_ascii c) in (n =? 32) || ((9 <=? n) && (n <=? 13)).

Fixpoint digits (acc : Z) (s : string) : Z :=
  match s with
  | EmptyString => acc
  | String.String c s => match digit c with Some d => digits (acc * 10 + d) s | None => acc end
  end.
Fixpoint skip_space (s : string) : string :=
  match s with
  | String.String c s' => if is_space c then skip_space s' else s
  | EmptyString => s
  end.
Definition strtol (s : string) : Z :=
  match skip_space s with
  | String.String "-" s => - digits 0 s
  | String.String "+" s => digits 0 s
  | s => digits 0 s
  end.

(** [atol] and [atoi]: undefined for a null pointer and for a value out of range. *)
Definition atol (s : option string) : outcome Z :=
  match s with
  | None => Undef
  | Some s => let v := strtol s in
      if (- 2 ^ 63 <=? v) && (v <? 2 ^ 63) then Ret v else Undef
  end.
Definition atoi (s : option string) : outcome Z :=
  match s with
  | None => Undef
  | Some s => let v := strtol s in
      if (- 2 ^ 31 <=? v) && (v <? 2 ^ 31) then Ret v else Undef
  end.

(** ** Unsigned numerals in any base *)

(** The value of a letter or a digit, as [strtoull] has it. *)
Definition digit_value (c : ascii) : option Z :=
  let n := Z.of_nat (nat_of_ascii c) in
  if (48 <=? n) && (n <=? 57) then Some (n - 48)
  else if (97 <=? n) && (n <=? 122) then Some (n - 87)
  else if (65 <=? n) && (n <=? 90) then Some (n - 55)
  else None.

Definition digit_in (base : Z) (c : ascii) : option Z :=
  match digit_value c with Some d => if d <? base then Some d else None | None => None end.

(** The number at the beginning of a string, and what follows it. *)
Fixpoint number (base acc : Z) (s : string) : Z * string :=
  match s with
  | EmptyString => (acc, s)
  | String.String c s' => match digit_in base c with Some d => number base (acc * base + d) s' | None => (acc, s) end
  end.

(** The base that a prefix announces, and the string behind the prefix. *)
Definition announced (s : string) : Z * string :=
  match s with
  | String.String "0" (String.String x (String.String c _ as s')) =>
      if (Ascii.eqb x "x" || Ascii.eqb x "X") && bool_decide (is_Some (digit_in 16 c)) then (16, s') else (8, s)
  | String.String "0" _ => (8, s)
  | _ => (10, s)
  end.

(** [strtoull(str, &endptr, 0)]: the value, none when it sets [errno]; and [endptr]. *)
Definition strtoull (str : string) : option Z * string :=
  let s := skip_space str in
  let '(neg, s) := match s with
    | String.String "-" s => (true, s) | String.String "+" s => (false, s) | _ => (false, s) end in
  let '(base, s) := announced s in
  let none := match s with String.String c _ => bool_decide (digit_in base c = None) | EmptyString => true end in
  if none then (Some 0, str)
  else
    let '(v, rest) := number base 0 s in
    if 2 ^ 64 <=? v then (None, rest) else (Some (if neg : bool then u64 (- v) else v), rest).

(** ** [rte_str_to_size], [rte_strlcat] *)

(** The switch: every case falls through to the next. *)
(* rte_lib/include/rte_common.h:858-864 rte_str_to_size *)
Definition unit_size (size : Z) (endptr : string) : Z :=
  let k size := u64 (size * 1024) in
  match endptr with
  | String.String "G" _ | String.String "g" _ => k (k (k size))
  | String.String "M" _ | String.String "m" _ => k (k size)
  | String.String "K" _ | String.String "k" _ => k size
  | _ => size
  end.

(** One space may come before the unit. *)
(* rte_lib/include/rte_common.h:855-856 rte_str_to_size *)
Definition skip_gap (endptr : string) : string :=
  match endptr with String.String " " e => e | _ => endptr end.

(* rte_lib/include/rte_common.h:839-866 rte_str_to_size *)
Definition rte_str_to_size (str : string) : Z :=
  let str := skip_space str in
  match str with
  | String.String "-" _ => 0
  | _ =>
      match strtoull str with
      | (None, _) => 0
      | (Some size, endptr) =>
          unit_size size (skip_gap endptr)
      end
  end.

(** [dst] is the string in an array of at least [size] bytes, or its first [size] bytes when
    none of them is null. *)
(* rte_lib/include/rte_string_fns.h:69-76 rte_strlcat *)
Definition rte_strlcat (dst src : string) (size : Z) : string * Z :=
  let l := Z.min (Z.of_nat (String.length dst)) size in
  if l <? size then
    let '(copy, n) := rte_strlcpy src (size - l) in ((dst ++ copy)%string, u64 (l + n))
  else (dst, u64 (l + Z.of_nat (String.length src))).

(** ** Lemmas *)

(** The decimal numeral of a number. *)
Definition decimal (n : Z) : string := pretty (Z.to_N n).

Definition digit_head (s : string) : Prop :=
  match s with String.String c _ => exists d, digit c = Some d | EmptyString => False end.

Lemma digit_char x : (x < 10)%N -> digit (pretty_N_char x) = Some (Z.of_N x).
Proof.
  intros Hx. assert (x = 0 \/ x = 1 \/ x = 2 \/ x = 3 \/ x = 4 \/ x = 5 \/ x = 6 \/ x = 7 \/ x = 8 \/ x = 9)%N
    as Hc by lia. by repeat destruct Hc as [->|Hc]; subst.
Qed.

Lemma pretty_head x s : (0 < x)%N \/ digit_head s -> digit_head (pretty_N_go x s).
Proof.
  revert s. induction (N.lt_wf_0 x) as [x _ IH]; intros s Hs.
  destruct (N.eq_dec x 0%N) as [->|Hx]; [destruct Hs; [lia|done]|].
  rewrite pretty_N_go_step by lia. apply IH; [apply N.div_lt; lia|]. right. cbn.
  eexists. apply digit_char. apply N.mod_lt. lia.
Qed.

Lemma digits_pretty x s : digits 0 (pretty_N_go x s) = digits (Z.of_N x) s.
Proof.
  revert s. induction (N.lt_wf_0 x) as [x _ IH]; intros s.
  destruct (N.eq_dec x 0%N) as [->|Hx]; [done|].
  rewrite pretty_N_go_step by lia. rewrite IH by (apply N.div_lt; lia). cbn [digits].
  rewrite digit_char by (apply N.mod_lt; lia). f_equal.
  pose proof (N.div_mod x 10%N ltac:(lia)). lia.
Qed.

Lemma strtol_digits s : digit_head s -> strtol s = digits 0 s.
Proof.
  destruct s as [|c s]; [done|]. intros [d Hd]. unfold strtol. cbn [skip_space].
  assert (Hc : is_space c = false /\ c <> "-"%char /\ c <> "+"%char).
  { unfold digit in Hd. unfold is_space. set (n := Z.of_nat (nat_of_ascii c)) in *.
    destruct (Z.leb_spec 48 n); [|done].
    split; [|split; intros ->; vm_compute in n; lia].
    rewrite (proj2 (Z.eqb_neq n 32)) by lia. rewrite (proj2 (Z.leb_gt n 13)) by lia.
    by rewrite andb_false_r. }
  destruct Hc as (-> & H1 & H2).
  destruct (ascii_dec c "-") as [->|_]; [done|]. destruct (ascii_dec c "+") as [->|_]; [done|].
  destruct c as [[] [] [] [] [] [] [] []]; done.
Qed.

Lemma strtol_decimal n : 0 <= n -> strtol (decimal n) = n.
Proof.
  intros Hn. unfold decimal, pretty, pretty_N. case_decide as E.
  - assert (n = 0) as -> by lia. done.
  - rewrite strtol_digits by (apply pretty_head; left; lia). rewrite digits_pretty. cbn. lia.
Qed.

Lemma atoi_decimal n : 0 <= n < 2 ^ 31 -> atoi (Some (decimal n)) = Ret n.
Proof.
  intros Hn. unfold atoi. rewrite strtol_decimal by lia.
  rewrite (proj2 (Z.leb_le _ _)), (proj2 (Z.ltb_lt _ _)) by lia. done.
Qed.

Lemma atol_decimal n : 0 <= n < 2 ^ 63 -> atol (Some (decimal n)) = Ret n.
Proof.
  intros Hn. unfold atol. rewrite strtol_decimal by lia.
  rewrite (proj2 (Z.leb_le _ _)), (proj2 (Z.ltb_lt _ _)) by lia. done.
Qed.

(** A decimal digit is a digit of base 10, with the same value. *)
Lemma digit_in_10 c : digit_in 10 c = digit c.
Proof.
  unfold digit_in, digit_value, digit. set (n := Z.of_nat (nat_of_ascii c)). cbv zeta.
  destruct (Z.leb_spec 48 n), (Z.leb_spec n 57); cbn [andb].
  { by rewrite (proj2 (Z.ltb_lt (n - 48) 10)) by lia. }
  all: destruct ((97 <=? n) && (n <=? 122)) eqn:E1; [apply andb_true_iff in E1 as [?%Z.leb_le ?%Z.leb_le];
    by rewrite (proj2 (Z.ltb_ge (n - 87) 10)) by lia|].
  all: destruct ((65 <=? n) && (n <=? 90)) eqn:E2; [apply andb_true_iff in E2 as [?%Z.leb_le ?%Z.leb_le];
    by rewrite (proj2 (Z.ltb_ge (n - 55) 10)) by lia|done].
Qed.

(** The most significant digit of a positive number is not 0. *)
Lemma pretty_lead x s : (0 < x)%N ->
  exists c d s', pretty_N_go x s = String.String c s' /\ digit c = Some d /\ 0 < d.
Proof.
  revert s. induction (N.lt_wf_0 x) as [x _ IH]; intros s Hx. rewrite pretty_N_go_step by lia.
  destruct (N.eq_dec (x / 10)%N 0%N) as [E|E]; [|apply IH; [apply N.div_lt; lia|]; apply N.neq_0_lt_0, E].
  rewrite E. pose proof (N.div_mod x 10%N ltac:(lia)) as Hd. rewrite E in Hd.
  rewrite pretty_N_go_0. eexists _, _, _. split; [done|].
  split; [apply digit_char; apply N.mod_lt; lia|]. lia.
Qed.

Lemma number_pretty x s : number 10 0 (pretty_N_go x s) = number 10 (Z.of_N x) s.
Proof.
  revert s. induction (N.lt_wf_0 x) as [x _ IH]; intros s.
  destruct (N.eq_dec x 0%N) as [->|Hx]; [done|].
  rewrite pretty_N_go_step by lia. rewrite IH by (apply N.div_lt; lia). cbn [number].
  rewrite digit_in_10, digit_char by (apply N.mod_lt; lia).
  pose proof (N.div_mod x 10%N ltac:(lia)). f_equal. lia.
Qed.

Lemma pretty_go_app x s r : (pretty_N_go x s ++ r)%string = pretty_N_go x (s ++ r)%string.
Proof.
  revert s. induction (N.lt_wf_0 x) as [x _ IH]; intros s.
  destruct (N.eq_dec x 0%N) as [->|Hx]; [done|].
  rewrite pretty_N_go_step by lia. rewrite IH by (apply N.div_lt; lia). rewrite (pretty_N_go_step x) by lia. f_equal.
Qed.

Lemma decimal_pos n r : 0 < n -> (decimal n ++ r)%string = pretty_N_go (Z.to_N n) r.
Proof. intros Hn. unfold decimal, pretty, pretty_N. rewrite decide_False by lia. apply pretty_go_app. Qed.

(** What can follow a decimal numeral. *)
Definition ends_number (r : string) : Prop :=
  match r with EmptyString => True | String.String c _ => digit c = None end.

Lemma number_end acc r : ends_number r -> number 10 acc r = (acc, r).
Proof. destruct r as [|c r]; [done|]. cbn [ends_number number]. rewrite digit_in_10. by intros ->. Qed.

(** A character that starts a positive decimal numeral is neither a space nor a sign nor 0. *)
Lemma lead_char c d : digit c = Some d -> 0 < d ->
  is_space c = false /\ c <> "-"%char /\ c <> "+"%char /\ c <> "0"%char.
Proof.
  unfold digit, is_space. set (n := Z.of_nat (nat_of_ascii c)). cbv zeta.
  destruct (Z.leb_spec 48 n), (Z.leb_spec n 57); cbn [andb]; try done. intros [= <-] Hd.
  rewrite (proj2 (Z.eqb_neq n 32)), (proj2 (Z.leb_gt n 13)) by lia. rewrite andb_false_r.
  split; [done|]. repeat split; intros ->; vm_compute in n; lia.
Qed.

(** [strtoull] on a positive decimal numeral. *)
Lemma strtoull_decimal n r : 0 < n < 2 ^ 64 -> ends_number r ->
  strtoull (decimal n ++ r)%string = (Some n, r) /\ skip_space (decimal n ++ r)%string = (decimal n ++ r)%string.
Proof.
  intros Hn Hr. rewrite decimal_pos by lia.
  destruct (pretty_lead (Z.to_N n) r) as (c & d & s' & E & Hd & Hpos); [lia|].
  destruct (lead_char c d Hd Hpos) as (Hsp & Hm & Hp & H0).
  assert (Hnum : number 10 0 (String.String c s') = (n, r)).
  { rewrite <- E, number_pretty, number_end by done. f_equal. lia. }
  rewrite E. assert (Hs : skip_space (String.String c s') = String.String c s') by (cbn [skip_space]; by rewrite Hsp).
  split; [|done]. unfold strtoull. rewrite Hs.
  assert (Hann : announced (String.String c s') = (10, String.String c s')).
  { clear -H0. destruct c as [[] [] [] [] [] [] [] []]; done. }
  replace (match String.String c s' with String.String "-" s => (true, s) | String.String "+" s => (false, s)
    | _ => (false, String.String c s') end) with (false, String.String c s')
    by (clear -Hm Hp; destruct c as [[] [] [] [] [] [] [] []]; done).
  cbv iota beta. rewrite Hann. cbv iota beta. rewrite digit_in_10, Hd. rewrite bool_decide_eq_false_2 by done.
  rewrite Hnum. by rewrite (proj2 (Z.leb_gt _ n)) by lia.
Qed.

(** The power of 1024 that a unit stands for. *)
Definition unit_power (r : string) : Z :=
  match r with
  | String.String ("G" | "g") _ => 3 | String.String ("M" | "m") _ => 2 | String.String ("K" | "k") _ => 1 | _ => 0
  end.

Lemma unit_size_power n r : 0 <= n < 2 ^ 64 -> unit_size n r = u64 (n * 1024 ^ unit_power r).
Proof.
  intros Hn. unfold unit_size, u64. change 18446744073709551616 with (2 ^ 64).
  destruct r as [|[[] [] [] [] [] [] [] []] r]; cbn [unit_power]; rewrite ?Zmult_mod_idemp_l, <- ?Z.mul_assoc; try done;
    try (rewrite Z.mul_1_r, Z.mod_small; done || lia); by rewrite Zmult_mod_idemp_l, <- Z.mul_assoc.
Qed.

(** A size is its number times its unit, modulo [2^64]: spaces may come before it and one between
    number and unit, and what follows the unit is not looked at. *)
Theorem str_to_size_decimal sp n gap r :
  (forall s, skip_space (sp ++ s) = skip_space s)%string -> 0 < n < 2 ^ 64 ->
  gap = " "%string /\ True \/ gap = EmptyString /\ ends_number r /\ (forall r', r <> String.String " " r') ->
  rte_str_to_size (sp ++ (decimal n ++ (gap ++ r)))%string = u64 (n * 1024 ^ unit_power r).
Proof.
  intros Hsp Hn Hgap. assert (Hends : ends_number (gap ++ r)%string) by (destruct Hgap as [[-> _]|(-> & ? & _)]; done).
  destruct (strtoull_decimal n (gap ++ r)%string Hn Hends) as [E Es].
  unfold rte_str_to_size. rewrite Hsp, Es, E.
  assert (Hu : unit_size n (skip_gap (gap ++ r)%string) = u64 (n * 1024 ^ unit_power r)).
  { rewrite <- unit_size_power by lia. f_equal. destruct Hgap as [[-> _]|(-> & _ & Hr)]; [done|].
    cbn. destruct r as [|c r]; [done|]. clear -Hr. specialize (Hr r).
    destruct c as [[] [] [] [] [] [] [] []]; done. }
  destruct (pretty_lead (Z.to_N n) (gap ++ r)%string) as (c & d & s' & El & Hd & Hpos); [lia|].
  destruct (lead_char c d Hd Hpos) as (_ & Hm & _ & _).
  assert (Ed : (decimal n ++ (gap ++ r))%string = String.String c s') by (by rewrite decimal_pos by lia).
  rewrite Ed. clear -Hm Hu. destruct c as [[] [] [] [] [] [] [] []]; first [exact Hu|by destruct Hm].
Qed.

Lemma str_to_size_decimal_witness : rte_str_to_size "  65536 kB" = 67108864.
Proof.
  change "  65536 kB"%string with ("  " ++ (decimal 65536 ++ (" " ++ "kB")))%string.
  rewrite (str_to_size_decimal "  " 65536 " " "kB"); [reflexivity|reflexivity|lia|by left].
Defined.

(** The number itself must fit in 64 bits, but its product with the unit is not checked: a size
    that is too large is 0 in one case and something else in the other. A leading zero announces
    an octal number. *)
Theorem str_to_size_limits :
  rte_str_to_size "18446744073709551616" = 0 /\ rte_str_to_size "17179869185G" = 2 ^ 30 /\
  rte_str_to_size "-1" = 0 /\ rte_str_to_size "0100k" = 65536 /\ rte_str_to_size "0x10m" = 16777216.
Proof. by vm_compute. Qed.

Lemma substring_app_prefix dst src k :
  String.substring 0 (String.length dst + k) (dst ++ src)%string = (dst ++ String.substring 0 k src)%string.
Proof. induction dst as [|c dst IH]; [done|]. change (String.String c (String.substring 0 (String.length dst + k) (dst ++ src)) =
  String.String c (dst ++ String.substring 0 k src))%string. by rewrite IH. Qed.

(** Concatenation is bounded and says how long the whole string would be. *)
Theorem strlcat_spec dst src size :
  Z.of_nat (String.length dst) < size -> Z.of_nat (String.length dst) + Z.of_nat (String.length src) < 2 ^ 64 ->
  rte_strlcat dst src size =
    (String.substring 0 (Z.to_nat (size - 1)) (dst ++ src)%string,
     Z.of_nat (String.length dst) + Z.of_nat (String.length src)).
Proof.
  intros Hd Hs. unfold rte_strlcat. rewrite Z.min_l, (proj2 (Z.ltb_lt _ size)) by lia. unfold rte_strlcpy.
  rewrite u64_small by lia. f_equal. rewrite <- substring_app_prefix. do 2 f_equal. lia.
Qed.

Lemma strlcat_spec_witness : rte_strlcat "ab" "cdef" 5 = ("abcd"%string, 6).
Proof. rewrite (strlcat_spec "ab" "cdef" 5); [reflexivity|..]; vm_compute; done. Defined.
