(* ===== verification/L3fwd.v ===== *)
(** * [l3fwd/main.c], [worker.c], [em_l3f.c]: options, workers and routes

    The program around the libraries: the options that [main] accepts and the
    parameters it hands to each worker, the service loop of a worker as a function
    from the list of requests it receives to the calls it makes to the RPC library
    (the file [Worker] composes it with that library and its queues), and the static route
    table as it would be put into the cuckoo hash table. *)

From Stdlib Require Export Ascii String.
From stdpp Require Import strings pretty.
From S2P Require Import Prelude Common Atomic RingCore RingCopy RingElem RingSpec.
From S2P Require Import CStrings Nic Rpc Locks Cuckoo CuckooSpec CuckooExt CuckooTable CuckooMap CuckooProps.

Open Scope Z_scope.

(** ** Options *)

(** The locals of [main] that the options set. *)
(* l3fwd/main.c:88-104 main *)
Record options := Options {
  o_run_debug_mode : Z;
  o_num_threads : Z;
  o_num_rem_threads : Z;
  o_node_cnt : Z;
  o_qps : Z;
  o_postlist : Z;
  o_update_percentage : Z;
  o_machine_id : Z;
  o_base_port_index : Z;
  o_num_server_ports : Z;
  o_num_client_ports : Z;
  o_start_core : Z;
  o_num_client_keys : Z;
  o_num_hash_buckets : Z;
  o_log_cap : Z;
}.

(* l3fwd/main.c:89-104 main *)
Definition default_options : options :=
  Options 0 0 0 0 0 (-1) (-1) 1 (-1) (-1) (-1) 3 (1024 * 1024) (2 * 1024 * 1024) (8 * 1024 * 1024).

(** Every entry of [opts] has [has_arg = 1] and a null [flag]. *)
(* l3fwd/main.c:106-123 opts *)
Definition opts : list (string * ascii) :=
  [("master", "M"%char); ("num-threads", "t"%char); ("start-core", "s"%char); ("base-port-index", "b"%char);
   ("num-server-ports", "N"%char); ("num-client-ports", "n"%char); ("is-client", "c"%char);
   ("update-percentage", "u"%char); ("machine-id", "m"%char); ("total-nodes", "C"%char);
   ("qps-to-create", "q"%char); ("num-remote-threads", "O"%char); ("num-keys", "K"%char);
   ("num-server-buckets", "B"%char); ("log-capacity-bytes", "L"%char); ("debug", "D"%char);
   ("postlist", "p"%char)]%string.

(* l3fwd/main.c:127-127 main *)
Definition optstring : string := "M:t:b:N:n:c:u:m:C:q:O:K:B:L:D:p".

(** A command-line option, with its argument if one follows. *)
Inductive token := Short (c : ascii) (arg : option string) | Long (name : string) (arg : option string).

(** Whether the character is a short option, and whether it takes an argument. *)
Fixpoint short_opt (c : ascii) (s : string) : option bool :=
  match s with
  | String.String x s =>
      if ascii_dec x c then
        match s with String.String ":" _ => Some true | _ => Some false end
      else match s with String.String ":" s => short_opt c s | _ => short_opt c s end
  | EmptyString => None
  end.

(** What [getopt_long] returns for one option, and [optarg]: ["?"] for an unknown
    short option and for a missing argument. The table has no terminating null entry,
    so a name that is not in it sends the search past its end. *)
Definition getopt_long (t : token) : outcome (ascii * option string) :=
  match t with
  | Short c arg =>
      match short_opt c optstring with
      | None => Ret ("?"%char, None)
      | Some false => Ret (c, None)
      | Some true => match arg with Some a => Ret (c, Some a) | None => Ret ("?"%char, None) end
      end
  | Long name arg =>
      match find (fun e => String.eqb (fst e) name) opts with
      | None => Undef
      | Some (_, c) => match arg with Some a => Ret (c, Some a) | None => Ret ("?"%char, None) end
      end
  end.

(** One pass of the [switch]; [None]: the assertion of the default case fails. *)
(* l3fwd/main.c:131-180 main *)
Definition set_option (c : ascii) (optarg : option string) (o : options)
    : outcome (option options) :=
  let '(Options dbg nt nrt nc qps pl up mid bpi nsp ncp sc nck nhb lc) := o in
  match c with
  | "K"%char => v ← atol optarg; Ret (Some (Options dbg nt nrt nc qps pl up mid bpi nsp ncp sc (u64 v) nhb lc))
  | "s"%char => v ← atol optarg; Ret (Some (Options dbg nt nrt nc qps pl up mid bpi nsp ncp (u32 v) nck nhb lc))
  | "L"%char => v ← atol optarg; Ret (Some (Options dbg nt nrt nc qps pl up mid bpi nsp ncp sc nck nhb (u64 v)))
  | "B"%char => v ← atol optarg; Ret (Some (Options dbg nt nrt nc qps pl up mid bpi nsp ncp sc nck (u64 v) lc))
  | "D"%char => v ← atoi optarg; Ret (Some (Options v nt nrt nc qps pl up mid bpi nsp ncp sc nck nhb lc))
  | "t"%char => v ← atol optarg; Ret (Some (Options dbg (u32 v) nrt nc qps pl up mid bpi nsp ncp sc nck nhb lc))
  | "b"%char => v ← atoi optarg; Ret (Some (Options dbg nt nrt nc qps pl up mid v nsp ncp sc nck nhb lc))
  | "N"%char => v ← atoi optarg; Ret (Some (Options dbg nt nrt nc qps pl up mid bpi v ncp sc nck nhb lc))
  | "n"%char => v ← atoi optarg; Ret (Some (Options dbg nt nrt nc qps pl up mid bpi nsp v sc nck nhb lc))
  | "u"%char => v ← atoi optarg; Ret (Some (Options dbg nt nrt nc qps pl v mid bpi nsp ncp sc nck nhb lc))
  | "m"%char => v ← atoi optarg; Ret (Some (Options dbg nt nrt nc qps pl up v bpi nsp ncp sc nck nhb lc))
  | "p"%char => v ← atoi optarg; Ret (Some (Options dbg nt nrt nc qps v up mid bpi nsp ncp sc nck nhb lc))
  | "C"%char => v ← atoi optarg; Ret (Some (Options dbg nt nrt (u32 v) qps pl up mid bpi nsp ncp sc nck nhb lc))
  | "O"%char => v ← atoi optarg; Ret (Some (Options dbg nt (u32 v) nc qps pl up mid bpi nsp ncp sc nck nhb lc))
  | "q"%char => v ← atoi optarg; Ret (Some (Options dbg nt nrt nc (u32 v) pl up mid bpi nsp ncp sc nck nhb lc))
  | _ => Ret None
  end.

(* l3fwd/main.c:125-181 main *)
Fixpoint parse_options (argv : list token) (o : options) : outcome (option options) :=
  match argv with
  | [] => Ret (Some o)
  | t :: argv =>
      '(c, optarg) ← getopt_long t;
      r ← set_option c optarg o;
      match r with None => Ret None | Some o => parse_options argv o end
  end.

(** ** The workers' parameters *)

(** Without the members that [main] does not set and the pointers to the shared
    barrier, lock and RPC context. *)
(* l3fwd/main.h:43-64 thread_params *)
Record thread_params := Params {
  tp_id : Z;
  tp_start_core : Z;
  tp_base_port_index : Z;
  tp_num_server_ports : Z;
  tp_num_client_ports : Z;
  tp_postlist : Z;
  tp_node_cnt : Z;
  tp_sonuma_nid : Z;
  tp_qps_per_node : Z;
  tp_num_serv_threads : Z;
  tp_num_client_threads : Z;
  tp_num_keys : Z;
  tp_num_hash_buckets : Z;
  tp_log_capacity_bytes : Z;
  tp_run_debug_mode : Z;
}.

(* l3fwd/main.c:234-258 main *)
Definition fill_params (o : options) (i : Z) : thread_params :=
  Params i (o_start_core o) (o_base_port_index o) (o_num_server_ports o) (o_num_client_ports o)
    (o_postlist o) (o_node_cnt o) (u32 (o_machine_id o)) (o_qps o) (o_num_threads o)
    (o_num_rem_threads o) (o_num_client_keys o) (o_num_hash_buckets o) (o_log_cap o)
    (o_run_debug_mode o).

(** The parameters of the threads in the order of their creation, the allocations
    and the thread creations succeeding. [None]: the assertion [qps >= num_threads]
    fails; [pthread_barrier_init] refuses a count of 0, and [main] returns 1. *)
(* l3fwd/main.c:183-267 main *)
Definition launch (o : options) : option (Z * list thread_params) :=
  if o_qps o <? o_num_threads o then None
  else if o_num_threads o =? 0 then Some (1, [])
  else Some (0, map (fun i => fill_params o (Z.of_nat i)) (seq 0 (Z.to_nat (o_num_threads o)))).

(** ** A worker *)

(* rte_lib/rte_cuckoo_hash.h:137-137 RTE_MAX_ETHPORTS *)
Definition RTE_MAX_ETHPORTS : Z := 64.
(* rte_lib/rte_cuckoo_hash.h:138-138 RTE_ETHER_LOCAL_ADMIN_ADDR *)
Definition RTE_ETHER_LOCAL_ADMIN_ADDR : Z := 2.

(** The destination MAC table, [n] passes of the loop at most. *)
(* l3fwd/worker.c:88-95 run_worker *)
Definition init_dest_eth_addr (table : list Z) : outcome (list Z) :=
  '(_, table) ← while (Z.to_nat RTE_MAX_ETHPORTS) (fun st => fst st <? RTE_MAX_ETHPORTS)
    (fun st : Z * list Z =>
       let '(portid, table) := st in
       table ← wr table portid (u64 (RTE_ETHER_LOCAL_ADMIN_ADDR + u64 (Z.shiftl (u64 portid) 40)));
       Ret ((portid + 1)%u32, table))
    (0, table);
  Ret table.

(** What one call of [receiveRPCRequest_zsim_l3fwd] delivers: the request and the 16-bit
    node that is written through a pointer; [junk_node], [junk_qp] are the values that the
    uninitialised 64-bit locals happen to have before the call. *)
Record received := Received {
  rq_rpc : RPCWithHeader;
  rq_node : Z;
  junk_node : Z;
  junk_qp : Z;
}.

(** The 64-bit local after its low half-word is written through [(uint16_t * )]. *)
(* l3fwd/worker.c:149-157 run_worker *)
Definition low16 (junk v : Z) : Z := junk - u16 junk + u16 v.

(** The calls a worker makes, in order. *)
Inductive event :=
  | EvTimestamp (count : Z)
  | EvSend (size dest_node client_from qp_target send_qp : Z) (terminate skipcpy : bool) (count : Z)
  | EvRecvDone (cl_nid cl_tid serv_tid slot free_size : Z)
  | EvNotifyDone.

(* l3fwd/worker.c:168-213 run_worker *)
Definition serve (nid wrkr_lid tmp_count nb_tx_tot : Z) (r : received) : list event :=
  let source_node_id := low16 (junk_node r) (rq_node r) in
  let source_qp_to_reply := junk_qp r in
  [EvTimestamp tmp_count; EvTimestamp tmp_count;
   EvSend 64 (u32 source_node_id) nid (u32 source_qp_to_reply) wrkr_lid true true (u32 nb_tx_tot);
   EvTimestamp tmp_count;
   EvRecvDone nid wrkr_lid 0 (payload (rq_rpc r)) 64;
   EvTimestamp tmp_count].

(** The loop of the worker over the requests it receives; when they run out, the
    worker waits for ever. [tmp_count] is an [int], [nb_tx_tot] a [long long]. *)
(* l3fwd/worker.c:146-222 run_worker *)
Fixpoint worker_loop (nid wrkr_lid : Z) (reqs : list received) (tmp_count rolling_iter nb_tx_tot : Z)
    : outcome (list event * Z) :=
  match reqs with
  | [] => Spin
  | r :: reqs =>
      if payload_len (rq_rpc r) =? 57005 then Ret ([], tmp_count)
      else if tmp_count =? 2 ^ 31 - 1 then Undef
      else
        let tmp_count := tmp_count + 1 in
        let evs := serve nid wrkr_lid tmp_count nb_tx_tot r in
        '(rest, n) ← worker_loop nid wrkr_lid reqs tmp_count (rolling_iter + 1) (nb_tx_tot + 1);
        Ret (evs ++ rest, n)
  end.

(** A worker from its start: the MAC table, the calls, the number of requests served. *)
(* l3fwd/worker.c:70-231 run_worker *)
Definition run_worker (params : thread_params) (dest_eth_addr : list Z) (reqs : list received)
    : outcome (list Z * list event * Z) :=
  dest_eth_addr ← init_dest_eth_addr dest_eth_addr;
  let wrkr_lid := tp_id params in
  '(evs, tmp_count) ← worker_loop (tp_sonuma_nid params) wrkr_lid reqs 0 0 0;
  Ret (dest_eth_addr, evs ++ [EvNotifyDone], tmp_count).

(** ** Routes *)

(* l3fwd/em_l3f.c:28-34 ipv6_5tuple *)
Record ipv6_5tuple := Tuple6 {
  ip_dst : list Z;
  ip_src : list Z;
  port_dst : Z;
  port_src : Z;
  proto : Z;
}.
(* l3fwd/em_l3f.c:36-39 ipv6_l3fwd_em_route *)
Record ipv6_l3fwd_em_route := Route { r_tuple : ipv6_5tuple; if_out : Z }.

(* l3fwd/em_l3f.c:41-44 ipv6_l3fwd_em_route_array *)
Definition route (i : Z) : ipv6_l3fwd_em_route :=
  Route (Tuple6 [32; 1; 2; 0; 0; 0; 0; i; 0; 0; 0; 0; 0; 0; 0; 0]
                [32; 1; 2; 0; 0; 0; 0; i; 0; 0; 0; 0; 0; 0; 0; 1] 9 9 17) i.
(* l3fwd/em_l3f.c:40-73 ipv6_l3fwd_em_route_array *)
Definition ipv6_l3fwd_em_route_array : list ipv6_l3fwd_em_route :=
  [route 0; route 1; route 2; route 3; route 4; route 5; route 6; route 7;
   route 8; route 9; route 10; route 11; route 12; route 13; route 14; route 15].

(** The bytes of a key: the struct is packed and the machine little-endian. *)
Definition tuple_bytes (k : ipv6_5tuple) : list Z :=
  ip_dst k ++ ip_src k ++ [port_dst k mod 256; port_dst k / 256; port_src k mod 256;
    port_src k / 256; proto k].

(* l3fwd/em_l3f.c:77-81 ipv6_hash_crc *)
Definition ipv6_hash_crc (data : list Z) (init_val : Z) : Z := 0.

(** ** Theorems: the worker *)


Lemma low16_u32 junk v : is_u64 junk -> is_u16 v ->
  u32 (low16 junk v) = u32 junk - u16 junk + v.
Proof. intros Hj Hv. unfold low16. wrap_lia. Qed.

(** The reply's address: the worker passes its 64-bit locals as 32-bit arguments. Only the
    low 16 bits of the node were written: they are those of the requester, but the reply
    goes to the requester's node exactly when bits 16 to 31 of the uninitialised local
    happened to be zero. The queue pair was not written at all. *)
Theorem reply_address nid id count n r :
  is_u64 (junk_node r) -> is_u16 (rq_node r) ->
  exists dest, EvSend 64 dest nid (u32 (junk_qp r)) id true true (u32 n) ∈ serve nid id count n r /\
    u16 dest = rq_node r /\ (dest = rq_node r <-> u32 (junk_node r) < 65536).
Proof.
  intros Hj Hn. exists (u32 (low16 (junk_node r) (rq_node r))).
  split; [unfold serve; do 2 right; left|]. rewrite !low16_u32 by done. wrap_lia.
Qed.

(** Loops of [init_dest_eth_addr]. *)
Definition mac_entry (portid : Z) : Z := 2 + portid * 2 ^ 40.

Lemma mac_value portid : 0 <= portid < 64 ->
  u64 (RTE_ETHER_LOCAL_ADMIN_ADDR + u64 (Z.shiftl (u64 portid) 40)) = mac_entry portid.
Proof.
  intros Hp. rewrite (u64_small portid) by lia. rewrite Z.shiftl_mul_pow2 by lia.
  rewrite (u64_small (portid * _)) by lia. unfold RTE_ETHER_LOCAL_ADMIN_ADDR, mac_entry.
  apply u64_small. lia.
Qed.

Lemma init_dest_eth_addr_run table : length table = 64%nat ->
  init_dest_eth_addr table = Ret (map (fun i => mac_entry (Z.of_nat i)) (seq 0 64)).
Proof.
  intros Hl. unfold init_dest_eth_addr.
  rewrite (while_count _ _
    (fun j => (Z.of_nat j, map (fun i => mac_entry (Z.of_nat i)) (seq 0 j) ++ drop j table)) 64).
  - cbn [mbind outcome_bind]. by rewrite (drop_ge table), app_nil_r by lia.
  - done.
  - intros j Hj. apply Z.ltb_lt. cbn. unfold RTE_MAX_ETHPORTS. lia.
  - intros j Hj. rewrite mac_value by lia.
    assert (Hlj : length (map (fun i => mac_entry (Z.of_nat i)) (seq 0 j)) = j)
      by by rewrite length_map, length_seq.
    rewrite wr_Ret by (rewrite length_app, Hlj, length_drop; lia). cbn [mbind outcome_bind].
    rewrite u32_small by lia. f_equal. f_equal; [lia|]. rewrite Nat2Z.id.
    destruct (lookup_lt_is_Some_2 table j) as [x Hx]; [lia|]. rewrite (drop_S _ _ _ Hx).
    rewrite seq_S, map_app, <- app_assoc.
    rewrite <- Hlj at 1. rewrite <- (Nat.add_0_r (length (map _ _))).
    by rewrite insert_app_r.
  - by cbn.
Qed.

(** The bytes of a 64-bit word in memory. *)
Definition bytes64 (v : Z) : list Z := map (fun i => (v / 2 ^ (8 * Z.of_nat i)) mod 256) (seq 0 8).

(** The destination table: after the loop, entry [portid] of [dest_eth_addr], read as
    bytes in memory order, is the MAC address 02:00:00:00:00:xx with xx the port number,
    as the comment in the source says, for each of the 64 ports; the loop writes inside
    the array and ends. *)
Theorem dest_eth_addr_macs table : length table = 64%nat ->
  exists table', init_dest_eth_addr table = Ret table' /\ length table' = 64%nat /\
    forall portid, 0 <= portid < RTE_MAX_ETHPORTS ->
      exists v, rd table' portid = Ret v /\ bytes64 v = [2; 0; 0; 0; 0; portid; 0; 0].
Proof.
  intros Hl. rewrite init_dest_eth_addr_run by done. eexists. split; [done|].
  split; [done|]. intros portid Hp. change RTE_MAX_ETHPORTS with 64 in Hp.
  exists (mac_entry portid). split.
  - apply rd_Ret; [lia|]. rewrite list_lookup_fmap, lookup_seq_lt by lia. cbn. do 2 f_equal. lia.
  - unfold bytes64, mac_entry. cbn [seq map].
    repeat match goal with |- context [8 * Z.of_nat ?k] =>
      let z := eval cbv in (8 * Z.of_nat k) in change (8 * Z.of_nat k) with z end.
    repeat f_equal; Z.div_mod_to_equations; lia.
Qed.

(** ** Theorems: the options *)

Lemma parse_step t c arg argv o o' :
  getopt_long t = Ret (c, arg) -> set_option c arg o = Ret (Some o') ->
  parse_options (t :: argv) o = parse_options argv o'.
Proof. intros E1 E2. cbn. rewrite E1. cbn. by rewrite E2. Qed.

(** A well-formed command line: with decimal arguments in range, [main] parses the
    thread, queue-pair, node and machine options, checks [qps >= num_threads], and starts
    [t] workers whose ids are 0 to [t - 1] in order, each with the parsed values, the
    default start core 3 and no postlist. *)
Theorem command_line_launches t q nodes machine :
  0 < t <= q -> q < 2 ^ 31 -> 0 <= nodes < 2 ^ 31 -> 0 <= machine < 2 ^ 31 ->
  exists o ps,
    parse_options [Long "num-threads" (Some (decimal t)); Long "qps-to-create" (Some (decimal q));
      Long "total-nodes" (Some (decimal nodes)); Short "m" (Some (decimal machine))]
      default_options = Ret (Some o) /\
    launch o = Some (0, ps) /\ Z.of_nat (length ps) = t /\
    forall i, 0 <= i < t -> exists p, rd ps i = Ret p /\ tp_id p = i /\
      tp_num_serv_threads p = t /\ tp_qps_per_node p = q /\ tp_node_cnt p = nodes /\
      tp_sonuma_nid p = machine /\ tp_start_core p = 3 /\ tp_postlist p = -1.
Proof.
  intros Ht Hq Hn Hm. eexists.
  exists (map (fun i => fill_params (Options 0 t 0 nodes q (-1) (-1) machine (-1) (-1) (-1) 3
    (1024 * 1024) (2 * 1024 * 1024) (8 * 1024 * 1024)) (Z.of_nat i)) (seq 0 (Z.to_nat t))).
  split; [|split; [|split]].
  - erewrite parse_step; [|reflexivity|cbn [set_option default_options]; rewrite atol_decimal by lia; reflexivity].
    erewrite parse_step; [|reflexivity|cbn [set_option default_options]; rewrite atoi_decimal by lia; reflexivity].
    erewrite parse_step; [|reflexivity|cbn [set_option default_options]; rewrite atoi_decimal by lia; reflexivity].
    erewrite parse_step; [|reflexivity|cbn [set_option default_options]; rewrite atoi_decimal by lia; reflexivity].
    cbn [parse_options]. rewrite !u32_small by lia. reflexivity.
  - unfold launch. cbn [o_qps o_num_threads].
    rewrite (proj2 (Z.ltb_ge q t)), (proj2 (Z.eqb_neq t 0)) by lia. done.
  - rewrite length_map, length_seq. lia.
  - intros i Hi. eexists. split.
    + apply rd_Ret; [lia|]. rewrite list_lookup_fmap, lookup_seq_lt by lia. reflexivity.
    + cbn. rewrite u32_small by lia. repeat split; lia.
Qed.

(** The options that cannot be used: [-p] is declared without an argument in the
    short-option string but its value is read, a null dereference; [--master] and
    [--is-client] (and [-M], [-c]) are declared and then abort in the default case of the
    switch; [-s] is in the switch and in the long-option table but not in the short-option
    string, and aborts; a long name that is not in the table runs off its end, which has
    no terminating entry; and the program aborts when fewer queue pairs than threads are
    asked for. *)
Theorem rejected_options arg a rest o :
  parse_options (Short "p" arg :: rest) o = Undef /\
  parse_options (Long "master" (Some a) :: rest) o = Ret None /\
  parse_options (Long "is-client" (Some a) :: rest) o = Ret None /\
  parse_options (Short "M" (Some a) :: rest) o = Ret None /\
  parse_options (Short "c" (Some a) :: rest) o = Ret None /\
  parse_options (Short "s" (Some a) :: rest) o = Ret None /\
  (forall name, ~ (name ∈ map fst opts) -> parse_options (Long name arg :: rest) o = Undef) /\
  (launch o = None <-> o_qps o < o_num_threads o).
Proof.
  destruct o. repeat (split; [reflexivity|]). split.
  - intros name Hn. cbn [parse_options getopt_long].
    assert (find (fun e => String.eqb (fst e) name) opts = None) as ->; [|done].
    destruct (find _ opts) as [e|] eqn:E; [|done]. apply find_some in E as [He E].
    apply String.eqb_eq in E as <-. destruct Hn. by apply list_elem_of_In, in_map.
  - unfold launch. cbn [o_qps o_num_threads].
    match goal with |- context [?x <? ?y] => destruct (Z.ltb_spec x y) end; [split; [lia|done]|].
    destruct (_ =? 0); split; (done || lia).
Qed.

(** ** Theorems: the routes *)

(** The route table: its sixteen keys have the 37 bytes of the packed struct, differ in
    their first eight bytes already (so the comparison of eight bytes tells them apart),
    and route [i] leads to interface [i]. *)
Theorem route_table_keys :
  Forall (fun r => length (tuple_bytes (r_tuple r)) = 37%nat) ipv6_l3fwd_em_route_array /\
  NoDup (map (fun r => prefix8 (tuple_bytes (r_tuple r))) ipv6_l3fwd_em_route_array) /\
  map if_out ipv6_l3fwd_em_route_array = map Z.of_nat (seq 0 16).
Proof.
  split; [by repeat constructor|]. split; [|done].
  apply (bool_decide_unpack _). by vm_compute.
Qed.

(** The hash function [ipv6_hash_crc] is the constant 0, so that all its keys share
    bucket 0 as primary and as alternative bucket: in any well-formed table, of whatever
    size but without extendable buckets, at most eight keys are ever stored, and the sixteen
    routes do not fit. *)
Theorem ipv6_hash_crc_stores_eight L h ks :
  hash_ok L h -> ext_table_support h = false -> NoDup ks -> (forall k, k ∈ ks -> stored_in L k) ->
  (forall k, stored_in L k -> ly_hash L k = ipv6_hash_crc (k_key (entry_at h k)) (hash_func_init_val h)) ->
  (length ks <= 8 < length ipv6_l3fwd_em_route_array)%nat.
Proof.
  intros Hok Hx Hnd Hks Hhs. split; [|cbn; lia].
  destruct (hk_table _ _ Hok) as [HB [Hv Hc _ Hz]]. pose proof (hk_size _ _ Hok) as Hk0.
  assert (Hmain : forall k, stored_in L k -> ly_main L k).
  { intros k [Hk|Hk]; [done|exfalso]. destruct (ep_cover _ _ _ _ _ (hk_ext _ _ Hok) k Hk) as (b & e & i & (Hb & He & _) & _).
    pose proof (hk_spare _ _ Hok) as Hs. rewrite Hx in Hs. rewrite (Hs b Hb) in He. by apply elem_of_nil in He. }
  assert (H0 : 0 <= 0 < 2 ^ ly_bits L) by (pose proof (Z.pow_pos_nonneg 2 (ly_bits L)); lia).
  destruct (bkt_shape _ _ _ HB 0 H0) as (_ & Hl & _). rewrite <- Hl.
  apply submseteq_length, NoDup_submseteq; [done|]. intros k Hk. apply Hks in Hk.
  destruct (Hc k (Hmain k Hk)) as (b & i & Hin & _ & E).
  assert (Hkn : k <> 0) by (intros ->; by apply Hz, Hmain).
  destruct (Hv b i Hin) as [_ [_ Hb]]; [done|congruence|].
  rewrite E, (Hhs k Hk) in Hb.
  assert (b = 0) as -> by (destruct Hb as [-> | ->]; done).
  rewrite <- E. unfold idx_at. apply list_elem_of_lookup_total_2.
  destruct Hin as [_ Hi]. lia.
Qed.

(** ** Witnesses *)

Definition demo_params : thread_params :=
  fill_params (Options 0 2 0 3 4 (-1) (-1) 1 (-1) (-1) (-1) 3 0 0 0) 1.
Definition demo_request (slot len node junk : Z) : received :=
  Received (Rpc 0 0 0 0 node slot len) node junk 5.
Definition demo_requests : list received :=
  [demo_request 4096 64 7 0; demo_request 8192 57006 8 983040].


Lemma reply_address_witness :
  exists dest, EvSend 64 dest 1 5 1 true true (u32 1) ∈ serve 1 1 2 1 (demo_request 8192 64 8 983040) /\ dest <> 8.
Proof.
  destruct (reply_address 1 1 2 1 (demo_request 8192 64 8 983040)) as (dest & E & _ & Hd); [cbn; lia..|].
  exists dest. split; [exact E|]. intros H. apply Hd in H. vm_compute in H. discriminate H.
Defined.

Lemma dest_eth_addr_macs_witness :
  exists table', init_dest_eth_addr (repeat 0 64) = Ret table' /\
    exists v, rd table' 63 = Ret v /\ bytes64 v = [2; 0; 0; 0; 0; 63; 0; 0].
Proof.
  destruct (dest_eth_addr_macs (repeat 0 64) eq_refl) as (t & E & _ & H).
  exists t. split; [exact E|]. apply H. unfold RTE_MAX_ETHPORTS. lia.
Defined.

Lemma command_line_launches_witness :
  exists o ps,
    parse_options [Long "num-threads" (Some "2"%string); Long "qps-to-create" (Some "4"%string);
      Long "total-nodes" (Some "3"%string); Short "m" (Some "1"%string)] default_options = Ret (Some o) /\
    launch o = Some (0, ps) /\ Z.of_nat (length ps) = 2.
Proof.
  destruct (command_line_launches 2 4 3 1) as (o & ps & E & L & N & _); [lia..|].
  exists o, ps. split; [exact E|]. split; [exact L|exact N].
Defined.

Lemma rejected_options_witness :
  parse_options [Long "maste" (Some "x"%string)] default_options = Undef.
Proof.
  destruct (rejected_options (Some "x"%string) "x" [] default_options) as (_ & _ & _ & _ & _ & _ & H & _).
  apply H. apply (bool_decide_unpack _). by vm_compute.
Defined.

Lemma ipv6_hash_crc_stores_eight_witness :
  exists h, (exists r, __rte_hash_add_key_with_hash 1 demo0 (demo_key 9) (ipv6_hash_crc (demo_key 9) 0) 55 =
    Ret (h, r)) /\ (length [1] <= 8 < length ipv6_l3fwd_em_route_array)%nat.
Proof.
  destruct (add_key_new_cases 0 (empty_layout 1) demo0 (demo_key 9) 55 0 demo0_ok (le_n 0)) with
    (slot := 1) (rest := [2; 3; 4]) as (h' & ret & E & [[-> (_ & _ & (L' & Hg & Hok) & _ & _ & Hx)]|[_ [(_ & _ & _ & _ & _ & _ & Hf)|(_ & _ & _ & _ & Hf & _)]]]).
  - cbn; lia.
  - cbn; lia.
  - split; [cbn; by intros [=]|by intros k [[]|[]]].
  - reflexivity.
  - exists h'. split; [exists 0; exact E|].
    assert (Hst : forall k, stored_in L' k -> k = 1) by (intros k [[[]|[]]|Hk]%(gr_stored _ _ _ _ Hg); exact Hk).
    apply (ipv6_hash_crc_stores_eight L' h' [1] Hok).
    + unfold ext_left in Hx. destruct (ext_table_support h'); [|reflexivity]. destruct Hx as [Hx|(? & ? & Hx & _)]; discriminate Hx.
    + apply NoDup_singleton.
    + intros k Hk. apply (gr_stored _ _ _ _ Hg). right. by apply list_elem_of_singleton in Hk.
    + intros k Hk. rewrite (gr_hash _ _ _ _ Hg), (Hst k Hk). reflexivity.
  - exfalso. apply (Hf 0); [lia|reflexivity].
  - discriminate Hf.
Defined.
