(* ===== verification/Worker.v ===== *)
(** * A worker on its queue pair

    [worker.c] composed with the RPC library and the queues of the network interface: the
    service loop that receives, replies and releases through [Rpc], on the memory of the
    local buffer. [worker_refines] relates it to the worker of [L3fwd], which only sees the
    requests: for any responsive interface that ends the run, the loop returns, and the requests
    it posts are those of the calls that [worker_loop] makes for the messages received, less the
    releases that find the work queue full. *)

From S2P Require Import Prelude Bytes Nic NicSpec NicDevice Cbuf Rpc L3fwd.
From stdpp Require Import strings.

Open Scope Z_scope.

(** What the uninitialised locals and members hold in one iteration. *)
Record garbage := Garbage {
  g_ret : successStruct;
  g_rpc : RPCWithHeader;
  g_node : Z;
  g_qp : Z;
}.

Section Service.
Context {N : Type}.
Variable nic : iface N.
Variable client_done : N -> bool.
Variable fuel : nat.
Variable junk : Z -> garbage.

(** The loop of the worker; [raw_data] is the address of its array, [n] passes at most. *)
(* l3fwd/worker.c:143-222 run_worker *)
Fixpoint service_loop (n : nat) (s : N) (ctx : rpcNUMAContext) (m : memory) (myLocalBuffer raw_data wrkr_lid : Z)
    (tmp_count nb_tx_tot : Z) : outcome (N * rpcNUMAContext * memory * Z) :=
  let g := junk nb_tx_tot in
  '(s, ctx, rpc, written) ← receiveRPCRequest_zsim_l3fwd nic client_done fuel s ctx wrkr_lid (g_ret g) (g_rpc g);
  if payload_len rpc =? 57005 then Ret (s, ctx, m, tmp_count)
  else if tmp_count =? 2 ^ 31 - 1 then Undef
  else
    match n with
    | O => Spin
    | S n =>
        let tmp_count := tmp_count + 1 in
        let source_node_id := match written with Some v => low16 (g_node g) v | None => g_node g end in
        '(s, ctx, m) ← sendToNode_zsim nic fuel s ctx m myLocalBuffer 64 (u32 source_node_id) wrkr_lid raw_data true
                         (u32 nb_tx_tot);
        '(s, ctx) ← do_Recv_zsim nic s ctx wrkr_lid (payload rpc) 64;
        service_loop n s ctx m myLocalBuffer raw_data wrkr_lid tmp_count (nb_tx_tot + 1)
    end.

(** From the registration of the buffer and the queues on; the simulator chooses the address
    of the buffer and the initial queues. *)
(* l3fwd/worker.c:104-146 run_worker *)
Definition worker_main (s : N) (ctx : rpcNUMAContext) (m : memory) (lbuf raw_data : Z) (wq : rmc_wq) (cq : rmc_cq)
    (params : thread_params) : outcome (N * rpcNUMAContext * memory * Z) :=
  let wrkr_lid := tp_id params in
  '(ctx, myLocalBuffer) ← registerNewLocalBuffer ctx lbuf wrkr_lid;
  ctx ← registerNewSONUMAQP ctx wq cq wrkr_lid;
  service_loop fuel s ctx m myLocalBuffer raw_data wrkr_lid 0 0.
End Service.

(** ** The calls on a registered queue pair *)

(** The worker's entry of the context. *)
Record registered (ctx : rpcNUMAContext) (i : Z) (id : Z) (wq : rmc_wq) (cq : rmc_cq) : Prop := {
  rg_qp : rd (qps ctx) i = Ret (Some (QP id wq cq));
  rg_ctx_id : ctx_id (ctx_struct ctx) = SR_CTX_ID;
  rg_msgs : msgs_per_dest (ctx_struct ctx) = MSGS_PER_PAIR;
  rg_size : msg_entry_size (ctx_struct ctx) = RPC_MAX_PAYLOAD;
}.

Lemma get_registered ctx i id wq cq : registered ctx i id wq cq -> get_qp ctx i = Ret (QP id wq cq).
Proof. intros [H _ _ _]. unfold get_qp, at_. by rewrite H. Qed.

Lemma set_registered ctx i id wq cq wq' cq' : registered ctx i id wq cq ->
  exists ctx', set_qp ctx i (QP id wq' cq') = Ret ctx' /\ registered ctx' i id wq' cq'.
Proof.
  intros [H H1 H2 H3]. apply rd_inv in H as [Hi Hl]. pose proof (lookup_lt_Some _ _ _ Hl).
  unfold set_qp. rewrite wr_Ret by lia. cbn [mbind outcome_bind]. eexists. split; [done|].
  split; cbn [qps ctx_struct]; try done. apply rd_Ret; [done|]. by apply list_lookup_insert_eq.
Qed.

Lemma registered_bound ctx i id wq cq : registered ctx i id wq cq -> (Z.of_nat (length (qps ctx)) <? i) = false.
Proof.
  intros [H _ _ _]. apply rd_inv in H as [Hi Hl]. pose proof (lookup_lt_Some _ _ _ Hl). apply Z.ltb_ge. lia.
Qed.

(** What the simulator does at the end of a run: it sets the flag of the worker after a
    bounded number of passes, and leaves it set. *)
Class Stops {N} (nic : iface N) (client_done : N -> bool) (delay : N -> nat) : Prop := {
  stops s wq cq s' wq' cq' : nic s wq cq = (s', wq', cq') ->
    client_done s' = true \/ (client_done s = false /\ (delay s' < delay s)%nat);
}.

(** What a call posts, when the local buffer is at [buf]. *)
Definition post_of (buf : Z) (ev : event) : option post :=
  match ev with
  | EvSend size dest _ _ _ _ _ count =>
      Some (Post RMC_SEND SR_CTX_ID dest (buf + 4 * (count mod 256 * 512)) (u64 (size + 63) / 64))
  | EvRecvDone _ _ _ slot free => Some (Post RMC_RECV SR_CTX_ID 0 slot free)
  | _ => None
  end.
Definition posts (log : list (post * bool)) : list post := log.*1.

(** The posts of a sequence of calls: a release whose post is refused is lost, since its caller does
    not look at the code; a send is repeated until it is not. *)
Inductive posted (buf : Z) : list event -> list post -> Prop :=
  | posted_none : posted buf [] []
  | posted_other ev evs ps : post_of buf ev = None -> posted buf evs ps -> posted buf (ev :: evs) ps
  | posted_kept ev evs p ps : post_of buf ev = Some p -> posted buf evs ps -> posted buf (ev :: evs) (p :: ps)
  | posted_lost a b c slot free evs ps : posted buf evs ps -> posted buf (EvRecvDone a b c slot free :: evs) ps.

Lemma posted_app buf evs ps evs' ps' : posted buf evs ps -> posted buf evs' ps' -> posted buf (evs ++ evs') (ps ++ ps').
Proof.
  intros H H'. induction H; cbn [app];
    [done|by apply posted_other|by apply posted_kept|by apply posted_lost].
Qed.

Lemma posts_completes log log' : completes log log' -> posts log' = posts log.
Proof.
  intros H. unfold posts. induction H as [|x y l l' [E _] _ IH]; [done|]. rewrite !fmap_cons. congruence.
Qed.

Lemma posts_app l k : posts (l ++ k) = posts l ++ posts k.
Proof. apply fmap_app. Qed.

(** What a call takes, for a caller that waits for a request. *)
Lemma hands_split got ret : hands got ret -> exists sk last, got = sk ++ last /\ Forall (fun c => is_send c = false) sk /\
  ((exists c, last = [c] /\ is_send c = true /\ carries c ret) \/ last = [] /\ ss_op ret <> RMC_INCOMING_SEND).
Proof.
  assert (Hns : forall l, Forall (fun d => ~ message d) l -> Forall (fun c => is_send c = false) l).
  { intros l H. eapply Forall_impl; [exact H|]. intros d Hd. apply Z.eqb_neq. intros E. apply Hd. by left. }
  intros [sk c -> Hsk _ Hcr|Hsk [He _]].
  - destruct (is_send c) eqn:Es; [exists sk, [c]; split; [done|]; split; [by apply Hns|]; left; by exists c|].
    exists (sk ++ [c]), []. rewrite app_nil_r. split; [done|].
    split; [apply Forall_app; split; [by apply Hns|by constructor]|]. right. split; [done|]. by rewrite (cr_op _ _ Hcr), Es.
  - exists got, []. rewrite app_nil_r. split; [done|]. split; [by apply Hns|by right].
Qed.

Section Calls.
Context {N : Type} (nic : iface N) (arrived : N -> list completion) (srw src : bool).
Context (patience : N -> rmc_wq -> nat) (wait : nat) (client_done : N -> bool) (delay : N -> nat) (fuel : nat).
Context `{!Responsive nic arrived srw src patience wait} `{!Stops nic client_done delay}.
Hypothesis enough : (128 <= fuel)%nat /\ (wait <= fuel)%nat.
Abbreviation holds := (pair_holds arrived srw src).

(** The run ends within [n] passes. *)
Definition ends (n : nat) (s : N) : Prop := client_done s = true \/ (delay s <= n)%nat.

Lemma ends_pass n s wq cq s' wq' cq' : nic s wq cq = (s', wq', cq') -> ends n s ->
  ends n s' /\ (client_done s' = false -> (delay s' < n)%nat).
Proof.
  intros E Hn. unfold ends in *. destruct (stops s wq cq s' wq' cq' E) as [H|[H Hlt]]; split; try tauto; try congruence.
  - destruct Hn; [congruence|]. right. lia.
  - destruct Hn; [congruence|]. lia.
Qed.

Lemma ends_passes n s s' : tc (pass nic) s s' -> ends n s -> ends n s' /\ (client_done s' = false -> (delay s' < n)%nat).
Proof.
  induction 1 as [s s' (wq & cq & wq' & cq' & E)|s s1 s' (wq & cq & wq' & cq' & E) _ IH]; intros Hn.
  - by eapply ends_pass.
  - destruct (ends_pass _ _ _ _ _ _ _ E Hn) as [Hn1 _]. by apply IH.
Qed.

(** One call of the poll. *)
Lemma check_run s wq cq log read junk : holds s wq cq log read ->
  exists s' wq' cq' ret, rmc_check_cq nic fuel junk s wq cq = Ret (s', wq', cq', ret) /\
    call_result nic arrived srw src s log read (Success 1 RMC_INVAL (ss_tid junk) (ss_recv_buf_addr junk)) (s', wq', cq', ret).
Proof.
  intros Hh. pose proof (responsive_bound s wq cq log read Hh) as Hp. destruct enough as [Hf Hw].
  destruct (check_passes_returns nic arrived srw src fuel fuel s wq cq log read
    (Success 1 RMC_INVAL (ss_tid junk) (ss_recv_buf_addr junk)) Hf ltac:(lia) Hh ltac:(done)) as ([[[s' wq'] cq'] ret] & E & H).
  by exists s', wq', cq', ret.
Qed.

(** The receiving loop: all but requests is skipped; the last completion is a request, unless the
    run has ended. *)
Lemma receive_loop n s wq cq log read junk r0 : holds s wq cq log read -> ends n s ->
  exists s' wq' cq' ret log' skipped last,
    do_while n (fun '(s, wq, cq, _) =>
      '(s, wq, cq, retd_from_rmc) ← rmc_check_cq nic fuel junk s wq cq;
      Ret (negb (ss_op retd_from_rmc =? RMC_INCOMING_SEND) && negb (client_done s), (s, wq, cq, retd_from_rmc)))
      (s, wq, cq, r0) = Ret (s', wq', cq', ret) /\
    completes log log' /\ holds s' wq' cq' log' (read ++ skipped ++ last) /\
    Forall (fun c => is_send c = false) skipped /\ ends n s' /\
    if client_done s' then (length last <= 1)%nat
    else (delay s' < n)%nat /\ exists c, last = [c] /\ is_send c = true /\ carries c ret.
Proof.
  revert s wq cq log read r0. induction n as [|n IH]; intros s wq cq log read r0 Hh Hn; cbn [do_while].
  all: destruct (check_run s wq cq log read junk Hh) as (s1 & wq1 & cq1 & ret & Hck & Hpass & log1 & got & Hc & Hh1 & Hg & _);
    rewrite Hck; cbn [mbind outcome_bind]; destruct (ends_passes _ _ _ Hpass Hn) as [Hn1 Hd1].
  all: pose proof (hands_split _ _ Hg) as Hgot.
  all: destruct Hgot as (sk & last & -> & Hsk & Hlast).
  all: destruct (client_done s1) eqn:Hdone; cbn [negb]; [rewrite andb_false_r|rewrite andb_true_r].
  1, 3: exists s1, wq1, cq1, ret, log1, sk, last; rewrite Hdone; split_and!; try done;
    destruct Hlast as [(c & -> & _)|[-> _]]; cbn; lia.
  { specialize (Hd1 eq_refl). lia. }
  specialize (Hd1 eq_refl). destruct Hlast as [(c & -> & Hs & Hcr)|[-> Hop]].
  - rewrite (cr_op _ _ Hcr), Hs. cbn [negb]. exists s1, wq1, cq1, ret, log1, sk, [c]. rewrite Hdone.
    split_and!; try done; try lia. by exists c.
  - rewrite (proj2 (Z.eqb_neq _ _) Hop). cbn [negb]. rewrite app_nil_r in Hh1.
    destruct (IH s1 wq1 cq1 log1 (read ++ sk) ret Hh1) as
      (s2 & wq2 & cq3 & ret2 & log2 & sk2 & last & E2 & Hc2 & Hh2 & Hsk2 & Hn2 & Hlast); [right; lia|].
    exists s2, wq2, cq3, ret2, log2, (sk ++ sk2), last. rewrite <- !app_assoc in *.
    split_and!; [exact E2|by trans log1|done|by apply Forall_app| |].
    + destruct Hn2; [by left|]. right. lia.
    + destruct (client_done s2); [done|]. destruct Hlast. split; [lia|done].
Qed.

(** A pass of the interface. *)
Lemma one_pass n s wq cq log read : holds s wq cq log read -> ends n s ->
  exists s1 wq1 cq1 log1, nic s wq cq = (s1, wq1, cq1) /\ completes log log1 /\
    holds s1 wq1 cq1 log1 read /\ ends n s1 /\ (slot_free wq1 -> log_full log1 = false) /\
    (slot_free wq1 \/ (patience s1 wq1 < patience s wq)%nat).
Proof.
  intros Hh Hn. destruct (device_step s wq cq log read Hh) as (s1 & wq1 & cq1 & log1 & new & E & _ & Hc & Hh1).
  exists s1, wq1, cq1, log1. split_and!; try done.
  - by destruct (ends_pass _ _ _ _ _ _ _ E Hn).
  - intros (e & He & Hv). destruct (head_entry _ _ _ (ph_wq _ _ _ _ _ _ _ _ Hh1)) as (e' & He' & Hv'). congruence.
  - by eapply responsive_step.
Qed.

(** A post; a refused one changes nothing. *)
Lemma post_run s wq cq log read a : holds s wq cq log read -> match a with AComplete _ => False | _ => True end ->
  exists wq', act a wq = Ret (wq', if log_full log then -1 else 0) /\ (log_full log = true -> wq' = wq) /\
    holds s wq' cq (if log_full log then log else log ++ [(request a, true)]) read.
Proof.
  intros [Hwq Hcq] Ha. assert (Hok : act_ok log a) by (by destruct a).
  destruct (act_refines _ _ _ a Hwq Hok) as (wq' & E & Hw). destruct (head_entry _ _ _ Hwq) as (e & He & Hv).
  assert (Hsame : log_full log = true -> wq' = wq).
  { intros Hf. rewrite Hf in Hv. destruct a; try done; cbn [act] in E; unfold rmc_hw_send, rmc_hw_recv in E;
      rewrite He in E; cbn [mbind outcome_bind] in E; rewrite Hv in E; by injection E. }
  exists wq'. destruct a; try done; cbn [act_log] in *; destruct (log_full log); by split_and!.
Qed.

Lemma send_loop_run n s wq cq log read c a l nid : holds s wq cq log read -> ends n s ->
  exists s1 wq1 cq1 log1, send_loop nic fuel s wq cq c a l nid = Ret (s1, wq1, cq1) /\ completes log log1 /\
    holds s1 wq1 cq1 (log1 ++ [(request (ASend c a l nid), true)]) read /\ ends n s1.
Proof.
  intros Hh Hn. pose proof (responsive_bound s wq cq log read Hh) as Hp. destruct enough as [_ Hw].
  set (body := fun '(s, wq, cq) => let '(s, wq, cq) := nic s wq cq in
    '(wq, send_ret) ← rmc_hw_send wq c a l nid; Ret (negb (send_ret =? 0), (s, wq, cq))).
  enough (exists s1 wq1 cq1 log1, do_while wait body (s, wq, cq) = Ret (s1, wq1, cq1) /\ completes log log1 /\
    holds s1 wq1 cq1 (log1 ++ [(request (ASend c a l nid), true)]) read /\ ends n s1)
    as (s1 & wq1 & cq1 & log1 & E & H).
  { exists s1, wq1, cq1, log1. split; [exact (do_while_fuel _ _ _ _ _ Hw E)|exact H]. }
  clear Hw. revert s wq cq log Hh Hn Hp. generalize wait. intros f. induction f as [|f IH]; intros s wq cq log Hh Hn Hp;
    destruct (one_pass n s wq cq log read Hh Hn) as (s1 & wq1 & cq1 & log1 & E & Hc & Hh1 & Hn1 & Hfree & Hpat);
    destruct (post_run s1 wq1 cq1 log1 read (ASend c a l nid) Hh1 I) as (wq2 & E2 & Hsame & Hh2); cbn [act] in E2;
    cbn [do_while body]; rewrite E, E2; cbn [mbind outcome_bind].
  all: destruct (log_full log1) eqn:Hf; cbn [negb Z.eqb]; [|by exists s1, wq2, cq1, log1].
  all: destruct Hpat as [Hpat|Hpat]; [by specialize (Hfree Hpat)|].
  - lia.
  - rewrite (Hsame eq_refl) in Hh2 |- *. destruct (IH s1 wq1 cq1 log1 Hh1 Hn1 ltac:(lia)) as (s3 & wq3 & cq3 & log3 & E3 & Hc3 & H3).
    exists s3, wq3, cq3, log3. split; [done|]. split; [by trans log1|done].
Qed.

(** The reply: the write into the local buffer, and the send. *)
Lemma sendToNode_run n s ctx m i id wq cq log read buf dest raw count :
  registered ctx i id wq cq -> holds s wq cq log read -> ends n s -> 0 <= count ->
  let addr := buf + 4 * (count mod 256 * 512) in
  in_memory m addr 4 ->
  exists s1 ctx1 m1 wq1 cq1 log1,
    sendToNode_zsim nic fuel s ctx m buf 64 dest i raw true count = Ret (s1, ctx1, m1) /\
    written m addr (le_bytes 4 4660) m1 /\ registered ctx1 i id wq1 cq1 /\ completes log log1 /\
    holds s1 wq1 cq1 (log1 ++ [(Post RMC_SEND SR_CTX_ID dest addr 1, true)]) read /\ ends n s1.
Proof.
  intros Hr Hh Hn Hcount addr Hm. unfold sendToNode_zsim.
  rewrite (rg_msgs _ _ _ _ _ Hr), (rg_size _ _ _ _ _ Hr), (rg_ctx_id _ _ _ _ _ Hr), (get_registered _ _ _ _ _ Hr).
  change MSGS_PER_PAIR with 256. change RPC_MAX_PAYLOAD with 512. change (256 =? 0) with false. cbn [mbind outcome_bind qp_wq qp_cq qp_id].
  pose proof (Z.mod_pos_bound count 256 ltac:(lia)).
  assert (Ea : getUnderlyingAddress buf (i32 (u64 (count mod 256 * 512))) = addr).
  { unfold getUnderlyingAddress, addr. rewrite u64_small by lia. unfold i32. rewrite u32_small by lia.
    by rewrite (proj2 (Z.ltb_lt _ _)) by lia. }
  rewrite Ea. destruct (wr_bytes_spec m addr (le_bytes 4 4660) Hm) as (m1 & -> & Hw). cbn [mbind outcome_bind].
  destruct (send_loop_run n s wq cq log read SR_CTX_ID addr 64 dest Hh Hn) as (s1 & wq1 & cq1 & log1 & -> & Hc & Hh1 & Hn1).
  cbn [mbind outcome_bind]. destruct (set_registered _ _ _ _ _ wq1 cq1 Hr) as (ctx1 & -> & Hr1). cbn [mbind outcome_bind].
  exists s1, ctx1, m1, wq1, cq1, log1. split; [done|]. by split_and!.
Qed.

(** The release: its post is refused if the queue is full after the pass. *)
Lemma do_Recv_run n s ctx i id wq cq log read slot : registered ctx i id wq cq -> holds s wq cq log read -> ends n s ->
  exists s1 ctx1 wq1 cq1 log1 ps, do_Recv_zsim nic s ctx i slot 64 = Ret (s1, ctx1) /\ registered ctx1 i id wq1 cq1 /\
    posts log1 = posts log ++ ps /\ holds s1 wq1 cq1 log1 read /\ ends n s1 /\
    (ps = [Post RMC_RECV SR_CTX_ID 0 slot 64] \/ ps = [] /\ ~ Eager nic arrived srw src).
Proof.
  intros Hr Hh Hn. unfold do_Recv_zsim. rewrite (registered_bound _ _ _ _ _ Hr), (get_registered _ _ _ _ _ Hr).
  cbn [mbind outcome_bind qp_wq qp_cq qp_id].
  destruct (one_pass n s wq cq log read Hh Hn) as (s1 & wq1 & cq1 & log1 & E & Hc & Hh1 & Hn1 & Hfree & _). rewrite E.
  destruct (post_run s1 wq1 cq1 log1 read (ARecv SR_CTX_ID slot 64) Hh1 I) as (wq2 & E2 & _ & Hh2).
  cbn [act] in E2. rewrite (rg_ctx_id _ _ _ _ _ Hr), E2. cbn [mbind outcome_bind].
  destruct (set_registered _ _ _ _ _ wq2 cq1 Hr) as (ctx1 & -> & Hr1). cbn [mbind outcome_bind].
  exists s1, ctx1, wq2, cq1, (if log_full log1 then log1 else log1 ++ [(Post RMC_RECV SR_CTX_ID 0 slot 64, true)]),
    (if log_full log1 then [] else [Post RMC_RECV SR_CTX_ID 0 slot 64]).
  split; [done|]. split; [done|]. destruct (log_full log1) eqn:Hf.
  - split; [by rewrite (posts_completes _ _ Hc), app_nil_r|]. split; [done|]. split; [done|]. right. split; [done|].
    intros He. by specialize (Hfree (eager_step s wq cq log read _ _ _ Hh E)).
  - split; [by rewrite posts_app, (posts_completes _ _ Hc)|]. split; [done|]. split; [done|]. by left.
Qed.

(** The whole receive. *)
Lemma receive_run s ctx i id wq cq log read jr j : registered ctx i id wq cq -> holds s wq cq log read -> ends fuel s ->
  exists s' ctx' wq' cq' rpc w log' skipped last,
    receiveRPCRequest_zsim_l3fwd nic client_done fuel s ctx i jr j = Ret (s', ctx', rpc, w) /\
    registered ctx' i id wq' cq' /\ completes log log' /\ holds s' wq' cq' log' (read ++ skipped ++ last) /\
    Forall (fun c => is_send c = false) skipped /\ ends fuel s' /\
    if client_done s' then (length last <= 1)%nat /\ payload_len rpc = 57005
    else client_done s = false /\ (delay s' < delay s)%nat /\ exists c, last = [c] /\ is_send c = true /\
      rpc = Rpc (rpc_len j) (rpc_type j) (rpc_id j) (senders_qp j) (u16 (c_tid c)) (c_addr c) (payload_len j) /\
      w = Some (u16 (c_tid c)).
Proof.
  intros Hr Hh Hn. unfold receiveRPCRequest_zsim_l3fwd. rewrite (get_registered _ _ _ _ _ Hr).
  cbn [mbind outcome_bind qp_wq qp_cq qp_id].
  set (n := if client_done s then O else delay s).
  assert (Hn0 : ends n s) by (unfold n, ends; destruct (client_done s); [by left|by right]).
  assert (Hle : (n <= fuel)%nat) by (unfold n; destruct Hn as [->|]; [lia|]; destruct (client_done s); lia).
  destruct (receive_loop n s wq cq log read jr jr Hh Hn0) as
    (s' & wq' & cq' & ret & log' & sk & last & E & Hc & Hh' & Hsk & Hn' & Hlast).
  rewrite (do_while_fuel _ _ _ _ _ Hle E). cbn [mbind outcome_bind].
  destruct (set_registered _ _ _ _ _ wq' cq' Hr) as (ctx' & -> & Hr'). cbn [mbind outcome_bind].
  assert (Hf : ends fuel s') by (destruct Hn'; [by left|right; lia]).
  destruct (client_done s') eqn:Hd; eexists s', ctx', wq', cq', _, _, log', sk, last;
    (split; [done|]; split; [done|]; split; [done|]; split; [done|]; split; [done|]; split; [done|]; rewrite ?Hd).
  - done.
  - destruct Hlast as (Hlt & c & -> & Hs & [_ Et Ea]). unfold n in Hlt. destruct (client_done s); [lia|].
    split; [done|]. split; [done|]. exists c. by rewrite Et, Ea.
Qed.

(** ** The service loop *)

(** The requests that the worker of [L3fwd] would have received. *)
Definition received_of (g : garbage) (c : completion) : received :=
  Received (Rpc (rpc_len (g_rpc g)) (rpc_type (g_rpc g)) (rpc_id (g_rpc g)) (senders_qp (g_rpc g)) (u16 (c_tid c))
              (c_addr c) (payload_len (g_rpc g)))
           (u16 (c_tid c)) (g_node g) (g_qp g).
Fixpoint requests (junk : Z -> garbage) (k : Z) (served : list completion) : list received :=
  match served with [] => [] | c :: served => received_of (junk k) c :: requests junk (k + 1) served end.
Definition stop_request : received := Received (Rpc 0 0 0 0 0 0 57005) 0 0 0.

(** The part of the memory a worker may write: the local buffer with the stride it uses. *)
Definition buffer_bytes : nat := Z.to_nat (4 * (255 * 512) + 4).

Lemma buffer_slot m buf count : in_memory m buf buffer_bytes -> in_memory m (buf + 4 * (count mod 256 * 512)) 4.
Proof.
  unfold in_memory, buffer_bytes. pose proof (Z.mod_pos_bound count 256 ltac:(lia)). lia.
Qed.

(** Why the worker stops after the requests [served] from number [nb] on, with [dropped] read besides. *)
Definition stopped (junk : Z -> garbage) (nb : Z) (s : N) (served dropped : list completion) : Prop :=
  client_done s = true /\ (length dropped <= 1)%nat \/
  payload_len (g_rpc (junk (nb + Z.of_nat (length served)))) = 57005 /\ length dropped = 1%nat.

(** The outcome [r] of the loop from a state with log [log] and completions [read]: what it has done
    is what the worker of [L3fwd] does from [cnt], [it] and [nb] on. *)
Definition loop_result (junk : Z -> garbage) (m : memory) (buf i id : Z) (log : list (post * bool)) (read : list completion)
    (cnt nb nid it : Z) (r : outcome (N * rpcNUMAContext * memory * Z)) : Prop :=
  exists s' ctx' m' wq' cq' log' read' served dropped evs ps,
    r = Ret (s', ctx', m', cnt + Z.of_nat (length served)) /\
    registered ctx' i id wq' cq' /\ holds s' wq' cq' log' read' /\ stopped junk nb s' served dropped /\
    filter is_send read' = filter is_send read ++ served ++ dropped /\
    worker_loop nid i (requests junk nb served ++ [stop_request]) cnt it nb = Ret (evs, cnt + Z.of_nat (length served)) /\
    posts log' = posts log ++ ps /\ posted buf evs ps /\ (Eager nic arrived srw src -> ps = omap (post_of buf) evs) /\
    (forall b, b < buf \/ buf + Z.of_nat buffer_bytes <= b -> byte_at m' b = byte_at m b).

(** The end of the loop. *)
Lemma loop_end junk s ctx m buf i id wq cq log log1 read sk last cnt nb nid it :
  registered ctx i id wq cq -> completes log log1 -> holds s wq cq log1 (read ++ sk ++ last) ->
  filter is_send sk = [] -> stopped junk nb s [] (filter is_send last) ->
  loop_result junk m buf i id log read cnt nb nid it (Ret (s, ctx, m, cnt)).
Proof.
  intros Hr Hc Hh Hsk Hwhy. exists s, ctx, m, wq, cq, log1, (read ++ sk ++ last), [], (filter is_send last), [], [].
  cbn [length requests app worker_loop stop_request rq_rpc payload_len omap Z.eqb Pos.eqb].
  rewrite Z.add_0_r. split_and!; try done.
  - by rewrite !filter_app, Hsk.
  - by rewrite (posts_completes _ _ Hc), app_nil_r.
  - constructor.
Qed.

Lemma filter_no_sends l : Forall (fun c => is_send c = false) l -> filter is_send l = [].
Proof. induction 1 as [|c l Hc _ IH]; [done|]. rewrite filter_cons_False; [done|]. rewrite Hc. by intros []. Qed.

(** The posts of one request. *)
Lemma posted_serve buf nid i cnt nb g c ps :
  ps = [Post RMC_RECV SR_CTX_ID 0 (c_addr c) 64] \/ ps = [] ->
  posted buf (serve nid i cnt nb (received_of g c))
    (Post RMC_SEND SR_CTX_ID (u32 (low16 (g_node g) (u16 (c_tid c)))) (buf + 4 * (u32 nb mod 256 * 512)) 1 :: ps).
Proof.
  intros H. cbn [serve]. do 2 (apply posted_other; [done|]). apply posted_kept; [done|]. apply posted_other; [done|].
  destruct H as [->| ->]; [apply posted_kept; [done|]|apply posted_lost]; (apply posted_other; [done|constructor]).
Qed.

Lemma service_run junk n s ctx m buf raw i id wq cq log read cnt nb nid it :
  registered ctx i id wq cq -> holds s wq cq log read -> ends n s -> (n <= fuel)%nat ->
  in_memory m buf buffer_bytes -> 0 <= cnt -> cnt + Z.of_nat n < 2 ^ 31 - 1 -> 0 <= nb ->
  loop_result junk m buf i id log read cnt nb nid it (service_loop nic client_done fuel junk n s ctx m buf raw i cnt nb).
Proof.
  revert s ctx m wq cq log read cnt nb it.
  induction n as [|n IH]; intros s ctx m wq cq log read cnt nb it Hr Hh Hn Hle Hm Hcnt Hmax Hnb; cbn [service_loop];
    assert (Hf : ends fuel s) by (destruct Hn; [by left|right; lia]);
    destruct (receive_run s ctx i id wq cq log read (g_ret (junk nb)) (g_rpc (junk nb)) Hr Hh Hf) as
      (s1 & ctx1 & wq1 & cq1 & rpc & w & log1 & sk & last & -> & Hr1 & Hc1 & Hh1 & Hsk & Hf1 & Hlast);
    cbn [mbind outcome_bind].
  all: pose proof (filter_no_sends _ Hsk) as Hskf.
  all: destruct (client_done s1) eqn:Hd1.
  1, 3: destruct Hlast as [Hlast ->]; cbn [Z.eqb Pos.eqb]; eapply loop_end; try done;
    left; split; [done|]; pose proof (length_filter is_send last); lia.
  { destruct Hlast as (Hds & Hlt & _). destruct Hn; [congruence|lia]. }
  destruct Hlast as (Hds & Hlt & c & -> & Hs & -> & ->). cbn [payload_len] in *.
  destruct (Z.eqb_spec (payload_len (g_rpc (junk nb))) 57005) as [Ej|Ej].
  { eapply loop_end; try done. right. cbn [length]. rewrite Z.add_0_r. split; [done|]. by rewrite filter_cons_True by (by rewrite Hs). }
  rewrite (proj2 (Z.eqb_neq cnt _)) by lia. cbn [payload].
  assert (Hn1 : ends n s1) by (right; destruct Hn; [congruence|lia]).
  set (dest := u32 (low16 (g_node (junk nb)) (u16 (c_tid c)))).
  destruct (sendToNode_run n s1 ctx1 m i id wq1 cq1 log1 _ buf dest raw (u32 nb) Hr1 Hh1 Hn1
    (proj1 (u32_range nb)) (buffer_slot _ _ _ Hm)) as (s2 & ctx2 & m2 & wq2 & cq2 & log2 & -> & Hw & Hr2 & Hc2 & Hh2 & Hn2).
  cbn [mbind outcome_bind].
  destruct (do_Recv_run n s2 ctx2 i id wq2 cq2 _ _ (c_addr c) Hr2 Hh2 Hn2) as
    (s3 & ctx3 & wq3 & cq3 & log3 & p3 & -> & Hr3 & Hp3 & Hh3 & Hn3 & Hrel). cbn [mbind outcome_bind].
  destruct (IH s3 ctx3 m2 wq3 cq3 _ _ (cnt + 1) (nb + 1) (it + 1) Hr3 Hh3 Hn3) as
    (s' & ctx' & m' & wq' & cq' & log' & read' & served & dropped & evs & ps & E & Hr' & Hh' & Hwhy & Hread & Hwl & Hposts & Hps & Heag & Hmem);
    try lia.
  { by apply (written_in_memory _ _ _ _ _ _ Hw). }
  exists s', ctx', m', wq', cq', log', read', (c :: served), dropped,
    (serve nid i (cnt + 1) nb (received_of (junk nb) c) ++ evs),
    (Post RMC_SEND SR_CTX_ID dest (buf + 4 * (u32 nb mod 256 * 512)) 1 :: p3 ++ ps).
  replace (cnt + Z.of_nat (length (c :: served))) with (cnt + 1 + Z.of_nat (length served)) by (cbn [length]; lia).
  split; [done|]. split; [done|]. split; [done|]. split.
  { unfold stopped in *. replace (nb + Z.of_nat (length (c :: served))) with (nb + 1 + Z.of_nat (length served)); [done|cbn [length]; lia]. }
  split.
  { rewrite Hread, !filter_app, Hskf, filter_cons_True by (by rewrite Hs). cbn [app filter list_filter]. by rewrite <- app_assoc. }
  split.
  { cbn [requests app worker_loop received_of rq_rpc payload_len].
    rewrite (proj2 (Z.eqb_neq _ 57005)) by done. rewrite (proj2 (Z.eqb_neq cnt _)) by lia. by rewrite Hwl. }
  split; [by rewrite Hposts, Hp3, posts_app, (posts_completes _ _ Hc2), (posts_completes _ _ Hc1), <- !app_assoc|].
  split; [|split].
  - apply (posted_app _ _ (_ :: p3)); [|done]. apply posted_serve. tauto.
  - intros He. destruct Hrel as [->|[_ Hno]]; [|done]. rewrite (Heag He), omap_app. done.
  - intros b Hb. rewrite Hmem by done. apply (wt_other _ _ _ _ Hw). unfold buffer_bytes in Hb.
    pose proof (Z.mod_pos_bound (u32 nb) 256 ltac:(lia)). rewrite length_le_bytes. lia.
Qed.
End Calls.

(** ** From [main] to the end of a worker *)

Lemma created_context memalign malloc nodes threads : 0 <= threads < 2 ^ 32 ->
  exists ctx, createRPCNUMAContext memalign malloc nodes 0 (u32 (threads - 1)) = Some ctx /\
    length (qps ctx) = Z.to_nat threads /\ length (app_buffers ctx) = Z.to_nat threads /\
    get_lbuf_size ctx = 131072 /\ ctx_id (ctx_struct ctx) = SR_CTX_ID /\
    msgs_per_dest (ctx_struct ctx) = MSGS_PER_PAIR /\ msg_entry_size (ctx_struct ctx) = RPC_MAX_PAYLOAD.
Proof.
  intros Ht. unfold createRPCNUMAContext, kal_reg_ctx. cbn [Z.ltb Z.compare].
  assert (E : u32 (u32 (threads - 1) - 0 + 1) = threads) by wrap_lia.
  destruct malloc; (eexists; split; [reflexivity|]; cbn [qps app_buffers ctx_struct]; rewrite E, !length_replicate; done).
Qed.

Lemma registration ctx i lbuf wq cq : 0 <= i -> i < Z.of_nat (length (qps ctx)) -> i < Z.of_nat (length (app_buffers ctx)) ->
  ctx_id (ctx_struct ctx) = SR_CTX_ID -> msgs_per_dest (ctx_struct ctx) = MSGS_PER_PAIR ->
  msg_entry_size (ctx_struct ctx) = RPC_MAX_PAYLOAD ->
  exists ctx1 ctx2, registerNewLocalBuffer ctx lbuf i = Ret (ctx1, lbuf) /\
    registerNewSONUMAQP ctx1 wq cq i = Ret ctx2 /\ registered ctx2 i (u32 i) wq cq /\
    get_lbuf_size ctx2 = get_lbuf_size ctx.
Proof.
  intros Hi Hq Hb H1 H2 H3. unfold registerNewLocalBuffer, registerNewSONUMAQP, set_qp.
  rewrite wr_Ret by lia. cbn [mbind outcome_bind]. eexists _, _. split; [done|]. cbn [qps].
  rewrite wr_Ret by lia. cbn [mbind outcome_bind]. split; [done|].
  split; [|done]. split; cbn [qps ctx_struct]; try done. apply rd_Ret; [done|]. apply list_lookup_insert_eq. lia.
Qed.

(** A context with a place for worker [i]. *)
Record has_place (ctx : rpcNUMAContext) (i : Z) : Prop := {
  hp_qps : i < Z.of_nat (length (qps ctx));
  hp_bufs : i < Z.of_nat (length (app_buffers ctx));
  hp_ctx_id : ctx_id (ctx_struct ctx) = SR_CTX_ID;
  hp_msgs : msgs_per_dest (ctx_struct ctx) = MSGS_PER_PAIR;
  hp_size : msg_entry_size (ctx_struct ctx) = RPC_MAX_PAYLOAD;
}.

(** What a worker has done when it has returned: its own queue pair, the requests it served, the
    calls of the worker of [L3fwd] for them, and the posts of these calls. *)
Record served_all {N} (nic : iface N) (arrived : N -> list completion) (srw src : bool) (client_done : N -> bool)
    (junk : Z -> garbage) (params : thread_params)
    (table table' : list Z) (lbuf : Z) (s' : N) (qp : outcome soNUMAQP_T) (count : Z)
    (log' : list (post * bool)) (read' served dropped : list completion) (evs : list event) : Prop := {
  sa_count : count = Z.of_nat (length served);
  sa_run : run_worker params table (requests junk 0 served ++ [stop_request]) = Ret (table', evs, count);
  sa_pair : exists wq' cq', qp = Ret (QP (u32 (tp_id params)) wq' cq') /\ pair_holds arrived srw src s' wq' cq' log' read';
  sa_read : filter is_send read' = served ++ dropped;
  sa_stopped : stopped client_done junk 0 s' served dropped;
  sa_posts : posted lbuf evs (posts log');
  sa_eager : Eager nic arrived srw src -> posts log' = omap (post_of lbuf) evs;
}.

Lemma worker_main_run {N} (nic : iface N) arrived srw src patience wait client_done delay fuel junk
    params table table' s ctx m lbuf raw wq cq :
  Responsive nic arrived srw src patience wait -> Stops nic client_done delay ->
  (128 <= fuel)%nat -> (wait <= fuel)%nat -> (delay s <= fuel)%nat -> Z.of_nat fuel < 2 ^ 31 - 1 ->
  0 <= tp_id params -> has_place ctx (tp_id params) ->
  pair_holds arrived srw src s wq cq [] [] -> in_memory m lbuf buffer_bytes ->
  init_dest_eth_addr table = Ret table' ->
  exists s' ctx' m' count log' read' served dropped evs,
    worker_main nic client_done fuel junk s ctx m lbuf raw wq cq params = Ret (s', ctx', m', count) /\
    served_all nic arrived srw src client_done junk params table table' lbuf s' (get_qp ctx' (tp_id params)) count
      log' read' served dropped evs /\
    (forall b, b < lbuf \/ lbuf + Z.of_nat buffer_bytes <= b -> byte_at m' b = byte_at m b).
Proof.
  intros He Hst Hf Hw Hdel Hmax Hid [Hq Hb H1 H2 H3] Hh Hm Ht.
  destruct (registration ctx (tp_id params) lbuf wq cq Hid Hq Hb H1 H2 H3) as (c1 & c2 & E1 & E2 & Hr & _).
  destruct (service_run nic arrived srw src patience wait client_done delay fuel (conj Hf Hw) junk fuel s c2 m lbuf raw
    (tp_id params) _ wq cq [] [] 0 0 (tp_sonuma_nid params) 0 Hr Hh) as
    (s' & ctx' & m' & wq' & cq' & log' & read' & served & dropped & evs & ps & Er & Hr' & Hh' & Hwhy & Hread & Hwl & Hp & Hps & Heag & Hmem);
    try done; try lia; [by right|].
  exists s', ctx', m', (Z.of_nat (length served)), log', read', served, dropped, (evs ++ [EvNotifyDone]). split.
  { unfold worker_main. rewrite E1. cbn [mbind outcome_bind]. rewrite E2. exact Er. }
  split; [|exact Hmem]. cbn [posts fmap list_fmap app] in Hp.
  split; [done| |exists wq', cq'; split; [by eapply get_registered|exact Hh']|exact Hread|exact Hwhy| |].
  - unfold run_worker. rewrite Ht. cbn [mbind outcome_bind]. rewrite Hwl. reflexivity.
  - rewrite Hp, <- (app_nil_r ps). apply posted_app; [done|]. by apply posted_other; [|constructor].
  - intros Hea. rewrite Hp, omap_app, (Heag Hea). cbn. by rewrite app_nil_r.
Qed.

Lemma created_place memalign malloc nodes threads i : 0 <= i < threads -> threads < 2 ^ 32 ->
  exists ctx, createRPCNUMAContext memalign malloc nodes 0 (u32 (threads - 1)) = Some ctx /\ has_place ctx i.
Proof.
  intros Hi Hth. destruct (created_context memalign malloc nodes threads ltac:(lia)) as (ctx & E & Hq & Hb & _ & H1 & H2 & H3).
  exists ctx. split; [done|]. split; try done; lia.
Qed.


(** The local buffer is too small for the addresses it is used at. The code asks the
    simulator for [get_lbuf_size], 131072 bytes, but scales the byte offset of a slot by
    the four bytes of its element type: with a buffer of exactly that size the send of
    request number [count] is carried out if [count] modulo 256 is below 64 and writes outside of
    the buffer for the other 192 of every 256 requests. *)
Theorem send_overruns_local_buffer {N} (nic : iface N) arrived srw src patience wait fuel s m lbuf wq cq log read
    ctx i id dest raw count :
  Responsive nic arrived srw src patience wait -> (128 <= fuel)%nat -> (wait <= fuel)%nat -> registered ctx i id wq cq -> pair_holds arrived srw src s wq cq log read ->
  get_lbuf_size ctx = 131072 -> origin m = lbuf -> Z.of_nat (length (cells m)) = get_lbuf_size ctx -> 0 <= count ->
  let r := sendToNode_zsim nic fuel s ctx m lbuf 64 dest i raw true count in
  ((exists out, r = Ret out) <-> count mod 256 < 64) /\ (r = Undef <-> 64 <= count mod 256).
Proof.
  intros He Hf Hwt Hr Hh Hl Ho Hsize Hcount r. rewrite Hl in Hsize. pose proof (Z.mod_pos_bound count 256 ltac:(lia)).
  assert (Hst : Stops nic (fun _ => true) (fun _ => O)) by (split; by left).
  assert (Hok : count mod 256 < 64 -> exists out, r = Ret out).
  { intros Hlt. destruct (sendToNode_run nic arrived srw src patience wait (fun _ => true) (fun _ => O) fuel (conj Hf Hwt) O s ctx m i id wq cq log read
      lbuf dest raw count Hr Hh) as (s1 & ctx1 & m1 & wq1 & cq1 & log1 & E & _); [by left|done|unfold in_memory; lia|].
    by eexists. }
  assert (Hno : 64 <= count mod 256 -> r = Undef).
  { intros Hge. unfold r, sendToNode_zsim.
    rewrite (rg_msgs _ _ _ _ _ Hr), (rg_size _ _ _ _ _ Hr), (get_registered _ _ _ _ _ Hr).
    change MSGS_PER_PAIR with 256. change RPC_MAX_PAYLOAD with 512. change (256 =? 0) with false. cbn [mbind outcome_bind].
    unfold getUnderlyingAddress. rewrite u64_small by lia. unfold i32. rewrite u32_small by lia.
    rewrite (proj2 (Z.ltb_lt _ _)) by lia. unfold wr_bytes. rewrite decide_False; [done|].
    intros [_ Hhi]. rewrite length_le_bytes in Hhi. lia. }
  destruct (Z.lt_ge_cases (count mod 256) 64) as [Hlt|Hge].
  - destruct (Hok Hlt) as [out E]. split; split; [done|by exists out|congruence|lia].
  - specialize (Hno Hge). split; split; [intros [? ?]; congruence|lia|done|done].
Qed.

(** ** Witnesses *)

(** The demo interface sets the flag after its script and eight more passes. *)
Definition demo_done (s : demo) : bool := (8 <=? idle s)%nat.
Definition demo_delay (s : demo) : nat := (length (script s) + (8 - idle s))%nat.

#[export] Instance demo_stops : Stops demo_nic demo_done demo_delay.
Proof.
  split. intros s wq cq s' wq' cq' E. unfold demo_nic in E. unfold demo_done, demo_delay.
  destruct (Nat.leb_spec 8 (idle s)) as [Hd|Hd].
  - left. apply Nat.leb_le. destruct (script s); [|destruct (decide _)]; injection E as <- _ _; cbn [idle]; lia.
  - destruct (script s) as [|c l]; [|destruct (decide _)]; injection E as <- _ _; cbn [idle script length].
    + destruct (Nat.leb_spec 8 (S (idle s))); [by left|]. right. split; [done|]. lia.
    + right. split; [done|]. lia.
    + right. split; [done|]. lia.
Qed.

Definition demo_script : list completion := [Completion 127 7 4096; Completion 1 9 0; Completion 127 8 8192].
Definition demo_junk (k : Z) : garbage := Garbage (Success 0 0 0 0) (Rpc 0 0 0 0 0 0 0) (65536 * k) 5.

#[export] Instance demo_responsive : Responsive demo_nic demo_arrived false false (fun _ _ => O) 0.
Proof. apply eager_responsive, _. Qed.


Lemma send_overruns_local_buffer_witness :
  exists ctx, sendToNode_zsim demo_nic 128 (Demo [] [] 0) ctx (Mem 65536 (replicate (Z.to_nat 131072) 0)) 65536 64 7 1 0 true 64
    = Undef.
Proof.
  destruct (created_context (fun _ _ => None) true 3 2 ltac:(lia)) as (ctx & _ & Hq & Hb & Hl & H1 & H2 & H3).
  destruct (registration ctx 1 65536 wq_init cq_init ltac:(lia) ltac:(lia) ltac:(lia) H1 H2 H3) as (c1 & c2 & _ & _ & Hr & Hl2).
  exists c2.
  destruct (send_overruns_local_buffer demo_nic demo_arrived false false (fun _ _ => O) 0 128 (Demo [] [] 0)
    (Mem 65536 (replicate (Z.to_nat 131072) 0)) 65536 wq_init cq_init [] [] c2 1 (u32 1) 7 0 64) as [_ H].
  - apply _.
  - lia.
  - lia.
  - exact Hr.
  - apply demo_start.
  - rewrite Hl2. exact Hl.
  - reflexivity.
  - cbn [cells]. rewrite length_replicate, Hl2, Hl. apply Z2Nat.id. lia.
  - lia.
  - apply H. discriminate.
Defined.
