(* ===== verification/Forwarder.v ===== *)
(** * The forwarder: the workers of one process

    [main] creates one context and one worker per queue pair; the workers share the context, the
    memory and a barrier between their registration and their service loops. Each call a worker
    makes to the RPC library is one step here, and any worker may make the next one: the calls
    of different workers touch different entries of the context and different local buffers,
    which is what the theorem rests on. Every run ends, no call is undefined, nobody waits for
    ever, and each worker does what it would have done alone. *)

From S2P Require Import Prelude Bytes Nic NicSpec NicDevice Cbuf Rpc L3fwd Worker.
From stdpp Require Import strings.

Open Scope Z_scope.

(** ** Workers *)

(** Where a worker is: the call it makes next, with the locals that it needs. *)
Inductive wpc :=
  | AtBuffer | AtQueue | AtBarrier | AtReceive
  | AtSend (rpc : RPCWithHeader) (written : option Z)
  | AtRelease (rpc : RPCWithHeader)
  | AtEnd.

(** [w_nic]: the state of the interface behind the worker's queue pair; [w_buf]: [myLocalBuffer]. *)
Record worker (N : Type) := Wk { w_nic : N; w_pc : wpc; w_buf : Z; w_count : Z; w_nb : Z }.
Arguments Wk {N}.
Arguments w_nic {N}.
Arguments w_pc {N}.
Arguments w_buf {N}.
Arguments w_count {N}.
Arguments w_nb {N}.

Section Forwarder.
Context {N : Type}.
Variable nic : iface N.
Variable client_done : N -> bool.
Variable fuel : nat.
(** Per worker: its uninitialised locals, the address of its array, and what the simulator chooses
    for it - the address of its local buffer and its queues. *)
Variable junk : nat -> Z -> garbage.
Variable raw lbuf : nat -> Z.
Variable wq : nat -> rmc_wq.
Variable cq : nat -> rmc_cq.

Abbreviation state := (rpcNUMAContext * memory * worker N)%type.

(** One call of worker [i]; the barrier is left, and a worker that has returned stays. *)
(* l3fwd/worker.c:104-222 run_worker *)
Definition turn (i : nat) (st : state) : outcome state :=
  let '(ctx, m, w) := st in
  let '(Wk s pc buf tmp_count nb_tx_tot) := w in
  let wrkr_lid := Z.of_nat i in
  match pc with
  | AtBuffer =>
      '(ctx, buf) ← registerNewLocalBuffer ctx (lbuf i) wrkr_lid;
      Ret (ctx, m, Wk s AtQueue buf tmp_count nb_tx_tot)
  | AtQueue =>
      ctx ← registerNewSONUMAQP ctx (wq i) (cq i) wrkr_lid;
      Ret (ctx, m, Wk s AtBarrier buf tmp_count nb_tx_tot)
  | AtBarrier => Ret (ctx, m, Wk s AtReceive buf tmp_count nb_tx_tot)
  | AtReceive =>
      let g := junk i nb_tx_tot in
      '(s, ctx, rpc, written) ← receiveRPCRequest_zsim_l3fwd nic client_done fuel s ctx wrkr_lid (g_ret g) (g_rpc g);
      if payload_len rpc =? 57005 then Ret (ctx, m, Wk s AtEnd buf tmp_count nb_tx_tot)
      else if tmp_count =? 2 ^ 31 - 1 then Undef
      else Ret (ctx, m, Wk s (AtSend rpc written) buf (tmp_count + 1) nb_tx_tot)
  | AtSend rpc written =>
      let g := junk i nb_tx_tot in
      let source_node_id := match written with Some v => low16 (g_node g) v | None => g_node g end in
      '(s, ctx, m) ← sendToNode_zsim nic fuel s ctx m buf 64 (u32 source_node_id) wrkr_lid (raw i) true (u32 nb_tx_tot);
      Ret (ctx, m, Wk s (AtRelease rpc) buf tmp_count nb_tx_tot)
  | AtRelease rpc =>
      '(s, ctx) ← do_Recv_zsim nic s ctx wrkr_lid (payload rpc) 64;
      Ret (ctx, m, Wk s AtReceive buf tmp_count (nb_tx_tot + 1))
  | AtEnd => Ret st
  end.

(** ** A worker alone *)

Fixpoint turns (k : nat) (i : nat) (st : state) : outcome state :=
  match k with O => Ret st | S k => st ← turn i st; turns k i st end.

Lemma turns_app k l i st : turns (k + l) i st = st ← turns k i st; turns l i st.
Proof.
  revert st. induction k as [|k IH]; intros st; cbn [turns Nat.add]; [done|].
  rewrite bind_assoc. apply bind_ext; [done|]. exact IH.
Qed.

Lemma turns_snoc k i st : turns (S k) i st = st ← turns k i st; turn i st.
Proof.
  replace (S k) with (k + 1)%nat by lia. rewrite turns_app. apply bind_ext; [done|]. intros a. cbn [turns].
  apply bind_ret_r.
Qed.

Definition at_end (w : worker N) : Prop := w_pc w = AtEnd.

Lemma turns_end k i ctx m w : at_end w -> turns k i (ctx, m, w) = Ret (ctx, m, w).
Proof. destruct w as [s pc buf c nb]. unfold at_end. cbn [w_pc]. intros ->. induction k as [|k IH]; [done|]. exact IH. Qed.

(** The loop of [Worker], call by call. *)
Lemma loop_turns n i s ctx m buf cnt nb s' ctx' m' cnt' :
  service_loop nic client_done fuel (junk i) n s ctx m buf (raw i) (Z.of_nat i) cnt nb = Ret (s', ctx', m', cnt') ->
  exists k nb', (k <= 3 * n + 1)%nat /\
    turns k i (ctx, m, Wk s AtReceive buf cnt nb) = Ret (ctx', m', Wk s' AtEnd buf cnt' nb').
Proof.
  revert s ctx m cnt nb. induction n as [|n IH]; intros s ctx m cnt nb; cbn [service_loop]; intros H;
    destruct (receiveRPCRequest_zsim_l3fwd nic client_done fuel s ctx (Z.of_nat i) (g_ret (junk i nb)) (g_rpc (junk i nb)))
      as [[[[s1 ctx1] rpc] w]| |] eqn:E1; try done; cbn [mbind outcome_bind] in H;
    destruct (payload_len rpc =? 57005) eqn:Ep; try (by destruct (cnt =? 2 ^ 31 - 1)).
  1, 2: injection H as <- <- <- <-; exists 1%nat, nb; split; [lia|]; cbn [turns turn];
    rewrite E1; cbn [mbind outcome_bind]; by rewrite Ep.
  destruct (cnt =? 2 ^ 31 - 1) eqn:Ec; [done|].
  apply bind_Ret_inv in H as ([[s2 ctx2] m2] & E2 & H). apply bind_Ret_inv in H as ([s3 ctx3] & E3 & H).
  destruct (IH _ _ _ _ _ H) as (k & nb' & Hk & Hrun). exists (S (S (S k))), nb'. split; [lia|].
  cbn [turns turn]. rewrite E1. cbn [mbind outcome_bind]. rewrite Ep, Ec. cbn [mbind outcome_bind turns turn].
  rewrite E2. cbn [mbind outcome_bind turns turn]. rewrite E3. exact Hrun.
Qed.

Definition start (s : N) : worker N := Wk s AtBuffer 0 0 0.

Lemma main_turns i s ctx m params s' ctx' m' cnt' : tp_id params = Z.of_nat i ->
  worker_main nic client_done fuel (junk i) s ctx m (lbuf i) (raw i) (wq i) (cq i) params = Ret (s', ctx', m', cnt') ->
  exists k buf nb', (k <= 3 * fuel + 4)%nat /\ turns k i (ctx, m, start s) = Ret (ctx', m', Wk s' AtEnd buf cnt' nb').
Proof.
  intros Hid H. unfold worker_main in H. rewrite Hid in H.
  apply bind_Ret_inv in H as ([c1 b] & E1 & H). apply bind_Ret_inv in H as (c2 & E2 & H).
  destruct (loop_turns _ _ _ _ _ _ _ _ _ _ _ _ H) as (k & nb' & Hk & Hrun).
  exists (S (S (S k))), b, nb'. split; [lia|]. cbn [turns turn start]. rewrite E1. cbn [mbind outcome_bind turns turn].
  rewrite E2. exact Hrun.
Qed.

(** ** What a call uses and changes *)

(** The part of the context that the calls of worker [i] use, and the part they leave alone. *)
Record same_place (i : nat) (c d : rpcNUMAContext) : Prop := {
  sp_struct : ctx_struct d = ctx_struct c;
  sp_qps : length (qps d) = length (qps c);
  sp_bufs : length (app_buffers d) = length (app_buffers c);
  sp_qp : qps d !! i = qps c !! i;
}.
Definition touches (i : nat) (c d : rpcNUMAContext) : Prop := forall j, j <> i -> same_place j c d.

#[export] Instance same_place_equiv i : Equivalence (same_place i).
Proof.
  split.
  - intros c. by split.
  - intros c d [? ? ? ?]. by split.
  - intros c d e [? ? ? ?] [? ? ? ?]. split; congruence.
Qed.

Lemma touches_trans i c d e : touches i c d -> touches i d e -> touches i c e.
Proof. intros H1 H2 j Hj. by transitivity d; [apply H1|apply H2]. Qed.

Lemma get_qp_same i c d : same_place i c d -> get_qp d (Z.of_nat i) = get_qp c (Z.of_nat i).
Proof.
  intros [_ _ _ H]. unfold get_qp, at_, rd. rewrite !Nat2Z.id, H. done.
Qed.

Lemma set_qp_same i c d q c' : same_place i c d -> set_qp c (Z.of_nat i) q = Ret c' ->
  exists d', set_qp d (Z.of_nat i) q = Ret d' /\ same_place i c' d' /\ touches i c c'.
Proof.
  intros [H1 H2 H3 H4] H. unfold set_qp in *. apply bind_Ret_inv in H as (l & Hl & [= <-]).
  apply wr_inv in Hl as [Hr ->]. rewrite Nat2Z.id in *. rewrite wr_Ret by lia. rewrite Nat2Z.id. cbn [mbind outcome_bind].
  eexists. split; [done|]. split.
  - split; cbn [ctx_struct qps app_buffers]; try done; rewrite ?length_insert; try done.
    rewrite !list_lookup_insert_eq by lia. done.
  - intros j Hj. split; cbn [ctx_struct qps app_buffers]; try done; rewrite ?length_insert; try done.
    by rewrite list_lookup_insert_ne by done.
Qed.

(** The same for the memory: worker [i] writes in its local buffer only. *)
Definition in_buffer (i : nat) (b : Z) : Prop := lbuf i <= b < lbuf i + Z.of_nat buffer_bytes.

Record same_bytes (P : Z -> Prop) (m n : memory) : Prop := {
  sb_origin : origin n = origin m;
  sb_size : length (cells n) = length (cells m);
  sb_bytes : forall b, P b -> byte_at n b = byte_at m b;
}.

#[export] Instance same_bytes_equiv P : Equivalence (same_bytes P).
Proof.
  split.
  - intros m. by split.
  - intros m n [? ? H]. split; [done..|]. intros b Hb. symmetry. by apply H.
  - intros m n o [? ? H1] [? ? H2]. split; [congruence..|]. intros b Hb. rewrite H2, H1; done.
Qed.

Lemma wr_bytes_same P m n a bs m' : same_bytes P m n -> wr_bytes m a bs = Ret m' ->
  exists n', wr_bytes n a bs = Ret n' /\ same_bytes P m' n' /\
    same_bytes (fun b => b < a \/ a + Z.of_nat (length bs) <= b) m m'.
Proof.
  intros [Ho Hs Hb] E.
  assert (Hm : in_memory m a (length bs)) by (apply wr_bytes_ok; by exists m').
  assert (Hn : in_memory n a (length bs)) by (destruct Hm; split; rewrite ?Ho, ?Hs; done).
  destruct (wr_bytes_spec m a bs Hm) as (m1 & E1 & W). rewrite E in E1. injection E1 as <-.
  destruct (wr_bytes_spec n a bs Hn) as (n' & E2 & V). exists n'. split; [done|].
  destruct W as [Wo Ws Wb Wf], V as [Vo Vs Vb Vf]. split.
  - split; [congruence..|]. intros b Pb. destruct (decide (a <= b < a + Z.of_nat (length bs))) as [Hin|Hout].
    + replace b with (a + Z.of_nat (Z.to_nat (b - a))) by lia. rewrite Wb, Vb by lia. done.
    + rewrite Wf, Vf by lia. by apply Hb.
  - split; [done..|]. intros b Hout. by apply Wf.
Qed.

(** The shape of the context that [main] creates, and a worker that knows its buffer. *)
Definition std_ctx (c : rpcNUMAContext) : Prop :=
  msgs_per_dest (ctx_struct c) = MSGS_PER_PAIR /\ msg_entry_size (ctx_struct c) = RPC_MAX_PAYLOAD.
Definition buf_ok (i : nat) (w : worker N) : Prop := w_pc w = AtBuffer \/ w_buf w = lbuf i.

(** A call of worker [i] on [(c, m)] is the same call on what looks the same to it, and changes
    nothing that another worker looks at. *)
Record local_call (i : nat) (c : rpcNUMAContext) (m : memory) (d : rpcNUMAContext) (n : memory)
    (c' : rpcNUMAContext) (m' : memory) (d' : rpcNUMAContext) (n' : memory) : Prop := {
  lc_place : same_place i c' d';
  lc_bytes : same_bytes (in_buffer i) m' n';
  lc_touches : touches i c c';
  lc_frame : same_bytes (fun b => ~ in_buffer i b) m m';
}.

Lemma local_refl i c m d n : same_place i c d -> same_bytes (in_buffer i) m n -> local_call i c m d n c m d n.
Proof. intros. split; [done..|]. reflexivity. Qed.

Lemma local_ctx i c m d n c' d' : same_place i c' d' -> touches i c c' -> same_bytes (in_buffer i) m n ->
  local_call i c m d n c' m d' n.
Proof. intros. split; [done..|]. reflexivity. Qed.

Section Calls.
Context (i : nat) (c d : rpcNUMAContext) (m n : memory).
Hypothesis Hp : same_place i c d.
Hypothesis Hm : same_bytes (in_buffer i) m n.

Lemma buffer_local tptr c' b : registerNewLocalBuffer c tptr (Z.of_nat i) = Ret (c', b) ->
  exists d', registerNewLocalBuffer d tptr (Z.of_nat i) = Ret (d', b) /\ same_place i c' d' /\ touches i c c'.
Proof.
  destruct Hp as [H1 H2 H3 H4]. unfold registerNewLocalBuffer. intros H.
  apply bind_Ret_inv in H as (l & Hl & [= <- <-]). apply wr_inv in Hl as [Hr ->].
  rewrite wr_Ret by lia. cbn [mbind outcome_bind]. eexists. split; [done|].
  split; [|intros j Hj]; split; cbn [ctx_struct qps app_buffers]; rewrite ?length_insert; done.
Qed.

Lemma receive_local s g gr s' c' rpc w :
  receiveRPCRequest_zsim_l3fwd nic client_done fuel s c (Z.of_nat i) g gr = Ret (s', c', rpc, w) ->
  exists d', receiveRPCRequest_zsim_l3fwd nic client_done fuel s d (Z.of_nat i) g gr = Ret (s', d', rpc, w) /\
    same_place i c' d' /\ touches i c c'.
Proof.
  unfold receiveRPCRequest_zsim_l3fwd. rewrite (get_qp_same _ _ _ Hp). intros H.
  apply bind_Ret_inv in H as (q & -> & H). cbn [mbind outcome_bind].
  apply bind_Ret_inv in H as ([[[s1 wq1] cq1] ret] & -> & H). cbn [mbind outcome_bind].
  apply bind_Ret_inv in H as (c1 & E & H). destruct (set_qp_same _ _ _ _ _ Hp E) as (d1 & -> & Hs & Ht).
  cbn [mbind outcome_bind]. exists d1. destruct (client_done s1); injection H as <- <- <- <-; done.
Qed.

Lemma release_local s slot s' c' : do_Recv_zsim nic s c (Z.of_nat i) slot 64 = Ret (s', c') ->
  exists d', do_Recv_zsim nic s d (Z.of_nat i) slot 64 = Ret (s', d') /\ same_place i c' d' /\ touches i c c'.
Proof.
  unfold do_Recv_zsim. rewrite (sp_qps _ _ _ Hp), (sp_struct _ _ _ Hp), (get_qp_same _ _ _ Hp).
  destruct (_ <? _); [done|]. intros H. apply bind_Ret_inv in H as (q & -> & H). cbn [mbind outcome_bind].
  destruct (nic s (qp_wq q) (qp_cq q)) as [[s1 wq1] cq1].
  apply bind_Ret_inv in H as ([wq2 code] & -> & H). cbn [mbind outcome_bind].
  apply bind_Ret_inv in H as (c1 & E & [= <- <-]). destruct (set_qp_same _ _ _ _ _ Hp E) as (d1 & -> & Hs & Ht).
  by exists d1.
Qed.

(** The reply goes into the worker's own buffer. *)
Lemma send_local s dest count s' c' m' : std_ctx c -> 0 <= count ->
  sendToNode_zsim nic fuel s c m (lbuf i) 64 dest (Z.of_nat i) (raw i) true count = Ret (s', c', m') ->
  exists d' n', sendToNode_zsim nic fuel s d n (lbuf i) 64 dest (Z.of_nat i) (raw i) true count = Ret (s', d', n') /\
    local_call i c m d n c' m' d' n'.
Proof.
  intros [H1 H2] Hc. unfold sendToNode_zsim. rewrite (sp_struct _ _ _ Hp), (get_qp_same _ _ _ Hp), H1, H2.
  change (MSGS_PER_PAIR =? 0) with false. cbv iota zeta. intros H.
  apply bind_Ret_inv in H as (q & -> & H). cbn [mbind outcome_bind].
  apply bind_Ret_inv in H as (m1 & Em & H).
  destruct (wr_bytes_same _ _ _ _ _ _ Hm Em) as (n1 & -> & Hm1 & Hf). cbn [mbind outcome_bind].
  apply bind_Ret_inv in H as ([[s1 wq1] cq1] & -> & H). cbn [mbind outcome_bind].
  apply bind_Ret_inv in H as (c1 & E & [= <- <- <-]). destruct (set_qp_same _ _ _ _ _ Hp E) as (d1 & -> & Hs & Ht).
  exists d1, n1. split; [done|]. split; [done..|]. destruct Hf as [Ho Hl Hb]. split; [done..|].
  intros b Hout. apply Hb. change MSGS_PER_PAIR with 256. change RPC_MAX_PAYLOAD with 512. unfold in_buffer, buffer_bytes in Hout.
  pose proof (Z.mod_pos_bound count 256 ltac:(lia)).
  unfold getUnderlyingAddress, i32. rewrite u64_small, u32_small, (proj2 (Z.ltb_lt _ _)), length_le_bytes by lia. lia.
Qed.

Lemma turn_local w c' m' w' : std_ctx c -> buf_ok i w -> 0 <= w_nb w -> turn i (c, m, w) = Ret (c', m', w') ->
  exists d' n', turn i (d, n, w) = Ret (d', n', w') /\ local_call i c m d n c' m' d' n' /\ buf_ok i w' /\ 0 <= w_nb w'.
Proof.
  destruct w as [s pc buf cnt nb]. unfold buf_ok. cbn [w_pc w_buf w_nb turn]. intros Hstd Hb Hnb H.
  destruct pc as [ | | | |rpc written|rpc| ].
  - apply bind_Ret_inv in H as ([c1 b] & E & [= <- <- <-]).
    assert (b = lbuf i) as -> by (unfold registerNewLocalBuffer in E; apply bind_Ret_inv in E as (? & _ & [= _ <-]); done).
    destruct (buffer_local _ _ _ E) as (d1 & -> & Hs & Ht). exists d1, n. split; [done|]. split; [by apply local_ctx|]. by split; [right|].
  - apply bind_Ret_inv in H as (c1 & E & [= <- <- <-]). destruct (set_qp_same _ _ _ _ _ Hp E) as (d1 & E1 & Hs & Ht).
    unfold registerNewSONUMAQP. rewrite E1. exists d1, n. split; [done|]. split; [by apply local_ctx|].
    destruct Hb; [done|]. by split; [right|].
  - injection H as <- <- <-. exists d, n. split; [done|]. split; [by apply local_refl|]. destruct Hb; [done|]. by split; [right|].
  - apply bind_Ret_inv in H as ([[[s1 c1] rpc] w] & E & H). destruct (receive_local _ _ _ _ _ _ _ E) as (d1 & -> & Hs & Ht).
    cbn [mbind outcome_bind]. destruct Hb; [done|].
    destruct (payload_len rpc =? 57005); [|destruct (cnt =? 2 ^ 31 - 1); [done|]]; injection H as <- <- <-;
      exists d1, n; (split; [done|]; split; [by apply local_ctx|by split; [right|]]).
  - destruct Hb as [|Hb]; [done|]. rewrite Hb in H |- *. apply bind_Ret_inv in H as ([[s1 c1] m1] & E & [= <- <- <-]).
    destruct (send_local _ _ _ _ _ _ Hstd (proj1 (u32_range nb)) E) as (d1 & n1 & -> & Hl).
    exists d1, n1. split; [done|]. split; [done|]. by split; [right|].
  - apply bind_Ret_inv in H as ([s1 c1] & E & [= <- <- <-]). destruct (release_local _ _ _ _ E) as (d1 & -> & Hs & Ht).
    exists d1, n. split; [done|]. split; [by apply local_ctx|]. destruct Hb; [done|]. cbn [w_pc w_buf w_nb]. split; [by right|]. lia.
  - injection H as <- <- <-. exists d, n. split; [done|]. split; [by apply local_refl|]. by split.
Qed.
End Calls.

(** ** All workers *)

Definition registered_worker (w : worker N) : Prop :=
  match w_pc w with AtBuffer | AtQueue => False | _ => True end.

(** Any worker that has not returned makes its next call; nobody leaves the barrier before everyone
    has come to it. *)
(* l3fwd/worker.c:131-131 pthread_barrier_wait *)
Inductive forwarder_step : rpcNUMAContext * memory * list (worker N) -> rpcNUMAContext * memory * list (worker N) -> Prop :=
  | forward_turn c m ws i w c' m' w' :
      ws !! i = Some w -> ~ at_end w -> (w_pc w = AtBarrier -> Forall registered_worker ws) ->
      turn i (c, m, w) = Ret (c', m', w') -> forwarder_step (c, m, ws) (c', m', <[i := w']> ws).

Section System.
Variable c0 : rpcNUMAContext.
Variable m0 : memory.
Variable ss : list N.
Variable bound : nat.
Hypothesis std : std_ctx c0.
Hypothesis disjoint : forall i j b, (i < length ss)%nat -> (j < length ss)%nat -> i <> j -> in_buffer i b -> ~ in_buffer j b.
(** Alone, each worker returns. *)
Hypothesis alone : forall i s, ss !! i = Some s -> exists k c m w,
  (k <= bound)%nat /\ turns k i (c0, m0, start s) = Ret (c, m, w) /\ at_end w.

(** Worker [i] is where it would be alone after [k] calls, and sees what it would see. *)
Record in_step (i : nat) (k : nat) (c : rpcNUMAContext) (m : memory) (w : worker N) : Prop := {
  is_bound : (k <= bound)%nat;
  is_alone : exists s d n, ss !! i = Some s /\ turns k i (c0, m0, start s) = Ret (d, n, w) /\
    same_place i d c /\ same_bytes (in_buffer i) n m;
  is_buf : buf_ok i w;
  is_nb : 0 <= w_nb w;
}.

Fixpoint total (ks : list nat) : nat := match ks with [] => O | k :: ks => (k + total ks)%nat end.

Lemma total_zero n : total (replicate n 0%nat) = 0%nat.
Proof. by induction n as [|n IH]. Qed.

Lemma total_insert ks i k : ks !! i = Some k -> total (<[i := S k]> ks) = S (total ks).
Proof.
  revert i. induction ks as [|x ks IH]; intros [|i] H; [done|done|by injection H as ->|].
  change (x + total (<[i := S k]> ks) = S (x + total ks))%nat. rewrite (IH i H). lia.
Qed.

Record forward_inv (t : nat) (st : rpcNUMAContext * memory * list (worker N)) : Prop := {
  fi_len : length st.2 = length ss;
  fi_struct : ctx_struct st.1.1 = ctx_struct c0;
  fi_frame : same_bytes (fun b => forall i, (i < length ss)%nat -> ~ in_buffer i b) m0 st.1.2;
  fi_steps : exists ks, length ks = length ss /\ total ks = t /\
    forall i k w, ks !! i = Some k -> st.2 !! i = Some w -> in_step i k st.1.1 st.1.2 w;
}.

Lemma forward_start : forward_inv 0 (c0, m0, map start ss).
Proof.
  split; cbn [fst snd]; [by rewrite length_map|done|reflexivity|].
  exists (replicate (length ss) 0%nat). split; [by rewrite length_replicate|]. split; [apply total_zero|].
  intros i k w Hk Hw. apply lookup_replicate_1 in Hk as [-> _]. rewrite list_lookup_fmap in Hw.
  destruct (ss !! i) as [s|] eqn:Es; [|done]. injection Hw as <-. split; [lia| |by left|cbn; lia].
  exists s, c0, m0. split; [done|]. split; [done|]. by split.
Qed.

(** A worker that has not returned has calls left, and its next one is the one it would make alone. *)
Lemma next_alone i k c m w : std_ctx c -> in_step i k c m w -> ~ at_end w ->
  (k < bound)%nat /\ exists c' m' w', turn i (c, m, w) = Ret (c', m', w').
Proof.
  intros Hstd [Hk (s & d & n & Hs & Hrun & Hp & Hm) Hb Hnb] Hne.
  destruct (alone i s Hs) as (K & cK & mK & wK & HK & HrunK & Hend).
  assert (Hlt : (k < K)%nat).
  { destruct (decide (k < K)%nat) as [|Hge]; [done|]. destruct Hne. replace k with (K + (k - K))%nat in Hrun by lia.
    rewrite turns_app, HrunK in Hrun. cbn [mbind outcome_bind] in Hrun. rewrite turns_end in Hrun by done.
    by injection Hrun as _ _ <-. }
  split; [lia|]. replace K with (S k + (K - S k))%nat in HrunK by lia. rewrite turns_app, turns_snoc, Hrun in HrunK.
  cbn [mbind outcome_bind] in HrunK. apply bind_Ret_inv in HrunK as ([[d1 n1] w1] & Ht & _).
  assert (Hstd' : std_ctx d) by (unfold std_ctx; by rewrite <- (sp_struct _ _ _ Hp)).
  destruct (turn_local i d c n m Hp Hm w d1 n1 w1 Hstd' Hb Hnb Ht) as (c' & m' & E & _). eauto.
Qed.

Lemma std_inv t st : forward_inv t st -> std_ctx st.1.1.
Proof. intros H. unfold std_ctx. by rewrite (fi_struct _ _ H). Qed.

Lemma forward_preserves t st st' : forwarder_step st st' -> forward_inv t st -> forward_inv (S t) st'.
Proof.
  intros [c m ws i w c' m' w' Hi Hne _ Ht] H. pose proof (std_inv _ _ H) as Hstd.
  destruct H as [Hlen Hst Hfr (ks & Hkl & Hsum & Hks)]. cbn [fst snd] in *.
  assert (Hin : (i < length ss)%nat) by (rewrite <- Hlen; by eapply lookup_lt_Some).
  destruct (lookup_lt_is_Some_2 ks i) as [k Hk]; [lia|].
  destruct (next_alone i k c m w Hstd (Hks _ _ _ Hk Hi) Hne) as [Hlt _].
  destruct (Hks _ _ _ Hk Hi) as [_ (s & d & n & Hs & Hrun & Hp & Hm) Hb Hnb].
  symmetry in Hp, Hm. destruct (turn_local i c d m n Hp Hm w c' m' w' Hstd Hb Hnb Ht) as (d' & n' & Et & Hl & Hb' & Hnb').
  destruct Hl as [Lp Lb Lt Lf]. split; cbn [fst snd].
  - by rewrite length_insert.
  - rewrite <- Hst. apply (Lt (S i)). lia.
  - transitivity m; [done|]. destruct Lf as [Lo Ls Lb']. split; [done..|]. intros b Hout. by apply Lb', Hout.
  - exists (<[i := S k]> ks). rewrite length_insert, (total_insert _ _ _ Hk), Hsum. split; [done|]. split; [done|].
    intros j k1 w1 Hj Hw1. apply list_lookup_insert_Some in Hj as [(<- & <- & _)|[Hji Hj]].
    + rewrite list_lookup_insert_eq in Hw1 by (by rewrite Hlen). injection Hw1 as <-. split; [lia| |done|done].
      exists s, d', n'. rewrite turns_snoc, Hrun. split; [done|]. split; [done|]. by split.
    + rewrite list_lookup_insert_ne in Hw1 by done. destruct (Hks _ _ _ Hj Hw1) as [Jk (s1 & d1 & n1 & Js & Jrun & Jp & Jm) Jb Jn].
      split; [done| |done|done]. exists s1, d1, n1. split; [done|]. split; [done|].
      assert (Hjn : (j < length ss)%nat) by (rewrite <- Hkl; by eapply lookup_lt_Some).
      split; [transitivity c; [done|by apply Lt]|]. transitivity m; [done|]. destruct Lf as [Lo Ls Lb']. split; [done..|].
      intros b Hbj. apply Lb'. intros Hbi. by apply (disjoint i j b).
Qed.

Lemma forward_reach t st : nsteps forwarder_step t (c0, m0, map start ss) st -> forward_inv t st.
Proof.
  intros H. assert (Hgen : forall t0 st0, forward_inv t0 st0 -> nsteps forwarder_step t st0 st -> forward_inv (t0 + t) st).
  { clear H. induction t as [|t IH]; intros t0 st0 H0 H; inversion H; subst; [by rewrite Nat.add_0_r|].
    replace (t0 + S t)%nat with (S t0 + t)%nat by lia. eapply IH; [|done]. by eapply forward_preserves. }
  apply (Hgen 0%nat _ forward_start H).
Qed.

Lemma total_bound ks : Forall (fun k => (k <= bound)%nat) ks -> (total ks <= length ks * bound)%nat.
Proof. induction 1 as [|k ks Hk _ IH]; cbn; lia. Qed.

Lemma forward_steps t st : forward_inv t st -> (t <= length ss * bound)%nat.
Proof.
  intros [Hlen _ _ (ks & Hkl & <- & Hks)]. rewrite <- Hkl. apply total_bound. apply Forall_lookup. intros i k Hk.
  destruct (lookup_lt_is_Some_2 st.2 i) as [w Hw]; [rewrite Hlen, <- Hkl; by eapply lookup_lt_Some|].
  by apply (Hks i k w Hk Hw).
Qed.

Lemma forward_next t c m ws i w : forward_inv t (c, m, ws) -> ws !! i = Some w -> ~ at_end w ->
  exists c' m' w', turn i (c, m, w) = Ret (c', m', w').
Proof.
  intros H Hi Hne. pose proof (std_inv _ _ H) as Hstd. destruct H as [Hlen _ _ (ks & Hkl & _ & Hks)]. cbn [fst snd] in *.
  destruct (lookup_lt_is_Some_2 ks i) as [k Hk]; [rewrite Hkl, <- Hlen; by eapply lookup_lt_Some|].
  by apply (next_alone i k c m w Hstd (Hks _ _ _ Hk Hi) Hne).
Qed.

#[export] Instance at_end_dec w : Decision (at_end w).
Proof. unfold at_end. destruct (w_pc w); (by left) || by right. Defined.
#[export] Instance registered_worker_dec w : Decision (registered_worker w).
Proof. unfold registered_worker. destruct (w_pc w); (by left) || (right; intros H; exact H). Defined.

(** Until all have returned some worker can go on: before the barrier one that has not registered. *)
Lemma forward_progress t c m ws : forward_inv t (c, m, ws) -> Forall at_end ws \/ exists st', forwarder_step (c, m, ws) st'.
Proof.
  intros H. destruct (decide (Forall registered_worker ws)) as [Hall|Hno].
  - destruct (decide (Forall at_end ws)) as [|Hne]; [by left|]. right.
    apply not_Forall_Exists in Hne; [|apply _]. apply Exists_exists in Hne as (w & Hw & Hne).
    apply list_elem_of_lookup in Hw as [i Hi]. destruct (forward_next _ _ _ _ _ _ H Hi Hne) as (c' & m' & w' & E).
    eexists. by eapply forward_turn.
  - right. apply not_Forall_Exists in Hno; [|apply _]. apply Exists_exists in Hno as (w & Hw & Hnr).
    apply list_elem_of_lookup in Hw as [i Hi]. assert (Hne : ~ at_end w) by (unfold at_end; intros E; apply Hnr; unfold registered_worker; by rewrite E).
    destruct (forward_next _ _ _ _ _ _ H Hi Hne) as (c' & m' & w' & E). eexists. eapply forward_turn; try done.
    intros Eb. destruct Hnr. unfold registered_worker. by rewrite Eb.
Qed.

(** A worker that has returned is where it would be alone. *)
Lemma forward_end t c m ws i w : forward_inv t (c, m, ws) -> ws !! i = Some w -> at_end w ->
  exists s k d n, ss !! i = Some s /\ turns k i (c0, m0, start s) = Ret (d, n, w) /\ same_place i d c.
Proof.
  intros [Hlen _ _ (ks & Hkl & _ & Hks)] Hi _. cbn [fst snd] in *.
  destruct (lookup_lt_is_Some_2 ks i) as [k Hk]; [rewrite Hkl, <- Hlen; by eapply lookup_lt_Some|].
  destruct (Hks _ _ _ Hk Hi) as [_ (s & d & n & Hs & Hrun & Hp & _) _ _]. by exists s, k, d, n.
Qed.
End System.
End Forwarder.

(** ** The forwarder *)

Definition apart (lbuf : nat -> Z) (n : nat) : Prop := forall i j, (i < n)%nat -> (j < n)%nat -> i <> j ->
  lbuf i + Z.of_nat buffer_bytes <= lbuf j \/ lbuf j + Z.of_nat buffer_bytes <= lbuf i.

Lemma launch_params o ps i p : launch o = Some (0, ps) -> ps !! i = Some p ->
  tp_id p = Z.of_nat i /\ Z.of_nat i < o_num_threads o.
Proof.
  unfold launch. destruct (_ <? _); [done|]. destruct (_ =? 0); [done|]. intros [= <-] H.
  rewrite list_lookup_fmap in H. destruct (seq _ _ !! i) as [k|] eqn:E; [|done]. injection H as <-.
  apply lookup_seq in E as [-> Hk]. cbn. lia.
Qed.


(** Where runs are bounded and only final states are stuck, there is a run to a final state. *)
Lemma run_to_end {S : Type} (R : S -> S -> Prop) (P : S -> Prop) (s : S) (B : nat) :
  (forall t s', nsteps R t s s' -> (t <= B)%nat /\ (P s' \/ exists s2, R s' s2)) ->
  exists t s', nsteps R t s s' /\ P s'.
Proof.
  intros H. assert (Hgen : forall k t s', (B - t < k)%nat -> nsteps R t s s' -> exists t' s2, nsteps R t' s s2 /\ P s2).
  { induction k as [|k IH]; intros t s' Hk Hs; [lia|]. destruct (H t s' Hs) as [Ht [HP|[s2 Hstep]]]; [by exists t, s'|].
    assert (Hs2 : nsteps R (Datatypes.S t) s s2) by by eapply nsteps_r.
    destruct (H _ _ Hs2) as [Ht2 _]. apply (IH (Datatypes.S t) s2); [lia|done]. }
  apply (Hgen (Datatypes.S B) 0%nat s); [lia|constructor].
Qed.

(** Two workers on the queues of the demo interface. *)
Definition demo_options : options := Options 0 2 1 2 2 16 0 1 0 1 1 0 1 1 20.
Definition demo_lbuf (i : nat) : Z := 65536 + Z.of_nat i * Z.of_nat buffer_bytes.
Definition demo_states : list demo := [Demo demo_script [] 0; Demo [Completion 127 3 4096] [] 0].
Definition demo_memory : memory := Mem 65536 (replicate (buffer_bytes + buffer_bytes) 0).
Definition demo_forward := forwarder_step demo_nic demo_done 128 (fun _ => demo_junk) (fun _ => 0) demo_lbuf (fun _ => wq_init) (fun _ => cq_init).

