(* ===== verification/Notify.v ===== *)
(** * [register_buffer] and the notifications of the simulator

    The program tells the simulator something by one instruction without effect on its own
    state: the value is in one register, a code for its meaning in the other. One definition per
    function that does so; [read_notification] is what a simulator can tell from the registers,
    and the theorem says that it is everything. *)

From S2P Require Import Prelude Nic Rpc L3fwd.

Open Scope Z_scope.

(** ** Definitions *)

Record registers := Registers { rbx : Z; rcx : Z }.

(* libzsim/zsim_nic_defines.cpp:16-25 register_buffer *)
Definition register_buffer (val field : Z) : registers := Registers (u64 val) (u64 field).

(** Conversion of an [int] to a pointer extends its sign. *)
(* libzsim/zsim_nic_defines.cpp:28-31 reg_wq *)
Definition reg_wq (wq : Z) : registers * Z := (register_buffer wq 0, 0).
(* libzsim/zsim_nic_defines.cpp:33-36 reg_cq *)
Definition reg_cq (cq : Z) : registers * Z := (register_buffer cq 1, 0).
(* libzsim/zsim_nic_defines.hpp:18-18 NOTIFY_WQ_WRITE *)
Definition NOTIFY_WQ_WRITE : Z := 10.
(* libzsim/zsim_nic_defines.cpp:179-180 create_wq_entry *)
Definition notify_wq_write : registers := register_buffer 0 NOTIFY_WQ_WRITE.
(* libzsim/zsim_nic_defines.cpp:56-56 rmc_check_cq *)
Definition notify_outer_loop : registers := register_buffer 1 18.
(* libzsim/zsim_nic_defines.cpp:72-72 rmc_check_cq *)
Definition notify_inner_loop : registers := register_buffer 1 17.
(* rpc_shm/rpc.cpp:59-60 registerNewLocalBuffer *)
Definition notify_local_buffer (buf_size tptr : Z) : list registers := [register_buffer buf_size 3; register_buffer tptr 2].
(* rpc_shm/rpc.cpp:96-100 notify_done_to_zsim *)
Definition notify_done_to_zsim : registers := register_buffer 0 57005.
(* rpc_shm/rpc.cpp:103-108 monitor_client_done *)
Definition monitor_client_done (client_done : Z) : registers := register_buffer client_done 13.
(* rpc_shm/rpc.cpp:110-114 notify_service_start *)
Definition notify_service_start (count : Z) : registers := register_buffer count 14.
(* rpc_shm/rpc.cpp:115-119 notify_service_end *)
Definition notify_service_end (count : Z) : registers := register_buffer count 15.
(* rpc_shm/rpc.cpp:120-124 timestamp *)
Definition timestamp (count : Z) : registers := register_buffer count 19.
(* rpc_shm/rpc.cpp:125-129 notify_fruitless_cq_check *)
Definition notify_fruitless_cq_check (count : Z) : registers := register_buffer count 16.

(** What the program can say. *)
Inductive notification :=
  | WorkQueue (a : Z) | CompletionQueue (a : Z) | BufferSize (n : Z) | BufferAddress (a : Z)
  | QueueWrite | OuterLoop | InnerLoop | Done | ClientDone (a : Z)
  | ServiceStart (c : Z) | ServiceEnd (c : Z) | Timestamp (c : Z) | FruitlessCheck (c : Z).

Definition say (n : notification) : registers :=
  match n with
  | WorkQueue a => fst (reg_wq a)
  | CompletionQueue a => fst (reg_cq a)
  | BufferSize n => register_buffer n 3
  | BufferAddress a => register_buffer a 2
  | QueueWrite => notify_wq_write
  | OuterLoop => notify_outer_loop
  | InnerLoop => notify_inner_loop
  | Done => notify_done_to_zsim
  | ClientDone a => monitor_client_done a
  | ServiceStart c => notify_service_start c
  | ServiceEnd c => notify_service_end c
  | Timestamp c => timestamp c
  | FruitlessCheck c => notify_fruitless_cq_check c
  end.

(** Addresses and sizes have 64 bits, counts are of type [int]. *)
Definition sayable (n : notification) : Prop :=
  match n with
  | WorkQueue a | CompletionQueue a | BufferSize a | BufferAddress a | ClientDone a => is_u64 a
  | ServiceStart c | ServiceEnd c | Timestamp c | FruitlessCheck c => - 2 ^ 31 <= c < 2 ^ 31
  | QueueWrite | OuterLoop | InnerLoop | Done => True
  end.

(** ** The simulator's view *)

Definition read_notification (r : registers) : option notification :=
  let v := rbx r in
  match rcx r with
  | 0 => Some (WorkQueue v) | 1 => Some (CompletionQueue v) | 2 => Some (BufferAddress v) | 3 => Some (BufferSize v)
  | 10 => Some QueueWrite | 13 => Some (ClientDone v) | 14 => Some (ServiceStart (i64 v)) | 15 => Some (ServiceEnd (i64 v))
  | 16 => Some (FruitlessCheck (i64 v)) | 17 => Some InnerLoop | 18 => Some OuterLoop | 19 => Some (Timestamp (i64 v))
  | 57005 => Some Done
  | _ => None
  end.

Lemma i64_u64 c : - 2 ^ 31 <= c < 2 ^ 31 -> i64 (u64 c) = c.
Proof. intros. unfold i64. destruct (Z.ltb_spec (u64 (u64 c)) 9223372036854775808); wrap_lia. Qed.

Lemma read_code v code : is_u64 code ->
  read_notification (register_buffer v code) = read_notification (Registers (u64 v) code).
Proof. intros H. unfold register_buffer. by rewrite (u64_small code H). Qed.

(** Every notification can be told from the two registers, its value included. *)
Theorem notifications_readable n : sayable n -> read_notification (say n) = Some n.
Proof.
  destruct n; simpl sayable; intros H;
    cbv [say fst reg_wq reg_cq notify_wq_write NOTIFY_WQ_WRITE notify_outer_loop notify_inner_loop notify_done_to_zsim
      monitor_client_done notify_service_start notify_service_end timestamp notify_fruitless_cq_check];
    rewrite read_code by lia; unfold read_notification, rbx, rcx;
    first [done|by rewrite i64_u64|by rewrite u64_small].
Qed.

Lemma notifications_readable_witness : read_notification (say (Timestamp (-1))) = Some (Timestamp (-1)).
Proof. apply notifications_readable. cbn. lia. Defined.

(** What a worker says itself while it serves; its sends and releases each announce their entry
    in the work queue. *)
Definition said (ev : event) : list notification :=
  match ev with
  | EvTimestamp c => [Timestamp c]
  | EvSend _ _ _ _ _ _ _ _ | EvRecvDone _ _ _ _ _ => [QueueWrite]
  | EvNotifyDone => [Done]
  end.

(** Per request: two time stamps, the send, a time stamp, the release, a time stamp - all with
    the number of the request. *)
Theorem served_notifications nid id count n r : - 2 ^ 31 <= count < 2 ^ 31 ->
  List.map (fun x => read_notification (say x)) (List.concat (List.map said (serve nid id count n r))) =
  List.map Some [Timestamp count; Timestamp count; QueueWrite; Timestamp count; QueueWrite; Timestamp count].
Proof. intros H. cbn [serve List.map said List.concat app]. by rewrite !notifications_readable by done. Qed.

Lemma served_notifications_witness :
  List.map (fun x => read_notification (say x)) (List.concat (List.map said (serve 1 0 3 2 (Received (Rpc 0 0 0 0 0 0 0) 7 0 0)))) =
  List.map Some [Timestamp 3; Timestamp 3; QueueWrite; Timestamp 3; QueueWrite; Timestamp 3].
Proof. apply served_notifications. lia. Defined.
