(* ===== verification/Store.v ===== *)
(** * A store of machine words, and what a list of cells says of it

    Linked structures live in a store: a finite map from addresses to words, where an access
    to an address without a word is undefined. An assertion about it is a list of cells, up to
    permutation; what a command leaves alone is in the list as a variable. *)

From S2P Require Import Prelude.
From stdpp Require Export gmap.

Open Scope Z_scope.

(** ** Definitions *)

Abbreviation store := (gmap Z Z).
Abbreviation cell := (Z * Z)%type.

Definition NULL : Z := 0.

Definition ld (m : store) (a : Z) : outcome Z := match m !! a with Some v => Ret v | None => Undef end.
Definition sto (m : store) (a v : Z) : outcome store := match m !! a with Some _ => Ret (<[a := v]> m) | None => Undef end.

(** The cells are at different addresses and have these words. *)
Definition holds (m : store) (cs : list cell) : Prop := NoDup cs.*1 /\ Forall (fun c => m !! c.1 = Some c.2) cs.

(** ** Rules *)

#[export] Instance holds_perm m : Proper ((≡ₚ) ==> iff) (holds m).
Proof. intros cs cs' E. unfold holds. by rewrite E. Qed.

Lemma holds_app_l m cs cs' : holds m (cs ++ cs') -> holds m cs.
Proof. unfold holds. rewrite fmap_app, NoDup_app, Forall_app. tauto. Qed.

Lemma ld_in m a v cs : holds m cs -> (a, v) ∈ cs -> ld m a = Ret v.
Proof. intros [_ H] Hin. rewrite Forall_forall in H. unfold ld. by rewrite (H _ Hin : m !! a = Some v). Qed.

Lemma sto_at m a v w cs rest cs' : holds m cs -> cs ≡ₚ (a, v) :: rest -> cs' ≡ₚ (a, w) :: rest ->
  exists m', sto m a w = Ret m' /\ holds m' cs'.
Proof.
  intros H E E'. rewrite E in H. destruct H as [Hn H].
  apply Forall_cons in H as [Hv Hr]. cbn [fst snd] in Hv. unfold sto. rewrite Hv. eexists. split; [done|].
  rewrite E'. split; [done|].
  constructor; cbn [fst snd]; [by rewrite lookup_insert_eq|].
  cbn in Hn. apply NoDup_cons in Hn as [Hn _]. rewrite Forall_forall in *. intros c Hc. rewrite lookup_insert_ne; [by apply Hr|].
  intros ->. apply Hn. by apply list_elem_of_fmap_2.
Qed.

(** Read, and write, the cell that the assertion lists for the address. *)
Ltac in_cells :=
  lazymatch goal with
  | |- ?c ∈ ?c :: _ => apply list_elem_of_here
  | |- _ ∈ _ :: _ => apply list_elem_of_further; in_cells
  | |- _ ∈ _ ++ _ => first [apply elem_of_app; left; in_cells | apply elem_of_app; right; in_cells]
  end.
Ltac store_ld :=
  match goal with H : holds ?m ?cs |- context [ld ?m ?a] =>
    match cs with context [cons (a, ?v) _] =>
      rewrite (ld_in m a v cs H) by in_cells
    end end; cbn [mbind outcome_bind].
Ltac store_sto :=
  match goal with H : holds ?m ?cs |- context [sto ?m ?a ?w] =>
    match cs with context C [cons (a, ?v) ?r] =>
      let rest := context C [r] in
      let cs' := context C [cons (a, w) r] in
      let m' := fresh "m" in let E := fresh "E" in let H' := fresh "Hm" in
      destruct (sto_at m a v w cs rest cs' H) as (m' & E & H'); [solve_Permutation..|]; rewrite E; clear E; clear H
    end end; cbn [mbind outcome_bind].
(** The assertion at hand is the one wanted, up to the order of its cells. *)
Ltac store_done :=
  match goal with H : holds ?m _ |- exists m', Ret ?m = Ret m' /\ _ => exists m; split; [done|]; revert H end.
