(* ===== verification/SysQueue.v ===== *)
(** * [queue.h]: singly and doubly linked lists and tail queues

    The macros of the four kinds over the store of words: a head is a word (first) or two
    (first, last); an element has at its field a word (next) or two (next, previous), where
    [last] and [previous] hold addresses of [next] words. [off] is the offset of the field in
    the element. A walk gets fuel. *)

From S2P Require Import Prelude Store.

Open Scope Z_scope.

(** The word after the one at [a]: [stqh_last], [tqh_last], [le_prev], [tqe_prev]. *)
Definition w2 (a : Z) : Z := a + 8.

Section SysQueue.
Variable off : Z.
(** [&(elm)->field.next], and the element of such an address. *)
Definition nxt (e : Z) : Z := e + off.
Definition containerof (p : Z) : Z := p - off.

(** ** Loops over a list *)

Section Loops.
Context {S : Type} (next : store -> Z -> outcome Z).
(** The loop's body: whether it leaves the loop, its state, and the store. *)
Variable body : S -> store -> Z -> outcome (bool * S * store).

(** The state, the store and the loop variable at the end. *)
(* rte_lib/include/queue.h:688-691 TAILQ_FOREACH *)
Fixpoint foreach (fuel : nat) (s : S) (m : store) (var : Z) : outcome (S * store * Z) :=
  if var =? NULL then Ret (s, m, var)
  else
    '(brk, s, m) ← body s m var;
    if (brk : bool) then Ret (s, m, var)
    else
      var ← next m var;
      match fuel with O => Spin | Datatypes.S fuel => foreach fuel s m var end.

(** The next element is read before the body. *)
(* rte_lib/include/queue.h:698-701 TAILQ_FOREACH_SAFE *)
Fixpoint foreach_safe (fuel : nat) (s : S) (m : store) (var : Z) : outcome (S * store * Z) :=
  if var =? NULL then Ret (s, m, var)
  else
    tvar ← next m var;
    '(brk, s, m) ← body s m var;
    if (brk : bool) then Ret (s, m, var)
    else match fuel with O => Spin | Datatypes.S fuel => foreach_safe fuel s m tvar end.
End Loops.

(** [for (curelm; NEXT(curelm) != stop; curelm = NEXT(curelm))] *)
(* rte_lib/include/queue.h:249-251 SLIST_REMOVE *)
Fixpoint walk (fuel : nat) (m : store) (stop curelm : Z) : outcome Z :=
  n ← ld m (nxt curelm);
  if n =? stop then Ret curelm
  else match fuel with O => Spin | S fuel => walk fuel m stop n end.

(** ** Singly linked lists *)

(* rte_lib/include/queue.h:200-200 SLIST_FIRST *)
Definition SLIST_FIRST (m : store) (head : Z) : outcome Z := ld m head.
(* rte_lib/include/queue.h:198-198 SLIST_EMPTY *)
Definition SLIST_EMPTY (m : store) (head : Z) : outcome bool := f ← ld m head; Ret (f =? NULL).
(* rte_lib/include/queue.h:241-241 SLIST_NEXT *)
Definition SLIST_NEXT (m : store) (elm : Z) : outcome Z := ld m (nxt elm).
(* rte_lib/include/queue.h:227-229 SLIST_INIT *)
Definition SLIST_INIT (m : store) (head : Z) : outcome store := sto m head NULL.
(* rte_lib/include/queue.h:231-234 SLIST_INSERT_AFTER *)
Definition SLIST_INSERT_AFTER (m : store) (slistelm elm : Z) : outcome store :=
  n ← SLIST_NEXT m slistelm;
  m ← sto m (nxt elm) n;
  sto m (nxt slistelm) elm.
(* rte_lib/include/queue.h:236-239 SLIST_INSERT_HEAD *)
Definition SLIST_INSERT_HEAD (m : store) (head elm : Z) : outcome store :=
  f ← SLIST_FIRST m head;
  m ← sto m (nxt elm) f;
  sto m head elm.
(* rte_lib/include/queue.h:257-260 SLIST_REMOVE_AFTER *)
Definition SLIST_REMOVE_AFTER (m : store) (elm : Z) : outcome store :=
  n ← SLIST_NEXT m elm;
  n ← SLIST_NEXT m n;
  sto m (nxt elm) n.
(* rte_lib/include/queue.h:262-264 SLIST_REMOVE_HEAD *)
Definition SLIST_REMOVE_HEAD (m : store) (head : Z) : outcome store :=
  f ← SLIST_FIRST m head;
  n ← SLIST_NEXT m f;
  sto m head n.
(* rte_lib/include/queue.h:243-255 SLIST_REMOVE *)
Definition SLIST_REMOVE (fuel : nat) (m : store) (head elm : Z) : outcome store :=
  f ← SLIST_FIRST m head;
  if f =? elm then SLIST_REMOVE_HEAD m head
  else curelm ← walk fuel m elm f; SLIST_REMOVE_AFTER m curelm.
(* rte_lib/include/queue.h:266-270 SLIST_REMOVE_PREVPTR *)
Definition SLIST_REMOVE_PREVPTR (m : store) (prevp elm : Z) : outcome store :=
  n ← SLIST_NEXT m elm;
  sto m prevp n.
(* rte_lib/include/queue.h:185-196 SLIST_CONCAT *)
Definition SLIST_CONCAT (fuel : nat) (m : store) (head1 head2 : Z) : outcome store :=
  curelm ← SLIST_FIRST m head1;
  if curelm =? NULL then
    f2 ← SLIST_FIRST m head2;
    m ← sto m head1 f2;
    if f2 =? NULL then Ret m else SLIST_INIT m head2
  else
    f2 ← SLIST_FIRST m head2;
    if f2 =? NULL then Ret m
    else
      curelm ← walk fuel m NULL curelm;
      f2 ← SLIST_FIRST m head2;
      m ← sto m (nxt curelm) f2;
      SLIST_INIT m head2.
(* rte_lib/include/queue.h:272-276 SLIST_SWAP *)
Definition SLIST_SWAP (m : store) (head1 head2 : Z) : outcome store :=
  swap_first ← SLIST_FIRST m head1;
  f2 ← SLIST_FIRST m head2;
  m ← sto m head1 f2;
  sto m head2 swap_first.

(** *** The loops; the [FROM] variants start at [var] unless it is NULL. *)
Section SlistLoops.
Context {S : Type} (body : S -> store -> Z -> outcome (bool * S * store)).
(* rte_lib/include/queue.h:202-205 SLIST_FOREACH *)
Definition SLIST_FOREACH (fuel : nat) (s : S) (m : store) (head : Z) : outcome (S * store * Z) :=
  var ← SLIST_FIRST m head; foreach SLIST_NEXT body fuel s m var.
(* rte_lib/include/queue.h:207-210 SLIST_FOREACH_FROM *)
Definition SLIST_FOREACH_FROM (fuel : nat) (s : S) (m : store) (var head : Z) : outcome (S * store * Z) :=
  var ← if var =? NULL then SLIST_FIRST m head else Ret var; foreach SLIST_NEXT body fuel s m var.
(* rte_lib/include/queue.h:212-215 SLIST_FOREACH_SAFE *)
Definition SLIST_FOREACH_SAFE (fuel : nat) (s : S) (m : store) (head : Z) : outcome (S * store * Z) :=
  var ← SLIST_FIRST m head; foreach_safe SLIST_NEXT body fuel s m var.
(* rte_lib/include/queue.h:217-220 SLIST_FOREACH_FROM_SAFE *)
Definition SLIST_FOREACH_FROM_SAFE (fuel : nat) (s : S) (m : store) (var head : Z) : outcome (S * store * Z) :=
  var ← if var =? NULL then SLIST_FIRST m head else Ret var; foreach_safe SLIST_NEXT body fuel s m var.
End SlistLoops.

(** The loop over the addresses that hold the elements' pointers: the body gets both. *)
(* rte_lib/include/queue.h:222-225 SLIST_FOREACH_PREVPTR *)
Fixpoint SLIST_FOREACH_PREVPTR {S} (body : S -> store -> Z -> Z -> outcome (bool * S * store))
    (fuel : nat) (s : S) (m : store) (varp : Z) : outcome (S * store * Z * Z) :=
  var ← ld m varp;
  if var =? NULL then Ret (s, m, var, varp)
  else
    '(brk, s, m) ← body s m var varp;
    if (brk : bool) then Ret (s, m, var, varp)
    else match fuel with O => Spin | Datatypes.S fuel => SLIST_FOREACH_PREVPTR body fuel s m (nxt var) end.

(** ** Singly linked tail queues *)

(* rte_lib/include/queue.h:319-319 STAILQ_FIRST *)
Definition STAILQ_FIRST (m : store) (head : Z) : outcome Z := ld m head.
(* rte_lib/include/queue.h:317-317 STAILQ_EMPTY *)
Definition STAILQ_EMPTY (m : store) (head : Z) : outcome bool := f ← ld m head; Ret (f =? NULL).
(* rte_lib/include/queue.h:369-369 STAILQ_NEXT *)
Definition STAILQ_NEXT (m : store) (elm : Z) : outcome Z := ld m (nxt elm).
(* rte_lib/include/queue.h:341-344 STAILQ_INIT *)
Definition STAILQ_INIT (m : store) (head : Z) : outcome store :=
  m ← sto m head NULL;
  sto m (w2 head) head.
(* rte_lib/include/queue.h:346-350 STAILQ_INSERT_AFTER *)
Definition STAILQ_INSERT_AFTER (m : store) (head tqelm elm : Z) : outcome store :=
  n ← STAILQ_NEXT m tqelm;
  m ← sto m (nxt elm) n;
  m ← if n =? NULL then sto m (w2 head) (nxt elm) else Ret m;
  sto m (nxt tqelm) elm.
(* rte_lib/include/queue.h:352-356 STAILQ_INSERT_HEAD *)
Definition STAILQ_INSERT_HEAD (m : store) (head elm : Z) : outcome store :=
  f ← STAILQ_FIRST m head;
  m ← sto m (nxt elm) f;
  m ← if f =? NULL then sto m (w2 head) (nxt elm) else Ret m;
  sto m head elm.
(* rte_lib/include/queue.h:358-362 STAILQ_INSERT_TAIL *)
Definition STAILQ_INSERT_TAIL (m : store) (head elm : Z) : outcome store :=
  m ← sto m (nxt elm) NULL;
  l ← ld m (w2 head);
  m ← sto m l elm;
  sto m (w2 head) (nxt elm).
(* rte_lib/include/queue.h:364-367 STAILQ_LAST *)
Definition STAILQ_LAST (m : store) (head : Z) : outcome Z :=
  e ← STAILQ_EMPTY m head;
  if (e : bool) then Ret NULL else l ← ld m (w2 head); Ret (containerof l).
(* rte_lib/include/queue.h:385-389 STAILQ_REMOVE_AFTER *)
Definition STAILQ_REMOVE_AFTER (m : store) (head elm : Z) : outcome store :=
  n ← STAILQ_NEXT m elm;
  n ← STAILQ_NEXT m n;
  m ← sto m (nxt elm) n;
  if n =? NULL then sto m (w2 head) (nxt elm) else Ret m.
(* rte_lib/include/queue.h:391-395 STAILQ_REMOVE_HEAD *)
Definition STAILQ_REMOVE_HEAD (m : store) (head : Z) : outcome store :=
  f ← STAILQ_FIRST m head;
  n ← STAILQ_NEXT m f;
  m ← sto m head n;
  if n =? NULL then sto m (w2 head) head else Ret m.
(* rte_lib/include/queue.h:371-383 STAILQ_REMOVE *)
Definition STAILQ_REMOVE (fuel : nat) (m : store) (head elm : Z) : outcome store :=
  f ← STAILQ_FIRST m head;
  if f =? elm then STAILQ_REMOVE_HEAD m head
  else curelm ← walk fuel m elm f; STAILQ_REMOVE_AFTER m head curelm.
(* rte_lib/include/queue.h:309-315 STAILQ_CONCAT *)
Definition STAILQ_CONCAT (m : store) (head1 head2 : Z) : outcome store :=
  e ← STAILQ_EMPTY m head2;
  if (e : bool) then Ret m
  else
    l ← ld m (w2 head1);
    f2 ← STAILQ_FIRST m head2;
    m ← sto m l f2;
    l2 ← ld m (w2 head2);
    m ← sto m (w2 head1) l2;
    STAILQ_INIT m head2.
(* rte_lib/include/queue.h:397-408 STAILQ_SWAP *)
Definition STAILQ_SWAP (m : store) (head1 head2 : Z) : outcome store :=
  swap_first ← STAILQ_FIRST m head1;
  swap_last ← ld m (w2 head1);
  f2 ← STAILQ_FIRST m head2;
  m ← sto m head1 f2;
  l2 ← ld m (w2 head2);
  m ← sto m (w2 head1) l2;
  m ← sto m head2 swap_first;
  m ← sto m (w2 head2) swap_last;
  e1 ← STAILQ_EMPTY m head1;
  m ← if (e1 : bool) then sto m (w2 head1) head1 else Ret m;
  e2 ← STAILQ_EMPTY m head2;
  if (e2 : bool) then sto m (w2 head2) head2 else Ret m.

Section StailqLoops.
Context {S : Type} (body : S -> store -> Z -> outcome (bool * S * store)).
(* rte_lib/include/queue.h:321-324 STAILQ_FOREACH *)
Definition STAILQ_FOREACH (fuel : nat) (s : S) (m : store) (head : Z) : outcome (S * store * Z) :=
  var ← STAILQ_FIRST m head; foreach STAILQ_NEXT body fuel s m var.
(* rte_lib/include/queue.h:326-329 STAILQ_FOREACH_FROM *)
Definition STAILQ_FOREACH_FROM (fuel : nat) (s : S) (m : store) (var head : Z) : outcome (S * store * Z) :=
  var ← if var =? NULL then STAILQ_FIRST m head else Ret var; foreach STAILQ_NEXT body fuel s m var.
(* rte_lib/include/queue.h:331-334 STAILQ_FOREACH_SAFE *)
Definition STAILQ_FOREACH_SAFE (fuel : nat) (s : S) (m : store) (head : Z) : outcome (S * store * Z) :=
  var ← STAILQ_FIRST m head; foreach_safe STAILQ_NEXT body fuel s m var.
(* rte_lib/include/queue.h:336-339 STAILQ_FOREACH_FROM_SAFE *)
Definition STAILQ_FOREACH_FROM_SAFE (fuel : nat) (s : S) (m : store) (var head : Z) : outcome (S * store * Z) :=
  var ← if var =? NULL then STAILQ_FIRST m head else Ret var; foreach_safe STAILQ_NEXT body fuel s m var.
End StailqLoops.

(** ** Lists *)

(* rte_lib/include/queue.h:504-504 LIST_FIRST *)
Definition LIST_FIRST (m : store) (head : Z) : outcome Z := ld m head.
(* rte_lib/include/queue.h:502-502 LIST_EMPTY *)
Definition LIST_EMPTY (m : store) (head : Z) : outcome bool := f ← ld m head; Ret (f =? NULL).
(* rte_lib/include/queue.h:555-555 LIST_NEXT *)
Definition LIST_NEXT (m : store) (elm : Z) : outcome Z := ld m (nxt elm).
(* rte_lib/include/queue.h:526-528 LIST_INIT *)
Definition LIST_INIT (m : store) (head : Z) : outcome store := sto m head NULL.
(* rte_lib/include/queue.h:530-537 LIST_INSERT_AFTER *)
Definition LIST_INSERT_AFTER (m : store) (listelm elm : Z) : outcome store :=
  n ← LIST_NEXT m listelm;
  m ← sto m (nxt elm) n;
  m ← if n =? NULL then Ret m
      else n ← LIST_NEXT m listelm; sto m (w2 (nxt n)) (nxt elm);
  m ← sto m (nxt listelm) elm;
  sto m (w2 (nxt elm)) (nxt listelm).
(* rte_lib/include/queue.h:539-545 LIST_INSERT_BEFORE *)
Definition LIST_INSERT_BEFORE (m : store) (listelm elm : Z) : outcome store :=
  p ← ld m (w2 (nxt listelm));
  m ← sto m (w2 (nxt elm)) p;
  m ← sto m (nxt elm) listelm;
  p ← ld m (w2 (nxt listelm));
  m ← sto m p elm;
  sto m (w2 (nxt listelm)) (nxt elm).
(* rte_lib/include/queue.h:547-553 LIST_INSERT_HEAD *)
Definition LIST_INSERT_HEAD (m : store) (head elm : Z) : outcome store :=
  f ← LIST_FIRST m head;
  m ← sto m (nxt elm) f;
  m ← if f =? NULL then Ret m
      else f ← LIST_FIRST m head; sto m (w2 (nxt f)) (nxt elm);
  m ← sto m head elm;
  sto m (w2 (nxt elm)) head.
(* rte_lib/include/queue.h:557-560 LIST_PREV *)
Definition LIST_PREV (m : store) (elm head : Z) : outcome Z :=
  p ← ld m (w2 (nxt elm));
  Ret (if p =? head then NULL else containerof p).
(* rte_lib/include/queue.h:562-573 LIST_REMOVE *)
Definition LIST_REMOVE (m : store) (elm : Z) : outcome store :=
  n ← LIST_NEXT m elm;
  m ← if n =? NULL then Ret m
      else p ← ld m (w2 (nxt elm)); sto m (w2 (nxt n)) p;
  p ← ld m (w2 (nxt elm));
  n ← LIST_NEXT m elm;
  sto m p n.
(* rte_lib/include/queue.h:485-500 LIST_CONCAT *)
Definition LIST_CONCAT (fuel : nat) (m : store) (head1 head2 : Z) : outcome store :=
  curelm ← LIST_FIRST m head1;
  if curelm =? NULL then
    f2 ← LIST_FIRST m head2;
    m ← sto m head1 f2;
    if f2 =? NULL then Ret m
    else
      f2 ← LIST_FIRST m head2;
      m ← sto m (w2 (nxt f2)) head1;
      LIST_INIT m head2
  else
    f2 ← LIST_FIRST m head2;
    if f2 =? NULL then Ret m
    else
      curelm ← walk fuel m NULL curelm;
      f2 ← LIST_FIRST m head2;
      m ← sto m (nxt curelm) f2;
      f2 ← LIST_FIRST m head2;
      m ← sto m (w2 (nxt f2)) (nxt curelm);
      LIST_INIT m head2.
(* rte_lib/include/queue.h:575-583 LIST_SWAP *)
Definition LIST_SWAP (m : store) (head1 head2 : Z) : outcome store :=
  swap_tmp ← LIST_FIRST m head1;
  f2 ← LIST_FIRST m head2;
  m ← sto m head1 f2;
  m ← sto m head2 swap_tmp;
  swap_tmp ← LIST_FIRST m head1;
  m ← if swap_tmp =? NULL then Ret m else sto m (w2 (nxt swap_tmp)) head1;
  swap_tmp ← LIST_FIRST m head2;
  if swap_tmp =? NULL then Ret m else sto m (w2 (nxt swap_tmp)) head2.

Section ListLoops.
Context {S : Type} (body : S -> store -> Z -> outcome (bool * S * store)).
(* rte_lib/include/queue.h:506-509 LIST_FOREACH *)
Definition LIST_FOREACH (fuel : nat) (s : S) (m : store) (head : Z) : outcome (S * store * Z) :=
  var ← LIST_FIRST m head; foreach LIST_NEXT body fuel s m var.
(* rte_lib/include/queue.h:511-514 LIST_FOREACH_FROM *)
Definition LIST_FOREACH_FROM (fuel : nat) (s : S) (m : store) (var head : Z) : outcome (S * store * Z) :=
  var ← if var =? NULL then LIST_FIRST m head else Ret var; foreach LIST_NEXT body fuel s m var.
(* rte_lib/include/queue.h:516-519 LIST_FOREACH_SAFE *)
Definition LIST_FOREACH_SAFE (fuel : nat) (s : S) (m : store) (head : Z) : outcome (S * store * Z) :=
  var ← LIST_FIRST m head; foreach_safe LIST_NEXT body fuel s m var.
(* rte_lib/include/queue.h:521-524 LIST_FOREACH_FROM_SAFE *)
Definition LIST_FOREACH_FROM_SAFE (fuel : nat) (s : S) (m : store) (var head : Z) : outcome (S * store * Z) :=
  var ← if var =? NULL then LIST_FIRST m head else Ret var; foreach_safe LIST_NEXT body fuel s m var.
End ListLoops.

(** ** Tail queues *)

(* rte_lib/include/queue.h:686-686 TAILQ_FIRST *)
Definition TAILQ_FIRST (m : store) (head : Z) : outcome Z := ld m head.
(* rte_lib/include/queue.h:684-684 TAILQ_EMPTY *)
Definition TAILQ_EMPTY (m : store) (head : Z) : outcome bool := f ← ld m head; Ret (f =? NULL).
(* rte_lib/include/queue.h:795-795 TAILQ_NEXT *)
Definition TAILQ_NEXT (m : store) (elm : Z) : outcome Z := ld m (nxt elm).
(* rte_lib/include/queue.h:728-732 TAILQ_INIT *)
Definition TAILQ_INIT (m : store) (head : Z) : outcome store :=
  m ← sto m head NULL;
  sto m (w2 head) head.
(* rte_lib/include/queue.h:734-747 TAILQ_INSERT_AFTER *)
Definition TAILQ_INSERT_AFTER (m : store) (head listelm elm : Z) : outcome store :=
  n ← TAILQ_NEXT m listelm;
  m ← sto m (nxt elm) n;
  m ← if n =? NULL then sto m (w2 head) (nxt elm)
      else n ← TAILQ_NEXT m elm; sto m (w2 (nxt n)) (nxt elm);
  m ← sto m (nxt listelm) elm;
  sto m (w2 (nxt elm)) (nxt listelm).
(* rte_lib/include/queue.h:749-757 TAILQ_INSERT_BEFORE *)
Definition TAILQ_INSERT_BEFORE (m : store) (listelm elm : Z) : outcome store :=
  p ← ld m (w2 (nxt listelm));
  m ← sto m (w2 (nxt elm)) p;
  m ← sto m (nxt elm) listelm;
  p ← ld m (w2 (nxt listelm));
  m ← sto m p elm;
  sto m (w2 (nxt listelm)) (nxt elm).
(* rte_lib/include/queue.h:759-770 TAILQ_INSERT_HEAD *)
Definition TAILQ_INSERT_HEAD (m : store) (head elm : Z) : outcome store :=
  f ← TAILQ_FIRST m head;
  m ← sto m (nxt elm) f;
  m ← if f =? NULL then sto m (w2 head) (nxt elm)
      else f ← TAILQ_FIRST m head; sto m (w2 (nxt f)) (nxt elm);
  m ← sto m head elm;
  sto m (w2 (nxt elm)) head.
(* rte_lib/include/queue.h:772-780 TAILQ_INSERT_TAIL *)
Definition TAILQ_INSERT_TAIL (m : store) (head elm : Z) : outcome store :=
  m ← sto m (nxt elm) NULL;
  l ← ld m (w2 head);
  m ← sto m (w2 (nxt elm)) l;
  l ← ld m (w2 head);
  m ← sto m l elm;
  sto m (w2 head) (nxt elm).
(** The address in [tqh_last] read as a head: its second word is the last element's [tqe_prev],
    or the head's [tqh_last], and points to the word that points to the last element. *)
(* rte_lib/include/queue.h:782-783 TAILQ_LAST *)
Definition TAILQ_LAST (m : store) (head : Z) : outcome Z :=
  l ← ld m (w2 head);
  p ← ld m (w2 l);
  ld m p.
(* rte_lib/include/queue.h:792-793 TAILQ_LAST_FAST *)
Definition TAILQ_LAST_FAST (m : store) (head : Z) : outcome Z :=
  e ← TAILQ_EMPTY m head;
  if (e : bool) then Ret NULL else l ← ld m (w2 head); Ret (containerof l).
(* rte_lib/include/queue.h:797-798 TAILQ_PREV *)
Definition TAILQ_PREV (m : store) (elm : Z) : outcome Z :=
  q ← ld m (w2 (nxt elm));
  p ← ld m (w2 q);
  ld m p.
(* rte_lib/include/queue.h:800-802 TAILQ_PREV_FAST *)
Definition TAILQ_PREV_FAST (m : store) (elm head : Z) : outcome Z :=
  p ← ld m (w2 (nxt elm));
  Ret (if p =? head then NULL else containerof p).
(* rte_lib/include/queue.h:804-820 TAILQ_REMOVE *)
Definition TAILQ_REMOVE (m : store) (head elm : Z) : outcome store :=
  n ← TAILQ_NEXT m elm;
  m ← if n =? NULL then p ← ld m (w2 (nxt elm)); sto m (w2 head) p
      else p ← ld m (w2 (nxt elm)); sto m (w2 (nxt n)) p;
  p ← ld m (w2 (nxt elm));
  n ← TAILQ_NEXT m elm;
  sto m p n.
(* rte_lib/include/queue.h:673-682 TAILQ_CONCAT *)
Definition TAILQ_CONCAT (m : store) (head1 head2 : Z) : outcome store :=
  e ← TAILQ_EMPTY m head2;
  if (e : bool) then Ret m
  else
    l ← ld m (w2 head1);
    f2 ← TAILQ_FIRST m head2;
    m ← sto m l f2;
    f2 ← TAILQ_FIRST m head2;
    l ← ld m (w2 head1);
    m ← sto m (w2 (nxt f2)) l;
    l2 ← ld m (w2 head2);
    m ← sto m (w2 head1) l2;
    TAILQ_INIT m head2.
(* rte_lib/include/queue.h:822-837 TAILQ_SWAP *)
Definition TAILQ_SWAP (m : store) (head1 head2 : Z) : outcome store :=
  swap_first ← TAILQ_FIRST m head1;
  swap_last ← ld m (w2 head1);
  f2 ← TAILQ_FIRST m head2;
  m ← sto m head1 f2;
  l2 ← ld m (w2 head2);
  m ← sto m (w2 head1) l2;
  m ← sto m head2 swap_first;
  m ← sto m (w2 head2) swap_last;
  swap_first ← TAILQ_FIRST m head1;
  m ← if swap_first =? NULL then sto m (w2 head1) head1 else sto m (w2 (nxt swap_first)) head1;
  swap_first ← TAILQ_FIRST m head2;
  if swap_first =? NULL then sto m (w2 head2) head2 else sto m (w2 (nxt swap_first)) head2.

Section TailqLoops.
Context {S : Type} (body : S -> store -> Z -> outcome (bool * S * store)).
(* rte_lib/include/queue.h:688-691 TAILQ_FOREACH *)
Definition TAILQ_FOREACH (fuel : nat) (s : S) (m : store) (head : Z) : outcome (S * store * Z) :=
  var ← TAILQ_FIRST m head; foreach TAILQ_NEXT body fuel s m var.
(* rte_lib/include/queue.h:693-696 TAILQ_FOREACH_FROM *)
Definition TAILQ_FOREACH_FROM (fuel : nat) (s : S) (m : store) (var head : Z) : outcome (S * store * Z) :=
  var ← if var =? NULL then TAILQ_FIRST m head else Ret var; foreach TAILQ_NEXT body fuel s m var.
(* rte_lib/include/queue.h:698-701 TAILQ_FOREACH_SAFE *)
Definition TAILQ_FOREACH_SAFE (fuel : nat) (s : S) (m : store) (head : Z) : outcome (S * store * Z) :=
  var ← TAILQ_FIRST m head; foreach_safe TAILQ_NEXT body fuel s m var.
(* rte_lib/include/queue.h:703-706 TAILQ_FOREACH_FROM_SAFE *)
Definition TAILQ_FOREACH_FROM_SAFE (fuel : nat) (s : S) (m : store) (var head : Z) : outcome (S * store * Z) :=
  var ← if var =? NULL then TAILQ_FIRST m head else Ret var; foreach_safe TAILQ_NEXT body fuel s m var.
(* rte_lib/include/queue.h:708-711 TAILQ_FOREACH_REVERSE *)
Definition TAILQ_FOREACH_REVERSE (fuel : nat) (s : S) (m : store) (head : Z) : outcome (S * store * Z) :=
  var ← TAILQ_LAST m head; foreach TAILQ_PREV body fuel s m var.
(* rte_lib/include/queue.h:713-716 TAILQ_FOREACH_REVERSE_FROM *)
Definition TAILQ_FOREACH_REVERSE_FROM (fuel : nat) (s : S) (m : store) (var head : Z) : outcome (S * store * Z) :=
  var ← if var =? NULL then TAILQ_LAST m head else Ret var; foreach TAILQ_PREV body fuel s m var.
(* rte_lib/include/queue.h:718-721 TAILQ_FOREACH_REVERSE_SAFE *)
Definition TAILQ_FOREACH_REVERSE_SAFE (fuel : nat) (s : S) (m : store) (head : Z) : outcome (S * store * Z) :=
  var ← TAILQ_LAST m head; foreach_safe TAILQ_PREV body fuel s m var.
(* rte_lib/include/queue.h:723-726 TAILQ_FOREACH_REVERSE_FROM_SAFE *)
Definition TAILQ_FOREACH_REVERSE_FROM_SAFE (fuel : nat) (s : S) (m : store) (var head : Z) : outcome (S * store * Z) :=
  var ← if var =? NULL then TAILQ_LAST m head else Ret var; foreach_safe TAILQ_PREV body fuel s m var.
End TailqLoops.
End SysQueue.
