(* ===== verification/SysQueueSpec.v ===== *)
(** * The lists of [queue.h] as lists

    A list at a head owns the chain of its [next] words, the [previous] words of the doubly
    linked kinds, and the words of the head. Each macro turns the cells of one list into those
    of the list it promises and leaves every other cell as it was. *)

From S2P Require Import Prelude Store SysQueue.

Open Scope Z_scope.

Section Spec.
Context (off : Z).
Local Abbreviation nxt := (nxt off).
Local Abbreviation containerof := (containerof off).

(** ** Ownership *)

(** The words of a chain that starts at the word [p], but its last; [dbl]: with back pointers. *)
Fixpoint seg (dbl : bool) (p : Z) (xs : list Z) : list cell :=
  match xs with
  | [] => []
  | x :: xs => (p, x) :: (if dbl then [(w2 (nxt x), p)] else []) ++ seg dbl (nxt x) xs
  end.
(** The address of the last word of the chain. *)
Fixpoint tail_of (p : Z) (xs : list Z) : Z :=
  match xs with [] => p | x :: xs => tail_of (nxt x) xs end.

(** The four kinds: with back pointers, with a pointer to the last word. *)
Definition chain (dbl tq : bool) (h : Z) (xs : list Z) : list cell :=
  seg dbl h xs ++ [(tail_of h xs, NULL)] ++ (if tq then [(w2 h, tail_of h xs)] else []).
Abbreviation slist := (chain false false).
Abbreviation stailq := (chain false true).
Abbreviation llist := (chain true false).
Abbreviation tailq := (chain true true).

(** An element outside the lists, with whatever its words hold. *)
Definition node (dbl : bool) (e v w : Z) : list cell := (nxt e, v) :: (if dbl then [(w2 (nxt e), w)] else []).

Lemma seg_app dbl p xs ys : seg dbl p (xs ++ ys) = seg dbl p xs ++ seg dbl (tail_of p xs) ys.
Proof. revert p. induction xs as [|x xs IH]; intros p; [done|]. cbn. by rewrite IH, app_assoc. Qed.
Lemma tail_of_app p xs ys : tail_of p (xs ++ ys) = tail_of (tail_of p xs) ys.
Proof. revert p. induction xs as [|x xs IH]; intros p; [done|]. apply IH. Qed.

Definition nonnull (xs : list Z) : Prop := Forall (fun x => x <> NULL) xs.
Lemma nonnull_cons x xs : nonnull (x :: xs) <-> x <> NULL /\ nonnull xs.
Proof. unfold nonnull. by rewrite Forall_cons. Qed.
Lemma nonnull_app xs ys : nonnull (xs ++ ys) <-> nonnull xs /\ nonnull ys.
Proof. unfold nonnull. by rewrite Forall_app. Qed.

Lemma nonnull_in e l : nonnull l -> e ∈ l -> e <> NULL.
Proof. unfold nonnull. rewrite Forall_forall. auto. Qed.

(** No address is there twice. *)
Lemma holds_twice m a v w cs : holds m ((a, v) :: cs) -> (a, w) ∈ cs -> False.
Proof. intros [Hn _] Hin. cbn in Hn. apply NoDup_cons in Hn as [Hn _]. apply Hn. by apply (list_elem_of_fmap_2 fst _ _ Hin). Qed.

(** Expose the cells of the lists at hand; tests against NULL and the elements. *)
Ltac cells := unfold chain, node in *; rewrite ?seg_app, ?tail_of_app in *; cbn [seg tail_of app] in *.
Ltac null_test :=
  match goal with
  | |- context [NULL =? NULL] => change (NULL =? NULL) with true; cbv iota
  | H : ?x <> NULL |- context [?x =? NULL] => rewrite (proj2 (Z.eqb_neq x NULL) H)
  end.
Ltac exec := repeat (cbn [mbind outcome_bind]; first [null_test | store_ld | store_sto]).
Ltac finish := 
  match goal with H : holds ?m _ |- exists m', Ret ?m = Ret m' /\ _ => exists m; split; [done|] end;
  match goal with H : holds ?m _ |- holds ?m _ => revert H; apply holds_perm; cells; solve_Permutation end.

Ltac by_cells := intros; cells; exec; finish.
(** By the first element of the list, if there is one. *)
Ltac first_of xs :=
  let x := fresh "x" in
  destruct xs as [|x xs]; [|match goal with H : nonnull (x :: _) |- _ => apply nonnull_cons in H as [H _] end].

(** ** Tail queues *)

Lemma TAILQ_INIT_spec m h v w F : holds m ((h, v) :: (w2 h, w) :: F) ->
  exists m', TAILQ_INIT m h = Ret m' /\ holds m' (tailq h [] ++ F).
Proof. unfold TAILQ_INIT. by_cells. Qed.

Lemma TAILQ_FIRST_spec m h xs F : holds m (tailq h xs ++ F) -> TAILQ_FIRST m h = Ret (default NULL (head xs)).
Proof. unfold TAILQ_FIRST. intros H. destruct xs; cells; exec; done. Qed.

Lemma TAILQ_INSERT_HEAD_spec m h xs e v w F : nonnull xs -> holds m (tailq h xs ++ node true e v w ++ F) ->
  exists m', TAILQ_INSERT_HEAD off m h e = Ret m' /\ holds m' (tailq h (e :: xs) ++ F).
Proof. unfold TAILQ_INSERT_HEAD, TAILQ_FIRST. intros Hx H. first_of xs; by_cells. Qed.

Lemma TAILQ_INSERT_TAIL_spec m h xs e v w F : holds m (tailq h xs ++ node true e v w ++ F) ->
  exists m', TAILQ_INSERT_TAIL off m h e = Ret m' /\ holds m' (tailq h (xs ++ [e]) ++ F).
Proof. unfold TAILQ_INSERT_TAIL. by_cells. Qed.

Lemma TAILQ_INSERT_AFTER_spec m h xs y ys e v w F : nonnull ys -> holds m (tailq h (xs ++ y :: ys) ++ node true e v w ++ F) ->
  exists m', TAILQ_INSERT_AFTER off m h y e = Ret m' /\ holds m' (tailq h (xs ++ y :: e :: ys) ++ F).
Proof. unfold TAILQ_INSERT_AFTER, TAILQ_NEXT. intros Hx H. first_of ys; by_cells. Qed.

Lemma TAILQ_INSERT_BEFORE_spec m h xs y ys e v w F : holds m (tailq h (xs ++ y :: ys) ++ node true e v w ++ F) ->
  exists m', TAILQ_INSERT_BEFORE off m y e = Ret m' /\ holds m' (tailq h (xs ++ e :: y :: ys) ++ F).
Proof. unfold TAILQ_INSERT_BEFORE. by_cells. Qed.

(** What a removed element keeps in its words. *)
Definition out_node (dbl : bool) (h : Z) (xs : list Z) (e : Z) (ys : list Z) : list cell :=
  node dbl e (default NULL (head ys)) (tail_of h xs).

Lemma TAILQ_REMOVE_spec m h xs e ys F : nonnull ys -> holds m (tailq h (xs ++ e :: ys) ++ F) ->
  exists m', TAILQ_REMOVE off m h e = Ret m' /\ holds m' (tailq h (xs ++ ys) ++ out_node true h xs e ys ++ F).
Proof. unfold TAILQ_REMOVE, TAILQ_NEXT, out_node. intros Hx H. first_of ys; by_cells. Qed.

Lemma TAILQ_NEXT_spec m h xs y ys F : holds m (tailq h (xs ++ y :: ys) ++ F) ->
  TAILQ_NEXT off m y = Ret (default NULL (head ys)).
Proof. unfold TAILQ_NEXT. intros H. destruct ys; cells; by exec. Qed.

(** The word that points to the last element, read through the cast. *)
Lemma tailq_last_word m h xs F : holds m (tailq h xs ++ F) -> (p ← ld m (w2 (tail_of h xs)); ld m p) = Ret (default NULL (last xs)).
Proof. intros H. destruct xs as [|x xs _] using rev_ind; cells; [by exec|]. rewrite last_snoc. by exec. Qed.

Lemma TAILQ_LAST_spec m h xs F : holds m (tailq h xs ++ F) -> TAILQ_LAST m h = Ret (default NULL (last xs)).
Proof. intros H. rewrite <- (tailq_last_word m h xs F H). unfold TAILQ_LAST. cells. by store_ld. Qed.

Lemma TAILQ_PREV_spec m h xs y ys F : holds m (tailq h (xs ++ y :: ys) ++ F) -> TAILQ_PREV off m y = Ret (default NULL (last xs)).
Proof.
  unfold TAILQ_PREV. intros H. destruct xs as [|x xs _] using rev_ind; cells; [by exec|]. rewrite last_snoc.
  rewrite <- !app_assoc in H. cbn [app] in H. by exec.
Qed.

Lemma containerof_nxt e : containerof (nxt e) = e.
Proof. unfold containerof, nxt. lia. Qed.

Lemma tail_of_last p xs x : last xs = Some x -> tail_of p xs = nxt x.
Proof. intros [ys ->]%last_Some. by rewrite tail_of_app. Qed.

(** The head's word and the last word of a chain that is not empty are different words. *)
Lemma tail_ne_head dbl tq m h x xs F : holds m (chain dbl tq h (x :: xs) ++ F) -> tail_of h (x :: xs) <> h.
Proof.
  unfold chain. cbn [seg app]. intros H E. rewrite E in H. apply (holds_twice _ _ _ NULL _ H). in_cells.
Qed.

Lemma TAILQ_LAST_FAST_spec m h xs F : nonnull xs -> holds m (tailq h xs ++ F) ->
  TAILQ_LAST_FAST off m h = Ret (default NULL (last xs)).
Proof.
  unfold TAILQ_LAST_FAST, TAILQ_EMPTY. intros Hx H. destruct xs as [|x xs]; [cells; by exec|].
  apply nonnull_cons in Hx as [Hx _]. destruct (last (x :: xs)) as [y|] eqn:E; [|by apply last_None in E].
  apply (tail_of_last h) in E. unfold chain in H. rewrite E in H. cells. exec. by rewrite containerof_nxt.
Qed.

(** The fast previous element: compare with the head's word, or step back from the address. *)
Lemma prev_fast tq m h xs y ys F : holds m (chain true tq h (xs ++ y :: ys) ++ F) ->
  (p ← ld m (w2 (nxt y)); Ret (if p =? h then NULL else containerof p)) = Ret (default NULL (last xs)).
Proof.
  intros H. destruct xs as [|x xs].
  { cells. exec. by rewrite Z.eqb_refl. }
  assert (Hne : tail_of h (x :: xs) <> h).
  { intros E. assert (holds m (chain true tq h (x :: xs ++ y :: ys) ++ F)) as H' by exact H.
    unfold chain in H'. rewrite (app_comm_cons xs), seg_app in H'. cbn [seg app tail_of] in H'. cbn [tail_of] in E. rewrite E in H'.
    apply (holds_twice _ _ _ y _ H'). in_cells. }
  destruct (last (x :: xs)) as [z|] eqn:E; [|by apply last_None in E]. apply (tail_of_last h) in E.
  set (zs := x :: xs) in *. clearbody zs. cells.
  exec. rewrite E, (proj2 (Z.eqb_neq _ _)) by congruence. by rewrite containerof_nxt.
Qed.

Lemma TAILQ_CONCAT_spec m h1 h2 xs ys F : nonnull ys -> holds m (tailq h1 xs ++ tailq h2 ys ++ F) ->
  exists m', TAILQ_CONCAT off m h1 h2 = Ret m' /\ holds m' (tailq h1 (xs ++ ys) ++ tailq h2 [] ++ F).
Proof.
  unfold TAILQ_CONCAT, TAILQ_EMPTY, TAILQ_FIRST, TAILQ_INIT. intros Hx H. first_of ys; [|by_cells].
  cells. exec. rewrite app_nil_r. finish.
Qed.

Lemma TAILQ_SWAP_spec m h1 h2 xs ys F : nonnull xs -> nonnull ys -> holds m (tailq h1 xs ++ tailq h2 ys ++ F) ->
  exists m', TAILQ_SWAP off m h1 h2 = Ret m' /\ holds m' (tailq h1 ys ++ tailq h2 xs ++ F).
Proof. unfold TAILQ_SWAP, TAILQ_FIRST. intros Hx Hy H. first_of xs; first_of ys; by_cells. Qed.

(** ** Lists *)

Lemma LIST_INIT_spec m h v F : holds m ((h, v) :: F) -> exists m', LIST_INIT m h = Ret m' /\ holds m' (llist h [] ++ F).
Proof. unfold LIST_INIT. by_cells. Qed.

Lemma LIST_INSERT_HEAD_spec m h xs e v w F : nonnull xs -> holds m (llist h xs ++ node true e v w ++ F) ->
  exists m', LIST_INSERT_HEAD off m h e = Ret m' /\ holds m' (llist h (e :: xs) ++ F).
Proof. unfold LIST_INSERT_HEAD, LIST_FIRST. intros Hx H. first_of xs; by_cells. Qed.

Lemma LIST_INSERT_AFTER_spec m h xs y ys e v w F : nonnull ys -> holds m (llist h (xs ++ y :: ys) ++ node true e v w ++ F) ->
  exists m', LIST_INSERT_AFTER off m y e = Ret m' /\ holds m' (llist h (xs ++ y :: e :: ys) ++ F).
Proof. unfold LIST_INSERT_AFTER, LIST_NEXT. intros Hx H. first_of ys; by_cells. Qed.

Lemma LIST_INSERT_BEFORE_spec m h xs y ys e v w F : holds m (llist h (xs ++ y :: ys) ++ node true e v w ++ F) ->
  exists m', LIST_INSERT_BEFORE off m y e = Ret m' /\ holds m' (llist h (xs ++ e :: y :: ys) ++ F).
Proof. unfold LIST_INSERT_BEFORE. by_cells. Qed.

Lemma LIST_REMOVE_spec m h xs e ys F : nonnull ys -> holds m (llist h (xs ++ e :: ys) ++ F) ->
  exists m', LIST_REMOVE off m e = Ret m' /\ holds m' (llist h (xs ++ ys) ++ out_node true h xs e ys ++ F).
Proof. unfold LIST_REMOVE, LIST_NEXT, out_node. intros Hx H. first_of ys; by_cells. Qed.

Lemma LIST_SWAP_spec m h1 h2 xs ys F : nonnull xs -> nonnull ys -> holds m (llist h1 xs ++ llist h2 ys ++ F) ->
  exists m', LIST_SWAP off m h1 h2 = Ret m' /\ holds m' (llist h1 ys ++ llist h2 xs ++ F).
Proof. unfold LIST_SWAP, LIST_FIRST. intros Hx Hy H. first_of xs; first_of ys; by_cells. Qed.

(** ** The walks of the kinds that have to look for an element *)

(** From the element [y] of a chain to the one before [stop]: over [ys] to the last of them. *)
Lemma walk_spec dbl fuel m stop y ys F : Forall (fun x => x <> stop) ys -> (length ys <= fuel)%nat ->
  holds m (seg dbl (nxt y) ys ++ (tail_of (nxt y) ys, stop) :: F) ->
  walk off fuel m stop y = Ret (default y (last ys)).
Proof.
  revert y fuel F. induction ys as [|x ys IH]; intros y fuel F Hs Hf H.
  - destruct fuel; cbn [walk]; cells; store_ld; by rewrite Z.eqb_refl.
  - apply Forall_cons in Hs as [Hx Hs]. destruct fuel as [|fuel]; [cbn in Hf; lia|]. cbn [walk]. cells. store_ld.
    rewrite (proj2 (Z.eqb_neq x stop) Hx), (IH x fuel ((nxt y, x) :: (if dbl then [(w2 (nxt x), nxt y)] else []) ++ F)).
    + destruct ys; [done|]. change (last (x :: z :: ys)) with (last (z :: ys)). by destruct (last (z :: ys)) eqn:E; [|apply last_None in E].
    + done.
    + cbn in Hf. lia.
    + revert H. apply holds_perm. solve_Permutation.
Qed.

Lemma tail_of_default x xs : nxt (default x (last xs)) = tail_of (nxt x) xs.
Proof. destruct (last xs) as [y|] eqn:E; [by rewrite (tail_of_last _ _ _ E)|]. by apply last_None in E as ->. Qed.

(** The elements of a list are different. *)
Lemma seg_addresses dbl p xs v : p :: (nxt <$> xs) ⊆+ (seg dbl p xs ++ [(tail_of p xs, v)]).*1.
Proof.
  revert p. induction xs as [|x xs IH]; intros p; [done|]. cbn [seg tail_of fmap list_fmap app]. cbn [fst].
  rewrite <- app_assoc, fmap_app. apply submseteq_skip. etrans; [apply IH|]. apply submseteq_inserts_l. done.
Qed.
Lemma chain_NoDup dbl tq m h xs F : holds m (chain dbl tq h xs ++ F) -> NoDup xs.
Proof.
  unfold chain. rewrite !app_assoc, <- app_assoc. intros [Hn _]%holds_app_l. apply (NoDup_fmap_1 nxt).
  destruct (submseteq_Permutation _ _ (seg_addresses dbl h xs NULL)) as [k E].
  rewrite E in Hn. cbn [app] in Hn. apply NoDup_cons_1_2, NoDup_app in Hn. tauto.
Qed.
Lemma NoDup_before (xs : list Z) e ys : NoDup (xs ++ e :: ys) -> Forall (fun x => x <> e) xs.
Proof. rewrite NoDup_app, Forall_forall. intros (_ & H & _) x Hx ->. apply (H e Hx). left. Qed.

(** Concatenation by a walk. *)
Lemma LIST_CONCAT_spec fuel m h1 h2 xs ys F : nonnull xs -> nonnull ys -> (length xs <= fuel)%nat ->
  holds m (llist h1 xs ++ llist h2 ys ++ F) ->
  exists m', LIST_CONCAT off fuel m h1 h2 = Ret m' /\ holds m' (llist h1 (xs ++ ys) ++ llist h2 [] ++ F).
Proof.
  unfold LIST_CONCAT, LIST_FIRST, LIST_INIT. intros Hx Hy Hf H. destruct xs as [|x xs].
  { first_of ys; by_cells. }
  apply nonnull_cons in Hx as [Hx Hxs]. destruct ys as [|y ys].
  { rewrite app_nil_r. cells. exec. finish. }
  apply nonnull_cons in Hy as [Hy _]. cells. exec.
  rewrite (walk_spec true fuel m NULL x xs ((h1, x) :: (w2 (nxt x), h1) :: llist h2 (y :: ys) ++ F)) by
    (done || (cbn in Hf; lia) || (revert H; apply holds_perm; cells; solve_Permutation)).
  cbn [mbind outcome_bind]. rewrite tail_of_default. exec. finish.
Qed.

(** ** Singly linked tail queues *)

Lemma STAILQ_INIT_spec m h v w F : holds m ((h, v) :: (w2 h, w) :: F) ->
  exists m', STAILQ_INIT m h = Ret m' /\ holds m' (stailq h [] ++ F).
Proof. unfold STAILQ_INIT. by_cells. Qed.

Lemma STAILQ_INSERT_HEAD_spec m h xs e v w F : nonnull xs -> holds m (stailq h xs ++ node false e v w ++ F) ->
  exists m', STAILQ_INSERT_HEAD off m h e = Ret m' /\ holds m' (stailq h (e :: xs) ++ F).
Proof. unfold STAILQ_INSERT_HEAD, STAILQ_FIRST. intros Hx H. first_of xs; by_cells. Qed.

Lemma STAILQ_INSERT_AFTER_spec m h xs y ys e v w F : nonnull ys -> holds m (stailq h (xs ++ y :: ys) ++ node false e v w ++ F) ->
  exists m', STAILQ_INSERT_AFTER off m h y e = Ret m' /\ holds m' (stailq h (xs ++ y :: e :: ys) ++ F).
Proof. unfold STAILQ_INSERT_AFTER, STAILQ_NEXT. intros Hx H. first_of ys; by_cells. Qed.

Lemma STAILQ_INSERT_TAIL_spec m h xs e v w F : holds m (stailq h xs ++ node false e v w ++ F) ->
  exists m', STAILQ_INSERT_TAIL off m h e = Ret m' /\ holds m' (stailq h (xs ++ [e]) ++ F).
Proof. unfold STAILQ_INSERT_TAIL. by_cells. Qed.

Lemma STAILQ_LAST_spec m h xs F : nonnull xs -> holds m (stailq h xs ++ F) -> STAILQ_LAST off m h = Ret (default NULL (last xs)).
Proof.
  unfold STAILQ_LAST, STAILQ_EMPTY. intros Hx H. destruct xs as [|x xs]; [cells; by exec|].
  apply nonnull_cons in Hx as [Hx _]. destruct (last (x :: xs)) as [y|] eqn:E; [|by apply last_None in E].
  apply (tail_of_last h) in E. unfold chain in H. rewrite E in H. cells. exec. by rewrite containerof_nxt.
Qed.

Lemma STAILQ_CONCAT_spec m h1 h2 xs ys F : nonnull ys -> holds m (stailq h1 xs ++ stailq h2 ys ++ F) ->
  exists m', STAILQ_CONCAT m h1 h2 = Ret m' /\ holds m' (stailq h1 (xs ++ ys) ++ stailq h2 [] ++ F).
Proof.
  unfold STAILQ_CONCAT, STAILQ_EMPTY, STAILQ_FIRST, STAILQ_INIT. intros Hx H. first_of ys; [|by_cells].
  cells. exec. rewrite app_nil_r. finish.
Qed.

Lemma STAILQ_SWAP_spec m h1 h2 xs ys F : nonnull xs -> nonnull ys -> holds m (stailq h1 xs ++ stailq h2 ys ++ F) ->
  exists m', STAILQ_SWAP m h1 h2 = Ret m' /\ holds m' (stailq h1 ys ++ stailq h2 xs ++ F).
Proof. unfold STAILQ_SWAP, STAILQ_FIRST, STAILQ_EMPTY. intros Hx Hy H. first_of xs; first_of ys; by_cells. Qed.

(** Removal: the head, or after the element a walk finds. *)
Lemma find_before tq fuel m h x xs e ys F : (length xs <= fuel)%nat -> holds m (chain false tq h ((x :: xs) ++ e :: ys) ++ F) ->
  x <> e /\ walk off fuel m e x = Ret (default x (last xs)).
Proof.
  intros Hf H. pose proof (NoDup_before _ _ _ (chain_NoDup _ _ _ _ _ _ H)) as [Hx Hxs]%Forall_cons. split; [done|].
  apply (walk_spec false _ _ _ _ _ ((h, x) :: seg false (nxt e) ys ++
    (tail_of (nxt e) ys, NULL) :: (if tq then [(w2 h, tail_of (nxt e) ys)] else []) ++ F)); [done|done|].
  cells. revert H. apply holds_perm. solve_Permutation.
Qed.

Lemma STAILQ_REMOVE_spec fuel m h xs e ys F : nonnull ys -> (length xs <= fuel)%nat -> holds m (stailq h (xs ++ e :: ys) ++ F) ->
  exists m', STAILQ_REMOVE off fuel m h e = Ret m' /\ holds m' (stailq h (xs ++ ys) ++ out_node false h xs e ys ++ F).
Proof.
  unfold STAILQ_REMOVE, STAILQ_REMOVE_HEAD, STAILQ_REMOVE_AFTER, STAILQ_FIRST, STAILQ_NEXT, out_node. intros Hy Hf H.
  destruct xs as [|x xs].
  - first_of ys; cells; exec; rewrite Z.eqb_refl; exec; finish.
  - destruct (find_before true fuel m h x xs e ys F ltac:(cbn in Hf; lia) H) as [Hne Hw].
    first_of ys; cells; exec; rewrite (proj2 (Z.eqb_neq x e) Hne), Hw; cbn [mbind outcome_bind];
      rewrite tail_of_default; exec; finish.
Qed.

(** ** Singly linked lists *)

Lemma SLIST_INIT_spec m h v F : holds m ((h, v) :: F) -> exists m', SLIST_INIT m h = Ret m' /\ holds m' (slist h [] ++ F).
Proof. unfold SLIST_INIT. by_cells. Qed.

Lemma SLIST_INSERT_HEAD_spec m h xs e v w F : holds m (slist h xs ++ node false e v w ++ F) ->
  exists m', SLIST_INSERT_HEAD off m h e = Ret m' /\ holds m' (slist h (e :: xs) ++ F).
Proof. unfold SLIST_INSERT_HEAD, SLIST_FIRST. intros H. destruct xs; by_cells. Qed.

Lemma SLIST_INSERT_AFTER_spec m h xs y ys e v w F : holds m (slist h (xs ++ y :: ys) ++ node false e v w ++ F) ->
  exists m', SLIST_INSERT_AFTER off m y e = Ret m' /\ holds m' (slist h (xs ++ y :: e :: ys) ++ F).
Proof. unfold SLIST_INSERT_AFTER, SLIST_NEXT. intros H. destruct ys; by_cells. Qed.

Lemma SLIST_REMOVE_spec fuel m h xs e ys F : (length xs <= fuel)%nat -> holds m (slist h (xs ++ e :: ys) ++ F) ->
  exists m', SLIST_REMOVE off fuel m h e = Ret m' /\ holds m' (slist h (xs ++ ys) ++ out_node false h xs e ys ++ F).
Proof.
  unfold SLIST_REMOVE, SLIST_REMOVE_HEAD, SLIST_REMOVE_AFTER, SLIST_FIRST, SLIST_NEXT, out_node. intros Hf H.
  destruct xs as [|x xs].
  - destruct ys; cells; exec; rewrite Z.eqb_refl; exec; finish.
  - destruct (find_before false fuel m h x xs e ys F ltac:(cbn in Hf; lia) H) as [Hne Hw].
    destruct ys; cells; exec; rewrite (proj2 (Z.eqb_neq x e) Hne), Hw; cbn [mbind outcome_bind];
      rewrite tail_of_default; exec; finish.
Qed.

Lemma SLIST_REMOVE_PREVPTR_spec m h xs e ys F : holds m (slist h (xs ++ e :: ys) ++ F) ->
  exists m', SLIST_REMOVE_PREVPTR off m (tail_of h xs) e = Ret m' /\ holds m' (slist h (xs ++ ys) ++ out_node false h xs e ys ++ F).
Proof. unfold SLIST_REMOVE_PREVPTR, SLIST_NEXT, out_node. intros H. destruct ys; by_cells. Qed.

Lemma SLIST_SWAP_spec m h1 h2 xs ys F : holds m (slist h1 xs ++ slist h2 ys ++ F) ->
  exists m', SLIST_SWAP m h1 h2 = Ret m' /\ holds m' (slist h1 ys ++ slist h2 xs ++ F).
Proof. unfold SLIST_SWAP, SLIST_FIRST. intros H. destruct xs, ys; by_cells. Qed.

Lemma SLIST_CONCAT_spec fuel m h1 h2 xs ys F : nonnull xs -> nonnull ys -> (length xs <= fuel)%nat ->
  holds m (slist h1 xs ++ slist h2 ys ++ F) ->
  exists m', SLIST_CONCAT off fuel m h1 h2 = Ret m' /\ holds m' (slist h1 (xs ++ ys) ++ slist h2 [] ++ F).
Proof.
  unfold SLIST_CONCAT, SLIST_FIRST, SLIST_INIT. intros Hx Hy Hf H. destruct xs as [|x xs].
  { first_of ys; by_cells. }
  apply nonnull_cons in Hx as [Hx Hxs]. destruct ys as [|y ys].
  { rewrite app_nil_r. cells. exec. finish. }
  apply nonnull_cons in Hy as [Hy _]. cells. exec.
  rewrite (walk_spec false fuel m NULL x xs ((h1, x) :: slist h2 (y :: ys) ++ F)) by
    (done || (cbn in Hf; lia) || (revert H; apply holds_perm; cells; solve_Permutation)).
  cbn [mbind outcome_bind]. rewrite tail_of_default. exec. finish.
Qed.

(** ** Loops *)

Section Loops.
Context {S : Type} (next : store -> Z -> outcome Z) (body : S -> store -> Z -> outcome (bool * S * store)) (f : S -> Z -> bool * S).

(** [next] goes through the elements. *)
Fixpoint path (m : store) (xs : list Z) : Prop :=
  match xs with [] => True | x :: ys => x <> NULL /\ next m x = Ret (default NULL (head ys)) /\ path m ys end.

(** The loop as a function of the elements: the state and the element at which it ends. *)
Fixpoint visit (s : S) (xs : list Z) : S * Z :=
  match xs with [] => (s, NULL) | x :: xs => if fst (f s x) then (snd (f s x), x) else visit (snd (f s x)) xs end.

Lemma foreach_visits m xs fuel s : path m xs -> (length xs <= fuel)%nat ->
  (forall s x, x ∈ xs -> body s m x = Ret (fst (f s x), snd (f s x), m)) ->
  foreach next body fuel s m (default NULL (head xs)) = Ret (fst (visit s xs), m, snd (visit s xs)) /\
  foreach_safe next body fuel s m (default NULL (head xs)) = Ret (fst (visit s xs), m, snd (visit s xs)).
Proof.
  revert fuel s. induction xs as [|x xs IH]; intros fuel s Hp Hf Hb.
  - by destruct fuel.
  - destruct Hp as (Hx & Hn & Hp). destruct fuel as [|fuel]; [cbn in Hf; lia|].
    destruct (IH fuel (snd (f s x)) Hp ltac:(cbn in Hf; lia) ltac:(intros; apply Hb; by right)) as [E1 E2].
    cbn [foreach foreach_safe head default visit]. cbn [default id]. rewrite (proj2 (Z.eqb_neq x NULL) Hx), Hn.
    cbn [mbind outcome_bind]. rewrite !Hb by left. cbn [mbind outcome_bind].
    destruct (f s x) as [[] s']; cbn [fst snd] in *; [done|]. rewrite Hn. cbn [mbind outcome_bind]. by rewrite E1, E2.
Qed.
End Loops.

Lemma seg_path dbl m p xs F : nonnull xs -> holds m (seg dbl p xs ++ (tail_of p xs, NULL) :: F) -> path (fun m e => ld m (nxt e)) m xs.
Proof.
  revert p F. induction xs as [|x xs IH]; intros p F Hx H; [done|]. apply nonnull_cons in Hx as [Hx Hxs].
  cbn [path]. split; [done|]. split; [destruct xs; cells; by exec|].
  apply (IH (nxt x) ((p, x) :: (if dbl then [(w2 (nxt x), p)] else []) ++ F)); [done|].
  revert H. apply holds_perm. cells. solve_Permutation.
Qed.
Lemma chain_path dbl tq m h xs F : nonnull xs -> holds m (chain dbl tq h xs ++ F) -> path (fun m e => ld m (nxt e)) m xs.
Proof. unfold chain. intros Hx H. rewrite <- !app_assoc in H. by apply (seg_path _ _ _ _ _ Hx H). Qed.
Lemma chain_first dbl tq m h xs F : holds m (chain dbl tq h xs ++ F) -> ld m h = Ret (default NULL (head xs)).
Proof. intros H. destruct xs; cells; by exec. Qed.

Lemma chain_next dbl tq m h xs y ys F : holds m (chain dbl tq h (xs ++ y :: ys) ++ F) -> ld m (nxt y) = Ret (default NULL (head ys)).
Proof. intros H. destruct ys; cells; by exec. Qed.

Lemma tailq_reverse_path m h xs F : nonnull xs -> holds m (tailq h xs ++ F) -> path (TAILQ_PREV off) m (reverse xs).
Proof.
  intros Hx H. assert (G : forall ys zs, xs = ys ++ zs -> path (TAILQ_PREV off) m (reverse ys)); [|apply (G xs []); by rewrite app_nil_r].
  intros ys. induction ys as [|y ys IH] using rev_ind; intros zs E; [done|].
  rewrite reverse_snoc. rewrite <- app_assoc in E. cbn [app] in E. cbn [path]. rewrite E in H, Hx.
  apply nonnull_app in Hx as [_ [Hy _]%nonnull_cons]. split; [done|].
  rewrite (TAILQ_PREV_spec _ _ _ _ _ _ H), <- last_reverse, reverse_involutive. split; [done|]. by apply (IH (y :: zs)).
Qed.

(** Removal in a loop that reads the next element first: the body removes the elements of [p]. *)
Definition remove_if (p : Z -> bool) (h : Z) (s : list Z) (m : store) (e : Z) : outcome (bool * list Z * store) :=
  if p e then m ← TAILQ_REMOVE off m h e; Ret (false, s ++ [e], m) else Ret (false, s, m).

Lemma foreach_safe_remove (p : Z -> bool) fuel m h zs xs s F : nonnull (zs ++ xs) -> (length xs <= fuel)%nat ->
  holds m (tailq h (zs ++ xs) ++ F) ->
  exists m' cs, foreach_safe (TAILQ_NEXT off) (remove_if p h) fuel s m (default NULL (head xs)) =
      Ret (s ++ filter (fun e => p e = true) xs, m', NULL) /\
    holds m' (tailq h (zs ++ filter (fun e => p e = false) xs) ++ cs ++ F) /\
    cs.*1 = flat_map (fun e => [nxt e; w2 (nxt e)]) (filter (fun e => p e = true) xs).
Proof.
  revert fuel m zs s F. induction xs as [|x xs IH]; intros fuel m zs s F Hx Hf H.
  { exists m, []. rewrite !filter_nil, app_nil_r in *. split_and!; [|by rewrite app_nil_r|done]. by destruct fuel. }
  destruct fuel as [|fuel]; [cbn in Hf; lia|]. cbn [length] in Hf.
  pose proof Hx as [Hz [Hx0 Hxs]%nonnull_cons]%nonnull_app.
  cbn [head default id foreach_safe]. rewrite (proj2 (Z.eqb_neq x NULL) Hx0), (TAILQ_NEXT_spec _ _ _ _ _ _ H).
  cbn [mbind outcome_bind]. unfold remove_if at 2. rewrite !filter_cons. destruct (p x) eqn:Ep; cbn [negb].
  - destruct (TAILQ_REMOVE_spec m h zs x xs F Hxs H) as (m1 & -> & H1). cbn [mbind outcome_bind].
    destruct (IH fuel m1 zs (s ++ [x]) (out_node true h zs x xs ++ F)) as (m2 & cs & E2 & H2 & E2');
      [by apply nonnull_app|lia|by rewrite app_assoc in H1 |- *|].
    exists m2, (out_node true h zs x xs ++ cs). rewrite decide_True, decide_False by done. rewrite E2, <- app_assoc.
    split_and!; [done| |]; [|by rewrite fmap_app, E2'].
    revert H2. apply holds_perm. solve_Permutation.
  - destruct (IH fuel m (zs ++ [x]) s F) as (m2 & cs & E2 & H2 & E2'); rewrite <- ?app_assoc; [done|lia|done|].
    exists m2, cs. rewrite decide_False, decide_True by done. rewrite <- app_assoc in H2. done.
Qed.
End Spec.
