(* ===== verification/SysQueueHist.v ===== *)
(** * Histories of the four kinds of [queue.h]

    A list at a head and a pool of elements outside it: every history of the macros a kind has
    is a history of list operations ([sys_queue_refines_list]); loops visit the elements in
    order and in reverse ([loops_visit_in_order]), also when the body removes elements
    ([removal_loop_filters]). *)

From S2P Require Import Prelude Store SysQueue SysQueueSpec.

Open Scope Z_scope.

(** ** Kinds and operations *)

Inductive kind := SListK | STailqK | ListK | TailqK.
Definition doubly (k : kind) : bool := match k with ListK | TailqK => true | _ => false end.
Definition tailed (k : kind) : bool := match k with STailqK | TailqK => true | _ => false end.

Inductive lop :=
  | InsertHead (e : Z)
  | InsertTail (e : Z)
  | InsertAfter (x e : Z)
  | InsertBefore (x e : Z)
  | Remove (e : Z)
  | First
  | Last
  | Next (x : Z)
  | Prev (x : Z).

(** The macros each kind has: the table at the top of the header. *)
(* rte_lib/include/queue.h:46-84 queue.h *)
Definition has_macro (k : kind) (op : lop) : bool :=
  match op with
  | InsertTail _ | Last => tailed k
  | InsertBefore _ _ | Prev _ => doubly k
  | _ => true
  end.

Section Histories.
Context (off : Z) (fuel : nat) (k : kind) (h : Z).

(** The store and the value of the macro, NULL for a command. *)
Definition run_lop (m : store) (op : lop) : outcome (store * Z) :=
  let command (r : outcome store) : outcome (store * Z) := m ← r; Ret (m, NULL) in
  let query (r : outcome Z) : outcome (store * Z) := v ← r; Ret (m, v) in
  match op, k with
  | InsertHead e, SListK => command (SLIST_INSERT_HEAD off m h e)
  | InsertHead e, STailqK => command (STAILQ_INSERT_HEAD off m h e)
  | InsertHead e, ListK => command (LIST_INSERT_HEAD off m h e)
  | InsertHead e, TailqK => command (TAILQ_INSERT_HEAD off m h e)
  | InsertTail e, STailqK => command (STAILQ_INSERT_TAIL off m h e)
  | InsertTail e, TailqK => command (TAILQ_INSERT_TAIL off m h e)
  | InsertAfter x e, SListK => command (SLIST_INSERT_AFTER off m x e)
  | InsertAfter x e, STailqK => command (STAILQ_INSERT_AFTER off m h x e)
  | InsertAfter x e, ListK => command (LIST_INSERT_AFTER off m x e)
  | InsertAfter x e, TailqK => command (TAILQ_INSERT_AFTER off m h x e)
  | InsertBefore x e, ListK => command (LIST_INSERT_BEFORE off m x e)
  | InsertBefore x e, TailqK => command (TAILQ_INSERT_BEFORE off m x e)
  | Remove e, SListK => command (SLIST_REMOVE off fuel m h e)
  | Remove e, STailqK => command (STAILQ_REMOVE off fuel m h e)
  | Remove e, ListK => command (LIST_REMOVE off m e)
  | Remove e, TailqK => command (TAILQ_REMOVE off m h e)
  | First, SListK => query (SLIST_FIRST m h)
  | First, STailqK => query (STAILQ_FIRST m h)
  | First, ListK => query (LIST_FIRST m h)
  | First, TailqK => query (TAILQ_FIRST m h)
  | Last, STailqK => query (STAILQ_LAST off m h)
  | Last, TailqK => query (TAILQ_LAST m h)
  | Next x, SListK => query (SLIST_NEXT off m x)
  | Next x, STailqK => query (STAILQ_NEXT off m x)
  | Next x, ListK => query (LIST_NEXT off m x)
  | Next x, TailqK => query (TAILQ_NEXT off m x)
  | Prev x, ListK => query (LIST_PREV off m x h)
  | Prev x, TailqK => query (TAILQ_PREV off m x)
  | _, _ => Undef
  end.

Fixpoint run_lops (m : store) (ops : list lop) : outcome (store * list Z) :=
  match ops with
  | [] => Ret (m, [])
  | op :: ops => '(m, v) ← run_lop m op; '(m, vs) ← run_lops m ops; Ret (m, v :: vs)
  end.
End Histories.

(** ** The specification: a list and a pool *)

(** The elements before the first [x], and from it on. *)
Fixpoint until (x : Z) (xs : list Z) : list Z :=
  match xs with [] => [] | y :: ys => if decide (y = x) then [] else y :: until x ys end.
Definition from (x : Z) (xs : list Z) : list Z := drop (length (until x xs)) xs.
Definition out (x : Z) (l : list Z) : list Z := until x l ++ tail (from x l).

Definition lstate : Type := list Z * list Z.
Definition lop_spec (s : lstate) (op : lop) : lstate * Z :=
  let '(xs, pool) := s in
  match op with
  | InsertHead e => ((e :: xs, out e pool), NULL)
  | InsertTail e => ((xs ++ [e], out e pool), NULL)
  | InsertAfter x e => ((until x xs ++ x :: e :: tail (from x xs), out e pool), NULL)
  | InsertBefore x e => ((until x xs ++ e :: from x xs, out e pool), NULL)
  | Remove e => ((out e xs, e :: pool), NULL)
  | First => (s, default NULL (head xs))
  | Last => (s, default NULL (last xs))
  | Next x => (s, default NULL (head (tail (from x xs))))
  | Prev x => (s, default NULL (last (until x xs)))
  end.
Fixpoint lops_spec (s : lstate) (ops : list lop) : lstate * list Z :=
  match ops with
  | [] => (s, [])
  | op :: ops => let '(s, v) := lop_spec s op in let '(s, vs) := lops_spec s ops in (s, v :: vs)
  end.

(** Insertions are of elements of the pool, at and of elements of the list. *)
Definition lop_ok (k : kind) (s : lstate) (op : lop) : bool :=
  let '(xs, pool) := s in
  has_macro k op &&
  match op with
  | InsertHead e | InsertTail e => bool_decide (e ∈ pool)
  | InsertAfter x e | InsertBefore x e => bool_decide (x ∈ xs) && bool_decide (e ∈ pool)
  | Remove x | Next x | Prev x => bool_decide (x ∈ xs)
  | First | Last => true
  end.
Fixpoint lops_ok (k : kind) (s : lstate) (ops : list lop) : bool :=
  match ops with [] => true | op :: ops => lop_ok k s op && lops_ok k (fst (lop_spec s op)) ops end.

Lemma until_from x xs : x ∈ xs -> from x xs = x :: tail (from x xs) /\ xs = until x xs ++ from x xs.
Proof.
  unfold from. induction xs as [|y ys IH]; intros Hin; [by apply elem_of_nil in Hin|]. cbn [until].
  destruct (decide (y = x)) as [->|Hne]; [done|]. cbn [length drop app].
  apply elem_of_cons in Hin as [->|Hin]; [done|]. destruct (IH Hin) as [E1 E2]. split; [done|]. by rewrite <- E2.
Qed.

(** ** Ownership of a list and a pool *)

Section Owns.
Context (off : Z) (k : kind) (h : Z).
Local Abbreviation chain := (chain off (doubly k) (tailed k) h).
Local Abbreviation node := (node off (doubly k)).

(** The pool's elements have words with any contents [c]. *)
Definition pool_cells (c : Z -> Z * Z) (pool : list Z) : list cell := flat_map (fun e => node e (c e).1 (c e).2) pool.

(** The list and the pool are in the store, apart from the cells [F]. *)
Definition owns (m : store) (s : lstate) (F : list cell) : Prop :=
  nonnull s.1 /\ nonnull s.2 /\ exists c, holds m (chain s.1 ++ pool_cells c s.2 ++ F).

Lemma pool_cells_app c p q : pool_cells c (p ++ q) = pool_cells c p ++ pool_cells c q.
Proof. apply flat_map_app. Qed.

Lemma pool_take c pool e : e ∈ pool -> pool_cells c pool ≡ₚ node e (c e).1 (c e).2 ++ pool_cells c (out e pool).
Proof.
  intros H. destruct (until_from e pool H) as [E1 E2]. rewrite E2 at 1. rewrite E1, !pool_cells_app.
  unfold out. rewrite pool_cells_app. cbn [pool_cells flat_map]. solve_Permutation.
Qed.

Lemma pool_same c c' pool : (forall e, e ∈ pool -> c e = c' e) -> pool_cells c pool = pool_cells c' pool.
Proof.
  intros H. induction pool as [|e pool IH]; [done|]. cbn [pool_cells flat_map]. rewrite (H e) by left. f_equal.
  apply IH. intros e' He'. apply H. by right.
Qed.

(** An element that joins the pool was not in it. *)
Lemma pool_put m e v w c pool cs : holds m (node e v w ++ pool_cells c pool ++ cs) ->
  exists c', node e v w ++ pool_cells c pool = pool_cells c' (e :: pool).
Proof.
  intros H. exists (fun x => if decide (x = e) then (v, w) else c x). cbn [pool_cells flat_map]. rewrite decide_True by done.
  f_equal. apply pool_same. intros x Hx. rewrite decide_False; [done|]. intros ->.
  rewrite (pool_take c pool e Hx) in H. cbn [app] in H. unfold SysQueueSpec.node in H.
  apply (holds_twice _ _ _ (c e).1 _ H). rewrite !elem_of_app. right. left. left. left.
Qed.

Lemma nonnull_out e l : nonnull l -> nonnull (out e l).
Proof.
  unfold out. intros H. destruct (decide (e ∈ l)) as [Hin|Hin].
  - destruct (until_from e l Hin) as [E1 E2]. rewrite E2, E1 in H. apply nonnull_app in H as [H1 [_ H2]%nonnull_cons].
    by apply nonnull_app.
  - assert (E : until e l = l).
    { clear H. induction l as [|y l IH]; [done|]. cbn. rewrite decide_False; [|intros ->; apply Hin; left]. f_equal.
      apply IH. intros ?. apply Hin. by right. }
    unfold from. rewrite E, drop_all. by rewrite app_nil_r.
Qed.

Lemma insert_step (r : outcome store) m xs xs' pool e F :
  (forall v w F, holds m (chain xs ++ node e v w ++ F) -> exists m', r = Ret m' /\ holds m' (chain xs' ++ F)) ->
  (e <> NULL -> nonnull xs -> nonnull xs') -> e ∈ pool -> owns m (xs, pool) F ->
  exists m', r = Ret m' /\ owns m' (xs', out e pool) F.
Proof.
  intros Hf Hn He (Hx & Hp & c & H). cbn [fst snd] in *. rewrite (pool_take c pool e He) in H. rewrite <- app_assoc in H.
  destruct (Hf _ _ _ H) as (m' & E & H'). exists m'. split; [done|]. split_and!; cbn [fst snd].
  - apply Hn; [by apply (nonnull_in e pool)|done].
  - by apply nonnull_out.
  - by exists c.
Qed.

Lemma remove_step (r : outcome store) m xs xs' pool e F :
  (forall F, holds m (chain xs ++ F) -> exists m' v w, r = Ret m' /\ holds m' (chain xs' ++ node e v w ++ F)) ->
  e ∈ xs -> nonnull xs' -> owns m (xs, pool) F -> exists m', r = Ret m' /\ owns m' (xs', e :: pool) F.
Proof.
  intros Hf He Hn (Hx & Hp & c & H). cbn [fst snd] in *. destruct (Hf _ H) as (m' & v & w & E & H'). exists m'. split; [done|].
  split_and!; cbn [fst snd]; [done|by apply nonnull_cons; split; [apply (nonnull_in e xs)|]|].
  destruct (pool_put m' e v w c pool (chain xs' ++ F)) as [c' Ec].
  { revert H'. apply holds_perm. solve_Permutation. }
  exists c'. rewrite <- Ec. revert H'. apply holds_perm. solve_Permutation.
Qed.
End Owns.

(** ** One macro, and histories *)

Lemma length_out e l : e ∈ l -> S (length (out e l)) = length l.
Proof.
  intros H. destruct (until_from e l H) as [E1 E2]. unfold out. rewrite E2 at 3. rewrite E1, !length_app. cbn. lia.
Qed.

Definition fits (fuel : nat) (s : lstate) : Prop := (length s.1 + length s.2 <= fuel)%nat.

(** The outcome of an operation: its value, and the new list and pool in the store. *)
Definition gives (off : Z) (fuel : nat) (k : kind) (h : Z) (r : outcome (store * Z)) (s : lstate) (v : Z) (F : list cell) : Prop :=
  exists m', r = Ret (m', v) /\ owns off k h m' s F /\ fits fuel s.

Lemma command_gives off fuel k h (r : outcome store) s F : (exists m', r = Ret m' /\ owns off k h m' s F) -> fits fuel s ->
  gives off fuel k h (m ← r; Ret (m, NULL)) s NULL F.
Proof. intros (m' & -> & H) Hf. by exists m'. Qed.
Lemma query_gives off fuel k h (r : outcome Z) m v s F : owns off k h m s F -> fits fuel s -> r = Ret v ->
  gives off fuel k h (v ← r; Ret (m, v)) s v F.
Proof. intros H Hf ->. by exists m. Qed.

(** Insertion of any kind. *)
Ltac insertion He Ho :=
  apply command_gives; [|done]; apply (insert_step _ _ _ _ _ _ _ _ _ _) with (3 := He) (4 := Ho); [intros ? ? ?|].
Lemma fits_insert fuel xs xs' pool e : length xs' = S (length xs) -> e ∈ pool -> fits fuel (xs, pool) -> fits fuel (xs', out e pool).
Proof. intros E He. pose proof (length_out e pool He). unfold fits. cbn. lia. Qed.

Section Refine.
Context (off : Z) (fuel : nat) (h : Z) (m : store) (xs pool : list Z) (F : list cell).

Lemma insert_head_gives k e : e ∈ pool -> owns off k h m (xs, pool) F -> fits fuel (xs, pool) ->
  gives off fuel k h (run_lop off fuel k h m (InsertHead e)) (e :: xs, out e pool) NULL F.
Proof.
  intros He Ho Hf. pose proof (fits_insert fuel xs (e :: xs) pool e eq_refl He Hf). pose proof (proj1 Ho) as Hx. cbn in Hx.
  unfold run_lop. destruct k; insertion He Ho; try (intros; by apply nonnull_cons);
    eauto using SLIST_INSERT_HEAD_spec, STAILQ_INSERT_HEAD_spec, LIST_INSERT_HEAD_spec, TAILQ_INSERT_HEAD_spec.
Qed.

Lemma insert_tail_gives k e : tailed k = true -> e ∈ pool -> owns off k h m (xs, pool) F -> fits fuel (xs, pool) ->
  gives off fuel k h (run_lop off fuel k h m (InsertTail e)) (xs ++ [e], out e pool) NULL F.
Proof.
  intros Hk He Ho Hf. pose proof (fits_insert fuel xs (xs ++ [e]) pool e ltac:(rewrite length_app; cbn; lia) He Hf).
  unfold run_lop. destruct k; try done; insertion He Ho; try (intros; apply nonnull_app; by repeat constructor);
    eauto using STAILQ_INSERT_TAIL_spec, TAILQ_INSERT_TAIL_spec.
Qed.

(** At an element [x] with [a] before it and [b] after it. *)
Lemma insert_after_gives k a x b e : xs = a ++ x :: b -> e ∈ pool -> owns off k h m (xs, pool) F -> fits fuel (xs, pool) ->
  gives off fuel k h (run_lop off fuel k h m (InsertAfter x e)) (a ++ x :: e :: b, out e pool) NULL F.
Proof.
  intros Ex He Ho Hf. rewrite Ex in *.
  pose proof (fits_insert fuel (a ++ x :: b) (a ++ x :: e :: b) pool e ltac:(rewrite !length_app; cbn; lia) He Hf).
  pose proof (proj1 Ho) as [Ha [Hx Hb]%nonnull_cons]%nonnull_app.
  unfold run_lop. destruct k; insertion He Ho; try (intros; apply nonnull_app; by repeat constructor);
    eauto using SLIST_INSERT_AFTER_spec, STAILQ_INSERT_AFTER_spec, LIST_INSERT_AFTER_spec, TAILQ_INSERT_AFTER_spec.
Qed.

Lemma insert_before_gives k a x b e : doubly k = true -> xs = a ++ x :: b -> e ∈ pool ->
  owns off k h m (xs, pool) F -> fits fuel (xs, pool) ->
  gives off fuel k h (run_lop off fuel k h m (InsertBefore x e)) (a ++ e :: x :: b, out e pool) NULL F.
Proof.
  intros Hk Ex He Ho Hf. rewrite Ex in *.
  pose proof (fits_insert fuel (a ++ x :: b) (a ++ e :: x :: b) pool e ltac:(rewrite !length_app; cbn; lia) He Hf).
  pose proof (proj1 Ho) as [Ha [Hx Hb]%nonnull_cons]%nonnull_app.
  unfold run_lop. destruct k; try done; insertion He Ho; try (intros; apply nonnull_app; by repeat constructor);
    eauto using LIST_INSERT_BEFORE_spec, TAILQ_INSERT_BEFORE_spec.
Qed.

Lemma remove_gives k a e b : xs = a ++ e :: b -> owns off k h m (xs, pool) F -> fits fuel (xs, pool) ->
  gives off fuel k h (run_lop off fuel k h m (Remove e)) (a ++ b, e :: pool) NULL F.
Proof.
  intros Ex Ho Hf. rewrite Ex in *. assert (fits fuel (a ++ b, e :: pool)).
  { unfold fits in *. cbn in *. rewrite !length_app in *. cbn in *. lia. }
  assert (Hl : (length a <= fuel)%nat) by (unfold fits in Hf; cbn in Hf; rewrite length_app in Hf; lia).
  pose proof (proj1 Ho) as [Ha [Hx Hb]%nonnull_cons]%nonnull_app.
  unfold run_lop. destruct k; (apply command_gives; [|done]);
    (eapply remove_step; [intros F0 H0|apply elem_of_app; right; left|by apply nonnull_app|exact Ho]);
    first
      [ destruct (SLIST_REMOVE_spec off fuel m h a e b F0 Hl H0) as (m' & E & H')
      | destruct (STAILQ_REMOVE_spec off fuel m h a e b F0 Hb Hl H0) as (m' & E & H')
      | destruct (LIST_REMOVE_spec off m h a e b F0 Hb H0) as (m' & E & H')
      | destruct (TAILQ_REMOVE_spec off m h a e b F0 Hb H0) as (m' & E & H') ]; exists m', (default NULL (head b)), (tail_of off h a); exact (conj E H').
Qed.

Lemma first_gives k : owns off k h m (xs, pool) F -> fits fuel (xs, pool) ->
  gives off fuel k h (run_lop off fuel k h m First) (xs, pool) (default NULL (head xs)) F.
Proof.
  intros Ho Hf. pose proof Ho as (_ & _ & c & H). apply chain_first in H. unfold run_lop. by destruct k; apply query_gives.
Qed.

Lemma last_gives k : tailed k = true -> owns off k h m (xs, pool) F -> fits fuel (xs, pool) ->
  gives off fuel k h (run_lop off fuel k h m Last) (xs, pool) (default NULL (last xs)) F.
Proof.
  intros Hk Ho Hf. pose proof Ho as (Hx & _ & c & H). unfold run_lop. destruct k; try done; apply query_gives; try done.
  - by apply (STAILQ_LAST_spec _ _ _ _ _ Hx H).
  - by apply (TAILQ_LAST_spec _ _ _ _ _ H).
Qed.

Lemma next_gives k a x b : xs = a ++ x :: b -> owns off k h m (xs, pool) F -> fits fuel (xs, pool) ->
  gives off fuel k h (run_lop off fuel k h m (Next x)) (xs, pool) (default NULL (head b)) F.
Proof.
  intros -> Ho Hf. pose proof Ho as (_ & _ & c & H). apply chain_next in H. unfold run_lop. by destruct k; apply query_gives.
Qed.

Lemma prev_gives k a x b : doubly k = true -> xs = a ++ x :: b -> owns off k h m (xs, pool) F -> fits fuel (xs, pool) ->
  gives off fuel k h (run_lop off fuel k h m (Prev x)) (xs, pool) (default NULL (last a)) F.
Proof.
  intros Hk -> Ho Hf. pose proof Ho as (Hx & _ & c & H). unfold run_lop. destruct k; try done; apply query_gives; try done.
  - by apply (prev_fast _ _ _ _ _ _ _ _ H).
  - by apply (TAILQ_PREV_spec _ _ _ _ _ _ _ H).
Qed.
End Refine.

Lemma lop_refines off fuel k h m s op F : lop_ok k s op = true -> owns off k h m s F -> fits fuel s ->
  gives off fuel k h (run_lop off fuel k h m op) (fst (lop_spec s op)) (snd (lop_spec s op)) F.
Proof.
  destruct s as [xs pool]. unfold lop_ok. intros [Hk Hok]%andb_prop Ho Hf.
  assert (Hat : forall x, x ∈ xs -> xs = until x xs ++ x :: tail (from x xs)).
  { intros x Hx. destruct (until_from x xs Hx) as [E1 E2]. by rewrite <- E1. }
  destruct op as [e|e|x e|x e|e| | |x|x]; cbn [lop_spec fst snd]; try apply andb_prop in Hok as [Hx Hok];
    try apply bool_decide_eq_true in Hok; try apply bool_decide_eq_true in Hx.
  - by apply insert_head_gives.
  - by apply insert_tail_gives.
  - apply insert_after_gives with (xs := xs); auto.
  - rewrite (proj1 (until_from x xs Hx)). apply insert_before_gives with (xs := xs); auto.
  - apply remove_gives with (xs := xs); auto.
  - by apply first_gives.
  - by apply last_gives.
  - apply next_gives with (a := until x xs); auto.
  - apply prev_gives with (b := tail (from x xs)); auto.
Qed.

(** C11: refinement of the linked lists of [queue.h]: for each of the four kinds - singly linked
    lists and tail queues, lists, tail queues - every history of its insertions (at the head, at the
    tail, after and before an element), removals and queries, with elements taken from and
    returned to a pool, runs without touching a word that is not of the head, the list or the
    pool, and gives the answers of the same history on a sequence. The walks of the two kinds
    that look for an element to remove end within the number of elements. *)
Theorem sys_queue_refines_list off fuel k h m s ops F :
  owns off k h m s F -> fits fuel s -> lops_ok k s ops = true ->
  exists m', run_lops off fuel k h m ops = Ret (m', snd (lops_spec s ops)) /\ owns off k h m' (fst (lops_spec s ops)) F.
Proof.
  revert m s. induction ops as [|op ops IH]; intros m s Ho Hf Hok; [by exists m|].
  cbn [lops_ok] in Hok. apply andb_prop in Hok as [Hop Hok].
  destruct (lop_refines off fuel k h m s op F Hop Ho Hf) as (m1 & E1 & Ho1 & Hf1).
  cbn [run_lops lops_spec]. rewrite E1. destruct (lop_spec s op) as [s1 v]. cbn [fst snd mbind outcome_bind] in *.
  destruct (IH m1 s1 Ho1 Hf1 Hok) as (m2 & E2 & Ho2). rewrite E2. destruct (lops_spec s1 ops) as [s2 vs]. by exists m2.
Qed.

(** ** Loops *)

(** C32: the loops of the tail queues visit every element once, in the order of the queue and in
    reverse, with or without reading the next element first, up to the element at which the
    body leaves the loop; they end within as many passes as there are elements. *)
Theorem loops_visit_in_order {S} off m h xs F (body : S -> store -> Z -> outcome (bool * S * store)) f fuel s :
  nonnull xs -> (length xs <= fuel)%nat -> holds m (chain off true true h xs ++ F) ->
  (forall s x, x ∈ xs -> body s m x = Ret (fst (f s x), snd (f s x), m)) ->
  let forward := Ret (fst (visit f s xs), m, snd (visit f s xs)) in
  let backward := Ret (fst (visit f s (reverse xs)), m, snd (visit f s (reverse xs))) in
  TAILQ_FOREACH off body fuel s m h = forward /\ TAILQ_FOREACH_SAFE off body fuel s m h = forward /\
  TAILQ_FOREACH_REVERSE off body fuel s m h = backward /\ TAILQ_FOREACH_REVERSE_SAFE off body fuel s m h = backward.
Proof.
  intros Hx Hf H Hb forward backward.
  destruct (foreach_visits _ body f m xs fuel s (chain_path _ _ _ _ _ _ _ Hx H) Hf Hb) as [E1 E2].
  destruct (foreach_visits _ body f m (reverse xs) fuel s (tailq_reverse_path _ _ _ _ _ Hx H)) as [E3 E4].
  { by rewrite length_reverse. }
  { intros s' x Hin. apply Hb. by apply elem_of_reverse. }
  unfold TAILQ_FOREACH, TAILQ_FOREACH_SAFE, TAILQ_FOREACH_REVERSE, TAILQ_FOREACH_REVERSE_SAFE, TAILQ_FIRST.
  rewrite (chain_first _ _ _ _ _ _ _ H), (TAILQ_LAST_spec _ _ _ _ _ H), <- head_reverse. done.
Qed.

(** A safe loop whose body removes elements: the elements of [p] leave the queue, in order, the
    others stay, in order, and the removed elements' words are back with the caller. *)
Theorem removal_loop_filters off (p : Z -> bool) fuel m h xs F : nonnull xs -> (length xs <= fuel)%nat ->
  holds m (chain off true true h xs ++ F) ->
  exists m' cs, TAILQ_FOREACH_SAFE off (remove_if off p h) fuel [] m h = Ret (filter (fun e => p e = true) xs, m', NULL) /\
    holds m' (chain off true true h (filter (fun e => p e = false) xs) ++ cs ++ F) /\
    cs.*1 = flat_map (fun e => [nxt off e; w2 (nxt off e)]) (filter (fun e => p e = true) xs).
Proof.
  intros Hx Hf H. unfold TAILQ_FOREACH_SAFE, TAILQ_FIRST. rewrite (chain_first _ _ _ _ _ _ _ H). cbn [mbind outcome_bind].
  exact (foreach_safe_remove off p fuel m h [] xs [] F Hx Hf H).
Qed.

(** ** Witnesses: a head at 1000, elements of 40 bytes whose field is at 16 *)

Definition queue_cells : list cell :=
  chain 16 true true 1000 [2000; 2040; 2080] ++ pool_cells 16 TailqK (fun _ => (7, 9)) [2120] ++ [(1016, 5)].
Definition queue_store : store := list_to_map queue_cells.
Lemma queue_store_holds : holds queue_store queue_cells.
Proof. split; [apply (bool_decide_unpack _)|apply (bool_decide_unpack _)]; by vm_compute. Qed.

Definition queue_ops : list lop :=
  [InsertAfter 2040 2120; Remove 2000; InsertTail 2000; Prev 2120; Last; Remove 2080; InsertBefore 2040 2080; First; Next 2040].

Lemma sys_queue_refines_list_witness :
  exists m', run_lops 16 4 TailqK 1000 queue_store queue_ops = Ret (m', [0; 0; 0; 2040; 2000; 0; 0; 2080; 2120]) /\
    owns 16 TailqK 1000 m' ([2080; 2040; 2120; 2000], []) [(1016, 5)].
Proof.
  apply (sys_queue_refines_list 16 4 TailqK 1000 queue_store ([2000; 2040; 2080], [2120]) queue_ops [(1016, 5)]).
  - split_and!; [by repeat constructor..|]. exists (fun _ => (7, 9)). exact queue_store_holds.
  - by vm_compute; lia.
  - by vm_compute.
Defined.

Lemma loops_visit_in_order_witness :
  TAILQ_FOREACH 16 (fun s m e => Ret (e =? 2040, s ++ [e], m)) 3 [] queue_store 1000 = Ret ([2000; 2040], queue_store, 2040) /\
  TAILQ_FOREACH_REVERSE 16 (fun s m e => Ret (e =? 2040, s ++ [e], m)) 3 [] queue_store 1000 = Ret ([2080; 2040], queue_store, 2040).
Proof.
  destruct (loops_visit_in_order 16 queue_store 1000 [2000; 2040; 2080]
    (pool_cells 16 TailqK (fun _ => (7, 9)) [2120] ++ [(1016, 5)])
    (fun s m e => Ret (e =? 2040, s ++ [e], m)) (fun s e => (e =? 2040, s ++ [e])) 3 []) as (E1 & _ & E3 & _).
  - by repeat constructor.
  - cbn. lia.
  - exact queue_store_holds.
  - done.
  - split; [exact E1|exact E3].
Defined.

Lemma removal_loop_filters_witness :
  exists m' cs, TAILQ_FOREACH_SAFE 16 (remove_if 16 (fun e => e =? 2040) 1000) 3 [] queue_store 1000 = Ret ([2040], m', NULL) /\
    holds m' (chain 16 true true 1000 [2000; 2080] ++ cs ++ pool_cells 16 TailqK (fun _ => (7, 9)) [2120] ++ [(1016, 5)]) /\
    cs.*1 = [2056; 2064].
Proof.
  apply (removal_loop_filters 16 (fun e => e =? 2040) 3 queue_store 1000 [2000; 2040; 2080]
    (pool_cells 16 TailqK (fun _ => (7, 9)) [2120] ++ [(1016, 5)])).
  - by repeat constructor.
  - cbn. lia.
  - exact queue_store_holds.
Defined.
