(* ===== verification/RingReg.v ===== *)
(** * [rte_ring.c]: creating, finding and freeing rings

    The rings that [rte_ring_create] made hang in a tail queue of entries ([te]) whose links
    are in the store of [SysQueue]. The allocator and the memory zones are not in the
    repository: what one call of them returned is an argument of the operation. *)

From S2P Require Import Prelude Common Store SysQueue SysQueueSpec RingCore RingCopy RingElem RingSpec.
From stdpp Require Import strings.

Open Scope Z_scope.

(** ** Definitions *)

(** [struct rte_tailq_entry]: the links at 0 and 8, then [data]. The ring at an address is what
    the program sees there; freed memory is none. *)
Record ring_registry := Registry {
  rg_mem : store;
  rg_data : gmap Z Z;
  rg_rings : gmap Z rte_ring;
}.
Definition set_links (m : store) (g : ring_registry) : ring_registry := Registry m (rg_data g) (rg_rings g).
Definition set_data (d : gmap Z Z) (g : ring_registry) : ring_registry := Registry (rg_mem g) d (rg_rings g).
Definition set_rings (rs : gmap Z rte_ring) (g : ring_registry) : ring_registry := Registry (rg_mem g) (rg_data g) rs.

Definition te_data (g : ring_registry) (te : Z) : outcome Z :=
  match rg_data g !! te with Some d => Ret d | None => Undef end.
Definition ring_at (g : ring_registry) (a : Z) : outcome rte_ring :=
  match rg_rings g !! a with Some r => Ret r | None => Undef end.

(** [rte_zmalloc] and [rte_free] of an entry. *)
Definition te_zmalloc (te : Z) (g : ring_registry) : ring_registry :=
  Registry (<[nxt 0 te := 0]> (<[w2 (nxt 0 te) := 0]> (rg_mem g))) (<[te := NULL]> (rg_data g)) (rg_rings g).
Definition te_free (te : Z) (g : ring_registry) : ring_registry :=
  Registry (delete (nxt 0 te) (delete (w2 (nxt 0 te)) (rg_mem g))) (delete te (rg_data g)) (rg_rings g).

(** A memory zone: its address, its handle, and the words behind the ring's header. *)
Record memzone := Zone { mz_addr : Z; mz_handle : Z; mz_words : list Z }.

(** The zone seen as a ring of [count] elements: the header's bytes are junk until [rte_ring_init]. *)
Definition zone_ring (z : memzone) (esize count : Z) : rte_ring :=
  Ring EmptyString 0 None 0 0 0 zero_headtail zero_headtail (take (Z.to_nat (count * (esize / 4))) (mz_words z)).
Definition set_memzone (h : Z) (r : rte_ring) : rte_ring :=
  Ring (r_name r) (r_flags r) (Some h) (r_size r) (r_mask r) (r_capacity r) (r_prod r) (r_cons r) (r_mem r).

(* rte_lib/ring/rte_ring_core.h:56-56 RTE_RING_MZ_PREFIX *)
Definition RTE_RING_MZ_PREFIX : string := "RG_".
(* rte_lib/include/rte_memzone.h:51-51 RTE_MEMZONE_NAMESIZE *)
Definition RTE_MEMZONE_NAMESIZE : Z := 32.

(** [strncmp(a, b, n) == 0] of two strings without the null character. *)
Definition strneq (n : nat) (a b : string) : bool := bool_decide (String.substring 0 n a = String.substring 0 n b).

Section Registry.
(** [rte_ring_tailq.head->tailq_head], and the bound on the walks of the list. *)
Context (ring_list : Z) (fuel : nat).

(** [rte_zmalloc] returned [te], [rte_memzone_reserve_aligned] the zone [mz]. *)
(* rte_lib/ring/rte_ring.c:243-309 rte_ring_create_elem *)
Definition rte_ring_create_elem (g : ring_registry) (name : string) (esize count flags : Z)
    (te : option Z) (mz : option memzone) : outcome (ring_registry * Z) :=
  let requested_count := count in
  let count := if flag_set flags RING_F_EXACT_SZ then rte_align32pow2 (count + 1)%u32 else count in
  let ring_size := rte_ring_get_memsize_elem esize count in
  if ring_size <? 0 then Ret (g, NULL)
  else
    let ret := Z.of_nat (String.length (RTE_RING_MZ_PREFIX ++ name)) in
    if (ret <? 0) || (ret >=? RTE_MEMZONE_NAMESIZE) then Ret (g, NULL)
    else
      match te with
      | None => Ret (g, NULL)
      | Some te =>
          let g := te_zmalloc te g in
          match mz with
          | Some z =>
              let '(_, r) := rte_ring_init (zone_ring z esize count) name requested_count flags in
              let g := set_data (<[te := mz_addr z]> (rg_data g)) g in
              let g := set_rings (<[mz_addr z := set_memzone (mz_handle z) r]> (rg_rings g)) g in
              m ← TAILQ_INSERT_TAIL 0 (rg_mem g) ring_list te;
              Ret (set_links m g, mz_addr z)
          | None => Ret (te_free te g, NULL)
          end
      end.

(* rte_lib/ring/rte_ring.c:312-318 rte_ring_create *)
Definition rte_ring_create (g : ring_registry) (name : string) (count flags : Z)
    (te : option Z) (mz : option memzone) : outcome (ring_registry * Z) :=
  rte_ring_create_elem g name 8 count flags te mz.

(** [rte_memzone_free] returned [rc]; it takes the ring's memory away when that is 0. *)
(* rte_lib/ring/rte_ring.c:321-362 rte_ring_free *)
Definition rte_ring_free (g : ring_registry) (r : Z) (rc : Z) : outcome ring_registry :=
  if r =? NULL then Ret g
  else
    ring ← ring_at g r;
    match r_memzone ring with
    | None => Ret g
    | Some _ =>
        if negb (rc =? 0) then Ret g
        else
          let g := set_rings (delete r (rg_rings g)) g in
          '(_, _, te) ← TAILQ_FOREACH 0 (fun s m te => d ← te_data g te; Ret (d =? r, s, m)) fuel tt (rg_mem g) ring_list;
          if te =? NULL then Ret g
          else
            m ← TAILQ_REMOVE 0 (rg_mem g) ring_list te;
            Ret (te_free te (set_links m g))
    end.

(** The loop's state is [r]. *)
(* rte_lib/ring/rte_ring.c:400-424 rte_ring_lookup *)
Definition rte_ring_lookup (g : ring_registry) (name : string) : outcome Z :=
  '(r, _, te) ← TAILQ_FOREACH 0 (fun r m te =>
      r ← te_data g te;
      ring ← ring_at g r;
      Ret (strneq (Z.to_nat RTE_RING_NAMESIZE) name (r_name ring), r, m)) fuel NULL (rg_mem g) ring_list;
  if te =? NULL then Ret NULL else Ret r.
End Registry.

(** ** The registry as a list of rings and names *)

Section Invariant.
Context (ring_list : Z).

(** The entries and the rings they point to, in the order of creation. *)
Record reg_inv (g : ring_registry) (l : list (Z * Z)) (F : list cell) : Prop := {
  ri_links : holds (rg_mem g) (chain 0 true true ring_list l.*1 ++ F);
  ri_entries : nonnull l.*1;
  ri_data : forall te a, (te, a) ∈ l -> rg_data g !! te = Some a;
  ri_rings : forall te a, (te, a) ∈ l -> a <> NULL /\ exists r, rg_rings g !! a = Some r /\ is_Some (r_memzone r);
  ri_distinct : NoDup l.*2;
}.

Definition name_of (g : ring_registry) (a : Z) : string := match rg_rings g !! a with Some r => r_name r | None => "" end.
Definition names (g : ring_registry) (l : list (Z * Z)) : list (Z * string) := (fun p => (p.2, name_of g p.2)) <$> l.

(** The specification of a lookup: the first ring whose name agrees in its 29 bytes. *)
Fixpoint find_name (name : string) (ns : list (Z * string)) : Z :=
  match ns with
  | [] => NULL
  | (a, n) :: ns => if strneq (Z.to_nat RTE_RING_NAMESIZE) name n then a else find_name name ns
  end.
End Invariant.

(** ** Lemmas on the store *)

Lemma holds_alloc m a v cs : m !! a = None -> holds m cs -> holds (<[a := v]> m) ((a, v) :: cs).
Proof.
  intros Ha [Hn H]. rewrite Forall_forall in H. split.
  - cbn. apply NoDup_cons. split; [|done]. intros ([a' w] & E & Hin)%list_elem_of_fmap. cbn in E. subst a'.
    specialize (H _ Hin). cbn in H. congruence.
  - apply Forall_cons. cbn. split; [apply lookup_insert_eq|]. apply Forall_forall. intros c Hc. specialize (H c Hc).
    rewrite lookup_insert_ne; [done|]. intros ->. congruence.
Qed.

Lemma holds_free m a v cs : holds m ((a, v) :: cs) -> holds (delete a m) cs.
Proof.
  intros [Hn H]. cbn in Hn. apply NoDup_cons in Hn as [Ha Hn]. apply Forall_cons in H as [_ H]. split; [done|].
  rewrite Forall_forall in *. intros c Hc. rewrite lookup_delete_ne; [by apply H|]. intros ->. apply Ha. by apply list_elem_of_fmap_2.
Qed.

Lemma te_zmalloc_holds g te cs : rg_mem g !! nxt 0 te = None -> rg_mem g !! w2 (nxt 0 te) = None -> holds (rg_mem g) cs ->
  holds (rg_mem (te_zmalloc te g)) (node 0 true te 0 0 ++ cs).
Proof.
  intros H1 H2 H. cbn [te_zmalloc rg_mem]. unfold node. apply holds_alloc; [|by apply holds_alloc].
  rewrite lookup_insert_ne; [done|]. unfold w2. lia.
Qed.

Lemma te_free_holds g te v w cs : holds (rg_mem g) (node 0 true te v w ++ cs) -> holds (rg_mem (te_free te g)) cs.
Proof.
  intros H. cbn [te_free rg_mem]. unfold node in H. apply (holds_free _ (nxt 0 te) v). apply (holds_free _ (w2 (nxt 0 te)) w).
  revert H. apply holds_perm. solve_Permutation.
Qed.

(** ** The operations on a registry *)

(** A loop that stops at the first entry [f] accepts. *)
Lemma visit_stops {S} (f : S -> Z -> bool * S) s (l1 l2 : list (Z * Z)) te a :
  (forall s te' a', (te', a') ∈ l1 -> fst (f s te') = false) -> (forall s, fst (f s te) = true) ->
  snd (visit f s (l1 ++ (te, a) :: l2).*1) = te.
Proof.
  intros H1 H2. revert s. induction l1 as [|[te' a'] l1 IH]; intros s; cbn; [by rewrite H2|].
  rewrite (H1 s te' a') by left. apply IH. intros. eapply H1. by right.
Qed.


Section Operations.
Context (ring_list : Z) (fuel : nat) (g : ring_registry) (l : list (Z * Z)) (F : list cell).
Hypotheses (Hinv : reg_inv ring_list g l F) (Hfuel : (length l <= fuel)%nat).

Lemma entries_path : path (TAILQ_NEXT 0) (rg_mem g) l.*1.
Proof. exact (chain_path _ _ _ _ _ _ _ (ri_entries _ _ _ _ Hinv) (ri_links _ _ _ _ Hinv)). Qed.

(** A loop over the entries whose body looks at the data of each. *)
Lemma entries_loop {S} (body : S -> store -> Z -> outcome (bool * S * store)) (f : S -> Z -> bool * S) s :
  (forall s te a, (te, a) ∈ l -> body s (rg_mem g) te = Ret (fst (f s te), snd (f s te), rg_mem g)) ->
  TAILQ_FOREACH 0 body fuel s (rg_mem g) ring_list = Ret (fst (visit f s l.*1), rg_mem g, snd (visit f s l.*1)).
Proof.
  intros Hb. unfold TAILQ_FOREACH, TAILQ_FIRST. rewrite (chain_first _ _ _ _ _ _ _ (ri_links _ _ _ _ Hinv)). cbn [mbind outcome_bind].
  apply (foreach_visits (TAILQ_NEXT 0) body f); [apply entries_path|by rewrite length_fmap|].
  intros s' te ([te' a] & -> & Hin)%list_elem_of_fmap. by apply (Hb s' te' a).
Qed.

(** The data of an entry as a total function. *)
Definition data_of (te : Z) : Z := default NULL (rg_data g !! te).
Lemma data_of_in te a : (te, a) ∈ l -> te_data g te = Ret (data_of te) /\ data_of te = a.
Proof. intros H. unfold te_data, data_of. by rewrite (ri_data _ _ _ _ Hinv te a H). Qed.

Lemma rte_ring_lookup_finds name : rte_ring_lookup ring_list fuel g name = Ret (find_name name (names g l)).
Proof.
  unfold rte_ring_lookup.
  pose (f := fun (_ : Z) te => (strneq (Z.to_nat RTE_RING_NAMESIZE) name (name_of g (data_of te)), data_of te)).
  rewrite (entries_loop _ f); cbn [mbind outcome_bind].
  - assert (G : forall l' s, (forall te a, (te, a) ∈ l' -> (te, a) ∈ l) ->
      (if snd (visit f s l'.*1) =? NULL then NULL else fst (visit f s l'.*1)) = find_name name (names g l')).
    { induction l' as [|[te a] l' IH]; intros s Hin; [done|]. destruct (data_of_in te a) as [_ Ed]; [apply Hin; left|].
      assert (Ef : forall s, f s te = (strneq (Z.to_nat RTE_RING_NAMESIZE) name (name_of g a), a)).
      { intros s'. unfold f. by rewrite Ed. }
      cbn [fmap list_fmap fst snd visit names find_name]. rewrite !Ef. cbn [fst snd].
      destruct (strneq _ _ _); [|apply IH; intros; apply Hin; by right]. cbn [fst snd].
      assert (te <> NULL); [|by rewrite (proj2 (Z.eqb_neq te NULL))].
      eapply nonnull_in; [apply (ri_entries _ _ _ _ Hinv)|]. apply (list_elem_of_fmap_2 fst l (te, a)), Hin. left. }
    rewrite <- (G l NULL) by done. by destruct (_ =? _).
  - intros s te a Hin. destruct (data_of_in te a Hin) as [-> Ed]. cbn [mbind outcome_bind].
    destruct (ri_rings _ _ _ _ Hinv te a Hin) as (_ & r & Er & _). unfold ring_at, f, name_of. rewrite Ed, Er. done.
Qed.

Lemma entries_NoDup : NoDup l.*1.
Proof. exact (chain_NoDup _ _ _ _ _ _ _ (ri_links _ _ _ _ Hinv)). Qed.
End Operations.

Lemma names_same g g' l : (forall te a, (te, a) ∈ l -> rg_rings g' !! a = rg_rings g !! a) -> names g' l = names g l.
Proof.
  intros H. unfold names. apply list_fmap_ext. intros i [te a] Hi. apply list_elem_of_lookup_2 in Hi. unfold name_of. cbn. by rewrite (H te a Hi).
Qed.

Lemma NoDup_middle {A} (l1 l2 : list A) x y : NoDup (l1 ++ x :: l2) -> y ∈ l1 ++ l2 -> y <> x.
Proof.
  intros Hn Hy ->. apply NoDup_app in Hn as (_ & H1 & [H2 _]%NoDup_cons). apply elem_of_app in Hy as [Hy|Hy]; [|done].
  apply (H1 x Hy). left.
Qed.

Section Free.
Context (ring_list : Z) (fuel : nat) (g : ring_registry) (l1 l2 : list (Z * Z)) (te r : Z) (F : list cell).
Hypotheses (Hinv : reg_inv ring_list g (l1 ++ (te, r) :: l2) F) (Hfuel : (length (l1 ++ (te, r) :: l2) <= fuel)%nat).

Lemma rte_ring_free_removes :
  exists g', rte_ring_free ring_list fuel g r 0 = Ret g' /\ reg_inv ring_list g' (l1 ++ l2) F /\ names g' (l1 ++ l2) = names g (l1 ++ l2).
Proof.
  pose proof (entries_NoDup _ _ _ _ Hinv) as Hte. pose proof (ri_distinct _ _ _ _ Hinv) as Ha. rewrite !fmap_app in Hte, Ha. cbn [fmap list_fmap fst snd] in Hte, Ha.
  assert (Hin : (te, r) ∈ l1 ++ (te, r) :: l2) by (apply elem_of_app; right; left).
  destruct (ri_rings _ _ _ _ Hinv te r Hin) as (Hr & ring & Er & [mz Emz]).
  assert (Hsub : forall te' a', (te', a') ∈ l1 ++ l2 -> (te', a') ∈ l1 ++ (te, r) :: l2 /\ te' <> te /\ a' <> r).
  { intros te' a' H. split_and!.
    - rewrite elem_of_app, elem_of_cons in *. tauto.
    - apply (NoDup_middle _ _ _ _ Hte). rewrite <- fmap_app. by apply (list_elem_of_fmap_2 fst _ (te', a')).
    - apply (NoDup_middle _ _ _ _ Ha). rewrite <- fmap_app. by apply (list_elem_of_fmap_2 snd _ (te', a')). }
  pose proof (ri_entries _ _ _ _ Hinv) as Hnn. rewrite fmap_app in Hnn. cbn [fmap list_fmap fst] in Hnn.
  apply nonnull_app in Hnn as [Hn1 [Hnte Hn2]%nonnull_cons].
  pose proof (ri_links _ _ _ _ Hinv) as Hl. rewrite fmap_app in Hl. cbn [fmap list_fmap fst] in Hl.
  destruct (TAILQ_REMOVE_spec 0 _ _ _ _ _ _ Hn2 Hl) as (m1 & E1 & H1).
  unfold rte_ring_free, ring_at. rewrite (proj2 (Z.eqb_neq r NULL) Hr), Er. cbn [mbind outcome_bind]. rewrite Emz. cbn [Z.eqb negb].
  rewrite (entries_loop ring_list fuel g _ F Hinv Hfuel _ (fun s te => (data_of g te =? r, s)) tt).
  - cbn [mbind outcome_bind].
    rewrite (visit_stops (fun s te => (data_of g te =? r, s)) tt l1 l2 te r), (proj2 (Z.eqb_neq te NULL) Hnte).
    + cbn [set_rings rg_mem]. rewrite E1. cbn [mbind outcome_bind]. eexists. split; [done|]. split.
      * split; rewrite ?fmap_app.
        -- apply (te_free_holds (set_links m1 (set_rings (delete r (rg_rings g)) g)) te (default NULL (head l2.*1)) (tail_of 0 ring_list l1.*1)).
           cbn [set_links rg_mem]. revert H1. apply holds_perm. unfold out_node. solve_Permutation.
        -- by apply nonnull_app.
        -- intros te' a' (Hin' & Hne & _)%Hsub. cbn. rewrite lookup_delete_ne by done. by apply (ri_data _ _ _ _ Hinv).
        -- intros te' a' (Hin' & _ & Hne)%Hsub. cbn. rewrite lookup_delete_ne by done. by apply (ri_rings _ _ _ _ Hinv te').
        -- apply NoDup_app in Ha as (? & H2 & [? ?]%NoDup_cons). apply NoDup_app. split_and!; try done.
           intros x Hx Hx'. apply (H2 x Hx). by right.
      * apply names_same. intros te' a' (_ & _ & Hne)%Hsub. cbn. by rewrite lookup_delete_ne.
    + intros s te' a' H. cbn [fst]. apply Z.eqb_neq. destruct (Hsub te' a') as (H' & _ & Hne); [apply elem_of_app; by left|].
      by destruct (data_of_in _ _ _ _ Hinv te' a' H') as [_ ->].
    + intros s. cbn [fst]. apply Z.eqb_eq. by destruct (data_of_in _ _ _ _ Hinv te r Hin) as [_ ->].
  - intros s te' a' H. cbn [fst snd]. change (te_data (set_rings (delete r (rg_rings g)) g) te') with (te_data g te').
    by destruct (data_of_in _ _ _ _ Hinv te' a' H) as [-> _].
Qed.
End Free.

(** ** Creation *)

Lemma set_memzone_wf esize h r : ring_wf esize r -> ring_wf esize (set_memzone h r).
Proof. by intros [[] ? ? ?]. Qed.

(** The count for which memory is reserved, and its size. *)
Lemma init_count count flags : 0 < count < 2 ^ 31 ->
  (if flag_set flags RING_F_EXACT_SZ then rte_align32pow2 (count + 1)%u32 else count) = fst (init_geometry count flags).
Proof.
  intros Hc. unfold init_geometry. destruct (flag_set flags RING_F_EXACT_SZ); [|done]. cbn [fst].
  by rewrite u32_small, rte_align32pow2_log2_up by lia.
Qed.

Lemma zone_size name esize count flags : init_code name count flags = 0 -> 0 < count < 2 ^ 31 -> 0 < esize -> esize mod 4 = 0 ->
  fst (init_geometry count flags) * esize < 2 ^ 32 ->
  let size := fst (init_geometry count flags) in
  0 < size < 2 ^ 30 /\ size * (esize / 4) <= 2 ^ 30 /\
  SIZEOF_RTE_RING + size * esize <= rte_ring_get_memsize_elem esize size.
Proof.
  intros Hcode Hc He1 He2 Hb size. destruct (init_geometry_ok name count flags Hcode Hc) as (k & Hk & Hg & Hcap & _).
  fold size in Hg, Hb. assert (Hpos : 0 < size) by (rewrite Hg; apply Z.pow_pos_nonneg; lia).
  assert (H4 : 4 <= esize) by (Z.div_mod_to_equations; lia).
  assert (Hs : size < 2 ^ 30) by nia. split; [lia|]. split; [Z.div_mod_to_equations; nia|].
  apply memsize_elem_fits; try done; [|unfold RTE_RING_SZ_MASK; lia]. rewrite Hg. apply POWEROF2_of_pow2. lia.
Qed.

Lemma name_fits name count flags : init_code name count flags = 0 -> Z.of_nat (String.length name) < RTE_RING_NAMESIZE.
Proof. unfold init_code. destruct (negb (known_flags flags)); [done|]. destruct (Z.geb_spec (Z.of_nat (String.length name)) RTE_RING_NAMESIZE); [done|lia]. Qed.

(** The environment's part: a new entry, and a zone of the size that was asked for. *)
Record fresh_memory (g : ring_registry) (te : Z) (z : memzone) (esize size : Z) : Prop := {
  fm_te : te <> NULL;
  fm_next : rg_mem g !! nxt 0 te = None;
  fm_prev : rg_mem g !! w2 (nxt 0 te) = None;
  fm_addr : mz_addr z <> NULL;
  fm_zone : rg_rings g !! mz_addr z = None;
  fm_words : SIZEOF_RTE_RING + 4 * Z.of_nat (length (mz_words z)) = rte_ring_get_memsize_elem esize size;
}.

Section Create.
Context (ring_list : Z) (g : ring_registry) (l : list (Z * Z)) (F : list cell).
Context (name : string) (esize count flags te : Z) (z : memzone).
Hypotheses (Hinv : reg_inv ring_list g l F) (Hcode : init_code name count flags = 0) (Hc : 0 < count < 2 ^ 31).
Hypotheses (He1 : 0 < esize) (He2 : esize mod 4 = 0) (Hb : fst (init_geometry count flags) * esize < 2 ^ 32).
Hypothesis Hm : fresh_memory g te z esize (fst (init_geometry count flags)).

Lemma rte_ring_create_elem_appends :
  exists g' r, rte_ring_create_elem ring_list g name esize count flags (Some te) (Some z) = Ret (g', mz_addr z) /\
    reg_inv ring_list g' (l ++ [(te, mz_addr z)]) F /\ names g' (l ++ [(te, mz_addr z)]) = names g l ++ [(mz_addr z, name)] /\
    rg_rings g' !! mz_addr z = Some r /\ ring_wf esize r /\ abs_ring esize r = Fifo (snd (init_geometry count flags)) [].
Proof.
  destruct (zone_size name esize count flags Hcode Hc He1 He2 Hb) as (Hs & Hw & Hsz). set (size := fst (init_geometry count flags)) in *.
  pose proof (name_fits _ _ _ Hcode) as Hname. destruct Hm as [Hte Hnx Hpv Ha Hz Hwords].
  unfold rte_ring_create_elem. rewrite (init_count count flags Hc). fold size.
  rewrite (proj2 (Z.ltb_ge _ _)) by (unfold SIZEOF_RTE_RING in *; nia).
  assert (El : Z.of_nat (String.length (RTE_RING_MZ_PREFIX ++ name)) = 3 + Z.of_nat (String.length name)) by
    (change (String.length (RTE_RING_MZ_PREFIX ++ name)) with (3 + String.length name)%nat; lia).
  rewrite El, (proj2 (Z.ltb_ge _ 0)), Z.geb_leb, (proj2 (Z.leb_gt _ _)) by (unfold RTE_MEMZONE_NAMESIZE, RTE_RING_NAMESIZE in *; lia).
  cbn [orb]. destruct (rte_ring_init_run (zone_ring z esize size) name count flags) as (r & Er & Hr). rewrite Er. specialize (Hr Hcode).
  destruct (init_ring_wf esize name count flags (r_mem (zone_ring z esize size)) Hcode Hc He1 He2) as [Hwf Habs]; fold size.
  { lia. }
  { assert (E4 : size * esize = 4 * (size * (esize / 4))) by (pose proof (Z.div_mod esize 4); nia).
    assert (0 <= size * (esize / 4)) by (apply Z.mul_nonneg_nonneg; [lia|apply Z.div_pos; lia]).
    cbn [zone_ring r_mem]. rewrite length_take_le; lia. }
  rewrite <- Hr in Hwf, Habs.
  pose proof (te_zmalloc_holds g te _ Hnx Hpv (ri_links _ _ _ _ Hinv)) as Hl.
  destruct (TAILQ_INSERT_TAIL_spec 0 (rg_mem (te_zmalloc te g)) ring_list l.*1 te 0 0 F) as (m1 & E1 & H1).
  { revert Hl. apply holds_perm. solve_Permutation. }
  cbn [set_data set_rings rg_mem]. rewrite E1. cbn [mbind outcome_bind].
  assert (Hold : forall te' a', (te', a') ∈ l -> te' <> te /\ a' <> mz_addr z).
  { intros te' a' Hin. destruct (ri_rings _ _ _ _ Hinv te' a' Hin) as (_ & r' & Er' & _). split; [|congruence].
    intros ->. destruct (NoDup_middle l.*1 [] te te); [|rewrite app_nil_r; by apply (list_elem_of_fmap_2 fst l (te, a'))|done].
    pose proof (chain_NoDup 0 true true m1 ring_list (l.*1 ++ [te]) F H1) as Hn. exact Hn. }
  eexists _, (set_memzone (mz_handle z) r). split; [done|]. split; [|split; [|split; [|split]]].
  - split; rewrite ?fmap_app; cbn [set_links set_rings set_data rg_mem rg_data rg_rings te_zmalloc].
    + done.
    + apply nonnull_app. split; [apply (ri_entries _ _ _ _ Hinv)|by repeat constructor].
    + intros te' a' [Hin|[= -> ->]%list_elem_of_singleton]%elem_of_app; [|apply lookup_insert_eq].
      destruct (Hold te' a' Hin) as [Hne _]. rewrite !lookup_insert_ne by done. by apply (ri_data _ _ _ _ Hinv).
    + intros te' a' [Hin|[= -> ->]%list_elem_of_singleton]%elem_of_app.
      * destruct (Hold te' a' Hin) as [_ Hne]. rewrite lookup_insert_ne by done. by apply (ri_rings _ _ _ _ Hinv te').
      * split; [done|]. eexists. split; [apply lookup_insert_eq|by eexists].
    + apply NoDup_app. split_and!; [apply (ri_distinct _ _ _ _ Hinv)| |apply NoDup_singleton].
      intros a' ([te' a''] & -> & Hin)%list_elem_of_fmap Ha'%list_elem_of_singleton. by destruct (Hold te' a'' Hin).
  - unfold names. rewrite fmap_app. f_equal.
    + apply names_same. intros te' a' Hin. destruct (Hold te' a' Hin) as [_ Hne]. cbn. by rewrite lookup_insert_ne.
    + cbn. unfold name_of. cbn. rewrite lookup_insert_eq. by rewrite Hr.
  - cbn. apply lookup_insert_eq.
  - by apply set_memzone_wf.
  - done.
Qed.
End Create.

(** ** Theorems *)

(** C31: the registry of rings is a list of rings with their names: creation with a name, flags and a
    count that [rte_ring_init] accepts - the code does not look whether it does
    ([create_unchecked]) - the count not 0 and below 2^31, with an element size that is a multiple
    of four, in fresh memory of the size the code asks for, its 32-bit product not wrapping,
    appends a ring, empty, well formed and of the capacity of its count; a lookup gives the first ring whose name agrees in the 29 bytes it can hold; freeing a ring
    takes out that ring and no other; every loop ends within the number of rings. *)
Theorem ring_registry_refines ring_list fuel g l F : reg_inv ring_list g l F -> (length l <= fuel)%nat ->
  (forall name esize count flags te z, init_code name count flags = 0 -> 0 < count < 2 ^ 31 -> 0 < esize -> esize mod 4 = 0 ->
     fst (init_geometry count flags) * esize < 2 ^ 32 -> fresh_memory g te z esize (fst (init_geometry count flags)) ->
     exists g' r, rte_ring_create_elem ring_list g name esize count flags (Some te) (Some z) = Ret (g', mz_addr z) /\
       reg_inv ring_list g' (l ++ [(te, mz_addr z)]) F /\ names g' (l ++ [(te, mz_addr z)]) = names g l ++ [(mz_addr z, name)] /\
       rg_rings g' !! mz_addr z = Some r /\ ring_wf esize r /\ abs_ring esize r = Fifo (snd (init_geometry count flags)) []) /\
  (forall name, rte_ring_lookup ring_list fuel g name = Ret (find_name name (names g l))) /\
  (forall l1 te r l2, l = l1 ++ (te, r) :: l2 ->
     exists g', rte_ring_free ring_list fuel g r 0 = Ret g' /\ reg_inv ring_list g' (l1 ++ l2) F /\
       names g' (l1 ++ l2) = names g (l1 ++ l2)).
Proof.
  intros Hinv Hf. split_and!.
  - intros. by apply rte_ring_create_elem_appends.
  - intros. by apply (rte_ring_lookup_finds _ _ _ _ _ Hinv Hf).
  - intros l1 te r l2 ->. by apply (rte_ring_free_removes _ _ _ _ _ te).
Qed.

(** Two ways in which creation does not do what its comment says ("no need to check return
    value here, we already checked the arguments above"): with flags that ask for two producer
    or consumer modes the initialisation fails and creation returns the ring it left, which has
    no slot; and while the list of rings is not registered (no code of the repository calls
    [rte_eal_tailqs_init]) creation writes through a null pointer. *)
Theorem create_unchecked g name count flags te z F :
  known_flags flags = true -> sync_flags_ok flags = false -> flag_set flags RING_F_EXACT_SZ = false ->
  Z.of_nat (String.length name) < RTE_RING_NAMESIZE -> 0 <= rte_ring_get_memsize_elem 8 count ->
  (forall ring_list l, reg_inv ring_list g l F -> rg_mem g !! nxt 0 te = None -> rg_mem g !! w2 (nxt 0 te) = None ->
   exists g' r, rte_ring_create ring_list g name count flags (Some te) (Some z) = Ret (g', mz_addr z) /\
     rg_rings g' !! mz_addr z = Some r /\ r_size r = 0 /\ r_mask r = 0 /\ r_capacity r = 0) /\
  (rg_mem g !! 8 = None -> te <> 8 -> te <> 0 -> rte_ring_create NULL g name count flags (Some te) (Some z) = Undef).
Proof.
  intros Hk Hs Hx Hn Hsz.
  assert (El : Z.of_nat (String.length (RTE_RING_MZ_PREFIX ++ name)) = 3 + Z.of_nat (String.length name)) by
    (change (String.length (RTE_RING_MZ_PREFIX ++ name)) with (3 + String.length name)%nat; lia).
  assert (Ei : exists r, snd (rte_ring_init (zone_ring z 8 count) name count flags) = r /\ r_size r = 0 /\ r_mask r = 0 /\ r_capacity r = 0).
  { unfold rte_ring_init. fold (known_flags flags). rewrite Hk. cbn [negb]. unfold rte_strlcpy.
    rewrite (proj2 (Z.ltb_ge _ 0)), Z.geb_leb, (proj2 (Z.leb_gt _ _)) by lia. cbn [orb].
    destruct (get_sync_type_spec flags RTE_RING_SYNC_MT RTE_RING_SYNC_MT Hk) as [[E _]|[_ E]]; [congruence|].
    cbn [r_prod r_cons memset_ring zero_headtail ht_sync_type].
    destruct (get_sync_type flags RTE_RING_SYNC_MT RTE_RING_SYNC_MT) as [[ret p] c]. cbn [fst] in E. subst ret. by eexists. }
  unfold rte_ring_create, rte_ring_create_elem. rewrite Hx, (proj2 (Z.ltb_ge _ 0)) by done.
  rewrite El, (proj2 (Z.ltb_ge _ 0)), Z.geb_leb, (proj2 (Z.leb_gt _ _)) by (unfold RTE_MEMZONE_NAMESIZE, RTE_RING_NAMESIZE in *; lia).
  cbn [orb]. destruct Ei as (r & Er & Hr). destruct (rte_ring_init _ _ _ _) as [rc r0]. cbn [snd] in Er. subst r0.
  cbn [set_data set_rings rg_mem]. split.
  - intros ring_list l Hinv H1 H2. pose proof (te_zmalloc_holds g te _ H1 H2 (ri_links _ _ _ _ Hinv)) as Hl.
    destruct (TAILQ_INSERT_TAIL_spec 0 (rg_mem (te_zmalloc te g)) ring_list l.*1 te 0 0 F) as (m1 & E1 & _).
    { revert Hl. apply holds_perm. solve_Permutation. }
    rewrite E1. cbn [mbind outcome_bind]. eexists _, _. split; [done|]. cbn. by rewrite lookup_insert_eq.
  - intros H8 Hte8 Hte0. unfold TAILQ_INSERT_TAIL, sto. cbn [te_zmalloc rg_mem]. rewrite lookup_insert_eq. cbn [mbind outcome_bind].
    assert (E8 : <[nxt 0 te := NULL]> (<[nxt 0 te := 0]> (<[w2 (nxt 0 te) := 0]> (rg_mem g))) !! w2 NULL = None).
    { unfold w2, nxt, NULL. rewrite !lookup_insert_ne by lia. exact H8. }
    unfold ld. by rewrite E8.
Qed.

(** ** Witnesses: the list of rings at 1000, with one ring at 4096 *)

Definition one_ring : ring_registry :=
  Registry (list_to_map (chain 0 true true 1000 [3000])) {[ 3000 := 4096 ]}
    {[ 4096 := set_memzone 1 (init_ring "rx" 2 0 [0; 0; 0; 0]) ]}.
Definition new_zone : memzone := Zone 8192 2 (replicate 32 0).

Lemma one_ring_inv : reg_inv 1000 one_ring [(3000, 4096)] [].
Proof.
  split.
  - split; apply (bool_decide_unpack _); by vm_compute.
  - by repeat constructor.
  - intros te a [= -> ->]%list_elem_of_singleton. done.
  - intros te a [= -> ->]%list_elem_of_singleton. split; [done|]. eexists. split; [by vm_compute|by eexists].
  - apply NoDup_singleton.
Qed.

Lemma ring_registry_refines_witness :
  (exists g' r, rte_ring_create_elem 1000 one_ring "tx" 8 16 RING_F_SC_DEQ (Some 3024) (Some new_zone) = Ret (g', 8192) /\
     names g' [(3000, 4096); (3024, 8192)] = [(4096, "rx"); (8192, "tx")] /\ rg_rings g' !! 8192 = Some r /\ abs_ring 8 r = Fifo 15 []) /\
  rte_ring_lookup 1000 1 one_ring "rx" = Ret 4096 /\ rte_ring_lookup 1000 1 one_ring "tx" = Ret NULL /\
  (exists g', rte_ring_free 1000 1 one_ring 4096 0 = Ret g' /\ reg_inv 1000 g' [] []).
Proof.
  destruct (ring_registry_refines 1000 1 one_ring [(3000, 4096)] [] one_ring_inv ltac:(cbn; lia)) as (Hc & Hl & Hf).
  split; [|split; [exact (Hl "rx")|split; [exact (Hl "tx")|]]].
  - destruct (Hc "tx" 8 16 RING_F_SC_DEQ 3024 new_zone) as (g' & r & E & _ & En & Er & _ & Ea).
    1: reflexivity. 1-4: lia || reflexivity. { split; by vm_compute. }
    exists g', r. split; [exact E|]. split; [exact En|]. split; [exact Er|exact Ea].
  - destruct (Hf [] 3000 4096 [] eq_refl) as (g' & E & Hi & _). exists g'. split; [exact E|exact Hi].
Defined.

Lemma create_unchecked_witness :
  exists g' r, rte_ring_create 1000 one_ring "tx" 16 9 (Some 3024) (Some new_zone) = Ret (g', 8192) /\
    rg_rings g' !! 8192 = Some r /\ r_size r = 0 /\ r_mask r = 0 /\ r_capacity r = 0.
Proof.
  apply (create_unchecked one_ring "tx" 16 9 3024 new_zone []) with (l := [(3000, 4096)]); try (by vm_compute); exact one_ring_inv.
Defined.
