(* ===== verification/HashSetup.v ===== *)
(** * The rest of [rte_hash_create]: what it would set up

    [HashCreate] shows that [rte_hash_create] dereferences a null pointer where it takes its
    lock. This file models the code after that line as it stands: the search for the name,
    the allocations, the table, the free indices, the list of tables, and the error exit.
    What the allocator and the creation of the rings return are arguments. The tables it
    makes are those of [CuckooMap] for eight entries in zeroed memory
    ([created_table_is_map]); for more entries the one bucket it allocates is overrun
    ([created_table_overruns]); and its error exit is as undefined as its lock
    ([create_errors_undefined]). *)

From S2P Require Import Prelude Common Store SysQueue SysQueueSpec Atomic RingCore RingCopy RingElem RingReg Locks.
From S2P Require Import Cuckoo CuckooSpec CuckooExt CuckooTable CuckooMap HashCreate.
From stdpp Require Import strings.

Open Scope Z_scope.

(** ** Definitions *)

(* rte_lib/rte_hash.h:11-11 RTE_HASH_NAMESIZE *)
Definition RTE_HASH_NAMESIZE : Z := 32.

(** The local flags. *)
(* rte_lib/rte_cuckoo_hash.c:724-749 rte_hash_create *)
Record hash_options := Options {
  o_hw_trans_mem_support : bool;
  o_use_local_cache : bool;
  o_writer_takes_lock : bool;
  o_readwrite_concur_support : bool;
  o_ext_table_support : bool;
  o_no_free_on_del : bool;
  o_readwrite_concur_lf_support : bool;
}.
(* rte_lib/rte_cuckoo_hash.c:724-749 rte_hash_create *)
Definition extra_options (extra_flag : Z) : hash_options :=
  let multi := flag_set extra_flag RTE_HASH_EXTRA_FLAGS_MULTI_WRITER_ADD in
  let rw := flag_set extra_flag RTE_HASH_EXTRA_FLAGS_RW_CONCURRENCY in
  let lf := flag_set extra_flag RTE_HASH_EXTRA_FLAGS_RW_CONCURRENCY_LF in
  Options (flag_set extra_flag RTE_HASH_EXTRA_FLAGS_TRANS_MEM_SUPPORT) multi (multi || rw) rw
    (flag_set extra_flag RTE_HASH_EXTRA_FLAGS_EXT_TABLE)
    (flag_set extra_flag RTE_HASH_EXTRA_FLAGS_NO_FREE_ON_DEL || lf) lf.

(** A table as creation leaves it: the fields that no other code of the file reads, and the
    record of [Cuckoo] with the rest. [cr_jhash] says that the hash function is the default one. *)
(* rte_lib/rte_cuckoo_hash.h:179-248 rte_hash *)
Record created := Created {
  cr_name : string;
  cr_entries : Z;
  cr_num_buckets : Z;
  cr_jhash : bool;
  cr_use_local_cache : bool;
  cr_readwrite_concur_support : bool;
  cr_no_free_on_del : bool;
  cr_tailq_lock : Z;
  cr_table : rte_hash;
}.

(** The list of tables ([rte_hash_tailq]): its links, the data of its entries, the tables. *)
Record hash_registry := HReg { hg_mem : store; hg_data : gmap Z Z; hg_tables : gmap Z created }.
Definition entry_data (g : hash_registry) (te : Z) : outcome Z :=
  match hg_data g !! te with Some d => Ret d | None => Undef end.
Definition table_at (g : hash_registry) (a : Z) : outcome created :=
  match hg_tables g !! a with Some c => Ret c | None => Undef end.

(** What the allocator returned, [None] for a null pointer, with what the memory holds: the
    entry with its two words, the table, one bucket, the extendable buckets, the recycling
    array, the key store, the change counter, the two locks. *)
Record hash_memory := HMem {
  hm_te : option (Z * (Z * Z));
  hm_h : option Z;
  hm_bucket : option rte_hash_bucket;
  hm_buckets_ext : option (list rte_hash_bucket);
  hm_ext_bkt_to_free : option (list Z);
  hm_keys : option (list rte_hash_key);
  hm_tbl_chng_cnt : option Z;
  hm_readwrite_lock : option Z;
  hm_tailq_lock : option Z;
}.

(** The exit: it releases [h->tailq_lock], given as [None] while [h] is null, or its field has
    not been written, or is null. *)
(* rte_lib/rte_cuckoo_hash.c:1019-1033 rte_hash_create *)
Definition err_unlock (g : hash_registry) (tailq_lock : option Z) : outcome (hash_registry * Z) :=
  match tailq_lock with None => Undef | Some _ => Ret (g, NULL) end.

(** The loops that fill a ring with indices. *)
(* rte_lib/rte_cuckoo_hash.c:1009-1011 rte_hash_create *)
Fixpoint fill_ring (fuel : nat) (r : rte_ring) (ids : list Z) : outcome rte_ring :=
  match ids with
  | [] => Ret r
  | i :: ids => '(r, _) ← rte_ring_sp_enqueue_elem fuel r [i] 4; fill_ring fuel r ids
  end.

(** Options, parameters and memory put together: [h->... = ...]. *)
(* rte_lib/rte_cuckoo_hash.c:952-977 rte_hash_create *)
Definition setup_table (name : string) (params : rte_hash_parameters) (custom_hash : bool)
    (bucket : rte_hash_bucket) (bkts_ext : list rte_hash_bucket) (keys : list rte_hash_key)
    (r r_ext : rte_ring) (rw_lock tailq_lock : Z) : created :=
  let o := extra_options (hp_extra_flag params) in
  Created (String.substring 0 (Z.to_nat RTE_HASH_NAMESIZE) name) (hp_entries params) (num_buckets params)
    (negb custom_hash) (o_use_local_cache o) (o_readwrite_concur_support o) (o_no_free_on_del o) tailq_lock
    (Hash (hp_key_len params) (o_hw_trans_mem_support o) (o_ext_table_support o)
       (o_readwrite_concur_lf_support o) (o_writer_takes_lock o) (hp_hash_func_init_val params)
       (num_buckets params - 1)%u32 (created_entry_size params) r keys [bucket] rw_lock bkts_ext r_ext 0).

Section Setup.
(** The head of the list of tables; the bound on its walk and on the waits of the rings. *)
Context (hash_list : Z) (fuel : nat).

(** Whether a table of the name exists. *)
(* rte_lib/rte_cuckoo_hash.c:801-807 rte_hash_create *)
Definition name_taken (g : hash_registry) (name : string) : outcome bool :=
  '(_, _, te) ← TAILQ_FOREACH 0 (fun h m te =>
      h ← entry_data g te;
      c ← table_at g h;
      Ret (strneq (Z.to_nat RTE_HASH_NAMESIZE) name (cr_name c), h, m)) fuel NULL (hg_mem g) hash_list;
  Ret (negb (te =? NULL)).

(** The extendable buckets and the ring of their indices, if they are asked for. *)
(* rte_lib/rte_cuckoo_hash.c:839-866 rte_hash_create *)
Definition setup_ext (o : hash_options) (params : rte_hash_parameters) (r_ext : rte_ring) (mem : hash_memory)
    : outcome (option (list rte_hash_bucket * rte_ring)) :=
  if o_ext_table_support o then
    match hm_buckets_ext mem with
    | None => Ret None
    | Some b =>
        r_ext ← fill_ring fuel r_ext (seqZ 1 (num_buckets params));
        if o_readwrite_concur_lf_support o then
          match hm_ext_bkt_to_free mem with None => Ret None | Some _ => Ret (Some (b, r_ext)) end
        else Ret (Some (b, r_ext))
    end
  else Ret (Some ([], r_ext)).

(** The locks, the free indices, and the new entry of the list. *)
(* rte_lib/rte_cuckoo_hash.c:990-1018 rte_hash_create *)
Definition publish_table (g : hash_registry) (name : string) (params : rte_hash_parameters) (custom_hash : bool)
    (te h : Z) (bucket : rte_hash_bucket) (bkts_ext : list rte_hash_bucket) (keys : list rte_hash_key)
    (r r_ext : rte_ring) (mem : hash_memory) : outcome (hash_registry * Z) :=
  let rw_lock :=
    if o_writer_takes_lock (extra_options (hp_extra_flag params))
    then match hm_readwrite_lock mem with None => None | Some cnt => Some (rte_rwlock_init cnt) end
    else Some 0 in
  match rw_lock with
  | None => err_unlock g None
  | Some rw_lock =>
      match hm_tailq_lock mem with
      | None => err_unlock g None
      | Some cnt =>
          let tailq_lock := rte_rwlock_init cnt in
          r ← fill_ring fuel r (seqZ 1 (num_key_slots params - 1));
          let g := HReg (hg_mem g) (<[te := h]> (hg_data g)) (hg_tables g) in
          m ← TAILQ_INSERT_TAIL 0 (hg_mem g) hash_list te;
          let c := setup_table name params custom_hash bucket bkts_ext keys r r_ext rw_lock
                     (rte_rwlock_write_unlock tailq_lock) in
          Ret (HReg m (hg_data g) (<[h := c]> (hg_tables g)), h)
      end
  end.

(** Everything after the lock. [r] and [r_ext] are the rings created before it. *)
(* rte_lib/rte_cuckoo_hash.c:799-892 rte_hash_create *)
Definition create_locked (g : hash_registry) (name : string) (params : rte_hash_parameters) (custom_hash : bool)
    (r r_ext : rte_ring) (mem : hash_memory) : outcome (hash_registry * Z) :=
  taken ← name_taken g name;
  if (taken : bool) then err_unlock g None
  else
    match hm_te mem with
    | None => err_unlock g None
    | Some (te, (v, w)) =>
        let g := HReg (<[nxt 0 te := v]> (<[w2 (nxt 0 te) := w]> (hg_mem g))) (hg_data g) (hg_tables g) in
        match hm_h mem with
        | None => err_unlock g None
        | Some h =>
            match hm_bucket mem with
            | None => err_unlock g None
            | Some bucket =>
                ext ← setup_ext (extra_options (hp_extra_flag params)) params r_ext mem;
                match ext with
                | None => err_unlock g None
                | Some (bkts_ext, r_ext) =>
                    match hm_keys mem with
                    | None => err_unlock g None
                    | Some keys =>
                        match hm_tbl_chng_cnt mem with
                        | None => err_unlock g None
                        | Some _ => publish_table g name params custom_hash te h bucket bkts_ext keys r r_ext mem
                        end
                    end
                end
            end
        end
    end.
End Setup.

(** ** The list of tables *)

(** The entries with the tables they point to, oldest first. *)
Record hreg_inv (hash_list : Z) (g : hash_registry) (l : list (Z * Z)) (F : list cell) : Prop := {
  hi_links : holds (hg_mem g) (chain 0 true true hash_list l.*1 ++ F);
  hi_entries : nonnull l.*1;
  hi_data : forall te a, (te, a) ∈ l -> hg_data g !! te = Some a;
  hi_tables : forall te a, (te, a) ∈ l -> exists c, hg_tables g !! a = Some c;
}.
Definition has_name (g : hash_registry) (l : list (Z * Z)) (name : string) : Prop :=
  exists te a c, (te, a) ∈ l /\ hg_tables g !! a = Some c /\ strneq (Z.to_nat RTE_HASH_NAMESIZE) name (cr_name c) = true.

Section NameTaken.
Context (hash_list : Z) (fuel : nat) (g : hash_registry) (l : list (Z * Z)) (F : list cell) (name : string).
Hypotheses (Hinv : hreg_inv hash_list g l F) (Hfuel : (length l <= fuel)%nat).

Definition same_name (te : Z) : bool :=
  match hg_data g !! te with
  | Some a => match hg_tables g !! a with Some c => strneq (Z.to_nat RTE_HASH_NAMESIZE) name (cr_name c) | None => false end
  | None => false
  end.

Lemma same_name_in te a c : (te, a) ∈ l -> hg_tables g !! a = Some c ->
  same_name te = strneq (Z.to_nat RTE_HASH_NAMESIZE) name (cr_name c).
Proof. intros Hin Hc. unfold same_name. by rewrite (hi_data _ _ _ _ Hinv te a Hin), Hc. Qed.

(** The loop stops at a table of the name, if there is one. *)
Lemma visit_finds {S} (f : S -> Z -> bool * S) (p : Z -> bool) xs s :
  nonnull xs -> (forall s x, fst (f s x) = p x) ->
  negb (snd (visit f s xs) =? NULL) = existsb p xs.
Proof.
  intros Hx Hf. revert s. induction xs as [|x xs IH]; intros s; [done|]. apply nonnull_cons in Hx as [Hx Hxs].
  cbn [visit existsb]. rewrite Hf. destruct (p x); [|by apply IH]. cbn. by rewrite (proj2 (Z.eqb_neq x NULL)).
Qed.

Lemma name_taken_spec : name_taken hash_list fuel g name = Ret (existsb same_name l.*1).
Proof.
  unfold name_taken, TAILQ_FOREACH, TAILQ_FIRST. rewrite (chain_first _ _ _ _ _ _ _ (hi_links _ _ _ _ Hinv)). cbn [mbind outcome_bind].
  pose (f := fun (_ : Z) te => (same_name te, default NULL (hg_data g !! te))).
  destruct (foreach_visits (TAILQ_NEXT 0) (fun h m te =>
      h ← entry_data g te; c ← table_at g h;
      Ret (strneq (Z.to_nat RTE_HASH_NAMESIZE) name (cr_name c), h, m)) f (hg_mem g) l.*1 fuel NULL) as [E _].
  - exact (chain_path _ _ _ _ _ _ _ (hi_entries _ _ _ _ Hinv) (hi_links _ _ _ _ Hinv)).
  - by rewrite length_fmap.
  - intros s te ([te' a] & -> & Hin)%list_elem_of_fmap. cbn [fst]. unfold entry_data, f, table_at.
    destruct (hi_tables _ _ _ _ Hinv _ _ Hin) as [c Hc]. rewrite (hi_data _ _ _ _ Hinv _ _ Hin). cbn [mbind outcome_bind default].
    rewrite Hc. cbn [mbind outcome_bind fst snd]. by rewrite (same_name_in _ _ _ Hin Hc).
  - rewrite E. cbn [mbind outcome_bind]. by rewrite (visit_finds f same_name) by (done || apply (hi_entries _ _ _ _ Hinv)).
Qed.

Lemma name_taken_iff : existsb same_name l.*1 = true <-> has_name g l name.
Proof.
  rewrite existsb_exists. split.
  - intros (te & ([te' a] & -> & Hin)%list_elem_of_In%list_elem_of_fmap & Hn). destruct (hi_tables _ _ _ _ Hinv _ _ Hin) as [c Hc].
    cbn in Hn. rewrite (same_name_in _ _ _ Hin Hc) in Hn. by exists te', a, c.
  - intros (te & a & c & Hin & Hc & Hn). exists te. split; [by apply list_elem_of_In, (list_elem_of_fmap_2 fst l (te, a))|].
    by rewrite (same_name_in _ _ _ Hin Hc).
Qed.
End NameTaken.


(** ** Filling a ring *)

Lemma fill_ring_spec fuel ids r : ring_wf 4 r -> plain_sync r ->
  Z.of_nat (length (contents 4 r)) + Z.of_nat (length ids) <= r_capacity r ->
  exists r', fill_ring fuel r ids = Ret r' /\ ring_wf 4 r' /\ plain_sync r' /\
    contents 4 r' = contents 4 r ++ ids /\ r_capacity r' = r_capacity r.
Proof.
  revert r. induction ids as [|i ids IH]; intros r Hw Hp Hroom; cbn [fill_ring]; cbn [length] in Hroom.
  - exists r. by rewrite app_nil_r.
  - destruct (enqueue_word fuel r i Hw Hp) as (r1 & E & Hw1 & Hp1 & Hc1 & Hcap1); [lia|].
    rewrite E. cbn [mbind outcome_bind].
    destruct (IH r1 Hw1 Hp1) as (r2 & E2 & Hw2 & Hp2 & Hc2 & Hcap2).
    { rewrite Hc1, Hcap1, length_app. cbn. lia. }
    exists r2. rewrite Hc2, Hc1, <- app_assoc, Hcap2, Hcap1. done.
Qed.

(** A new ring of free indices: nothing in it, and room for [n]. *)
Definition empty_ring (r : rte_ring) (n : Z) : Prop :=
  ring_wf 4 r /\ plain_sync r /\ contents 4 r = [] /\ n <= r_capacity r.
Definition holds_ids (r : rte_ring) (n : Z) : Prop :=
  ring_wf 4 r /\ plain_sync r /\ contents 4 r = seqZ 1 n.

Lemma fill_ids fuel r n : 0 <= n -> empty_ring r n ->
  exists r', fill_ring fuel r (seqZ 1 n) = Ret r' /\ holds_ids r' n.
Proof.
  intros Hn (Hw & Hp & Hc & Hcap). destruct (fill_ring_spec fuel (seqZ 1 n) r Hw Hp) as (r' & E & Hw' & Hp' & Hc' & _).
  { rewrite Hc, length_seqZ. cbn. lia. }
  exists r'. by rewrite Hc in Hc'.
Qed.

(** ** A creation that finds the memory it asks for *)

Definition wants_ext (params : rte_hash_parameters) : bool := o_ext_table_support (extra_options (hp_extra_flag params)).

Record setup_memory (g : hash_registry) (params : rte_hash_parameters) (r r_ext : rte_ring) (mem : hash_memory)
    (te h : Z) (bucket : rte_hash_bucket) (bkts_ext : list rte_hash_bucket) (keys : list rte_hash_key) : Prop := {
  sm_te : exists v w, hm_te mem = Some (te, (v, w));
  sm_te_new : te <> NULL /\ hg_mem g !! nxt 0 te = None /\ hg_mem g !! w2 (nxt 0 te) = None;
  sm_h : hm_h mem = Some h /\ hg_tables g !! h = None;
  sm_bucket : hm_bucket mem = Some bucket;
  sm_ext : if wants_ext params then hm_buckets_ext mem = Some bkts_ext /\ is_Some (hm_ext_bkt_to_free mem) else bkts_ext = [];
  sm_keys : hm_keys mem = Some keys;
  sm_words : is_Some (hm_tbl_chng_cnt mem) /\ is_Some (hm_readwrite_lock mem) /\ is_Some (hm_tailq_lock mem);
  sm_ring : empty_ring r (hp_entries params);
  sm_ring_ext : wants_ext params = true -> empty_ring r_ext (num_buckets params);
}.

Lemma substring_twice n s : String.substring 0 n (String.substring 0 n s) = String.substring 0 n s.
Proof. revert s. induction n as [|n IH]; intros [|a s]; cbn; f_equal; auto. Qed.

Lemma num_buckets_nonneg params : 8 <= hp_entries params < 2 ^ 31 -> 0 <= num_buckets params.
Proof.
  intros H. unfold num_buckets, RTE_HASH_BUCKET_ENTRIES. apply Z.div_pos; [|lia].
  rewrite rte_align32pow2_log2_up by lia. lia.
Qed.

(** With more than eight entries there are at least two buckets. *)
Lemma buckets_mask params : 8 < hp_entries params < 2 ^ 31 ->
  exists k, 1 <= k /\ (num_buckets params - 1)%u32 = 2 ^ k - 1.
Proof.
  intros H. unfold num_buckets, RTE_HASH_BUCKET_ENTRIES. rewrite rte_align32pow2_log2_up by lia.
  pose proof (Z.log2_up_le_mono 9 (hp_entries params) ltac:(lia)) as H4. change (Z.log2_up 9) with 4 in H4.
  pose proof (Z.log2_up_le_mono (hp_entries params) (2 ^ 31) ltac:(lia)) as H31. rewrite (Z.log2_up_pow2 31) in H31 by lia.
  set (m := Z.log2_up (hp_entries params)) in *. exists (m - 3). split; [lia|].
  assert (E : 2 ^ m = 2 ^ (m - 3) * 8) by (change 8 with (2 ^ 3); rewrite <- Z.pow_add_r by lia; f_equal; lia).
  rewrite E, Z.div_mul by done. apply u32_small.
  pose proof (Z.pow_pos_nonneg 2 (m - 3)). pose proof (Z.pow_le_mono_r 2 (m - 3) 28). change (2 ^ 28) with 268435456 in *. lia.
Qed.

Section Create.
Context (hash_list : Z) (fuel : nat) (g : hash_registry) (l : list (Z * Z)) (F : list cell) (name : string).
Context (params : rte_hash_parameters) (custom_hash : bool) (r r_ext : rte_ring) (mem : hash_memory).
Context (te h : Z) (bucket : rte_hash_bucket) (bkts_ext : list rte_hash_bucket) (keys : list rte_hash_key).
Hypotheses (Hinv : hreg_inv hash_list g l F) (Hfuel : (length l <= fuel)%nat).
Hypotheses (Hent : 8 <= hp_entries params < 2 ^ 31) (Hmem : setup_memory g params r r_ext mem te h bucket bkts_ext keys).

Lemma setup_ext_fills : exists r_ext', setup_ext fuel (extra_options (hp_extra_flag params)) params r_ext mem = Ret (Some (bkts_ext, r_ext')) /\
  (wants_ext params = true -> holds_ids r_ext' (num_buckets params)).
Proof.
  pose proof (sm_ext _ _ _ _ _ _ _ _ _ _ Hmem) as He. pose proof (sm_ring_ext _ _ _ _ _ _ _ _ _ _ Hmem) as Hr.
  unfold setup_ext. fold (wants_ext params). destruct (wants_ext params).
  - destruct He as [-> [x ->]]. destruct (fill_ids fuel r_ext (num_buckets params)) as (r' & -> & Hr'); [|by apply Hr|].
    { apply num_buckets_nonneg; lia. }
    exists r'. cbn [mbind outcome_bind]. by destruct (o_readwrite_concur_lf_support _).
  - exists r_ext. by rewrite He.
Qed.

Lemma te_links v w : holds (<[nxt 0 te := v]> (<[w2 (nxt 0 te) := w]> (hg_mem g))) (chain 0 true true hash_list l.*1 ++ node 0 true te v w ++ F).
Proof.
  destruct (sm_te_new _ _ _ _ _ _ _ _ _ _ Hmem) as (_ & H1 & H2).
  eapply (holds_perm _ (node 0 true te v w ++ chain 0 true true hash_list l.*1 ++ F)); [solve_Permutation|]. unfold node. apply holds_alloc; [|apply holds_alloc; [done|apply (hi_links _ _ _ _ Hinv)]].
  rewrite lookup_insert_ne; [done|]. unfold w2. lia.
Qed.

Lemma create_locked_run : ~ has_name g l name ->
  exists g' r' r_ext',
    create_locked hash_list fuel g name params custom_hash r r_ext mem = Ret (g', h) /\
    hg_tables g' = <[h := setup_table name params custom_hash bucket bkts_ext keys r' r_ext' 0 0]> (hg_tables g) /\
    hreg_inv hash_list g' (l ++ [(te, h)]) F /\
    holds_ids r' (hp_entries params) /\ (wants_ext params = true -> holds_ids r_ext' (num_buckets params)).
Proof.
  intros Hno. destruct setup_ext_fills as (r_ext' & Eext & Hext).
  pose proof Hmem as [(v & w & Ete) (Hte & _) [Eh Hh] Eb _ Ek (Hc & Hrw & Htl) Hring _].
  destruct Hc as [cc Ec], Hrw as [cr Erw], Htl as [ct Etl].
  unfold create_locked. rewrite (name_taken_spec _ _ _ _ F) by done. cbn [mbind outcome_bind].
  assert (Hf : existsb (same_name g name) l.*1 = false).
  { apply not_true_is_false. by rewrite (name_taken_iff hash_list g l F). }
  rewrite Hf.
  rewrite Ete, Eh, Eb, Eext. cbn [mbind outcome_bind]. rewrite Ek, Ec.
  unfold publish_table. rewrite Erw, Etl. change (rte_rwlock_init cr) with 0.
  replace (if o_writer_takes_lock (extra_options (hp_extra_flag params)) then Some 0 else Some 0) with (Some 0) by (by destruct (o_writer_takes_lock _)).
  assert (En : (num_key_slots params - 1) = hp_entries params) by (unfold num_key_slots; rewrite u32_small; lia).
  rewrite En. destruct (fill_ids fuel r (hp_entries params)) as (r' & -> & Hr'); [lia|done|]. cbn [mbind outcome_bind hg_mem hg_data hg_tables].
  destruct (TAILQ_INSERT_TAIL_spec 0 _ _ _ _ _ _ _ (te_links v w)) as (m' & E' & H'). rewrite E'. cbn [mbind outcome_bind].
  eexists _, r', r_ext'. split; [reflexivity|]. split; [reflexivity|]. split; [|done].
  split; rewrite ?fmap_app; cbn [hg_mem hg_data hg_tables].
  - done.
  - apply nonnull_app. split; [apply (hi_entries _ _ _ _ Hinv)|by repeat constructor].
  - intros te' a' [Hin|[= -> ->]%list_elem_of_singleton]%elem_of_app; [|apply lookup_insert_eq].
    rewrite lookup_insert_ne; [by apply (hi_data _ _ _ _ Hinv)|]. intros <-.
    pose proof (chain_NoDup 0 true true m' hash_list (l.*1 ++ [te]) F H') as Hn.
    eapply (NoDup_middle l.*1 [] te te); [exact Hn| |done]. rewrite app_nil_r. by apply (list_elem_of_fmap_2 fst l (te, a')).
  - intros te' a' [Hin|[= -> ->]%list_elem_of_singleton]%elem_of_app; [|eexists; apply lookup_insert_eq].
    destruct (hi_tables _ _ _ _ Hinv te' a' Hin) as [c Hc]. destruct (decide (h = a')) as [<-|Hne]; [congruence|].
    rewrite lookup_insert_ne by done. by exists c.
Qed.
End Create.

(** ** Theorems *)

(** What the code after the lock would do, had the lock not been taken through a null
    pointer: when no table of the list has the name in its 32 bytes and every allocation
    succeeds, it returns the new table, appended to the list of tables, with the parameters
    and the decoded flags as its fields, both its locks free, the free ring holding the
    indices from 1 to the number of entries in order and the ring of extendable buckets,
    if asked for, the indices from 1 to the number of buckets; and the name is then taken. *)
Theorem create_sets_up hash_list fuel g l F name params custom_hash r r_ext mem te h bucket bkts_ext keys :
  hreg_inv hash_list g l F -> (length l <= fuel)%nat -> 8 <= hp_entries params < 2 ^ 31 ->
  setup_memory g params r r_ext mem te h bucket bkts_ext keys -> ~ has_name g l name ->
  exists g' r' r_ext',
    create_locked hash_list fuel g name params custom_hash r r_ext mem = Ret (g', h) /\
    hg_tables g' = <[h := setup_table name params custom_hash bucket bkts_ext keys r' r_ext' 0 0]> (hg_tables g) /\
    hreg_inv hash_list g' (l ++ [(te, h)]) F /\ has_name g' (l ++ [(te, h)]) name /\
    holds_ids r' (hp_entries params) /\ (wants_ext params = true -> holds_ids r_ext' (num_buckets params)).
Proof.
  intros Hinv Hf Hent Hmem Hno.
  destruct (create_locked_run _ _ _ _ _ _ _ custom_hash _ _ _ _ _ _ _ _ Hinv Hf Hent Hmem Hno) as (g' & r' & r_ext' & E & Et & Hi & Hr).
  exists g', r', r_ext'. split_and!; try done; try apply Hr. exists te, h. eexists. split; [apply elem_of_app; right; left|].
  rewrite Et, lookup_insert_eq. split; [done|]. unfold strneq, setup_table. cbn [cr_name]. apply bool_decide_eq_true. by rewrite substring_twice.
Qed.

(** The error exit of the code after the lock is undefined behaviour in every case - the
    name is taken, or an allocation fails, the lock's included: it releases a lock through
    a table that is null or whose field was never written. *)
Theorem create_errors_undefined hash_list fuel g l F name params custom_hash r r_ext mem :
  hreg_inv hash_list g l F -> (length l <= fuel)%nat -> 8 <= hp_entries params < 2 ^ 31 ->
  (wants_ext params = true -> empty_ring r_ext (num_buckets params)) ->
  has_name g l name \/ hm_te mem = None \/ hm_h mem = None \/ hm_bucket mem = None \/ hm_keys mem = None \/
    hm_tbl_chng_cnt mem = None \/ hm_tailq_lock mem = None \/ (wants_ext params = true /\ hm_buckets_ext mem = None) \/
    (wants_ext params = true /\ o_readwrite_concur_lf_support (extra_options (hp_extra_flag params)) = true /\ hm_ext_bkt_to_free mem = None) \/
    (o_writer_takes_lock (extra_options (hp_extra_flag params)) = true /\ hm_readwrite_lock mem = None) ->
  create_locked hash_list fuel g name params custom_hash r r_ext mem = Undef.
Proof.
  intros Hinv Hf Hent Hr Hbad.
  set (o := extra_options (hp_extra_flag params)) in *.
  assert (Hext : exists e, setup_ext fuel o params r_ext mem = Ret e /\
    (wants_ext params = true -> hm_buckets_ext mem = None \/ o_readwrite_concur_lf_support o = true /\ hm_ext_bkt_to_free mem = None -> e = None)).
  { unfold setup_ext. change (o_ext_table_support o) with (wants_ext params). destruct (wants_ext params); [|by eexists].
    destruct (hm_buckets_ext mem) as [b|]; [|by eexists].
    destruct (fill_ids fuel r_ext (num_buckets params)) as (r' & -> & _); [apply num_buckets_nonneg; lia|by apply Hr|].
    cbn [mbind outcome_bind]. destruct (o_readwrite_concur_lf_support o), (hm_ext_bkt_to_free mem); eexists; split; try done;
      intros _ [Hb|[Hb Hb']]; congruence. }
  destruct Hext as (e & Eo & Ho). unfold create_locked, publish_table. fold o. rewrite (name_taken_spec _ _ _ _ F) by done. cbn [mbind outcome_bind].
  destruct (existsb _ _) eqn:En; [done|].
  destruct (hm_te mem) as [[te [v w]]|]; [|done]. destruct (hm_h mem) as [h|]; [|done]. destruct (hm_bucket mem) as [b|]; [|done].
  rewrite Eo. cbn [mbind outcome_bind]. destruct e as [[be re]|]; [|done]. destruct (hm_keys mem); [|done].
  destruct (hm_tbl_chng_cnt mem); [|done]. destruct (if o_writer_takes_lock _ then _ else _) eqn:El; [|done]. destruct (hm_tailq_lock mem); [|done].
  exfalso. destruct Hbad as [Hn|[H|[H|[H|[H|[H|[H|[[H1 H2]|[[H1 H2]|[H1 H2]]]]]]]]]]; try discriminate.
  - rewrite <- (name_taken_iff hash_list g l F) in Hn by done. congruence.
  - by specialize (Ho H1 (or_introl H2)).
  - by specialize (Ho H1 (or_intror H2)).
  - by rewrite H1, H2 in El.
Qed.

(** *** The table that comes out *)

Definition zeroed_bucket : rte_hash_bucket := Bucket (repeat 0 8) (repeat 0 8) None.

Lemma zeroed_slots i : 0 <= i < 8 -> idx_at [zeroed_bucket] 0 i = 0.
Proof.
  intros Hi. assert (E : i = 0 \/ i = 1 \/ i = 2 \/ i = 3 \/ i = 4 \/ i = 5 \/ i = 6 \/ i = 7) by lia.
  by destruct E as [->|[->|[->|[->|[->|[->|[->| ->]]]]]]].
Qed.

Lemma zeroed_shape : table_shape 1 (fun _ => None) [zeroed_bucket].
Proof. split; [done|]. intros b Hb. by replace b with 0 by lia. Qed.

(** One zeroed bucket stores nothing. *)
Lemma zeroed_inv hs : inv 0 (fun _ => None) hs (fun _ => False) [zeroed_bucket].
Proof.
  split; [exact zeroed_shape|].
  assert (Hz : forall b i, in_table (2 ^ 0) b i -> idx_at [zeroed_bucket] b i = 0).
  { intros b i [Hb Hi]. replace b with 0 by (change (2 ^ 0) with 1 in Hb; lia). by apply zeroed_slots. }
  split; try done.
  - intros b i Hin _ Hn. by rewrite Hz in Hn.
  - intros b i b' i' Hin _ _ _ Hn. by rewrite Hz in Hn.
  - by intros [].
Qed.

(** One zeroed extendable bucket is a spare one. *)
Lemma zeroed_spare N : spare_ok N (fun _ => []) [zeroed_bucket] [1].
Proof.
  split; [apply NoDup_singleton|by intros id ->%list_elem_of_singleton|by intros id b _ _ ?%elem_of_nil|].
  intros id ->%list_elem_of_singleton. split; [done|]. intros i Hi. by apply zeroed_slots.
Qed.

Definition ext_buckets (params : rte_hash_parameters) : list rte_hash_bucket := if wants_ext params then [zeroed_bucket] else [].
Definition ext_count (params : rte_hash_parameters) : option nat := if wants_ext params then Some 1%nat else None.

Section EightEntries.
Context (name : string) (params : rte_hash_parameters) (custom_hash : bool) (keys : list rte_hash_key) (r r_ext : rte_ring).
Context (hash_func : list Z -> Z -> Z -> Z) (dummy : list Z).
Hypotheses (He : hp_entries params = 8) (Hk : hp_key_len params = 8).
Hypotheses (Hkeys : length keys = 9%nat /\ forall e, e ∈ keys -> length (k_key e) = 8%nat).
Hypotheses (Hdummy : k_key (keys !!! 0%nat) = dummy) (Hr : holds_ids r 8) (Hrx : wants_ext params = true -> holds_ids r_ext 1).

Let table := cr_table (setup_table name params custom_hash zeroed_bucket (ext_buckets params) keys r r_ext 0 0).

Lemma eight_entries_store : store_ok table.
Proof.
  destruct Hkeys as [Hl Hb]. assert (E : key_entry_size table = 16).
  { change (key_entry_size table) with (created_entry_size params). unfold created_entry_size. by rewrite Hk. }
  split; rewrite ?E; try lia.
  - intros e Hin. by rewrite (Hb e Hin).
  - change (key_store table) with keys. rewrite Hl. lia.
  - change (key_len table) with (hp_key_len params). lia.
Qed.

Lemma eight_entries_ok : hash_ok (empty_layout 0) table.
Proof.
  destruct Hkeys as [Hl Hb], Hr as (Hw & Hp & Hc). assert (Hno : forall k, ~ stored_in (empty_layout 0) k) by (by intros k [[]|[]]).
  split.
  - done.
  - change (bucket_bitmask table) with (num_buckets params - 1)%u32. unfold num_buckets. by rewrite He.
  - exact eight_entries_store.
  - done.
  - unfold in_store. change (key_store table) with keys. lia.
  - intros k Hk'. by destruct (Hno k).
  - exact (zeroed_inv _).
  - change (buckets_ext table) with (ext_buckets params). unfold ext_buckets. destruct (wants_ext params); [|apply no_ext_buckets].
    exact (no_chains _ _ _ zeroed_shape).
  - apply no_ext_placed.
  - by intros k [].
  - done.
  - change (free_slots table) with r. rewrite Hc. split; [apply NoDup_seqZ|].
    intros k Hin%elem_of_seqZ. unfold in_store. change (key_store table) with keys. rewrite Hl. split; [lia|]. split; [lia|apply Hno].
  - change (ext_table_support table) with (wants_ext params). change (buckets_ext table) with (ext_buckets params).
    change (free_ext_bkts table) with r_ext. unfold ext_buckets. destruct (wants_ext params); [|done].
    destruct Hrx as (Hwx & Hpx & Hcx); [done|]. rewrite Hcx. split; [done|]. split; [done|]. apply zeroed_spare.
Qed.

Lemma eight_entries_represents : represents hash_func dummy table (Idx ∅ (seqZ 1 8) (ext_count params)).
Proof.
  destruct Hkeys as [Hl Hb], Hr as (Hw & Hp & Hc). split; [| | | | |done].
  - exists (empty_layout 0). split; [exact eight_entries_ok|]. split; [|done].
    intros k. split; [by intros [[]|[]]|]. by intros (key & d & E).
  - exact Hk.
  - exact Hc.
  - change (ext_left table) with (if wants_ext params then Some (contents 4 r_ext) else None). unfold ext_count. cbn [ix_ext].
    destruct (wants_ext params); [|done]. destruct Hrx as (_ & _ & ->); done.
  - change (entry_at table 0) with (keys !!! 0%nat). rewrite Hdummy. unfold prefix8. apply take_ge.
    rewrite <- Hdummy. destruct keys as [|k0 ks]; [done|]. cbn. rewrite (Hb k0) by left. lia.
Qed.
End EightEntries.

(** Were the lock not taken through a null pointer, then a table created for eight entries of
    eight-byte keys, its buckets zeroed and every allocation successful, would be an empty map with the indices from 1 to 8 free and, if extendable buckets were asked for, one of
    them: a history of at most eight insertions runs to completion, each of them a step of
    the map. *)
Theorem created_table_is_map hash_list fuel g l F name params custom_hash r r_ext mem te h keys hash_func ops :
  hreg_inv hash_list g l F -> (length l <= fuel)%nat -> ~ has_name g l name ->
  hp_entries params = 8 -> hp_key_len params = 8 ->
  setup_memory g params r r_ext mem te h zeroed_bucket (ext_buckets params) keys ->
  length keys = 9%nat -> (forall e, e ∈ keys -> length (k_key e) = 8%nat) ->
  Forall (fun op => key_ok (k_key (keys !!! 0%nat)) (fst op)) ops -> (length ops <= 8)%nat ->
  exists g' c h' rs I',
    create_locked hash_list fuel g name params custom_hash r r_ext mem = Ret (g', h) /\ hg_tables g' !! h = Some c /\
    run_adds 2 hash_func (cr_table c) ops = Ret (h', rs) /\
    add_steps (Idx ∅ (seqZ 1 8) (ext_count params)) ops rs I' /\ represents hash_func (k_key (keys !!! 0%nat)) h' I'.
Proof.
  intros Hinv Hf Hno He Hk Hmem Hl Hb Hops Hn.
  assert (Hent8 : 8 <= hp_entries params < 2 ^ 31) by lia.
  destruct (create_locked_run _ _ _ _ _ _ _ custom_hash _ _ _ _ _ _ _ _ Hinv Hf Hent8 Hmem Hno) as (g' & r' & r_ext' & E & Et & _ & Hr & Hrx).
  rewrite He in Hr. assert (En : num_buckets params = 1) by (unfold num_buckets; by rewrite He). rewrite En in Hrx.
  pose proof (eight_entries_represents name params custom_hash keys r' r_ext' hash_func _ He Hk (conj Hl Hb) eq_refl Hr Hrx) as Hrep0.
  destruct (run_adds_steps 1 hash_func _ _ _ ops Hrep0) as (h' & rs & I' & Ea & Hs & Hrep); [|exact Hops|cbn [ix_free]; by rewrite length_seqZ|].
  { cbn [setup_table cr_table buckets_ext]. unfold ext_buckets. destruct (wants_ext params); cbn; lia. }
  eexists g', _, h', rs, I'. split; [exact E|]. split; [rewrite Et; apply lookup_insert_eq|]. done.
Qed.

(** C39: the code that sets up a table - after the lock that it takes through a null pointer - allocates room for one bucket whatever the number of buckets it computes:
    with more than eight entries, an insertion whose hash selects another bucket, as the hash
    1 always does, reads outside the allocation. *)
Theorem created_table_overruns hash_list fuel g l F name params custom_hash r r_ext mem te h bucket bkts_ext keys :
  hreg_inv hash_list g l F -> (length l <= fuel)%nat -> 8 < hp_entries params < 2 ^ 31 ->
  setup_memory g params r r_ext mem te h bucket bkts_ext keys -> ~ has_name g l name ->
  exists g' c,
    create_locked hash_list fuel g name params custom_hash r r_ext mem = Ret (g', h) /\ hg_tables g' !! h = Some c /\
    get_prim_bucket_index (cr_table c) 1 = 1 /\
    forall key sig data, 0 <= sig -> get_prim_bucket_index (cr_table c) sig <> 0 ->
      __rte_hash_add_key_with_hash (S fuel) (cr_table c) key sig data = Undef.
Proof.
  intros Hinv Hf Hent Hmem Hno.
  assert (Hent8 : 8 <= hp_entries params < 2 ^ 31) by lia.
  destruct (create_locked_run _ _ _ _ _ _ _ custom_hash _ _ _ _ _ _ _ _ Hinv Hf Hent8 Hmem Hno) as (g' & r' & r_ext' & E & Et & _ & _).
  set (c := setup_table name params custom_hash bucket bkts_ext keys r' r_ext' 0 0) in *.
  exists g', c. split; [exact E|]. split; [rewrite Et; apply lookup_insert_eq|].
  destruct (buckets_mask params) as (k & Hk & Em); [lia|].
  assert (Hm : bucket_bitmask (cr_table c) = 2 ^ k - 1) by exact Em.
  assert (H2 : 2 ^ k = 2 * 2 ^ (k - 1)) by (rewrite <- Z.pow_succ_r by lia; f_equal; lia).
  assert (0 < 2 ^ (k - 1)) by (apply Z.pow_pos_nonneg; lia). split.
  - unfold get_prim_bucket_index. rewrite Hm. replace (2 ^ k - 1) with (Z.ones k) by (rewrite Z.ones_equiv; lia).
    rewrite Z.land_ones by lia. rewrite Z.mod_small; lia.
  - intros key sig data Hsig Hp. set (p := get_prim_bucket_index (cr_table c) sig) in *.
    assert (0 <= p) by (apply Z.land_nonneg; by left).
    assert (El : __hash_rw_writer_lock (S fuel) (cr_table c) = Ret (set_lock (if writer_takes_lock (cr_table c) then -1 else h_lock (cr_table c)) (cr_table c))).
    { unfold __hash_rw_writer_lock. change (h_lock (cr_table c)) with 0. rewrite write_lock_free.
      destruct (writer_takes_lock (cr_table c)); [by destruct (hw_trans_mem_support _)|done]. }
    unfold __rte_hash_add_key_with_hash. fold p. rewrite El. cbn [mbind outcome_bind].
    unfold search_both, search_and_update, N_ENTRIES. change (Z.to_nat RTE_HASH_BUCKET_ENTRIES) with 8%nat. cbn [for_entries].
    assert (Eg : forall x, get_sig (set_lock x (cr_table c)) (Main p) 0 = Undef); [|by rewrite Eg].
    intros x. unfold get_sig, get_bkt. change (buckets (set_lock x (cr_table c))) with [bucket].
    unfold rd. rewrite (proj2 (Z.leb_le 0 p)) by done. by rewrite (lookup_ge_None_2 [bucket]) by (cbn; lia).
Qed.

(** ** Witnesses: the list of tables at 1000, empty; a table of eight entries, one of sixteen *)

Definition no_tables : hash_registry := HReg (list_to_map (chain 0 true true 1000 [])) ∅ ∅.
Definition new_ids : rte_ring := Ring "HT_flows" 0 None 32 31 31 zero_headtail zero_headtail (replicate 32 0).
Definition new_memory : hash_memory :=
  HMem (Some (3000, (7, 7))) (Some 4096) (Some zeroed_bucket) (Some [zeroed_bucket]) (Some []) (Some (replicate 9 (HKey 0 (repeat 0 8))))
    (Some 5) (Some 5) (Some 5).
Definition eight_entries (flags : Z) : rte_hash_parameters := HParams 8 8 0 0 flags.
Definition demo_adds : list (list Z * Z) := [([9; 2; 3; 4; 5; 6; 7; 8], 55); ([4; 2; 3; 4; 5; 6; 7; 8], 66); ([9; 2; 3; 4; 5; 6; 7; 8], 77)].

Lemma no_tables_inv : hreg_inv 1000 no_tables [] [].
Proof.
  split.
  - split; apply (bool_decide_unpack _); by vm_compute.
  - by constructor.
  - by intros te a Hin%elem_of_nil.
  - by intros te a Hin%elem_of_nil.
Qed.

Lemma no_tables_name : ~ has_name no_tables [] "flows".
Proof. by intros (te & a & c & Hin%elem_of_nil & _). Qed.

Lemma new_ids_empty n : n <= 31 -> empty_ring new_ids n.
Proof.
  intros Hn. split; [|split; [split; cbn; congruence|split; [reflexivity|exact Hn]]].
  split; [split|..]; try (by vm_compute); try (vm_compute; intuition congruence); exists 5; split; [lia|reflexivity].
Qed.

Lemma new_setup params : hp_entries params <= 31 -> num_buckets params <= 31 ->
  setup_memory no_tables params new_ids new_ids new_memory 3000 4096 zeroed_bucket
    (ext_buckets params) (replicate 9 (HKey 0 (repeat 0 8))).
Proof.
  intros H1 H2. split; try reflexivity.
  - by exists 7, 7.
  - done.
  - done.
  - unfold ext_buckets. destruct (wants_ext params); [split; [done|by eexists]|done].
  - split_and!; by eexists.
  - by apply new_ids_empty.
  - intros _. by apply new_ids_empty.
Qed.

Lemma create_sets_up_witness :
  exists g' r' r_ext', create_locked 1000 0 no_tables "flows" (eight_entries 8) false new_ids new_ids new_memory = Ret (g', 4096) /\
    hreg_inv 1000 g' [(3000, 4096)] [] /\ has_name g' [(3000, 4096)] "flows" /\
    contents 4 r' = [1; 2; 3; 4; 5; 6; 7; 8] /\ contents 4 r_ext' = [1].
Proof.
  destruct (create_sets_up 1000 0 no_tables [] [] "flows" (eight_entries 8) false new_ids new_ids new_memory 3000 4096
    zeroed_bucket _ _ no_tables_inv (le_n 0) ltac:(cbn; lia) (new_setup (eight_entries 8) ltac:(cbn; lia) ltac:(vm_compute; congruence)) no_tables_name)
    as (g' & r' & r_ext' & E & _ & Hi & Hn & (_ & _ & H1) & H2).
  exists g', r', r_ext'. split; [exact E|]. split; [exact Hi|]. split; [exact Hn|]. split; [exact H1|apply (H2 eq_refl)].
Defined.

Lemma create_errors_undefined_witness :
  create_locked 1000 0 no_tables "flows" (eight_entries 0) false new_ids new_ids
    (HMem (Some (3000, (7, 7))) (Some 4096) None None None None None None None) = Undef.
Proof.
  apply (create_errors_undefined 1000 0 no_tables [] []).
  - exact no_tables_inv.
  - exact (le_n 0).
  - cbn; lia.
  - discriminate.
  - right; right; right; left. reflexivity.
Defined.

Lemma created_table_is_map_witness :
  exists g' c h' rs I',
    create_locked 1000 0 no_tables "flows" (eight_entries 12) true new_ids new_ids new_memory = Ret (g', 4096) /\ hg_tables g' !! 4096 = Some c /\
    run_adds 2 (fun key _ _ => hd 0 key * 65537) (cr_table c) demo_adds = Ret (h', rs) /\ add_steps (Idx ∅ (seqZ 1 8) (Some 1%nat)) demo_adds rs I'.
Proof.
  destruct (created_table_is_map 1000 0 no_tables [] [] "flows" (eight_entries 12) true new_ids new_ids new_memory 3000 4096
    _ (fun key _ _ => hd 0 key * 65537) demo_adds no_tables_inv (le_n 0) no_tables_name eq_refl eq_refl
    (new_setup (eight_entries 12) ltac:(cbn; lia) ltac:(vm_compute; congruence)) eq_refl)
    as (g' & c & h' & rs & I' & E & Hc & Ea & Hs & _).
  - intros e Hin. apply elem_of_replicate in Hin as [-> _]. reflexivity.
  - repeat constructor; cbn; congruence.
  - cbn; lia.
  - exists g', c, h', rs, I'. split; [exact E|]. split; [exact Hc|]. split; [exact Ea|exact Hs].
Defined.

Lemma created_table_overruns_witness :
  exists g' c, create_locked 1000 0 no_tables "flows" (HParams 16 8 0 0 0) false new_ids new_ids new_memory = Ret (g', 4096) /\
    hg_tables g' !! 4096 = Some c /\ __rte_hash_add_key_with_hash 1 (cr_table c) [1; 2; 3; 4; 5; 6; 7; 8] 1 55 = Undef.
Proof.
  destruct (created_table_overruns 1000 0 no_tables [] [] "flows" (HParams 16 8 0 0 0) false new_ids new_ids new_memory 3000 4096
    zeroed_bucket _ _ no_tables_inv (le_n 0) ltac:(cbn; lia) (new_setup (HParams 16 8 0 0 0) ltac:(cbn; lia) ltac:(vm_compute; congruence)) no_tables_name)
    as (g' & c & E & Hc & H1 & Hadd).
  exists g', c. split; [exact E|]. split; [exact Hc|]. apply Hadd; [lia|]. rewrite H1. discriminate.
Defined.
