(* ===== verification/Tailqs.v ===== *)
(** * [eal_common_tailqs.c]: the registry of tail queues

    Libraries register, at start-up, an element with the name of a tail queue; the elements hang
    in a tail queue of their own. [rte_eal_tailqs_init] gives each a head in the shared
    configuration. Where that array is, and whether the process is the primary one, is code
    outside the repository and a parameter. *)

From S2P Require Import Prelude Store SysQueue SysQueueSpec RingCore RingSpec RingReg.
From stdpp Require Import strings.

Open Scope Z_scope.

(** ** Definitions *)

(* rte_lib/include/rte_config.h:38-38 RTE_MAX_TAILQ *)
Definition RTE_MAX_TAILQ : Z := 32.
(* rte_lib/include/rte_tailq.h:43-43 RTE_TAILQ_NAMESIZE *)
Definition RTE_TAILQ_NAMESIZE : Z := 32.

(** The links of the local list and of the heads; the fields [name] and [head] of the registered
    elements; the names in [mcfg->tailq_head]; and [rte_tailqs_count]. *)
(* rte_lib/include/rte_tailq.h:53-66 rte_tailq_elem *)
Record tailqs := Tailqs {
  tq_mem : store;
  tq_name : gmap Z string;
  tq_head : gmap Z Z;
  tq_mcfg : list string;
  tq_count : Z;
}.
Definition set_tq_mem (m : store) (q : tailqs) : tailqs := Tailqs m (tq_name q) (tq_head q) (tq_mcfg q) (tq_count q).
Definition set_tq_head (h : gmap Z Z) (q : tailqs) : tailqs := Tailqs (tq_mem q) (tq_name q) h (tq_mcfg q) (tq_count q).
Definition set_tq_count (c : Z) (q : tailqs) : tailqs := Tailqs (tq_mem q) (tq_name q) (tq_head q) (tq_mcfg q) c.

Definition elem_name (q : tailqs) (t : Z) : outcome string :=
  match tq_name q !! t with Some n => Ret n | None => Undef end.
Definition elem_head (q : tailqs) (t : Z) : outcome Z :=
  match tq_head q !! t with Some h => Ret h | None => Undef end.

Section Tailqs.
(** [&rte_tailq_elem_head], [mcfg->tailq_head], whether this is the primary process, and the
    bound on the walks of the local list. *)
Context (local_list heads : Z) (primary : bool) (fuel : nat).

(** [&mcfg->tailq_head[i]], a structure of 48 bytes; the field [next] of an element is at 8. *)
Definition head_at (i : Z) : Z := heads + 48 * i.
Abbreviation field := 8.

(** The loop over the names from index [i] on. *)
(* rte_lib/include/eal_common_tailqs.c:48-52 rte_eal_tailq_lookup *)
Fixpoint lookup_from (i : Z) (ns : list string) (name : string) : Z :=
  match ns with
  | [] => NULL
  | n :: ns => if strneq (Z.to_nat (RTE_TAILQ_NAMESIZE - 1)) name n then head_at i else lookup_from (i + 1) ns name
  end.
(* rte_lib/include/eal_common_tailqs.c:39-55 rte_eal_tailq_lookup *)
Definition rte_eal_tailq_lookup (q : tailqs) (name : option string) : Z :=
  match name with
  | None => NULL
  | Some name => lookup_from 0 (take (Z.to_nat RTE_MAX_TAILQ) (tq_mcfg q)) name
  end.

(* rte_lib/include/eal_common_tailqs.c:76-93 rte_eal_tailq_create *)
Definition rte_eal_tailq_create (q : tailqs) (name : string) : outcome (tailqs * Z) :=
  if (rte_eal_tailq_lookup q (Some name) =? NULL) && (tq_count q + 1 <? RTE_MAX_TAILQ) then
    let head := head_at (tq_count q) in
    ns ← wr (tq_mcfg q) (tq_count q) (fst (rte_strlcpy name (RTE_TAILQ_NAMESIZE - 1)));
    m ← TAILQ_INIT (tq_mem q) head;
    Ret (Tailqs m (tq_name q) (tq_head q) ns (tq_count q + 1), head)
  else Ret (q, NULL).

(* rte_lib/include/eal_common_tailqs.c:97-109 rte_eal_tailq_local_register *)
Definition rte_eal_tailq_local_register (q : tailqs) (t : Z) : outcome (tailqs * Z) :=
  name ← elem_name q t;
  '(_, _, temp) ← TAILQ_FOREACH field (fun s m temp =>
      n ← elem_name q temp; Ret (strneq (Z.to_nat RTE_TAILQ_NAMESIZE) name n, s, m)) fuel tt (tq_mem q) local_list;
  if negb (temp =? NULL) then Ret (q, -1)
  else m ← TAILQ_INSERT_TAIL field (tq_mem q) local_list t; Ret (set_tq_mem m q, 0).

(* rte_lib/include/eal_common_tailqs.c:111-120 rte_eal_tailq_update *)
Definition rte_eal_tailq_update (q : tailqs) (t : Z) : outcome tailqs :=
  name ← elem_name q t;
  if primary then
    '(q, h) ← rte_eal_tailq_create q name;
    Ret (set_tq_head (<[t := h]> (tq_head q)) q)
  else Ret (set_tq_head (<[t := rte_eal_tailq_lookup q (Some name)]> (tq_head q)) q).

(* rte_lib/include/eal_common_tailqs.c:122-149 rte_eal_tailq_register *)
Definition rte_eal_tailq_register (q : tailqs) (t : Z) : outcome (tailqs * Z) :=
  let error (q : tailqs) := (set_tq_head (<[t := NULL]> (tq_head q)) q, -1) in
  '(q, rc) ← rte_eal_tailq_local_register q t;
  if rc <? 0 then Ret (error q)
  else if tq_count q >=? 0 then
    q ← rte_eal_tailq_update q t;
    h ← elem_head q t;
    if h =? NULL then
      m ← TAILQ_REMOVE field (tq_mem q) local_list t;
      Ret (error (set_tq_mem m q))
    else Ret (q, 0)
  else Ret (q, 0).

(** The constructor that registers [t] before [main]; [None]: [rte_panic] ends the process. *)
(* rte_lib/include/rte_tailq.h:134-139 EAL_REGISTER_TAILQ *)
Definition EAL_REGISTER_TAILQ (q : tailqs) (t : Z) : outcome (option tailqs) :=
  '(q, rc) ← rte_eal_tailq_register q t;
  Ret (if rc <? 0 then None else Some q).

(** The loop's state is the registry without its links, and whether it failed. *)
(* rte_lib/include/eal_common_tailqs.c:151-175 rte_eal_tailqs_init *)
Definition rte_eal_tailqs_init (q : tailqs) : outcome (tailqs * Z) :=
  let q := set_tq_count 0 q in
  '(q, m, t) ← TAILQ_FOREACH field (fun q m t =>
      q ← rte_eal_tailq_update (set_tq_mem m q) t;
      h ← elem_head q t;
      Ret (h =? NULL, q, tq_mem q)) fuel q (tq_mem q) local_list;
  Ret (set_tq_mem m q, if t =? NULL then 0 else -1).
End Tailqs.

(** ** Names *)

Lemma strneq_refl n a : strneq n a a = true.
Proof. by apply bool_decide_eq_true. Qed.

Lemma substring_length n s : (String.length (String.substring 0 n s) = Nat.min n (String.length s))%nat.
Proof. revert n; induction s as [|c s IH]; intros [|n]; cbn; [done..|]. by rewrite IH. Qed.

(** Names that fit are compared whole. *)
Lemma strneq_short n a b : (String.length a <= n)%nat -> (String.length b <= n)%nat -> strneq n a b = bool_decide (a = b).
Proof. intros Ha Hb. unfold strneq. by rewrite !substring_all. Qed.

Section Lookup.
Context (heads : Z).

Lemma lookup_from_none i ns name : (forall n, n ∈ ns -> strneq 31 name n = false) -> lookup_from heads i ns name = NULL.
Proof.
  revert i. induction ns as [|n ns IH]; intros i H; [done|]. cbn [lookup_from].
  change (Z.to_nat (RTE_TAILQ_NAMESIZE - 1)) with 31%nat. rewrite H by left. apply IH. intros n' Hn'. apply H. by right.
Qed.

Lemma lookup_from_first i a n b name : (forall n, n ∈ a -> strneq 31 name n = false) -> strneq 31 name n = true ->
  lookup_from heads i (a ++ n :: b) name = head_at heads (i + Z.of_nat (length a)).
Proof.
  revert i. induction a as [|n' a IH]; intros i H Hn; cbn [app lookup_from length];
    change (Z.to_nat (RTE_TAILQ_NAMESIZE - 1)) with 31%nat.
  - rewrite Hn. f_equal. lia.
  - rewrite H by left. rewrite IH; [f_equal; lia| |done]. intros n'' Hn''. apply H. by right.
Qed.
End Lookup.

(** ** Creation *)

Lemma create_run heads q name (k : nat) : length (tq_mcfg q) = 32%nat -> tq_count q = Z.of_nat k -> (k < 31)%nat ->
  (forall n, n ∈ tq_mcfg q -> strneq 31 name n = false) ->
  rte_eal_tailq_create heads q name =
  (m ← TAILQ_INIT (tq_mem q) (head_at heads (Z.of_nat k));
   Ret (Tailqs m (tq_name q) (tq_head q) (<[k := String.substring 0 30 name]> (tq_mcfg q)) (Z.of_nat k + 1), head_at heads (Z.of_nat k))).
Proof.
  intros Hl Hc Hk Hn. unfold rte_eal_tailq_create, rte_eal_tailq_lookup. change (Z.to_nat RTE_MAX_TAILQ) with 32%nat.
  rewrite take_ge, lookup_from_none by (done || lia). rewrite Hc, (proj2 (Z.ltb_lt _ _)) by (unfold RTE_MAX_TAILQ; lia).
  cbn [NULL Z.eqb andb]. rewrite wr_Ret by lia. rewrite Nat2Z.id. done.
Qed.

(** The names and the number of tail queues that [rte_eal_tailq_create] takes: after a successful
    creation a lookup finds the queue if its name has at most 30 characters, but finds nothing
    if it has 31, which the 32 bytes of the field would hold - the copy is given one byte less
    and the comparison is over 31; and the last of the 32 heads is never given out. *)
Theorem tailq_create_limits heads q name (k : nat) m :
  length (tq_mcfg q) = 32%nat -> tq_count q = Z.of_nat k -> (forall n, n ∈ tq_mcfg q -> strneq 31 name n = false) ->
  TAILQ_INIT (tq_mem q) (head_at heads (Z.of_nat k)) = Ret m ->
  ((k < 31)%nat -> exists q', rte_eal_tailq_create heads q name = Ret (q', head_at heads (Z.of_nat k)) /\
     ((String.length name <= 30)%nat -> rte_eal_tailq_lookup heads q' (Some name) = head_at heads (Z.of_nat k)) /\
     (String.length name = 31%nat -> rte_eal_tailq_lookup heads q' (Some name) = NULL)) /\
  (k = 31%nat -> rte_eal_tailq_create heads q name = Ret (q, NULL)).
Proof.
  intros Hl Hc Hn Hm. split.
  - intros Hk. rewrite (create_run heads q name k Hl Hc Hk Hn), Hm. eexists. split; [done|].
    unfold rte_eal_tailq_lookup. cbn [tq_mcfg]. change (Z.to_nat RTE_MAX_TAILQ) with 32%nat. rewrite take_ge by (rewrite length_insert; lia).
    split; intros Hlen.
    + rewrite insert_take_drop by lia. rewrite lookup_from_first.
      * f_equal. rewrite length_take. lia.
      * intros n Hin. apply Hn. by apply elem_of_take in Hin as (j & ? & _); eapply list_elem_of_lookup_2.
      * rewrite (substring_all name 30) by lia. apply strneq_refl.
    + apply lookup_from_none. intros n [j Hj]%list_elem_of_lookup. destruct (decide (j = k)) as [->|Hne].
      * rewrite list_lookup_insert_eq in Hj by lia. injection Hj as <-. apply bool_decide_eq_false. intros E.
        apply (f_equal String.length) in E. rewrite !substring_length in E. lia.
      * rewrite list_lookup_insert_ne in Hj by done. apply Hn. by eapply list_elem_of_lookup_2.
  - intros ->. unfold rte_eal_tailq_create. rewrite Hc. cbn. by rewrite andb_false_r.
Qed.

(** ** Initialisation *)

Section Init.
Context (local_list heads : Z).

(** The words of the 31 heads that can be given out: head [i] holds [c i]. *)
Definition head_cells (c : Z -> Z * Z) (ids : list Z) : list cell :=
  flat_map (fun i => [(head_at heads i, (c i).1); (w2 (head_at heads i), (c i).2)]) ids.
Definition set_head (c : Z -> Z * Z) (k v w : Z) : Z -> Z * Z := fun i => if decide (i = k) then (v, w) else c i.

Lemma head_cells_same c k v w ids : k ∉ ids -> head_cells (set_head c k v w) ids = head_cells c ids.
Proof.
  intros H. induction ids as [|i ids IH]; [done|]. apply not_elem_of_cons in H as [Hne H]. cbn [head_cells flat_map].
  f_equal; [|by apply IH]. unfold set_head. by rewrite decide_False.
Qed.

(** Initialising one of them. *)
Lemma init_head m c k cs : 0 <= k < 31 -> holds m (head_cells c (seqZ 0 31) ++ cs) ->
  exists m', TAILQ_INIT m (head_at heads k) = Ret m' /\
    holds m' (head_cells (set_head c k NULL (head_at heads k)) (seqZ 0 31) ++ cs).
Proof.
  intros Hk H. assert (Es : exists a b, seqZ 0 31 = a ++ (k :: b) /\ (k ∉ a) /\ (k ∉ b)).
  { destruct (list_elem_of_split (seqZ 0 31) k) as (a & b & E); [apply elem_of_seqZ; lia|]. exists a, b. split; [done|].
    pose proof (NoDup_seqZ 0 31) as Hn. rewrite E in Hn. apply NoDup_app in Hn as (_ & H1 & [H2 _]%NoDup_cons).
    split; [|done]. intros Hin. apply (H1 k Hin). left. }
  destruct Es as (a & b & Es & Ha & Hb). rewrite Es in H |- *. unfold head_cells in *. rewrite !flat_map_app in *. cbn [flat_map] in *.
  fold (head_cells c a) (head_cells c b) in H.
  set (c' := set_head c k NULL (head_at heads k)) in *. fold (head_cells c' a) (head_cells c' b). unfold c'.
  rewrite !head_cells_same by done. unfold set_head. rewrite decide_True by done. cbn [fst snd].
  destruct (TAILQ_INIT_spec 0 m (head_at heads k) (c k).1 (c k).2 (head_cells c a ++ head_cells c b ++ cs)) as (m' & E & H').
  { revert H. apply holds_perm. cbn [app]. solve_Permutation. }
  exists m'. split; [done|]. revert H'. apply holds_perm. unfold chain. cbn [seg tail_of app]. solve_Permutation.
Qed.

(** The configuration after [k] creations: their names, then empty ones. *)
Definition mcfg_of (ns : list string) : list string := ns ++ replicate (32 - length ns) "".

Lemma insert_mcfg ns n : (length ns < 32)%nat -> <[length ns := n]> (mcfg_of ns) = mcfg_of (ns ++ [n]).
Proof.
  intros H. unfold mcfg_of. rewrite length_app. cbn [length]. rewrite <- (Nat.add_0_r (length ns)) at 1. rewrite insert_app_r.
  destruct (32 - length ns)%nat as [|j] eqn:E; [lia|]. cbn [replicate]. rewrite <- app_assoc. cbn. do 3 f_equal. lia.
Qed.

(** Names that the array can hold, different from each other and not empty. *)
Definition good_names (ns : list string) : Prop :=
  NoDup ns /\ Forall (fun n => n <> "" /\ (String.length n <= 30)%nat) ns /\ (length ns <= 31)%nat.

Lemma new_name (ns : list string) n rest : good_names (ns ++ n :: rest) -> forall n', n' ∈ mcfg_of ns -> strneq 31 n n' = false.
Proof.
  intros (Hn & Hf & _) n' Hin. rewrite Forall_app, Forall_cons in Hf. destruct Hf as (Hns & [Hne Hlen] & _).
  unfold mcfg_of in Hin. apply elem_of_app in Hin as [Hin|[-> _]%elem_of_replicate].
  - rewrite Forall_forall in Hns. rewrite strneq_short; [|lia|specialize (Hns n' Hin); lia].
    apply bool_decide_eq_false. intros <-. apply NoDup_app in Hn as (_ & H & _). apply (H n Hin). left.
  - rewrite strneq_short by (cbn; lia). by apply bool_decide_eq_false.
Qed.

(** The registry in the middle of the loop: the elements of [done] have their heads. *)
Record init_inv (q : tailqs) (nm : Z -> string) (done todo : list Z) (c : Z -> Z * Z) (F : list cell) : Prop := {
  ii_links : holds (tq_mem q) (chain 8 true true local_list (done ++ todo) ++ head_cells c (seqZ 0 31) ++ F);
  ii_names : forall t, t ∈ done ++ todo -> tq_name q !! t = Some (nm t);
  ii_mcfg : tq_mcfg q = mcfg_of (nm <$> done);
  ii_count : tq_count q = Z.of_nat (length done);
  ii_heads : forall i t, done !! i = Some t -> tq_head q !! t = Some (head_at heads (Z.of_nat i));
  ii_empty : forall i, (i < length done)%nat -> c (Z.of_nat i) = (NULL, head_at heads (Z.of_nat i));
}.

Lemma update_step q nm done t todo c F : init_inv q nm done (t :: todo) c F -> good_names (nm <$> done ++ t :: todo) ->
  exists q' c', rte_eal_tailq_update heads true q t = Ret q' /\ init_inv q' nm (done ++ [t]) todo c' F.
Proof.
  intros [Hl Hn Hm Hc Hh He] Hg. set (k := length done) in *.
  pose proof Hg as (_ & _ & Hlen). rewrite length_fmap, length_app in Hlen. cbn [length] in Hlen.
  rewrite fmap_app in Hg. cbn [fmap list_fmap] in Hg.
  unfold rte_eal_tailq_update, elem_name. rewrite (Hn t) by (apply elem_of_app; right; left). cbn [mbind outcome_bind].
  rewrite (create_run heads q (nm t) k); [|rewrite Hm; unfold mcfg_of; rewrite length_app, length_replicate, length_fmap; lia|done|lia|].
  2: { rewrite Hm. intros n Hin. by apply (new_name _ _ _ Hg). }
  assert (Hl' : holds (tq_mem q) (head_cells c (seqZ 0 31) ++ chain 8 true true local_list (done ++ t :: todo) ++ F)).
  { revert Hl. apply holds_perm, Permutation_app_swap_app. }
  destruct (init_head _ c (Z.of_nat k) _ ltac:(lia) Hl') as (m' & -> & Hl1). cbn [mbind outcome_bind].
  assert (Ht : t ∉ done).
  { pose proof (chain_NoDup 8 true true _ _ _ _ Hl) as Hnd. apply NoDup_app in Hnd as (_ & H & _). intros Hin. apply (H t Hin). left. }
  eexists _, (set_head c (Z.of_nat k) NULL (head_at heads (Z.of_nat k))). split; [done|].
  split; cbn [set_tq_head tq_mem tq_name tq_head tq_mcfg tq_count].
  - rewrite <- app_assoc. revert Hl1. apply holds_perm. cbn [app]. apply Permutation_app_swap_app.
  - intros t' Ht'. apply Hn. by rewrite <- app_assoc in Ht'.
  - destruct Hg as (_ & Hf & _). rewrite Forall_app, Forall_cons in Hf. destruct Hf as (_ & [_ Hlt] & _).
    rewrite (substring_all (nm t) 30), Hm, fmap_app by done. unfold k. rewrite <- (length_fmap nm done) at 1.
    rewrite insert_mcfg by (rewrite length_fmap; lia). done.
  - rewrite length_app. cbn. lia.
  - intros i t' [[Hi Ht']|[-> ->]]%lookup_snoc_Some; [|apply lookup_insert_eq].
    rewrite lookup_insert_ne; [by apply Hh|]. intros ->. apply Ht. by eapply list_elem_of_lookup_2.
  - intros i Hi. rewrite length_app in Hi. cbn in Hi. unfold set_head. destruct (decide (Z.of_nat i = Z.of_nat k)) as [->|Hne]; [done|].
    apply He. lia.
Qed.

Lemma init_loop nm ts F : nonnull ts -> good_names (nm <$> ts) -> 0 < heads ->
  forall todo done q c fuel, ts = done ++ todo -> (length todo <= fuel)%nat -> init_inv q nm done todo c F ->
  exists q' c', foreach (TAILQ_NEXT 8) (fun q m t =>
      q ← rte_eal_tailq_update heads true (set_tq_mem m q) t; h ← elem_head q t; Ret (h =? NULL, q, tq_mem q))
      fuel q (tq_mem q) (default NULL (head todo)) = Ret (q', tq_mem q', NULL) /\ init_inv q' nm ts [] c' F.
Proof.
  intros Hts Hg Hheads. induction todo as [|t todo IH]; intros done q c fuel E Hf Hi.
  { rewrite app_nil_r in E. subst ts. exists q, c. split; [|done]. by destruct fuel. }
  destruct fuel as [|fuel]; [cbn in Hf; lia|]. rewrite E in Hg, Hts.
  destruct (update_step q nm done t todo c F Hi Hg) as (q1 & c1 & E1 & Hi1).
  apply nonnull_app in Hts as [_ [Ht _]%nonnull_cons].
  cbn [head default id foreach]. rewrite (proj2 (Z.eqb_neq t NULL) Ht).
  assert (set_tq_mem (tq_mem q) q = q) as -> by by destruct q. rewrite E1. cbn [mbind outcome_bind].
  assert (elem_head q1 t = Ret (head_at heads (Z.of_nat (length done)))) as ->.
  { unfold elem_head. rewrite (ii_heads _ _ _ _ _ _ Hi1 (length done) t); [done|]. rewrite lookup_app_r, Nat.sub_diag by lia. done. }
  cbn [mbind outcome_bind]. rewrite (proj2 (Z.eqb_neq _ NULL)) by (unfold head_at, NULL; lia).
  pose proof (ii_links _ _ _ _ _ _ Hi1) as Hl. rewrite <- app_assoc in Hl. cbn [app] in Hl.
  rewrite (TAILQ_NEXT_spec 8 _ _ _ _ _ _ Hl). cbn [mbind outcome_bind].
  apply (IH (done ++ [t]) q1 c1 fuel); [by rewrite <- app_assoc|cbn in Hf; lia|done].
Qed.
End Init.

(** [rte_eal_tailqs_init], in a primary process with an empty configuration, gives every
    registered element a head of its own - the [i]-th registered the [i]-th of the array -
    initialised as an empty tail queue, which a lookup of the element's name finds; for up to 31
    elements with different names of 1 to 30 characters, in a loop of as many passes. *)
Theorem tailqs_init_assigns local_list heads fuel q nm ts c F :
  nonnull ts -> good_names (nm <$> ts) -> 0 < heads -> (length ts <= fuel)%nat ->
  holds (tq_mem q) (chain 8 true true local_list ts ++ head_cells heads c (seqZ 0 31) ++ F) ->
  (forall t, t ∈ ts -> tq_name q !! t = Some (nm t)) -> tq_mcfg q = replicate 32 "" ->
  exists q' c', rte_eal_tailqs_init local_list heads true fuel q = Ret (q', 0) /\
    holds (tq_mem q') (chain 8 true true local_list ts ++ head_cells heads c' (seqZ 0 31) ++ F) /\
    forall i t, ts !! i = Some t ->
      tq_head q' !! t = Some (head_at heads (Z.of_nat i)) /\
      c' (Z.of_nat i) = (NULL, head_at heads (Z.of_nat i)) /\
      rte_eal_tailq_lookup heads q' (Some (nm t)) = head_at heads (Z.of_nat i).
Proof.
  intros Hts Hg Hheads Hf Hl Hn Hm.
  destruct (init_loop local_list heads nm ts F Hts Hg Hheads ts [] (set_tq_count 0 q) c fuel eq_refl Hf) as (q' & c' & E & Hi).
  { split; cbn [set_tq_count tq_mem tq_name tq_mcfg tq_count tq_head app]; try done. intros i Hi. cbn in Hi. lia. }
  unfold rte_eal_tailqs_init, TAILQ_FOREACH, TAILQ_FIRST. cbn [set_tq_count tq_mem] in *. rewrite (chain_first _ _ _ _ _ _ _ Hl).
  cbn [mbind outcome_bind]. rewrite E. cbn [mbind outcome_bind].
  exists q', c'. destruct Hi as [Hl' Hn' Hm' Hc' Hh' He']. rewrite app_nil_r in Hl'.
  split; [by destruct q'|]. split; [done|]. intros i t Hi. split; [by apply Hh'|].
  assert (Hlt : (i < length ts)%nat) by by apply (lookup_lt_Some ts i t). split; [by apply He'|].
  unfold rte_eal_tailq_lookup. rewrite Hm'. pose proof Hg as (Hnd & _ & Hlen). rewrite length_fmap in Hlen.
  rewrite take_ge by (unfold mcfg_of; rewrite length_app, length_replicate, length_fmap; change (Z.to_nat RTE_MAX_TAILQ) with 32%nat; lia).
  rewrite <- (take_drop_middle ts i t Hi) in Hg |- *. unfold mcfg_of. rewrite fmap_app in Hg |- *. cbn [fmap list_fmap] in Hg |- *.
  rewrite <- app_assoc. cbn [app]. rewrite lookup_from_first; [|intros n Hin; apply (new_name _ _ _ Hg); apply elem_of_app; by left|apply strneq_refl].
  f_equal. rewrite length_fmap, length_take. lia.
Qed.

(** ** Witnesses: the ring library and one more, registered before the initialisation *)

Definition empty_config : list string := replicate 32 "".
Definition two_names (t : Z) : string := if t =? 2000 then "RTE_RING" else "RTE_HASH".
Definition two_elems : tailqs :=
  Tailqs (list_to_map (chain 8 true true 1000 [2000; 3000] ++ head_cells 4096 (fun _ => (0, 0)) (seqZ 0 31)))
    {[ 2000 := "RTE_RING"%string; 3000 := "RTE_HASH"%string ]} ∅ empty_config (-1).

Lemma tailqs_init_assigns_witness :
  exists q' c', rte_eal_tailqs_init 1000 4096 true 2 two_elems = Ret (q', 0) /\
    holds (tq_mem q') (chain 8 true true 1000 [2000; 3000] ++ head_cells 4096 c' (seqZ 0 31) ++ []) /\
    forall i t, [2000; 3000] !! i = Some t ->
      tq_head q' !! t = Some (head_at 4096 (Z.of_nat i)) /\ c' (Z.of_nat i) = (NULL, head_at 4096 (Z.of_nat i)) /\
      rte_eal_tailq_lookup 4096 q' (Some (two_names t)) = head_at 4096 (Z.of_nat i).
Proof.
  apply (tailqs_init_assigns 1000 4096 2 two_elems two_names
    [2000; 3000] (fun _ => (0, 0)) []).
  - by repeat constructor.
  - split; [apply (bool_decide_unpack _); by vm_compute|]. split; [|cbn; lia].
    repeat constructor; (discriminate || (cbn; lia)).
  - lia.
  - cbn. lia.
  - split; apply (bool_decide_unpack _); by vm_compute.
  - intros t Ht. apply elem_of_cons in Ht as [->|Ht]; [done|]. by apply list_elem_of_singleton in Ht as ->.
  - done.
Defined.

Definition no_elems : tailqs := Tailqs (list_to_map [(4096, 0); (4104, 0)]) ∅ ∅ empty_config 0.

Lemma tailq_create_limits_witness :
  exists q', rte_eal_tailq_create 4096 no_elems "abcdefghijklmnopqrstuvwxyzabcde" = Ret (q', 4096) /\
    rte_eal_tailq_lookup 4096 q' (Some "abcdefghijklmnopqrstuvwxyzabcde"%string) = NULL.
Proof.
  destruct (TAILQ_INIT (tq_mem no_elems) (head_at 4096 0)) as [m| |] eqn:E; [|by vm_compute in E..].
  destruct (tailq_create_limits 4096 no_elems "abcdefghijklmnopqrstuvwxyzabcde" 0 m) as [H _].
  - done.
  - done.
  - intros n Hn. by apply elem_of_replicate in Hn as [-> _].
  - exact E.
  - destruct (H ltac:(lia)) as (q' & E' & _ & E2). exists q'. split; [exact E'|]. apply E2. reflexivity.
Defined.
