(* ===== verification/Helpers.v ===== *)
(** * [rte_byteorder.h], [rte_reciprocal.h], [rte_time.h]: byte order, division by a constant, time

    The byte swaps are those of the byte lists of [Bytes]; division by a reciprocal is the
    quotient ([reciprocal_divides]), for the reciprocals of the paper the header refers to;
    the two versions of the high product agree ([mullhi_versions_agree]); and a time counter
    accounts for every cycle ([timecounter_accounts]). *)

From S2P Require Import Prelude Bytes.

Open Scope Z_scope.

(** ** Definitions *)

(** *** Byte order *)

(* rte_lib/include/generic/rte_byteorder.h:53-55 RTE_STATIC_BSWAP16 *)
Definition RTE_STATIC_BSWAP16 (v : Z) : Z :=
  u16 (Z.lor (Z.shiftl (Z.land (u16 v) 255) 8) (Z.shiftr (Z.land (u16 v) 65280) 8)).
(* rte_lib/include/generic/rte_byteorder.h:57-61 RTE_STATIC_BSWAP32 *)
Definition RTE_STATIC_BSWAP32 (v : Z) : Z :=
  u32 (Z.lor (Z.lor (Z.lor
    (Z.shiftl (Z.land (u32 v) 255) 24)
    (Z.shiftl (Z.land (u32 v) 65280) 8))
    (Z.shiftr (Z.land (u32 v) 16711680) 8))
    (Z.shiftr (Z.land (u32 v) 4278190080) 24)).
(* rte_lib/include/generic/rte_byteorder.h:63-71 RTE_STATIC_BSWAP64 *)
Definition RTE_STATIC_BSWAP64 (v : Z) : Z :=
  u64 (Z.lor (Z.lor (Z.lor (Z.lor (Z.lor (Z.lor (Z.lor
    (Z.shiftl (Z.land (u64 v) 255) 56)
    (Z.shiftl (Z.land (u64 v) 65280) 40))
    (Z.shiftl (Z.land (u64 v) 16711680) 24))
    (Z.shiftl (Z.land (u64 v) 4278190080) 8))
    (Z.shiftr (Z.land (u64 v) 1095216660480) 8))
    (Z.shiftr (Z.land (u64 v) 280375465082880) 24))
    (Z.shiftr (Z.land (u64 v) 71776119061217280) 40))
    (Z.shiftr (Z.land (u64 v) 18374686479671623680) 56)).
(* rte_lib/include/generic/rte_byteorder.h:123-127 rte_constant_bswap16 *)
Definition rte_constant_bswap16 (x : Z) : Z := RTE_STATIC_BSWAP16 x.
(* rte_lib/include/generic/rte_byteorder.h:135-139 rte_constant_bswap32 *)
Definition rte_constant_bswap32 (x : Z) : Z := RTE_STATIC_BSWAP32 x.
(* rte_lib/include/generic/rte_byteorder.h:147-151 rte_constant_bswap64 *)
Definition rte_constant_bswap64 (x : Z) : Z := RTE_STATIC_BSWAP64 x.

(** *** Reciprocals *)

(** Both structures: the multiplier and the shifts, 32 and 64 bits wide. *)
(* rte_lib/include/rte_reciprocal.h:36-44 rte_reciprocal *)
Record rte_reciprocal := Reciprocal { rec_m : Z; rec_sh1 : Z; rec_sh2 : Z }.

(* rte_lib/include/rte_reciprocal.h:46-51 rte_reciprocal_divide *)
Definition rte_reciprocal_divide (a : Z) (R : rte_reciprocal) : Z :=
  let t := u32 (Z.shiftr (u64 (a * rec_m R)) 32) in
  Z.shiftr (u32 (t + Z.shiftr (u32 (a - t)) (rec_sh1 R))) (rec_sh2 R).

(** With 128-bit integers, and without. *)
(* rte_lib/include/rte_reciprocal.h:53-60 mullhi_u64 *)
Definition mullhi_u64 (x y : Z) : Z :=
  let xl := x in
  let rl := (xl * y) mod 2 ^ 128 in
  u64 (Z.shiftr rl 64).
(* rte_lib/include/rte_reciprocal.h:61-83 mullhi_u64 *)
Definition mullhi_u64_portable (x y : Z) : Z :=
  let u1 := Z.shiftr x 32 in
  let u0 := Z.land x 4294967295 in
  let v1 := Z.shiftr y 32 in
  let v0 := Z.land y 4294967295 in
  let t := u64 (u0 * v0) in
  let k := Z.shiftr t 32 in
  let t := u64 (u64 (u1 * v0) + k) in
  let w1 := Z.land t 4294967295 in
  let w2 := Z.shiftr t 32 in
  let t := u64 (u64 (u0 * v1) + w1) in
  let k := Z.shiftr t 32 in
  u64 (u64 (u64 (u1 * v1) + w2) + k).

(* rte_lib/include/rte_reciprocal.h:85-91 rte_reciprocal_divide_u64 *)
Definition rte_reciprocal_divide_u64 (a : Z) (R : rte_reciprocal) : Z :=
  let t := mullhi_u64 a (rec_m R) in
  Z.shiftr (u64 (t + Z.shiftr (u64 (a - t)) (rec_sh1 R))) (rec_sh2 R).

(** *** Time *)

(* rte_lib/include/rte_time.h:11-11 NSEC_PER_SEC *)
Definition NSEC_PER_SEC : Z := 1000000000.
(* rte_lib/include/rte_time.h:17-30 rte_timecounter *)
Record rte_timecounter := Timecounter {
  cycle_last : Z;
  nsec : Z;
  nsec_mask : Z;
  nsec_frac : Z;
  cc_mask : Z;
  cc_shift : Z;
}.

(* rte_lib/include/rte_time.h:35-46 rte_cyclecounter_cycles_to_ns *)
Definition rte_cyclecounter_cycles_to_ns (tc : rte_timecounter) (cycles : Z) : rte_timecounter * Z :=
  let ns := u64 (cycles + nsec_frac tc) in
  (Timecounter (cycle_last tc) (nsec tc) (nsec_mask tc) (Z.land ns (nsec_mask tc)) (cc_mask tc) (cc_shift tc),
   Z.shiftr ns (cc_shift tc)).

(* rte_lib/include/rte_time.h:51-73 rte_timecounter_update *)
Definition rte_timecounter_update (tc : rte_timecounter) (cycle_now : Z) : rte_timecounter * Z :=
  let cycle_delta :=
    if cycle_last tc <=? cycle_now then Z.land (u64 (cycle_now - cycle_last tc)) (cc_mask tc)
    else u64 (Z.land (u64 (Z.lnot (u64 (cycle_last tc - cycle_now)))) (cc_mask tc) + 1) in
  let '(tc, ns_offset) := rte_cyclecounter_cycles_to_ns tc cycle_delta in
  let tc := Timecounter cycle_now (u64 (nsec tc + ns_offset)) (nsec_mask tc) (nsec_frac tc) (cc_mask tc) (cc_shift tc) in
  (tc, nsec tc).

(** [struct timespec] as seconds and nanoseconds. *)
(* rte_lib/include/rte_time.h:78-82 rte_timespec_to_ns *)
Definition rte_timespec_to_ns (tv_sec tv_nsec : Z) : Z := u64 (u64 (u64 tv_sec * NSEC_PER_SEC) + tv_nsec).
(* rte_lib/include/rte_time.h:87-99 rte_ns_to_timespec *)
Definition rte_ns_to_timespec (n : Z) : Z * Z :=
  if n =? 0 then (0, 0) else (n / NSEC_PER_SEC, n mod NSEC_PER_SEC).

(** *** Identifiers, versions, delays *)

(** The sixteen bytes of an initialiser; the arguments are at least as wide as the shifts need. *)
(* rte_lib/include/rte_uuid.h:29-38 RTE_UUID_INIT *)
Definition RTE_UUID_INIT (a b c d e : Z) : list Z :=
  [Z.land (Z.shiftr a 24) 255; Z.land (Z.shiftr a 16) 255;
   Z.land (Z.shiftr a 8) 255; Z.land a 255;
   Z.land (Z.shiftr b 8) 255; Z.land b 255;
   Z.land (Z.shiftr c 8) 255; Z.land c 255;
   Z.land (Z.shiftr d 8) 255; Z.land d 255;
   Z.land (Z.shiftr e 40) 255; Z.land (Z.shiftr e 32) 255;
   Z.land (Z.shiftr e 24) 255; Z.land (Z.shiftr e 16) 255;
   Z.land (Z.shiftr e 8) 255; Z.land e 255].

(* rte_lib/include/rte_uuid.h:58-61 rte_uuid_copy *)
Definition rte_uuid_copy (m : memory) (dst src : Z) : outcome memory := memcpy m dst src 16.

(** For components whose combination fits in an [int]. *)
(* rte_lib/include/rte_version.h:26-26 RTE_VERSION_NUM *)
Definition RTE_VERSION_NUM (a b c d : Z) : Z :=
  Z.lor (Z.lor (Z.lor (Z.shiftl a 24) (Z.shiftl b 16)) (Z.shiftl c 8)) d.

(** What the time stamp counter and its frequency, which are read outside the repository, give. *)
(* rte_lib/include/generic/rte_cycles.h:93-107 rte_get_timer_cycles *)
Definition rte_get_timer_cycles (tsc_cycles : Z) : Z := tsc_cycles.
(* rte_lib/include/generic/rte_cycles.h:115-129 rte_get_timer_hz *)
Definition rte_get_timer_hz (tsc_hz : Z) : Z := tsc_hz.
(** [rte_delay_us] is a pointer to a function of the application: what it is called with. *)
(* rte_lib/include/generic/rte_cycles.h:147-151 rte_delay_ms *)
Definition rte_delay_ms (ms : Z) : Z := u32 (ms * 1000).

(** ** Byte order *)

(** Byte [i] of a value, and what masks and shifts make of it. *)
Definition byte_of (v i : Z) : Z := (v / 2 ^ (8 * i)) mod 256.

Lemma byte_of_range v i : 0 <= byte_of v i < 256.
Proof. apply Z.mod_pos_bound. lia. Qed.

Lemma mask_byte v i : 0 <= v -> 0 <= i -> Z.land v (255 * 2 ^ (8 * i)) = byte_of v i * 2 ^ (8 * i).
Proof.
  intros Hv Hi. rewrite <- !Z.shiftl_mul_pow2 by lia. apply Z.bits_inj'. intros n Hn.
  rewrite Z.land_spec, !Z.shiftl_spec by lia. destruct (Z.ltb_spec n (8 * i)).
  - rewrite !(Z.testbit_neg_r _ (n - 8 * i)) by lia. apply andb_false_r.
  - unfold byte_of. change 256 with (2 ^ 8). rewrite <- Z.land_ones, Z.land_spec by lia. change 255 with (Z.ones 8).
    f_equal. rewrite Z.div_pow2_bits by lia. f_equal. lia.
Qed.

Lemma up_byte v i k : 0 <= v -> 0 <= i -> 0 <= k -> Z.shiftl (Z.land v (255 * 2 ^ (8 * i))) (8 * k) = byte_of v i * 2 ^ (8 * (i + k)).
Proof.
  intros. rewrite mask_byte, Z.shiftl_mul_pow2, <- Z.mul_assoc, <- Z.pow_add_r by lia. do 2 f_equal. lia.
Qed.
Lemma down_byte v i k : 0 <= v -> 0 <= k <= i -> Z.shiftr (Z.land v (255 * 2 ^ (8 * i))) (8 * k) = byte_of v i * 2 ^ (8 * (i - k)).
Proof.
  intros. rewrite mask_byte, Z.shiftr_div_pow2 by lia. replace (8 * i) with (8 * (i - k) + 8 * k) by lia.
  rewrite Z.pow_add_r, Z.mul_assoc, Z.div_mul by lia. done.
Qed.

(** Bytes put together from the top. *)
Lemma lor_below a b k : 0 <= k -> 0 <= b < 2 ^ k -> Z.lor (a * 2 ^ k) b = a * 2 ^ k + b.
Proof.
  intros Hk Hb. rewrite Z.add_nocarry_lxor, <- Z.lxor_lor; try done; apply Z.bits_inj'; intros n Hn;
    rewrite Z.land_spec, Z.bits_0; (destruct (Z.ltb_spec n k);
      [by rewrite Z.mul_pow2_bits_low by lia|]; rewrite <- (Z.mod_small b (2 ^ k)), Z.mod_pow2_bits_high by lia; apply andb_false_r).
Qed.

(** The swaps are the bytes in the opposite order. *)
Ltac byte_ranges x n :=
  lazymatch n with
  | O => idtac
  | S ?n => let i := eval cbv in (Z.of_nat n) in pose proof (byte_of_range x i); byte_ranges x n
  end.
Lemma bswap16_bytes v : is_u16 v -> RTE_STATIC_BSWAP16 v =
  byte_of v 0 * 2 ^ 8 + byte_of v 1.
Proof.
  intros Hv. unfold RTE_STATIC_BSWAP16. rewrite !(u16_small v) by lia. byte_ranges v 2%nat.
  replace (Z.shiftl (Z.land v 255) 8) with (byte_of v 0 * 2 ^ 8) by (symmetry; exact (up_byte v 0 1 ltac:(lia) ltac:(lia) ltac:(lia))).
  replace (Z.shiftr (Z.land v 65280) 8) with (byte_of v 1 * 2 ^ 0) by (symmetry; exact (down_byte v 1 1 ltac:(lia) ltac:(lia))).
  rewrite (Z.mul_1_r (byte_of v 1) : byte_of v 1 * 2 ^ 0 = _).
  rewrite (lor_below (byte_of v 0)) by lia.
  rewrite u16_small by lia. lia.
Qed.
Lemma bswap32_bytes v : is_u32 v -> RTE_STATIC_BSWAP32 v =
  byte_of v 0 * 2 ^ 24 + byte_of v 1 * 2 ^ 16 + byte_of v 2 * 2 ^ 8 + byte_of v 3.
Proof.
  intros Hv. unfold RTE_STATIC_BSWAP32. rewrite !(u32_small v) by lia. byte_ranges v 4%nat.
  replace (Z.shiftl (Z.land v 255) 24) with (byte_of v 0 * 2 ^ 24) by (symmetry; exact (up_byte v 0 3 ltac:(lia) ltac:(lia) ltac:(lia))).
  replace (Z.shiftl (Z.land v 65280) 8) with (byte_of v 1 * 2 ^ 16) by (symmetry; exact (up_byte v 1 1 ltac:(lia) ltac:(lia) ltac:(lia))).
  replace (Z.shiftr (Z.land v 16711680) 8) with (byte_of v 2 * 2 ^ 8) by (symmetry; exact (down_byte v 2 1 ltac:(lia) ltac:(lia))).
  replace (Z.shiftr (Z.land v 4278190080) 24) with (byte_of v 3 * 2 ^ 0) by (symmetry; exact (down_byte v 3 3 ltac:(lia) ltac:(lia))).
  rewrite <- ?Z.lor_assoc.
  rewrite (Z.mul_1_r (byte_of v 3) : byte_of v 3 * 2 ^ 0 = _).
  rewrite (lor_below (byte_of v 2)) by lia.
  rewrite (lor_below (byte_of v 1)) by lia.
  rewrite (lor_below (byte_of v 0)) by lia.
  rewrite u32_small by lia. lia.
Qed.
Lemma bswap64_bytes v : is_u64 v -> RTE_STATIC_BSWAP64 v =
  byte_of v 0 * 2 ^ 56 + byte_of v 1 * 2 ^ 48 + byte_of v 2 * 2 ^ 40 + byte_of v 3 * 2 ^ 32 + byte_of v 4 * 2 ^ 24 + byte_of v 5 * 2 ^ 16 + byte_of v 6 * 2 ^ 8 + byte_of v 7.
Proof.
  intros Hv. unfold RTE_STATIC_BSWAP64. rewrite !(u64_small v) by lia. byte_ranges v 8%nat.
  replace (Z.shiftl (Z.land v 255) 56) with (byte_of v 0 * 2 ^ 56) by (symmetry; exact (up_byte v 0 7 ltac:(lia) ltac:(lia) ltac:(lia))).
  replace (Z.shiftl (Z.land v 65280) 40) with (byte_of v 1 * 2 ^ 48) by (symmetry; exact (up_byte v 1 5 ltac:(lia) ltac:(lia) ltac:(lia))).
  replace (Z.shiftl (Z.land v 16711680) 24) with (byte_of v 2 * 2 ^ 40) by (symmetry; exact (up_byte v 2 3 ltac:(lia) ltac:(lia) ltac:(lia))).
  replace (Z.shiftl (Z.land v 4278190080) 8) with (byte_of v 3 * 2 ^ 32) by (symmetry; exact (up_byte v 3 1 ltac:(lia) ltac:(lia) ltac:(lia))).
  replace (Z.shiftr (Z.land v 1095216660480) 8) with (byte_of v 4 * 2 ^ 24) by (symmetry; exact (down_byte v 4 1 ltac:(lia) ltac:(lia))).
  replace (Z.shiftr (Z.land v 280375465082880) 24) with (byte_of v 5 * 2 ^ 16) by (symmetry; exact (down_byte v 5 3 ltac:(lia) ltac:(lia))).
  replace (Z.shiftr (Z.land v 71776119061217280) 40) with (byte_of v 6 * 2 ^ 8) by (symmetry; exact (down_byte v 6 5 ltac:(lia) ltac:(lia))).
  replace (Z.shiftr (Z.land v 18374686479671623680) 56) with (byte_of v 7 * 2 ^ 0) by (symmetry; exact (down_byte v 7 7 ltac:(lia) ltac:(lia))).
  rewrite <- ?Z.lor_assoc.
  rewrite (Z.mul_1_r (byte_of v 7) : byte_of v 7 * 2 ^ 0 = _).
  rewrite (lor_below (byte_of v 6)) by lia.
  rewrite (lor_below (byte_of v 5)) by lia.
  rewrite (lor_below (byte_of v 4)) by lia.
  rewrite (lor_below (byte_of v 3)) by lia.
  rewrite (lor_below (byte_of v 2)) by lia.
  rewrite (lor_below (byte_of v 1)) by lia.
  rewrite (lor_below (byte_of v 0)) by lia.
  rewrite u64_small by lia. lia.
Qed.

(** Bytes and values are each other's inverse, hence reversing the bytes twice does nothing. *)
Lemma le_bytes_value bs : Forall (fun b => 0 <= b < 256) bs -> le_bytes (length bs) (le_value bs) = bs.
Proof.
  induction 1 as [|b bs Hb _ IH]; [done|]. cbn [length le_bytes le_value].
  rewrite (Z.mul_comm 256), Z.mod_add, Z.mod_small, Z.div_add, Z.div_small by lia. by rewrite Z.add_0_l, IH.
Qed.
Lemma le_bytes_u8 n v : Forall (fun b => 0 <= b < 256) (le_bytes n v).
Proof. revert v. induction n as [|n IH]; intros v; constructor; [apply Z.mod_pos_bound; lia | apply IH]. Qed.
Lemma le_value_range bs : Forall (fun b => 0 <= b < 256) bs -> 0 <= le_value bs < 256 ^ Z.of_nat (length bs).
Proof.
  induction 1 as [|b bs Hb _ IH]; [done|]. cbn [length le_value].
  rewrite Nat2Z.inj_succ, Z.pow_succ_r by lia. lia.
Qed.
Definition reversed (n : nat) (v : Z) : Z := be_value (le_bytes n v).
Lemma reversed_range n v : 0 <= reversed n v < 256 ^ Z.of_nat n.
Proof.
  pose proof (le_value_range (rev (le_bytes n v)) ltac:(apply Forall_rev, le_bytes_u8)) as H.
  by rewrite length_rev, length_le_bytes in H.
Qed.
Lemma reversed_twice n v : 0 <= v < 256 ^ Z.of_nat n -> reversed n (reversed n v) = v.
Proof.
  intros Hv. unfold reversed, be_value at 2.
  rewrite <- (length_le_bytes n v) at 1. rewrite <- length_rev, le_bytes_value by (apply Forall_rev, le_bytes_u8).
  unfold be_value. rewrite rev_involutive. by apply le_value_bytes.
Qed.
Ltac reversed_eq H :=
  rewrite H by lia; unfold reversed, be_value, byte_of; cbn [le_bytes rev app le_value]; rewrite ?Z.div_div by lia;
  repeat match goal with
  | |- context [2 ^ (8 * ?i)] => let c := eval vm_compute in (2 ^ (8 * i)) in change (2 ^ (8 * i)) with c
  | |- context [256 * Zpos ?i] => let c := eval vm_compute in (256 * Zpos i) in change (256 * Zpos i) with c
  end; rewrite ?Z.div_1_r; lia.
Lemma bswap16_reversed v : is_u16 v -> RTE_STATIC_BSWAP16 v = reversed 2 v.
Proof. intros Hv. reversed_eq bswap16_bytes. Qed.
Lemma bswap32_reversed v : is_u32 v -> RTE_STATIC_BSWAP32 v = reversed 4 v.
Proof. intros Hv. reversed_eq bswap32_bytes. Qed.
Lemma bswap64_reversed v : is_u64 v -> RTE_STATIC_BSWAP64 v = reversed 8 v.
Proof. intros Hv. reversed_eq bswap64_bytes. Qed.

Lemma swap_reverses (f : Z -> Z) n v :
  (forall v, 0 <= v < 256 ^ Z.of_nat n -> f v = reversed n v) -> 0 <= v < 256 ^ Z.of_nat n ->
  f v = be_value (le_bytes n v) /\ f (f v) = v.
Proof.
  intros Hf Hv. split; [by apply Hf|]. pose proof (reversed_range n v). rewrite (Hf v Hv), Hf by done.
  by apply reversed_twice.
Qed.

(** The byte swaps of every width reverse the bytes of a value: the swapped value is what its
    little-endian bytes are in big-endian order; swapping twice gives the value back. *)
Theorem bswap_reverses_bytes :
  (forall v, is_u16 v -> rte_constant_bswap16 v = be_value (le_bytes 2 v) /\ rte_constant_bswap16 (rte_constant_bswap16 v) = v) /\
  (forall v, is_u32 v -> rte_constant_bswap32 v = be_value (le_bytes 4 v) /\ rte_constant_bswap32 (rte_constant_bswap32 v) = v) /\
  (forall v, is_u64 v -> rte_constant_bswap64 v = be_value (le_bytes 8 v) /\ rte_constant_bswap64 (rte_constant_bswap64 v) = v).
Proof.
  split; [|split]; intros v Hv;
    [apply (swap_reverses RTE_STATIC_BSWAP16 2); [exact bswap16_reversed | exact Hv]
    |apply (swap_reverses RTE_STATIC_BSWAP32 4); [exact bswap32_reversed | exact Hv]
    |apply (swap_reverses RTE_STATIC_BSWAP64 8); [exact bswap64_reversed | exact Hv]].
Qed.
Lemma bswap_reverses_bytes_witness : RTE_STATIC_BSWAP32 305419896 = 2018915346 /\ rte_constant_bswap32 (rte_constant_bswap32 305419896) = 305419896.
Proof. split; [by vm_compute | apply (proj1 (proj2 bswap_reverses_bytes)); lia]. Defined.

(** ** The high product *)

(** Schoolbook multiplication in base [B]: the word above the two digits that are cut off. *)
Lemma schoolbook B x1 x0 y1 y0 : 0 < B -> 0 <= x0 < B -> 0 <= y0 < B -> 0 <= x1 < B -> 0 <= y1 < B ->
  let t1 := x1 * y0 + x0 * y0 / B in
  let t2 := x0 * y1 + t1 mod B in
  x1 * y1 + t1 / B + t2 / B = (x1 * B + x0) * (y1 * B + y0) / (B * B).
Proof.
  intros HB Hx0 Hy0 Hx1 Hy1 t1 t2. apply Z.div_unique with (r := t2 mod B * B + (x0 * y0) mod B).
  - left. pose proof (Z.mod_pos_bound t2 B HB). pose proof (Z.mod_pos_bound (x0 * y0) B HB). nia.
  - pose proof (Z.div_mod (x0 * y0) B ltac:(lia)) as E0. pose proof (Z.div_mod t1 B ltac:(lia)) as E1.
    pose proof (Z.div_mod t2 B ltac:(lia)) as E2. unfold t2 at 1 in E2. unfold t1 at 1 in E1. nia.
Qed.

Lemma mullhi_u64_quotient x y : is_u64 x -> is_u64 y -> mullhi_u64 x y = x * y / 2 ^ 64.
Proof.
  intros Hx Hy. unfold mullhi_u64. rewrite Z.mod_small by (split; nia). rewrite Z.shiftr_div_pow2 by lia.
  apply u64_small. split; [apply Z.div_pos; nia | apply Z.div_lt_upper_bound; nia].
Qed.

(** The high products of words fit a word. *)
Lemma product_fits a b : is_u32 a -> is_u32 b -> 0 <= a * b <= 4294967295 * 4294967295.
Proof. intros. nia. Qed.
Lemma word_digits v : is_u64 v -> exists h l, is_u32 h /\ is_u32 l /\ v = h * 4294967296 + l /\
  Z.shiftr v 32 = h /\ Z.land v 4294967295 = l.
Proof.
  intros Hv. exists (v / 4294967296), (v mod 4294967296). change 4294967295 with (Z.ones 32).
  rewrite Z.land_ones, Z.shiftr_div_pow2 by lia. change (2 ^ 32) with 4294967296.
  pose proof (Z.div_mod v 4294967296 ltac:(lia)). pose proof (Z.mod_pos_bound v 4294967296 ltac:(lia)).
  repeat split; lia.
Qed.
Lemma mullhi_u64_portable_quotient x y : is_u64 x -> is_u64 y -> mullhi_u64_portable x y = x * y / 2 ^ 64.
Proof.
  intros Hx Hy. unfold mullhi_u64_portable.
  destruct (word_digits x Hx) as (x1 & x0 & Hx1 & Hx0 & Ex & -> & ->), (word_digits y Hy) as (y1 & y0 & Hy1 & Hy0 & Ey & -> & ->).
  pose proof (product_fits x0 y0 Hx0 Hy0). pose proof (product_fits x1 y0 Hx1 Hy0).
  pose proof (product_fits x0 y1 Hx0 Hy1). pose proof (product_fits x1 y1 Hx1 Hy1).
  change 4294967295 with (Z.ones 32). rewrite !Z.land_ones, !Z.shiftr_div_pow2 by lia. change (2 ^ 32) with 4294967296.
  pose proof (schoolbook 4294967296 x1 x0 y1 y0 ltac:(lia) Hx0 Hy0 Hx1 Hy1) as Hs. cbv zeta in Hs.
  rewrite <- Ex, <- Ey in Hs. change (2 ^ 64) with (4294967296 * 4294967296). rewrite <- Hs.
  assert (Hb : is_u64 (x * y / (4294967296 * 4294967296))).
  { split; [apply Z.div_pos; nia | apply Z.div_lt_upper_bound; nia]. }
  rewrite <- Hs in Hb.
  pose proof (Z.mod_pos_bound (x1 * y0 + x0 * y0 / 4294967296) 4294967296 ltac:(lia)).
  assert (0 <= x0 * y0 / 4294967296 < 4294967296) by (split; [apply Z.div_pos | apply Z.div_lt_upper_bound]; lia).
  assert (0 <= (x1 * y0 + x0 * y0 / 4294967296) / 4294967296) by (apply Z.div_pos; lia).
  assert (0 <= (x0 * y1 + (x1 * y0 + x0 * y0 / 4294967296) mod 4294967296) / 4294967296) by (apply Z.div_pos; lia).
  cbv zeta. rewrite (u64_small (x0 * y0)), (u64_small (x1 * y0)), (u64_small (x0 * y1)), (u64_small (x1 * y1)) by lia.
  rewrite (u64_small (x1 * y0 + _)) by lia. rewrite (u64_small (x0 * y1 + _)) by lia.
  rewrite (u64_small (x1 * y1 + _)) by lia. rewrite u64_small by lia. done.
Qed.

(** The two versions of the 64-by-64 high product, with 128-bit integers and with four
    32-bit products and their carries, give the same word, the quotient of the product by 2^64. *)
Theorem mullhi_versions_agree x y : is_u64 x -> is_u64 y ->
  mullhi_u64 x y = x * y / 2 ^ 64 /\ mullhi_u64_portable x y = mullhi_u64 x y.
Proof. intros Hx Hy. by rewrite mullhi_u64_portable_quotient, mullhi_u64_quotient. Qed.
Lemma mullhi_versions_agree_witness : mullhi_u64_portable 18446744073709551615 18446744073709551615 = 18446744073709551614.
Proof. rewrite (proj2 (mullhi_versions_agree 18446744073709551615 18446744073709551615 ltac:(lia) ltac:(lia))). by vm_compute. Defined.

(** ** Division by a reciprocal *)

(** What the paper the header names takes as the reciprocal of [d] in [w]-bit words. *)
Definition is_reciprocal (w d : Z) (R : rte_reciprocal) : Prop :=
  let l := Z.log2_up d in
  rec_m R = 2 ^ w * (2 ^ l - d) / d + 1 /\ rec_sh1 R = Z.min l 1 /\ rec_sh2 R = Z.max (l - 1) 0.

(** The multiplier with its implicit top bit is [N L / d] rounded up, up to [e/d]. *)
Lemma multiplier_error N L d : 0 < N -> 0 < d <= L -> exists e, 1 <= e <= d /\ (N * (L - d) / d + 1 + N) * d = N * L + e.
Proof.
  intros HN Hd. exists (d - (N * (L - d)) mod d). pose proof (Z.mod_pos_bound (N * (L - d)) d ltac:(lia)).
  pose proof (Z.div_mod (N * (L - d)) d ltac:(lia)). split; [lia|]. nia.
Qed.
Lemma multiplier_bound N L d : 0 < d <= L -> L < 2 * d -> d < N -> 0 <= N * (L - d) / d + 1 <= N.
Proof.
  intros. pose proof (Z.div_pos (N * (L - d)) d ltac:(nia) ltac:(lia)).
  assert (N * (L - d) / d < N) by (apply Z.div_lt_upper_bound; nia). lia.
Qed.
(** The exact quotient is within the error of the multiplier. *)
Lemma multiplier_quotient N L d m a e : 0 < L -> 0 < d -> d <= L -> 0 <= a < N -> 1 <= e <= d -> (m + N) * d = N * L + e ->
  (a + a * m / N) / L = a / d.
Proof.
  intros HL Hd HdL Ha He Hm.
  replace (a + a * m / N) with (a * (m + N) / N) by (rewrite Z.mul_add_distr_l, Z.div_add by lia; lia).
  rewrite Z.div_div by lia. symmetry. pose proof (Z.div_mod a d ltac:(lia)) as E. pose proof (Z.mod_pos_bound a d ltac:(lia)) as Hs.
  set (q := a / d) in *. set (s := a mod d) in *.
  assert (Hk : a * (m + N) * d = (q * d + s) * (N * L) + a * e) by nia.
  assert (0 <= a * e < N * L) by nia.
  apply Z.div_unique with (r := a * (m + N) - q * (N * L)); [left | lia].
  split; [nia|]. assert ((a * (m + N) - q * (N * L)) * d < N * L * d) by nia. nia.
Qed.
(** Adding half the difference is the mean. *)
Lemma mean_floor a t : t + (a - t) / 2 = (a + t) / 2.
Proof. replace (a + t) with (a - t + t * 2) by lia. rewrite Z.div_add by lia. lia. Qed.

Lemma divisor_bounds d : 1 <= d -> d <= 2 ^ Z.log2_up d /\ 2 ^ Z.log2_up d < 2 * d.
Proof.
  intros Hd. destruct (decide (d = 1)) as [->|]; [done|]. pose proof (Z.log2_up_spec d ltac:(lia)) as [H1 H2].
  split; [done|]. pose proof (Z.log2_up_pos d ltac:(lia)).
  replace (Z.log2_up d) with (Z.succ (Z.pred (Z.log2_up d))) by lia. rewrite Z.pow_succ_r by lia. lia.
Qed.

(** The last line of both divisions, on the high product [t]. *)
Lemma shifted_mean w d R a : 0 < w -> 1 <= d < 2 ^ w -> is_reciprocal w d R -> 0 <= a < 2 ^ w ->
  let t := a * rec_m R / 2 ^ w in
  0 <= rec_m R <= 2 ^ w /\ 0 <= t <= a /\ 0 <= t + Z.shiftr (a - t) (rec_sh1 R) < 2 ^ w /\
  Z.shiftr (t + Z.shiftr (a - t) (rec_sh1 R)) (rec_sh2 R) = a / d.
Proof.
  intros Hw Hd (Hm & Hs1 & Hs2) Ha t. pose proof (divisor_bounds d ltac:(lia)) as [HL1 HL2].
  pose proof (multiplier_bound (2 ^ w) (2 ^ Z.log2_up d) d ltac:(lia) HL2 ltac:(lia)) as Hb. rewrite <- Hm in Hb.
  destruct (multiplier_error (2 ^ w) (2 ^ Z.log2_up d) d ltac:(lia) ltac:(lia)) as (e & He & Ee). rewrite <- Hm in Ee.
  pose proof (multiplier_quotient (2 ^ w) (2 ^ Z.log2_up d) d (rec_m R) a e ltac:(lia) ltac:(lia) HL1 Ha He Ee) as Hq. fold t in Hq.
  assert (Ht : 0 <= t <= a).
  { split; [apply Z.div_pos; nia|]. apply Z.div_le_upper_bound; nia. }
  split; [done|]. split; [done|]. rewrite Hs1, Hs2. pose proof (Z.log2_up_nonneg d).
  destruct (decide (Z.log2_up d = 0)) as [E0|].
  - rewrite E0 in *. change (2 ^ 0) with 1 in *. assert (d = 1) as -> by lia. rewrite !Z.div_1_r in Hq |- *.
    change (0 `min` 1) with 0. change ((0 - 1) `max` 0) with 0. rewrite !Z.shiftr_0_r. lia.
  - rewrite Z.min_r, Z.max_l, !Z.shiftr_div_pow2 by lia. change (2 ^ 1) with 2. rewrite mean_floor.
    split; [split; [apply Z.div_pos | apply Z.div_lt_upper_bound]; lia|].
    rewrite Z.div_div by lia. rewrite <- Hq. f_equal. change 2 with (2 ^ 1) at 1. rewrite <- Z.pow_add_r by lia. f_equal. lia.
Qed.

(** For every divisor and every reciprocal of it the paper defines, the multiplication and the
    two shifts give the quotient, for all dividends, at 32 and at 64 bits: no intermediate sum or
    difference wraps. *)
Theorem reciprocal_divides :
  (forall d R a, 1 <= d < 2 ^ 32 -> is_reciprocal 32 d R -> is_u32 a -> rte_reciprocal_divide a R = a / d) /\
  (forall d R a, 1 <= d < 2 ^ 64 -> is_reciprocal 64 d R -> is_u64 a -> rte_reciprocal_divide_u64 a R = a / d).
Proof.
  split; intros d R a Hd HR Ha.
  - destruct (shifted_mean 32 d R a ltac:(lia) Hd HR Ha) as (Hm & Ht & Hsum & <-). unfold rte_reciprocal_divide.
    rewrite (u64_small (a * rec_m R)), (Z.shiftr_div_pow2 (a * rec_m R)) by nia. set (t := _ / _) in *.
    rewrite (u32_small t), (u32_small (a - t)), u32_small by lia. done.
  - destruct (shifted_mean 64 d R a ltac:(lia) Hd HR Ha) as (Hm & Ht & Hsum & <-). unfold rte_reciprocal_divide_u64, mullhi_u64.
    rewrite (Z.mod_small (a * rec_m R)), (Z.shiftr_div_pow2 (a * rec_m R)) by nia. set (t := _ / _) in *.
    rewrite (u64_small t), (u64_small (a - t)), u64_small by lia. done.
Qed.
Lemma reciprocal_divides_witness :
  rte_reciprocal_divide 4294967295 (Reciprocal 613566757 1 2) = 613566756 /\
  rte_reciprocal_divide_u64 10000000000000000000 (Reciprocal 2635249153387078803 1 2) = 1428571428571428571.
Proof.
  split.
  - rewrite (proj1 reciprocal_divides 7 (Reciprocal 613566757 1 2) 4294967295); [by vm_compute | lia | by vm_compute | lia].
  - rewrite (proj2 reciprocal_divides 7 (Reciprocal 2635249153387078803 1 2) 10000000000000000000); [by vm_compute | lia | by vm_compute | lia].
Defined.

(** ** Time *)

(** A counter as it is set up: a cycle counter of [b] bits, [2^s] cycles to a nanosecond, and
    the last cycle read and the fraction within their bits. *)
Record counts (b s : Z) (tc : rte_timecounter) : Prop := {
  cnt_widths : 0 <= b <= 64 /\ 0 <= s < 64;
  cnt_masks : cc_mask tc = Z.ones b /\ nsec_mask tc = Z.ones s /\ cc_shift tc = s;
  cnt_last : 0 <= cycle_last tc < 2 ^ b;
  cnt_frac : 0 <= nsec_frac tc < 2 ^ s;
  cnt_nsec : is_u64 (nsec tc);
}.
(** The time in cycles: nanoseconds and the fraction kept. *)
Definition accounted (s : Z) (tc : rte_timecounter) : Z := nsec tc * 2 ^ s + nsec_frac tc.

(** The cycles that went by, the counter having wrapped at most once. *)
Lemma delta_mod b last now : 0 <= b <= 64 -> 0 <= last < 2 ^ b -> 0 <= now < 2 ^ b ->
  (if last <=? now then Z.land (u64 (now - last)) (Z.ones b)
   else u64 (Z.land (u64 (Z.lnot (u64 (last - now)))) (Z.ones b) + 1)) = (now - last) mod 2 ^ b.
Proof.
  intros Hb Hl Hn. assert (Hp : 2 ^ b <= 18446744073709551616) by (change 18446744073709551616 with (2 ^ 64); apply Z.pow_le_mono_r; lia).
  rewrite !Z.land_ones by lia. destruct (Z.leb_spec last now).
  - by rewrite u64_small by lia.
  - rewrite (u64_small (last - now)) by lia. unfold Z.lnot, u64 at 2.
    rewrite Z.mod_mod_divide by (change 18446744073709551616 with (2 ^ 64); exists (2 ^ (64 - b)); rewrite <- Z.pow_add_r by lia; f_equal; lia).
    rewrite <- (Z.mod_unique (Z.pred (- (last - now))) (2 ^ b) (-1) (2 ^ b - (last - now) - 1)) by lia.
    rewrite u64_small by lia. apply Z.mod_unique with (q := -1); lia.
Qed.

Definition cycles_since (b : Z) (tc : rte_timecounter) (now : Z) : Z := (now - cycle_last tc) mod 2 ^ b.

Lemma update_eq b s tc now : counts b s tc -> 0 <= now < 2 ^ b -> cycles_since b tc now + nsec_frac tc < 2 ^ 64 ->
  let c := cycles_since b tc now + nsec_frac tc in
  let tc' := Timecounter now (u64 (nsec tc + c / 2 ^ s)) (Z.ones s) (c mod 2 ^ s) (Z.ones b) s in
  rte_timecounter_update tc now = (tc', nsec tc') /\ counts b s tc'.
Proof.
  intros [[Hb Hs] (Ec & Em & Es) Hl Hf Hn] Hnow Hc c tc'. split.
  - unfold rte_timecounter_update, rte_cyclecounter_cycles_to_ns. rewrite Ec, delta_mod by done.
    fold (cycles_since b tc now). assert (0 <= cycles_since b tc now) by (apply Z.mod_pos_bound; lia).
    rewrite (u64_small (cycles_since b tc now + _)) by lia. fold c. rewrite Em, Es, Z.land_ones, Z.shiftr_div_pow2 by lia. done.
  - constructor; cbn; try done.
    + apply Z.mod_pos_bound. lia.
    + apply u64_range.
Qed.
Lemma accounted_update b s tc now : counts b s tc -> 0 <= now < 2 ^ b -> cycles_since b tc now + nsec_frac tc < 2 ^ 64 ->
  accounted s (rte_timecounter_update tc now).1 mod 2 ^ (64 + s) = (accounted s tc + cycles_since b tc now) mod 2 ^ (64 + s).
Proof.
  intros Hcnt Hnow Hc. destruct (update_eq b s tc now Hcnt Hnow Hc) as [-> _]. unfold accounted. cbn [fst nsec nsec_frac].
  destruct Hcnt as [[_ Hs] _ _ _ _]. unfold u64. change 18446744073709551616 with (2 ^ 64). rewrite Z.pow_add_r by lia.
  rewrite <- Z.mul_mod_distr_r by lia. rewrite Zplus_mod_idemp_l.
  f_equal. pose proof (Z.div_mod (cycles_since b tc now + nsec_frac tc) (2 ^ s) ltac:(lia)). lia.
Qed.

(** A counter that reads the true time [t] modulo its width, over a run of readings. *)
Definition timecounter_run (b : Z) (tc : rte_timecounter) (times : list Z) : rte_timecounter :=
  fold_left (fun tc t => (rte_timecounter_update tc (t mod 2 ^ b)).1) times tc.
(** Readings often enough that the counter wraps at most once between two of them. *)
Fixpoint often_enough (b s t : Z) (times : list Z) : Prop :=
  match times with
  | [] => True
  | t' :: times => t <= t' < t + 2 ^ b /\ t' - t + 2 ^ s <= 2 ^ 64 /\ often_enough b s t' times
  end.

Lemma last_cons_default (t : Z) times t0 : List.last (t :: times) t0 = List.last times t.
Proof. revert t t0. induction times as [|t' times IH]; intros t t0; [done|]. change (List.last (t' :: times) t0 = List.last (t' :: times) t). by rewrite !IH. Qed.

(** A time counter read at increasing times accounts for every cycle: whatever the width of the
    cycle counter and wherever it wraps, the nanoseconds and the fraction kept are those of the
    start plus all the cycles since, modulo the width of the nanosecond word, as long as no two
    readings are a whole turn of the counter apart; no cycle is lost to rounding. *)
Theorem timecounter_accounts b s tc t0 times : counts b s tc -> cycle_last tc = t0 mod 2 ^ b -> often_enough b s t0 times ->
  let tc' := timecounter_run b tc times in
  counts b s tc' /\ cycle_last tc' = List.last times t0 mod 2 ^ b /\
  accounted s tc' mod 2 ^ (64 + s) = (accounted s tc + (List.last times t0 - t0)) mod 2 ^ (64 + s).
Proof.
  intros Hc Hl Ht. revert tc t0 Hc Hl Ht. induction times as [|t times IH]; intros tc t0 Hc Hl Ht tc'.
  { cbn. split; [done|]. split; [done|]. f_equal. lia. }
  destruct Ht as (Hgap & Hroom & Ht). pose proof (cnt_widths _ _ _ Hc) as [Hb Hs].
  assert (Hnow : 0 <= t mod 2 ^ b < 2 ^ b) by (apply Z.mod_pos_bound; lia).
  assert (Hsince : cycles_since b tc (t mod 2 ^ b) = t - t0).
  { unfold cycles_since. rewrite Hl, <- Zminus_mod. apply Z.mod_small. lia. }
  pose proof (cnt_frac _ _ _ Hc) as Hf.
  assert (Hfit : cycles_since b tc (t mod 2 ^ b) + nsec_frac tc < 2 ^ 64) by lia.
  pose proof (accounted_update b s tc _ Hc Hnow Hfit) as Ha. destruct (update_eq b s tc _ Hc Hnow Hfit) as [E Hc'].
  rewrite E in Ha. cbn [fst] in Ha.
  destruct (IH _ t Hc' eq_refl Ht) as (IH1 & IH2 & IH3).
  pose proof (last_cons_default t times t0) as El.
  unfold tc', timecounter_run. cbn [fold_left]. rewrite E, El. cbn [fst]. split; [done|]. split; [done|].
  unfold timecounter_run in IH3. rewrite IH3, <- Zplus_mod_idemp_l, Ha, Zplus_mod_idemp_l, Hsince. f_equal. lia.
Qed.
Lemma timecounter_accounts_witness :
  let tc := Timecounter 250 0 3 1 255 2 in
  accounted 2 (timecounter_run 8 tc [255; 300; 500]) mod 2 ^ (64 + 2) = 251.
Proof.
  cbv zeta. rewrite (proj2 (proj2 (timecounter_accounts 8 2 (Timecounter 250 0 3 1 255 2) 250 [255; 300; 500]
    ltac:(by vm_compute) eq_refl ltac:(by vm_compute)))). by vm_compute.
Defined.

(** Nanoseconds convert to seconds and a proper fraction and back without loss, and a time
    with a proper fraction converts to nanoseconds and back, as long as they fit 64 bits. *)
Theorem timespec_roundtrip :
  (forall n, is_u64 n -> let '(s, f) := rte_ns_to_timespec n in
     0 <= f < NSEC_PER_SEC /\ rte_timespec_to_ns s f = n) /\
  (forall s f, 0 <= s -> 0 <= f < NSEC_PER_SEC -> s * NSEC_PER_SEC + f < 2 ^ 64 ->
     rte_ns_to_timespec (rte_timespec_to_ns s f) = (s, f)).
Proof.
  unfold rte_ns_to_timespec, rte_timespec_to_ns, NSEC_PER_SEC. split.
  - intros n Hn. destruct (Z.eqb_spec n 0) as [->|]; [done|].
    pose proof (Z.div_mod n 1000000000 ltac:(lia)). pose proof (Z.mod_pos_bound n 1000000000 ltac:(lia)).
    split; [lia|]. assert (0 <= n / 1000000000) by (apply Z.div_pos; lia).
    rewrite (u64_small (n / _)), (u64_small (n / _ * _)), u64_small by lia. lia.
  - intros s f Hs Hf Hfit. rewrite (u64_small s), (u64_small (s * _)), u64_small by lia.
    destruct (Z.eqb_spec (s * 1000000000 + f) 0); [f_equal; lia|].
    rewrite Z.div_add_l, Z.div_small, (Z.add_comm _ f), Z.mod_add, Z.mod_small by lia. f_equal; lia.
Qed.
Lemma timespec_roundtrip_witness : rte_timespec_to_ns 3 5 = 3000000005 /\ rte_ns_to_timespec (rte_timespec_to_ns 3 5) = (3, 5).
Proof. split; [by vm_compute | apply (proj2 timespec_roundtrip); by vm_compute]. Defined.

(** ** Identifiers, versions, delays *)

(** An initialised identifier is its five groups in network byte order. *)
Theorem uuid_init_groups a b c d e :
  RTE_UUID_INIT a b c d e = be_bytes 4 a ++ be_bytes 2 b ++ be_bytes 2 c ++ be_bytes 2 d ++ be_bytes 6 e.
Proof.
  unfold RTE_UUID_INIT, be_bytes. cbn [le_bytes rev app]. change 255 with (Z.ones 8).
  rewrite !Z.land_ones, !Z.shiftr_div_pow2 by lia. change (2 ^ 8) with 256.
  rewrite !Z.div_div by lia. done.
Qed.

(** Version numbers compare as their components do, the year first. *)
Theorem version_num_sum a b c d : 0 <= a -> 0 <= b < 256 -> 0 <= c < 256 -> 0 <= d < 256 ->
  RTE_VERSION_NUM a b c d = ((a * 256 + b) * 256 + c) * 256 + d.
Proof.
  intros Ha Hb Hc Hd. unfold RTE_VERSION_NUM. change 256 with (2 ^ 8) in *.
  rewrite !Z.shiftl_mul_pow2, (lor_below a (b * 2 ^ 16)) by lia.
  replace (a * 2 ^ 24 + b * 2 ^ 16) with ((a * 2 ^ 8 + b) * 2 ^ 16) by lia. rewrite (lor_below _ (c * 2 ^ 8)) by lia.
  replace ((a * 2 ^ 8 + b) * 2 ^ 16 + c * 2 ^ 8) with (((a * 2 ^ 8 + b) * 2 ^ 8 + c) * 2 ^ 8) by lia.
  by rewrite lor_below by lia.
Qed.

Lemma version_num_sum_witness : RTE_VERSION_NUM 21 11 0 16 = ((21 * 256 + 11) * 256 + 0) * 256 + 16.
Proof. apply version_num_sum; lia. Defined.

(** A delay is a thousand times as long, up to 4294967 milliseconds; a longer one is cut short. *)
Theorem delay_ms_range ms : is_u32 ms ->
  (ms <= 4294967 -> rte_delay_ms ms = 1000 * ms) /\ (4294967 < ms -> rte_delay_ms ms < 1000 * ms).
Proof. unfold rte_delay_ms. intros. split; intros; wrap_lia. Qed.

Lemma delay_ms_range_witness : rte_delay_ms 4294968 < 1000 * 4294968.
Proof. apply (delay_ms_range 4294968); lia. Defined.
